(* ===== verification/_CoqProject ===== *)
-Q . S2P
Prelude.v
JsString.v
JsNumber.v
JsDate.v
Json.v
Api.v
Types.v
Routes.v
Go.v
Btree.v
BtreeSearch.v
BtreeInvariant.v
BtreeRoom.v
BtreeInsert.v
BtreeMap.v
BtreeCursor.v
BtreeSpec.v
GoHeap.v
QueueMessage.v
QueueEngine.v
TaskSpec.v
QueueRefinement.v
QueueSafety.v
QueueDurability.v
QueueOnTree.v
Handles.v
PubSubEngine.v
PubSubSafety.v
Server.v
ServerSafety.v
Wire.v
QueueService.v
React.v
LatestWins.v
Quiescence.v
ViewCommon.v
QueryConsoleView.v
VectorPlaygroundView.v
SearchPlaygroundView.v
MaintenanceView.v
CollectionsView.v
BucketsView.v
QueueView.v
PubSubView.v
TimeSeriesView.v
Components.v
DashboardView.v
App.v
Sparkline.v
DashboardApp.v
Studio.v
Page.v
Conformance.v
Closed.v
EndToEnd.v
DashboardServer.v
