(* ===== verification/Prelude.v ===== *)
(** Verification of the CoCoDB front ends and of the servers behind them.

    CoCoDB is an embedded multi-model database written in Go with two web
    interfaces written in TypeScript: the studio ([studio/frontend]), a data
    browser with ten views, and the observability dashboard
    ([dashboard/frontend]). This development models the two interfaces: what they
    render, what their handlers do, which requests they send and how answers,
    timers and server messages interleave with the user; and the two Go servers
    they talk to, down to the operations these ask of the database. Below these
    it models the task queues, the publish/subscribe broker, the handles through
    which buckets and queues find their storage, and the B+tree they are kept in.
    The rest of the database engine is a parameter: the theorems hold for every
    engine.

    * Layers and files

    - [Prelude] (this file): tactics, hint database, lemmas on lists (the last
      [n] elements, windows, first occurrences).
    - The language. [JsString]: strings as lists of UTF-16 units, UTF-8,
      [encodeURIComponent] and its decoding, [trim], [split], words.
      [JsNumber]: IEEE doubles (the specification of the Standard Library),
      [Number], [parseInt], [parseFloat], printing, [toFixed]. [JsDate]: the
      calendar, [toISOString], local date texts; the time zone is a class
      ([Zone]). [Json]: values, property order, [JSON.stringify] and
      [JSON.parse] with their round trip.
    - The client. [Api] is [studio/frontend/src/api.ts]: each entry of [api] is
      the request it builds, [settle] is what its promise settles with. [Types]
      is the two [types.ts]: records, the decoders that say which JSON values the
      code of the views runs on, and the interfaces as they are declared, which
      are narrower. [Routes] is the reading of paths and queries by
      [studio/handlers.go] ([handleKVRoute], [handleDocRoute]).
    - The studio server. [Go]: byte strings and their conversion from and to
      JSON texts, decoding of JSON bodies into Go types, RFC 3339 times, 32-bit
      floats, [fmt.Sprint]. [Server]: every handler of [studio/handlers.go] and
      [studio/timeseries.go] as a program over database operations ([dbop]) and
      the event history, the multiplexer ([serve]), and how programs run on a
      database ([Database], [exec]); [Shelf] is a small database for examples.
      [ServerSafety]: what holds of every request. [Wire]: each call of the
      client next to what the server runs for it.
    - The B+tree ([internal/btree]). [Btree]: leaves and internal nodes on pages
      with their capacity, the binary searches, [Search], [Insert] with its splits
      up to the root, [Delete]; where new pages come from is the class
      [Allocator], with the end of the file as instance ([extension]).
      [BtreeSearch]: the order of keys, and what the binary searches find.
      [BtreeInvariant]: subtrees between two keys with the pages they own and
      their leaves. [BtreeRoom]: what fits on a page, and that both halves of a
      split page do when entries are slim. [BtreeInsert]: an insertion by
      induction on the height. [BtreeMap]: whole trees with the chain of their
      leaves ([tree]), and the three operations on the list of entries.
      [BtreeCursor]: [cursor.go], cursors and scans. [BtreeSpec]: the tree as a
      map, and where it is not.
    - Task queues ([internal/queue], [queue]). [GoHeap]: [container/heap] on
      lists, with the heap order. [QueueMessage]: a task and its binary form.
      [QueueEngine]: deduplication, the engine ([QueueEngine]) with one function
      for each operation, the worker and the restart, the handle and its options;
      the tree that keeps the tasks is the class [BTree]. [TaskSpec]: the abstract
      queue, a map from identifiers to tasks with the side they are on and
      whether they are held, and its events. [QueueRefinement]: every operation of
      the engine is a sequence of such events. [QueueSafety]: what follows for
      runs of a queue. [QueueDurability]: the tree mirrors the tasks
      ([BTreeLaws] are the laws of a tree relied on). [QueueOnTree]: the queue on
      the pages of the B+tree, which keeps these laws, and is read back whole, as
      long as one leaf holds the tasks; and what is lost when it does not.
      [QueueService]: the handlers of the studio in front of the engine
      ([TaskQueues]).
    - Handles ([db.go], [tx.go], [kv/bucket.go]). [Handles]: catalog objects, tree
      objects shared by root, transactions of one put or get with their errors,
      queues, closing and opening, over the pages of the B+tree.
    - Publish/subscribe ([internal/pubsub], [pubsub]). [PubSubEngine]: matching,
      subscriptions, groups, and [step], one critical section or channel operation
      of a publisher, a reader or a subscriber. [PubSubSafety]: what holds over
      all interleavings ([run]).
    - The run time. [React]: rendered trees and their handlers, programs over
      state cells, effects with their dependencies, suspended parts, and the
      event loop [exec] with its reachable configurations. It states what a
      component may promise as classes, and proves once what follows from them:
      [Invariant] (an invariant of all reachable configurations),
      [SingleFlight] (a flag that is up exactly while one request is pending),
      [Polls] (a fixed number of intervals for ever) and [Emitting] (what the
      commands of a component are like). [LatestWins]: numbered requests of which
      only the latest counts. [Quiescence]: progress; [Drains] (each answer uses
      up some weight of what is pending) and [Waits] (a view that shows that it is
      busy waits for an answer).
    - The views. [ViewCommon]: forms, filters, and tactics that enumerate the
      handlers of a tree. One file for each view of [studio/frontend/src/views]:
      [CollectionsView], [BucketsView], [QueryConsoleView],
      [VectorPlaygroundView], [SearchPlaygroundView], [MaintenanceView],
      [QueueView], [PubSubView], [TimeSeriesView], [DashboardView].
    - The shells. [Components]: sidebar, header, error boundary. [App]: the
      studio's shell with its overlapping polls. [Sparkline] and [DashboardApp]:
      the dashboard, with its event stream as a labelled step relation.
      [Studio]: which component each view is, and what holds of all of them.
      [Page]: the shell, the view it shows inside the error boundary and the
      views left behind, composed into one state machine; [opened] is
      [main.tsx].
    - Both ends together. [Conformance]: the replies of each handler are values
      the decoder of its caller takes. [Closed]: the page in front of the server.
      [EndToEnd]: from the action on a form to the operation on the database.
      [DashboardServer]: [dashboard/handlers.go] and [dashboard/server.go], with
      routing, telemetry, event stream and probe, behind the dashboard.

    * How code becomes definitions

    The [useState] and [useRef] cells of a component are a record [Cells]. A
    handler of the source is a program of the same name; it reads the cells
    through its argument [env], the closure of the render that created it, and
    writes the current ones with [cell <-- value]. The code after an [await] is a
    constructor of [Susp] that carries what the closure captured, and [resumed]
    is what runs then. An effect has the condition under which its dependencies
    changed and a body. [view] is the JSX with texts, attributes that matter and
    handlers; styling and icons are left out. A tree that cannot be rendered
    because an expression throws is [None].

    An input of the event loop is an event on a handler of the current tree
    (those of disabled elements cannot fire), a call of a function it handed to
    its children, the outcome of a pending request or timer, or new props from
    the parent. Responses range over every failure
    and every success the decoder of the call takes; [accepts] says which.

    On the page ([page_exec]) the props of the view are those the shell passes
    ([props]), a view calls the shell through [onNavigate] and [onRefreshCatalog]
    ([call_of]), and every task of the shell is followed by the rendering of the
    boundary's children ([reconcile]): the view named by the navigation is
    mounted, given its new props or replaced. A rendering that throws unmounts
    the view and raises the boundary ([place]). Unmounting runs the clean-ups of
    the view's effects ([leave]), which stop the intervals of the two views that
    poll; requests under way are still answered ([left_task]), without
    rendering or effects. Calls to the shell are delivered after the view's own
    commit, and the requests of one task are not ordered across components. The
    views' effects make no such call ([effects_call_nothing]).

    A handler of the servers is a program of type [io]: it asks an operation,
    goes on with the answer, and ends in a reply. [let? x := op in k] is one
    operation, [let* x := m in k] runs a part. Requests may interleave between
    any two operations ([server_step], [collects]); a section under a lock is one
    operation. A reply is the status and the JSON value written; [received] says
    which responses a client may see of it. Request bodies are the texts
    [JSON.stringify] writes: members are looked up by their exact names.

    A page of the B+tree is what its slots hold, a list of items; filling a page
    adds items until one does not fit and says whether all did ([fill]). The loops
    down to a leaf and up again are recursions along the path ([descend],
    [insert_path]); an operation has the pages and the root as argument and
    result, and a bool for the absence of an error. A cursor is a record, and a
    scan the list of entries its callback is called with.

    An operation of a queue runs under the lock of the queue, so it is a function
    of the engine and the contents of its tree; every reading of the clock is an
    argument, in the order of the calls, and so is the order in which the worker
    ranges over the held tasks. A [Dequeue] that waits is a sequence of rounds
    ([dequeue_round]) and receptions from the channel ([receive]). In the broker
    the locks are part of the state: a publication under way excludes subscribing
    and leaving ([idle_lock]), a delivery to a group excludes others to it
    ([cg_locked]), and a send to a full channel is a step that is not possible
    yet. New publications may start while somebody waits for the write lock, which
    Go's lock forbids: the model has more interleavings than the code.

    * What the theorems show

    - The whole page: it refines its parts, so what is proved of the shell and of
      a view alone holds on the page ([page_refines]); crashes are contained
      ([crash_contained]); writes refresh the catalog wherever the view is by then
      ([writes_refresh]); polling follows the navigation ([page_polls]); every
      request is one of the client's ([page_requests]).
    - Page and server: every reply is one the page takes
      ([server_answers_accepted]), though not always one of the interface that
      [types.ts] declares ([catalog_undeclared]); what is typed into a form is what the database
      is asked to store or to run ([saved_key_stored], [console_query_run],
      [edited_document_replaced], [typed_document_inserted],
      [submitted_task_enqueued], [typed_point_written]); each call runs the operation meant, with its
      arguments intact ([kv_calls_served], [doc_calls_served],
      [reading_calls_served], [queue_calls_served], [times_served]); what is
      stored or published is read back ([put_get_roundtrip],
      [publish_history_roundtrip]); failures arrive in the words of the server
      ([failures_told]).
    - The servers: a read-only studio refuses what stores, while it still takes
      tasks and writes backups ([read_only_effects]); the event history under any interleaving
      ([history_last_fifty]); the telemetry stream read by the dashboard
      ([stream_fits]); the percentiles of the probe ([probe_percentiles]).
    - The B+tree: it is a map, and no slim entry is refused ([btree_is_map]); scans
      visit the entries of their range in order ([btree_scans]).
    - Task queues: tasks are neither lost nor doubled ([tasks_not_lost]), held by
      one consumer at a time ([lease_exclusive]), delivered in order of priority
      ([best_task_first]) and a bounded number of times ([deliveries_bounded]);
      duplicates are refused ([duplicates_refused]); the binary form is read back
      and cut ones rejected ([message_roundtrip], [truncated_rejected]); a restart
      restores the tasks, on any tree that is read back whole ([restart_restores])
      and on the pages of the B+tree for up to 64 tasks that fit one leaf
      ([tasks_survive_restart]); a task goes from client to client
      ([task_roundtrip]).
    - Publish/subscribe: which topics a pattern takes, next to what the package
      documents ([topic_matching]); a
      subscription gets each message once, none lost and in order where the
      strategy promises it ([stream_delivered]); groups share evenly
      ([group_shares]); events with an identifier are published once
      ([events_published_once]).
    - Progress: waiting ends ([answers_end_waiting]).
    - Concurrency of requests: only the latest answer is shown, and the loading
      flag is exact ([collections_latest_wins], [collections_loading],
      [timeseries_latest_wins], [timeseries_loading]); at most one request in
      flight for each button ([buttons_single_flight], from a theorem of each
      view); polls that neither double nor stop
      ([queue_polls_once], [pubsub_polls_once]); the three answers of a studio
      poll in any order, and no flag left up ([poll_any_order],
      [app_loading_awaits]); the event stream ([stream_single],
      [live_means_connected], [charts_show_last_thirty]).
    - What is sent: requests deliver what was typed and reach the handler meant
      ([post_delivers], [kv_calls_reach], [doc_calls_reach],
      [edit_save_roundtrip], [query_request_body], [put_request],
      [enqueue_request], [ingest_request], [vector_search_request]); errors come
      back whole ([server_error_shown]).
    - State and rendering: selections stay within the catalog
      ([collections_selection], [search_selection]), navigation is closed
      ([app_one_view], [dashboard_navigates]), the theme survives a reload
      ([theme_survives_reload]), when rendering throws ([collections_render],
      [query_render], [boundary_life]), what the charts and badges say
      ([sparkline_spans], [cluster_health]), and that running the effects that
      depend on the catalog again changes nothing ([catalog_effects_idle]).
    - Defects the model exposes, as theorems: [clear_requests_old_filter],
      [stale_scan_shown], [stream_leak], [kv_slash_misroutes],
      [query_null_documents_crash], [zero_hit_rate_shown],
      [failed_poll_empties_catalog], [queues_tab_empty], [search_tokens]; in the
      engine [delayed_task_blocks], [delayed_tasks_unnoticed],
      [full_channel_locks], [message_ids_collide], [new_buckets_shared],
      [queue_inherits], [queues_forgotten]; in the B+tree [failed_insert_loses],
      [emptied_leaf_hides], and what that does to a queue,
      [acknowledged_tasks_hide_waiting].

    * Bounds and fuel

    The commits after a task are bounded by [commit_fuel], four; [commits_end]
    shows that this is enough for every component and every state, with the
    dependencies of effects compared by value. [parse] runs
    with the length of its text as fuel, and the round-trip lemmas show that to
    be enough for every text [stringify] writes. Numbers are IEEE doubles with
    rounding to nearest; [json_ok] names the values JSON carries without loss.
    Go integers are [Z] with their wrap-around written out ([int64], [uint8]).
    Sifting in the heap and the search for a visible task run with the length of
    the heap as fuel; the heap lemmas and [dequeue_round_spec] show that to be
    enough. The binary searches have the number of slots as fuel, a descent the
    number of pages ([subtree_height] bounds the height by it), a scan as much as
    its caller says; [scan_fuel], the number of items on all pages, is always
    enough ([scan_fuel_enough]). A slim entry is one of at most 247 bytes of key
    and value: with page capacity and record overhead as they are, a page that
    overflows then has enough entries for both halves to fit ([leaf_halves],
    [node_halves]). Theorems over runs ask that fewer than [2 ^ 64] steps are taken, so
    that sequence numbers do not wrap.

    * Parameters

    Messages the JavaScript engine makes up ([Engine]), texts that depend on the
    locale ([Locale]), the time zone ([Zone]), the page's origin and host and the
    error React reports for a rendering that throws ([thrown] in [Page]) are
    arguments; examples instantiate them. So is the database behind the servers,
    with the order in which Go ranges over a map, vector distances and full-text
    ranking among its operations; [KeyValueStore] and [TaskQueues] name the laws
    single theorems rely on. To the queue its tree is the classes [BTree] and
    [BTreeLaws], with a sorted list and the pages of the B+tree, while one leaf
    holds its entries, as instances. Where the B+tree puts new pages is the class
    [Allocator].

    * Not modelled

    Styling, icons and focus; the second run of effects React's development mode
    adds; the mounting code of the dashboard's [main.tsx]; bundler configuration
    and the generated bundles; [MetricHistoryPoint], which no code uses; success
    responses the decoder of their call does not take, which the studio server
    does not send; of the database engine in Go: [VerifyTree] and the key codecs of
    [internal/btree], the slots of a page, the pager and its errors, the
    write-ahead log, documents and queries, time series, vector and text indexes,
    the cluster, snapshots and rollback of transactions, and storage separated by
    model; the sockets and static files of the servers; request bodies
    no client of the repository writes (other letter case of member names,
    numbers in other notations), and the order in which a decoder reports the
    first of several errors. Dependencies of effects that are arrays or objects
    are compared by value, and not by identity, so an endless series of commits
    that each make a new array would not be seen. The catalog's effects are taken
    to run when the names in it change, not for every new object;
    [catalog_effects_idle] shows that to be the same unless a collection or bucket
    has an empty name. *)


From Stdlib Require Export NArith ZArith Lia.
From stdpp Require Export strings numbers gmap relations prelude list.

(** ** Scopes and notations *)

Declare Scope js_scope.
Delimit Scope js_scope with js.

(** A JavaScript string: its sequence of UTF-16 code units. *)
Abbreviation jstr := (list N).

(** ** Tactics *)

Create HintDb js.
Create HintDb emits.

(** Turn boolean comparisons of the context and the goal into propositions. *)
Ltac to_prop :=
  repeat match goal with
  | H : (_ <? _)%N = true |- _ => apply N.ltb_lt in H
  | H : (_ <? _)%N = false |- _ => apply N.ltb_ge in H
  | H : (_ <=? _)%N = true |- _ => apply N.leb_le in H
  | H : (_ <=? _)%N = false |- _ => apply N.leb_gt in H
  | H : (_ =? _)%N = true |- _ => apply N.eqb_eq in H
  | H : (_ =? _)%N = false |- _ => apply N.eqb_neq in H
  | H : andb _ _ = true |- _ => apply andb_true_iff in H; destruct H
  | H : andb _ _ = false |- _ => apply andb_false_iff in H
  | H : orb _ _ = true |- _ => apply orb_true_iff in H
  | H : orb _ _ = false |- _ => apply orb_false_iff in H; destruct H
  | H : negb _ = true |- _ => apply negb_true_iff in H
  | H : negb _ = false |- _ => apply negb_false_iff in H
  | H : bool_decide _ = true |- _ => apply bool_decide_eq_true_1 in H
  | H : bool_decide _ = false |- _ => apply bool_decide_eq_false_1 in H
  end.

(** ** Lists *)

Section Lists.
Context {A : Type}.
Implicit Types l : list A.

(** [xs.slice(-n)]: the last [n] elements. *)
Definition slice_last (n : nat) (l : list A) : list A := drop (length l - n) l.

(** [[...xs.slice(-n), x]]: append to a window of [n + 1] elements. *)
Definition push_window (n : nat) (l : list A) (x : A) : list A := slice_last n l ++ [x].

Lemma slice_last_length n l : length (slice_last n l) = Nat.min n (length l).
Proof. unfold slice_last. rewrite length_drop. lia. Qed.

Lemma slice_last_short n l : length l <= n -> slice_last n l = l.
Proof. intros H. unfold slice_last. by replace (length l - n) with 0 by lia. Qed.

Lemma slice_last_suffix n l : slice_last n l `suffix_of` l.
Proof. exists (take (length l - n) l). unfold slice_last. by rewrite take_drop. Qed.

Lemma push_window_slice n l x :
  push_window n (slice_last (S n) l) x = slice_last (S n) (l ++ [x]).
Proof.
  unfold push_window, slice_last. rewrite length_app; simpl length.
  rewrite drop_drop, length_drop.
  rewrite drop_app_le by lia. f_equal. f_equal. lia.
Qed.

(** First occurrences, in order: [Array.from(new Set(xs))]. *)
Fixpoint distinct `{EqDecision A} (l : list A) : list A :=
  match l with
  | [] => []
  | x :: r => x :: filter (fun y => y <> x) (distinct r)
  end.

Lemma elem_of_distinct `{EqDecision A} (x : A) l : x ∈ distinct l <-> x ∈ l.
Proof.
  induction l as [|y r IH]; simpl; [done|].
  rewrite !elem_of_cons, list_elem_of_filter, IH.
  destruct (decide (x = y)); naive_solver.
Qed.

Lemma NoDup_distinct `{EqDecision A} l : NoDup (distinct l).
Proof.
  induction l as [|y r IH]; simpl; constructor.
  - rewrite list_elem_of_filter. naive_solver.
  - by apply NoDup_filter.
Qed.

End Lists.

#[export] Hint Resolve NoDup_distinct : js.
