(* ===== verification/JsString.v ===== *)
(** JavaScript strings as the front ends use them: UTF-16 code units, UTF-8,
    [trim], [split], [toLowerCase]/[split(/\W+/)] on words, and
    [encodeURIComponent] with the percent-decoding its receiver performs. *)

From S2P Require Import Prelude.

Open Scope N_scope.

(** ** Unicode transformation formats *)

Definition is_high (c : N) : bool := (0xD800 <=? c) && (c <? 0xDC00).
Definition is_low (c : N) : bool := (0xDC00 <=? c) && (c <? 0xE000).

(** The code points of a string; [None] when a surrogate is unpaired. *)
Fixpoint code_points (s : jstr) : option (list N) :=
  match s with
  | [] => Some []
  | c :: r =>
      if is_low c then None
      else if is_high c then
        match r with
        | d :: r' =>
            if is_low d
            then cons (0x10000 + (c - 0xD800) * 0x400 + (d - 0xDC00)) <$> code_points r'
            else None
        | [] => None
        end
      else cons c <$> code_points r
  end.

(** The code units of one code point, and of a sequence of them. *)
Definition units_of (cp : N) : jstr :=
  if cp <? 0x10000 then [cp]
  else [0xD800 + (cp - 0x10000) / 0x400; 0xDC00 + (cp - 0x10000) mod 0x400].

(** The UTF-8 bytes of one code point. *)
Definition utf8_of (cp : N) : list N :=
  if cp <? 0x80 then [cp]
  else if cp <? 0x800 then [0xC0 + cp / 64; 0x80 + cp mod 64]
  else if cp <? 0x10000 then
    [0xE0 + cp / 4096; 0x80 + (cp / 64) mod 64; 0x80 + cp mod 64]
  else [0xF0 + cp / 262144; 0x80 + (cp / 4096) mod 64; 0x80 + (cp / 64) mod 64; 0x80 + cp mod 64].

(** The bytes a well-formed string is sent as. *)
Definition utf8 (s : jstr) : option (list N) := mjoin ∘ fmap utf8_of <$> code_points s.

(** Decoding of well-formed UTF-8, used to read the string literals of this development. *)
Fixpoint utf8_decode (bs : list N) : list N :=
  match bs with
  | [] => []
  | a :: r =>
      if a <? 0x80 then a :: utf8_decode r
      else match r with
      | b :: r1 =>
          if a <? 0xE0 then ((a - 0xC0) * 64 + (b - 0x80)) :: utf8_decode r1
          else match r1 with
          | c :: r2 =>
              if a <? 0xF0 then ((a - 0xE0) * 4096 + (b - 0x80) * 64 + (c - 0x80)) :: utf8_decode r2
              else match r2 with
              | d :: r3 =>
                  ((a - 0xF0) * 262144 + (b - 0x80) * 4096 + (c - 0x80) * 64 + (d - 0x80)) :: utf8_decode r3
              | [] => []
              end
          | [] => []
          end
      | [] => []
      end
  end.

Fixpoint bytes_of (s : string) : list N :=
  match s with
  | EmptyString => []
  | String a r => Ascii.N_of_ascii a :: bytes_of r
  end.

(** The JavaScript string a literal of this development denotes. *)
Definition js (s : string) : jstr := mjoin (units_of <$> utf8_decode (bytes_of s)).

#[global] Arguments js : simpl never.

(** The empty string is the falsy string. *)
Definition truthy_str (s : jstr) : bool := match s with [] => false | _ => true end.

(** [s || t] on strings. *)
Definition str_or (s t : jstr) : jstr := if truthy_str s then s else t.

(** [s === t] on strings. *)
Definition str_eq (s t : jstr) : bool := bool_decide (s = t).

(** ** [String.prototype.trim], [split], [startsWith], [includes] *)

Definition is_ws (c : N) : bool :=
  (c =? 9) || (c =? 10) || (c =? 11) || (c =? 12) || (c =? 13) || (c =? 32) || (c =? 0xA0)
  || (c =? 0x1680) || ((0x2000 <=? c) && (c <=? 0x200A)) || (c =? 0x2028) || (c =? 0x2029)
  || (c =? 0x202F) || (c =? 0x205F) || (c =? 0x3000) || (c =? 0xFEFF).

Fixpoint trim_start (s : jstr) : jstr :=
  match s with
  | [] => []
  | c :: r => if is_ws c then trim_start r else s
  end.

Definition trim_end (s : jstr) : jstr := reverse (trim_start (reverse s)).

Definition trim (s : jstr) : jstr := trim_end (trim_start s).

(** Split at every unit satisfying [p], as [s.split(sep)] does for a one-unit separator. *)
Fixpoint split_on (p : N -> bool) (s : jstr) : list jstr :=
  match s with
  | [] => [[]]
  | c :: r =>
      if p c then [] :: split_on p r
      else match split_on p r with
           | w :: ws => (c :: w) :: ws
           | [] => [[c]]
           end
  end.

Fixpoint starts_with (p s : jstr) : bool :=
  match p, s with
  | [], _ => true
  | a :: p', b :: s' => (a =? b) && starts_with p' s'
  | _ :: _, [] => false
  end.

(** [s.includes(p)] *)
Fixpoint includes (p s : jstr) : bool :=
  starts_with p s || match s with [] => false | _ :: s' => includes p s' end.

(** [xs.join(sep)] *)
Fixpoint join (sep : jstr) (xs : list jstr) : jstr :=
  match xs with
  | [] => []
  | [x] => x
  | x :: r => x ++ sep ++ join sep r
  end.

Lemma trim_start_no_ws s c r : trim_start s = c :: r -> is_ws c = false.
Proof.
  induction s as [|d t IH]; simpl; [done|].
  destruct (is_ws d) eqn:E; [done|]. intros [= -> ->]. done.
Qed.

Lemma trim_start_suffix s : trim_start s `suffix_of` s.
Proof.
  induction s as [|d t IH]; simpl; [done|].
  destruct (is_ws d); [by apply suffix_cons_r | done].
Qed.

Lemma trim_start_idemp s : trim_start (trim_start s) = trim_start s.
Proof.
  destruct (trim_start s) as [|c r] eqn:E; [done|].
  apply trim_start_no_ws in E. simpl. by rewrite E.
Qed.

Lemma split_on_nonempty p s : split_on p s <> [].
Proof. destruct s as [|c r]; simpl; [done|]. destruct (p c); [done|]. by destruct (split_on p r). Qed.

(** The pieces contain no separator, and joining them with it gives the string back. *)
Lemma split_on_pieces p s : Forall (Forall (fun c => p c = false)) (split_on p s).
Proof.
  induction s as [|c r IH]; simpl; [by repeat constructor|].
  destruct (p c) eqn:E; [by constructor|].
  destruct (split_on p r) as [|w ws]; [by repeat constructor|].
  apply Forall_cons in IH as [? ?]. repeat constructor; auto.
Qed.

Lemma join_split sep s : join [sep] (split_on (N.eqb sep) s) = s.
Proof.
  induction s as [|c r IH]; simpl; [done|].
  destruct (N.eqb_spec sep c) as [->|Hne].
  - destruct (split_on (N.eqb c) r) as [|w ws] eqn:E; [by apply split_on_nonempty in E|].
    simpl in *. by rewrite IH.
  - destruct (split_on (N.eqb sep) r) as [|w ws] eqn:E; [by apply split_on_nonempty in E|].
    destruct ws; simpl in *; by rewrite <- IH.
Qed.

(** A piece without separators splits into itself. *)
Lemma split_on_clean p s : Forall (fun c => p c = false) s -> split_on p s = [s].
Proof. induction 1 as [|c r Hc _ IH]; simpl; [done|]. by rewrite Hc, IH. Qed.

Lemma split_on_app p s c t :
  Forall (fun c => p c = false) s -> p c = true -> split_on p (s ++ c :: t) = s :: split_on p t.
Proof.
  intros Hs Hc. induction Hs as [|d r Hd _ IH]; simpl; [by rewrite Hc|].
  by rewrite Hd, IH.
Qed.

(** ** [encodeURIComponent] *)

Definition is_alnum (c : N) : bool :=
  ((48 <=? c) && (c <=? 57)) || ((65 <=? c) && (c <=? 90)) || ((97 <=? c) && (c <=? 122)).

(** Letters, digits and [- _ . ! ~ * ' ( )] are left as they are. *)
Definition uri_unreserved (c : N) : bool :=
  is_alnum c || (c =? 45) || (c =? 95) || (c =? 46) || (c =? 33) || (c =? 126) || (c =? 42)
  || (c =? 39) || (c =? 40) || (c =? 41).

Definition hex_digit (d : N) : N := if d <? 10 then 48 + d else 55 + d.

Definition pct (b : N) : jstr := [37; hex_digit (b / 16); hex_digit (b mod 16)].

Definition encode_point (cp : N) : jstr :=
  if uri_unreserved cp then [cp] else mjoin (pct <$> utf8_of cp).

(** [None] stands for the [URIError] thrown on an unpaired surrogate. *)
Definition encodeURIComponent (s : jstr) : option jstr :=
  mjoin ∘ fmap encode_point <$> code_points s.

(** The receiver's percent-decoding (Go's [net/url] unescaping; [plus] is its
    query mode, where a [+] stands for a space). *)
Definition unhex (c : N) : option N :=
  if (48 <=? c) && (c <=? 57) then Some (c - 48)
  else if (65 <=? c) && (c <=? 70) then Some (c - 55)
  else if (97 <=? c) && (c <=? 102) then Some (c - 87)
  else None.

Fixpoint unescape (plus : bool) (s : list N) : option (list N) :=
  match s with
  | [] => Some []
  | c :: r =>
      if c =? 37 then
        match r with
        | h :: l :: r' =>
            a ← unhex h; b ← unhex l; cons (a * 16 + b) <$> unescape plus r'
        | _ => None
        end
      else cons (if plus && (c =? 43) then 32 else c) <$> unescape plus r
  end.

Lemma unhex_digit d : d < 16 -> unhex (hex_digit d) = Some d.
Proof.
  intros H. unfold hex_digit, unhex.
  destruct (N.ltb_spec d 10).
  - replace ((48 <=? 48 + d) && (48 + d <=? 57)) with true; [f_equal; lia|].
    symmetry. apply andb_true_iff. split; apply N.leb_le; lia.
  - replace ((48 <=? 55 + d) && (55 + d <=? 57)) with false
      by (symmetry; apply andb_false_iff; right; apply N.leb_gt; lia).
    replace ((65 <=? 55 + d) && (55 + d <=? 70)) with true
      by (symmetry; apply andb_true_iff; split; apply N.leb_le; lia).
    f_equal; lia.
Qed.

Lemma unescape_pct plus b r : b < 256 -> unescape plus (pct b ++ r) = cons b <$> unescape plus r.
Proof.
  intros H. unfold pct. simpl.
  rewrite !unhex_digit by (apply N.Div0.div_lt_upper_bound || apply N.mod_lt; lia).
  simpl. f_equal. f_equal. pose proof (N.div_mod b 16). lia.
Qed.

Lemma unescape_pcts plus bs r :
  Forall (fun b => b < 256) bs ->
  unescape plus (mjoin (pct <$> bs) ++ r) = (fun t => bs ++ t) <$> unescape plus r.
Proof.
  induction 1 as [|b bs Hb _ IH]; simpl; [by destruct (unescape plus r)|].
  change (unescape plus ((pct b ++ mjoin (pct <$> bs)) ++ r) = (λ t, b :: bs ++ t) <$> unescape plus r).
  rewrite <- app_assoc, unescape_pct, IH by done.
  by destruct (unescape plus r).
Qed.

Lemma utf8_of_bytes cp : cp < 0x110000 -> Forall (fun b => b < 256) (utf8_of cp).
Proof.
  intros H. unfold utf8_of.
  repeat case_match; to_prop; repeat constructor;
    repeat match goal with
    | |- context [?a / ?k] =>
        let q := fresh in set (q := a / k); assert (q * k <= a) by
          (unfold q; rewrite N.mul_comm; apply N.Div0.mul_div_le)
    | |- context [?a mod ?k] => pose proof (N.mod_lt a k ltac:(lia)); set (a mod k)
    end; lia.
Qed.

(** Induction two units at a time, the shape of [code_points]. *)
Lemma jstr_ind2 (P : jstr -> Prop) :
  P [] -> (forall c, P [c]) -> (forall c d r, P r -> P (d :: r) -> P (c :: d :: r)) -> forall s, P s.
Proof.
  intros H0 H1 H2 s. enough (P s /\ forall c, P (c :: s)) by naive_solver.
  induction s as [|d r [IH1 IH2]]; [by split|]. split; [done|]. intros c. by apply H2.
Qed.

(** The units of a string are 16-bit; the code points read from them are below 0x110000. *)
Definition wf_str (s : jstr) : Prop := Forall (fun c => c < 0x10000) s.

Lemma code_points_bound s cps :
  wf_str s -> code_points s = Some cps -> Forall (fun c => c < 0x110000) cps.
Proof.
  unfold wf_str. revert cps. induction s as [|c|c d r IHr IHd] using jstr_ind2; intros cps Hwf.
  - intros [= <-]. constructor.
  - simpl. destruct (is_low c), (is_high c); try done.
    intros [= <-]. apply Forall_cons in Hwf as [? ?]. repeat constructor; lia.
  - apply Forall_cons in Hwf as [Hc Hwf]. pose proof Hwf as Hwf'. apply Forall_cons in Hwf' as [Hd Hr].
    change (code_points (c :: d :: r)) with
      (if is_low c then None else if is_high c then
         if is_low d then cons (0x10000 + (c - 0xD800) * 0x400 + (d - 0xDC00)) <$> code_points r else None
       else cons c <$> code_points (d :: r)).
    destruct (is_low c); [done|]. destruct (is_high c) eqn:Ec.
    + destruct (is_low d) eqn:Ed; [|done]. destruct (code_points r) as [l|]; [|done].
      intros [= <-]. unfold is_high, is_low in *. to_prop. constructor; [lia|]. by apply IHr.
    + destruct (code_points (d :: r)) as [l|]; [|done].
      intros [= <-]. constructor; [lia|]. by apply IHd.
Qed.

Lemma unreserved_facts c :
  uri_unreserved c = true ->
  c < 0x80 /\ c <> 37 /\ c <> 43 /\ c <> 47 /\ c <> 63 /\ c <> 38 /\ c <> 61 /\ c <> 35.
Proof.
  unfold uri_unreserved, is_alnum. rewrite !orb_true_iff, !andb_true_iff, !N.leb_le, !N.eqb_eq. lia.
Qed.

Lemma encode_point_unescape plus cp r :
  cp < 0x110000 ->
  unescape plus (encode_point cp ++ r) = (fun t => utf8_of cp ++ t) <$> unescape plus r.
Proof.
  intros H. unfold encode_point. destruct (uri_unreserved cp) eqn:E.
  - apply unreserved_facts in E as (H1 & H2 & H3 & _). simpl.
    destruct (N.eqb_spec cp 37); [done|]. destruct (N.eqb_spec cp 43); [done|].
    rewrite andb_false_r. unfold utf8_of. destruct (N.ltb_spec cp 0x80); [|lia].
    by destruct (unescape plus r).
  - by apply unescape_pcts, utf8_of_bytes.
Qed.

Lemma encode_points_unescape plus cps :
  Forall (fun c => c < 0x110000) cps ->
  unescape plus (mjoin (encode_point <$> cps)) = Some (mjoin (utf8_of <$> cps)).
Proof.
  induction 1 as [|cp cps H _ IH]; [done|].
  change (unescape plus (encode_point cp ++ mjoin (encode_point <$> cps)) = Some (utf8_of cp ++ mjoin (utf8_of <$> cps))).
  by rewrite encode_point_unescape, IH.
Qed.

(** Encoding fails exactly on unpaired surrogates. *)
Lemma encodeURIComponent_utf8 s : encodeURIComponent s = None <-> utf8 s = None.
Proof. unfold encodeURIComponent, utf8. by destruct (code_points s). Qed.

(** Percent-decoding a component, in either mode, gives the UTF-8 bytes of the string. *)
Lemma encodeURIComponent_unescape plus s e :
  wf_str s -> encodeURIComponent s = Some e -> unescape plus e = utf8 s.
Proof.
  unfold encodeURIComponent, utf8. intros Hwf.
  destruct (code_points s) as [cps|] eqn:E; [|done]. intros [= <-].
  by apply encode_points_unescape, (code_points_bound s).
Qed.

(** The units an encoded component is made of. *)
Definition uri_safe (c : N) : Prop :=
  c < 0x80 /\ c <> 43 /\ c <> 47 /\ c <> 63 /\ c <> 38 /\ c <> 61 /\ c <> 35.

Lemma hex_digit_safe d : d < 16 -> uri_safe (hex_digit d).
Proof. intros H. unfold uri_safe, hex_digit. destruct (N.ltb_spec d 10); lia. Qed.

Lemma pct_safe b : b < 256 -> Forall uri_safe (pct b).
Proof.
  intros H. unfold pct. repeat constructor; try (unfold uri_safe; lia);
    apply hex_digit_safe; (apply N.Div0.div_lt_upper_bound || apply N.mod_lt); lia.
Qed.

Lemma encode_point_safe cp : cp < 0x110000 -> Forall uri_safe (encode_point cp).
Proof.
  intros H. unfold encode_point. destruct (uri_unreserved cp) eqn:E.
  - apply unreserved_facts in E. repeat constructor; lia.
  - pose proof (utf8_of_bytes cp H) as Hb. induction Hb as [|b bs Hb _ IH]; [constructor|].
    change (Forall uri_safe (pct b ++ mjoin (pct <$> bs))). apply Forall_app. split; [|done]. by apply pct_safe.
Qed.

(** No delimiter of a path, a query string or a fragment occurs in an encoded component. *)
Lemma encodeURIComponent_safe s e :
  wf_str s -> encodeURIComponent s = Some e -> Forall uri_safe e.
Proof.
  unfold encodeURIComponent. intros Hwf. destruct (code_points s) as [cps|] eqn:E; [|done].
  intros [= <-]. apply (code_points_bound s) in E; [|done].
  induction E as [|cp cps H _ IH]; [constructor|].
  change (Forall uri_safe (encode_point cp ++ mjoin (encode_point <$> cps))).
  apply Forall_app. split; [by apply encode_point_safe | done].
Qed.

#[export] Hint Resolve encodeURIComponent_safe : js.

(** ** Words of a query: [s.toLowerCase().split(/\W+/).filter(Boolean)] *)

Definition is_word (c : N) : bool := is_alnum c || (c =? 95).

(** [toLowerCase] of one unit, exact on every unit whose image has a word
    character: ASCII letters, the Kelvin sign (U+212A, to k) and capital I with
    dot (U+0130, to i and U+0307). Other units have images without word
    characters and are left as they are. *)
Definition lower (c : N) : jstr :=
  if (65 <=? c) && (c <=? 90) then [c + 32]
  else if c =? 0x212A then [107]
  else if c =? 0x130 then [105; 0x307]
  else [c].

Definition toLowerCase (s : jstr) : jstr := mjoin (lower <$> s).

(** [split] at the runs of units that satisfy [p]; the flag says whether a run is
    being skipped. *)
Fixpoint split_runs (p : N -> bool) (skipping : bool) (s : jstr) : list jstr :=
  match s with
  | [] => [[]]
  | c :: r =>
      if p c then (if skipping then split_runs p true r else [] :: split_runs p true r)
      else match split_runs p false r with
           | w :: ws => (c :: w) :: ws
           | [] => [[c]]
           end
  end.

Definition words (s : jstr) : list jstr :=
  filter (fun w => truthy_str w = true) (split_runs (fun c => negb (is_word c)) false s).

Lemma split_runs_on p s :
  filter (fun w => truthy_str w = true) (split_runs p true s) = filter (fun w => truthy_str w = true) (split_on p s)
  /\ head (split_runs p false s) = head (split_on p s)
  /\ filter (fun w => truthy_str w = true) (tail (split_runs p false s))
     = filter (fun w => truthy_str w = true) (tail (split_on p s)).
Proof.
  induction s as [|c r (IH1 & IH2 & IH3)]; [done|]. simpl. destruct (p c).
  - split_and!; [|done|done]. rewrite IH1. by rewrite filter_cons_False.
  - destruct (split_runs p false r) as [|w ws], (split_on p r) as [|w' ws']; simplify_eq/=; [done|].
    split_and!; [|done|done]. rewrite !filter_cons_True by done. by f_equal.
Qed.

(** Dropping the empty pieces, it is splitting at every such unit. *)
Lemma words_split s : words s = filter (fun w => truthy_str w = true) (split_on (fun c => negb (is_word c)) s).
Proof.
  unfold words. destruct (split_runs_on (fun c => negb (is_word c)) s) as (_ & H1 & H2).
  destruct (split_runs _ false s) as [|w ws], (split_on _ s) as [|w' ws']; simplify_eq/=; [done|].
  rewrite !filter_cons. by rewrite H2.
Qed.

Lemma words_spec s :
  Forall (fun w => w <> [] /\ Forall (fun c => is_word c = true) w) (words s).
Proof.
  rewrite words_split. rewrite Forall_forall. intros w [Ht Hw]%list_elem_of_filter.
  split; [by destruct w|].
  pose proof (split_on_pieces (fun c => negb (is_word c)) s) as H.
  rewrite Forall_forall in H. specialize (H w Hw).
  eapply Forall_impl; [exact H|]. simpl. intros c Hc. by apply negb_false_iff in Hc.
Qed.
