(* ===== verification/JsNumber.v ===== *)
(** JavaScript numbers: IEEE-754 binary64 values (the executable [spec_float]
    of the standard library at 53 bits of precision), with the conversions the
    front ends call: [Number], [parseInt], [parseFloat], [String] on numbers,
    [toFixed], and the decimal grammar shared with JSON. *)

From S2P Require Import Prelude JsString.
From Stdlib Require Import SpecFloat.

Open Scope Z_scope.

Abbreviation num := spec_float.

Definition prec : Z := 53.
Definition emax : Z := 1024.

#[global] Instance num_eq_dec : EqDecision num.
Proof. solve_decision. Defined.

Definition num_of_Z (z : Z) : num := binary_normalize prec emax z 0 false.
Definition nadd : num -> num -> num := SFadd prec emax.
Definition nsub : num -> num -> num := SFsub prec emax.
Definition nmul : num -> num -> num := SFmul prec emax.
Definition ndiv : num -> num -> num := SFdiv prec emax.

(** [x === y], [x < y], [x <= y] on numbers. *)
Definition num_eq : num -> num -> bool := SFeqb.
Definition num_lt : num -> num -> bool := SFltb.
Definition num_le : num -> num -> bool := SFleb.

Definition NaN : num := S754_nan.
Definition Infinity (neg : bool) : num := S754_infinity neg.
Definition isNaN (x : num) : bool := match x with S754_nan => true | _ => false end.

(** Zeros and NaN are the falsy numbers; [num_or x y] is [x || y]. *)
Definition truthy_num (x : num) : bool :=
  match x with S754_nan | S754_zero _ => false | _ => true end.
Definition num_or (x y : num) : num := if truthy_num x then x else y.

(** [Math.max(x, y)] and [Math.min(x, y)]: NaN when either is. *)
Definition nmax (x y : num) : num :=
  if isNaN x || isNaN y then NaN
  else if num_lt x y then y
  else match x, y with S754_zero true, S754_zero false => y | _, _ => x end.

Definition nmin (x y : num) : num :=
  if isNaN x || isNaN y then NaN
  else if num_lt y x then y
  else match x, y with S754_zero false, S754_zero true => y | _, _ => x end.

(** ** Decimal digits *)

Definition is_digit (c : N) : bool := (48 <=? c)%N && (c <=? 57)%N.

(** The value of a digit sequence, continuing from [acc]. *)
Definition digits_value (acc : N) (ds : list N) : N :=
  foldl (fun a c => 10 * a + (c - 48))%N acc ds.

(** The decimal digits of a natural number. *)
Fixpoint digits_fuel (fuel : nat) (n : N) (acc : jstr) : jstr :=
  match fuel with
  | O => acc
  | S f =>
      let acc' := (48 + n mod 10)%N :: acc in
      if (n <? 10)%N then acc' else digits_fuel f (n / 10) acc'
  end.

Definition digits (n : N) : jstr := digits_fuel (S (N.to_nat (N.size n))) n [].

Lemma digits_value_app acc a b : digits_value acc (a ++ b) = digits_value (digits_value acc a) b.
Proof. apply foldl_app. Qed.

Lemma digits_value_acc acc ds :
  digits_value acc ds = (acc * 10 ^ N.of_nat (length ds) + digits_value 0 ds)%N.
Proof.
  revert acc. induction ds as [|d r IH]; intros acc; [simpl; lia|].
  change (digits_value (10 * acc + (d - 48)) r = (acc * 10 ^ N.of_nat (S (length r)) + digits_value (10 * 0 + (d - 48)) r)%N).
  rewrite (IH (10 * acc + _)%N), (IH (10 * 0 + _)%N), Nat2N.inj_succ, N.pow_succ_r'. lia.
Qed.

Lemma digits_fuel_value fuel n acc :
  (n < 2 ^ N.of_nat fuel)%N ->
  digits_value 0 (digits_fuel fuel n acc) = (n * 10 ^ N.of_nat (length acc) + digits_value 0 acc)%N.
Proof.
  revert n acc. induction fuel as [|f IH]; intros n acc Hn.
  { simpl in *. replace n with 0%N by lia. lia. }
  rewrite Nat2N.inj_succ, N.pow_succ_r' in Hn.
  assert (digits_value 0 ((48 + n mod 10)%N :: acc)
          = ((n mod 10) * 10 ^ N.of_nat (length acc) + digits_value 0 acc)%N) as E.
  { change (digits_value (10 * 0 + (48 + n mod 10 - 48)) acc
            = ((n mod 10) * 10 ^ N.of_nat (length acc) + digits_value 0 acc)%N).
    rewrite digits_value_acc. generalize (n mod 10)%N. intros x. clear. by replace (10 * 0 + (48 + x - 48))%N with x by lia. }
  simpl. destruct (N.ltb_spec n 10).
  - rewrite E. by rewrite N.mod_small.
  - assert (n / 10 < 2 ^ N.of_nat f)%N.
    { apply N.Div0.div_lt_upper_bound. lia. }
    rewrite IH, E by done. simpl length. rewrite Nat2N.inj_succ, N.pow_succ_r'.
    pose proof (N.div_mod n 10 ltac:(lia)) as Hd. rewrite Hd at 3. lia.
Qed.

(** Reading the digits of [n] gives [n] back. *)
Lemma digits_roundtrip n : digits_value 0 (digits n) = n.
Proof.
  unfold digits. rewrite digits_fuel_value; [simpl; lia|].
  pose proof (N.size_gt n). rewrite Nat2N.inj_succ, N2Nat.id, N.pow_succ_r'. lia.
Qed.

Lemma is_digit_unit x : (x < 10)%N -> is_digit (48 + x)%N = true.
Proof. intros H. unfold is_digit. apply andb_true_iff. split; apply N.leb_le; lia. Qed.

Lemma digits_fuel_digit fuel n acc :
  Forall (fun c => is_digit c = true) acc -> Forall (fun c => is_digit c = true) (digits_fuel fuel n acc).
Proof.
  revert n acc. induction fuel as [|f IH]; intros n acc H; [done|]. simpl.
  assert (Forall (fun c => is_digit c = true) ((48 + n mod 10)%N :: acc)).
  { constructor; [|done]. apply is_digit_unit, N.mod_lt. lia. }
  destruct (n <? 10)%N; auto.
Qed.

Lemma digits_digit n : Forall (fun c => is_digit c = true) (digits n).
Proof. apply digits_fuel_digit. constructor. Qed.

Lemma digits_fuel_nonempty fuel n acc : acc <> [] -> digits_fuel fuel n acc <> [].
Proof. revert n acc. induction fuel; intros; simpl; [done|]. case_match; auto. Qed.

Lemma digits_nonempty n : digits n <> [].
Proof. unfold digits. simpl. destruct (n <? 10)%N; [done|]. by apply digits_fuel_nonempty. Qed.

(** The longest prefix of digits. *)
Fixpoint span_digits (s : jstr) : jstr * jstr :=
  match s with
  | c :: r => if is_digit c then let '(ds, t) := span_digits r in (c :: ds, t) else ([], s)
  | [] => ([], [])
  end.

Lemma span_digits_app ds t :
  Forall (fun c => is_digit c = true) ds ->
  match t with c :: _ => is_digit c = false | [] => True end ->
  span_digits (ds ++ t) = (ds, t).
Proof.
  intros H Ht. induction H as [|d r Hd _ IH]; simpl.
  - destruct t as [|c t]; [done|]. simpl. by rewrite Ht.
  - by rewrite Hd, IH.
Qed.

(** ** Decimal to binary, correctly rounded *)

(** The number nearest to [m * 10^e]. Magnitudes far beyond the range of
    binary64 are decided before any power of ten is computed. *)
Definition dec2num (neg : bool) (m : N) (e : Z) : num :=
  match m with
  | N0 => S754_zero neg
  | Npos p =>
      if 0 <=? e then
        if 400 <? e then S754_infinity neg
        else binary_normalize prec emax (cond_Zopp neg (Zpos p * 10 ^ e)) 0 neg
      else if Z.of_nat (length (digits m)) + e <? -400 then S754_zero neg
      else ndiv (S754_finite neg p 0) (S754_finite false (Z.to_pos (10 ^ (- e))) 0)
  end.

(** ** The decimal grammar of [Number], [parseFloat] and JSON *)

Definition c_dot : N := 46.
Definition c_minus : N := 45.
Definition c_plus : N := 43.

(** An exponent part, zero when there is none; [None] when it has no digits. *)
Definition exp_part (s : jstr) : option (Z * jstr) :=
  match s with
  | c :: r =>
      if (c =? 101)%N || (c =? 69)%N then
        let '(neg, r1) := match r with
          | d :: r' => if (d =? c_minus)%N then (true, r') else if (d =? c_plus)%N then (false, r') else (false, r)
          | [] => (false, r)
          end in
        match span_digits r1 with
        | ([], _) => None
        | (ds, t) => Some (cond_Zopp neg (Z.of_N (digits_value 0 ds)), t)
        end
      else Some (0, s)
  | [] => Some (0, [])
  end.

(** An unsigned decimal literal at the start of [s]. *)
Definition dec_literal (neg : bool) (s : jstr) : option (num * jstr) :=
  let '(ip, r) := span_digits s in
  let '(fp, r') := match r with
    | c :: t => if (c =? c_dot)%N then let '(f, u) := span_digits t in
                  match ip, f with [], [] => ([], r) | _, _ => (f, u) end
                else ([], r)
    | [] => ([], [])
    end in
  match ip ++ fp with
  | [] => None
  | ds =>
      let '(e, t) := default (0, r') (exp_part r') in
      Some (dec2num neg (digits_value 0 ds) (e - Z.of_nat (length fp)), t)
  end.

Definition infinity_literal (neg : bool) (s : jstr) : option (num * jstr) :=
  if starts_with (js "Infinity") s then Some (S754_infinity neg, drop 8 s) else None.

(** The longest [StrDecimalLiteral] at the start of [s]. *)
Definition str_decimal (s : jstr) : option (num * jstr) :=
  let '(neg, r) := match s with
    | c :: t => if (c =? c_minus)%N then (true, t) else if (c =? c_plus)%N then (false, t) else (false, s)
    | [] => (false, [])
    end in
  match infinity_literal neg r with
  | Some x => Some x
  | None => dec_literal neg r
  end.

(** [parseFloat(s)] *)
Definition parseFloat (s : jstr) : num :=
  match str_decimal (trim_start s) with Some (x, _) => x | None => NaN end.

(** Digits of another radix. *)
Definition radix_digit (c : N) : option N :=
  if is_digit c then Some (c - 48)%N
  else if (97 <=? c)%N && (c <=? 122)%N then Some (c - 87)%N
  else if (65 <=? c)%N && (c <=? 90)%N then Some (c - 55)%N
  else None.

Fixpoint radix_prefix (radix : N) (s : jstr) : list N * jstr :=
  match s with
  | c :: r =>
      match radix_digit c with
      | Some d => if (d <? radix)%N then let '(ds, t) := radix_prefix radix r in (d :: ds, t) else ([], s)
      | None => ([], s)
      end
  | [] => ([], [])
  end.

Definition radix_value (radix : N) (ds : list N) : N := foldl (fun a d => a * radix + d)%N 0%N ds.

(** [Number(s)] *)
Definition Number (s : jstr) : num :=
  match trim s with
  | [] => S754_zero false
  | t =>
      let radix := match t with
        | z :: x :: r =>
            if (z =? 48)%N then
              if (x =? 120)%N || (x =? 88)%N then Some (16%N, r)
              else if (x =? 111)%N || (x =? 79)%N then Some (8%N, r)
              else if (x =? 98)%N || (x =? 66)%N then Some (2%N, r)
              else None
            else None
        | _ => None
        end in
      match radix with
      | Some (b, r) =>
          match radix_prefix b r with
          | (_ :: _ as ds, []) => num_of_Z (Z.of_N (radix_value b ds))
          | _ => NaN
          end
      | None =>
          match str_decimal t with
          | Some (x, []) => x
          | _ => NaN
          end
      end
  end.

(** [parseInt(s)] with no radix. *)
Definition parseInt (s : jstr) : num :=
  let t := trim_start s in
  let '(neg, r) := match t with
    | c :: u => if (c =? c_minus)%N then (true, u) else if (c =? c_plus)%N then (false, u) else (false, t)
    | [] => (false, [])
    end in
  let '(radix, r') := match r with
    | z :: x :: u => if (z =? 48)%N && ((x =? 120)%N || (x =? 88)%N) then (16%N, u) else (10%N, r)
    | _ => (10%N, r)
    end in
  match radix_prefix radix r' with
  | ([], _) => NaN
  | (ds, _) =>
      match radix_value radix ds with
      | N0 => S754_zero neg
      | v => num_of_Z (cond_Zopp neg (Z.of_N v))
      end
  end.

(** ** Binary to decimal *)

(** [m * 2^e >= 10^n] *)
Definition ge_pow10 (m e n : Z) : bool :=
  10 ^ Z.max n 0 * 2 ^ Z.max (- e) 0 <=? m * 2 ^ Z.max e 0 * 10 ^ Z.max (- n) 0.

(** The [n] with [10^(n-1) <= m * 2^e < 10^n]: an estimate from the binary
    exponent, corrected by at most one. *)
Definition dec_exponent (m : positive) (e : Z) : Z :=
  let n0 := ((Zpos (digits2_pos m) + e - 1) * 30103) / 100000 + 1 in
  if ge_pow10 (Zpos m) e n0 then n0 + 1
  else if ge_pow10 (Zpos m) e (n0 - 1) then n0 else n0 - 1.

(** The quotient and the remainder of [m * 2^e / 10^j], over the divisor. *)
Definition scaled (m : positive) (e j : Z) : Z * Z * Z :=
  let d := 2 ^ Z.max (- e) 0 * 10 ^ Z.max j 0 in
  let n := Zpos m * 2 ^ Z.max e 0 * 10 ^ Z.max (- j) 0 in
  (n / d, n mod d, d).

(** Drop the trailing zeros of a digit sequence given in reverse, counting them. *)
Fixpoint strip_zeros (rev_ds : jstr) (j : Z) : jstr * Z :=
  match rev_ds with
  | c :: r => if (c =? 48)%N then strip_zeros r (j + 1) else (rev_ds, j)
  | [] => ([], j)
  end.

Definition normalize (s : Z) (j : Z) : N * Z :=
  let '(rds, j') := strip_zeros (reverse (digits (Z.to_N s))) j in (digits_value 0 (reverse rds), j').

(** The [k]-digit decimal closest to [m * 2^e] that reads back as it, if any. *)
Definition try_digits (m : positive) (e n : Z) (k : nat) : option (N * Z) :=
  let j := n - Z.of_nat k in
  let '(q, r, d) := scaled m e j in
  let x := S754_finite false m e in
  let ok c := bool_decide (dec2num false c.1 c.2 = x) in
  let near := normalize (if 2 * r <? d then q else q + 1) j in
  let far := normalize (if 2 * r <? d then q + 1 else q) j in
  if ok near then Some near else if ok far then Some far else None.

Fixpoint shortest_from (m : positive) (e n : Z) (k fuel : nat) : option (N * Z) :=
  match try_digits m e n k with
  | Some c => Some c
  | None => match fuel with O => None | S f => shortest_from m e n (S k) f end
  end.

(** The shortest decimal [s * 10^j] that reads back as [m * 2^e]; 17 digits
    are enough for every binary64 value. *)
Definition shortest (m : positive) (e : Z) : option (N * Z) :=
  shortest_from m e (dec_exponent m e) 1 16.

Lemma try_digits_sound m e n k c :
  try_digits m e n k = Some c -> dec2num false c.1 c.2 = S754_finite false m e.
Proof.
  unfold try_digits. destruct (scaled m e (n - Z.of_nat k)) as [[q r] d].
  destruct (bool_decide _) eqn:E; [intros [= <-]; by to_prop|].
  destruct (bool_decide (dec2num false (normalize (if 2 * r <? d then q + 1 else q) _).1 _ = _)) eqn:E';
    [intros [= <-]; by to_prop | done].
Qed.

Lemma shortest_from_sound m e n k fuel c :
  shortest_from m e n k fuel = Some c -> dec2num false c.1 c.2 = S754_finite false m e.
Proof.
  revert k. induction fuel as [|f IH]; intros k; simpl;
    (destruct (try_digits m e n k) as [t|] eqn:E; [intros [= <-]; by eapply try_digits_sound|]); [done|].
  apply IH.
Qed.

(** The printed decimal reads back as the number. *)
Lemma shortest_sound m e s j : shortest m e = Some (s, j) -> dec2num false s j = S754_finite false m e.
Proof. intros H. by apply shortest_from_sound in H. Qed.

Definition zeros (k : Z) : jstr := replicate (Z.to_nat k) 48%N.

Definition Z_str (z : Z) : jstr :=
  if z <? 0 then c_minus :: digits (Z.to_N (- z)) else digits (Z.to_N z).

(** The layout of [Number::toString] for the digits [ds] of [0.ds * 10^n]. *)
Definition layout (ds : jstr) (n : Z) : jstr :=
  let k := Z.of_nat (length ds) in
  if (k <=? n) && (n <=? 21) then ds ++ zeros (n - k)
  else if (0 <? n) && (n <=? 21) then take (Z.to_nat n) ds ++ [c_dot] ++ drop (Z.to_nat n) ds
  else if (-6 <? n) && (n <=? 0) then js "0." ++ zeros (- n) ++ ds
  else
    let e := n - 1 in
    take 1 ds ++ (if k =? 1 then [] else c_dot :: drop 1 ds)
    ++ [101%N; if e <? 0 then c_minus else c_plus] ++ digits (Z.to_N (Z.abs e)).

Definition pos_str (m : positive) (e : Z) : jstr :=
  let '(s, j) := default (Npos m, e) (shortest m e) in
  layout (digits s) (j + Z.of_nat (length (digits s))).

(** [String(x)] on a number. *)
Definition num_str (x : num) : jstr :=
  match x with
  | S754_nan => js "NaN"
  | S754_zero _ => js "0"
  | S754_infinity s => if s then js "-Infinity" else js "Infinity"
  | S754_finite s m e => (if s then [c_minus] else []) ++ pos_str m e
  end.

(** The integer nearest to [m * 2^e * 10^f], halves up. *)
Definition fixed_int (m : positive) (e : Z) (f : nat) : Z :=
  let '(q, r, d) := scaled m e (- Z.of_nat f) in
  if 2 * r <? d then q else q + 1.

(** The digits of [n / 10^f]. *)
Definition fixed_digits (n : Z) (f : nat) : jstr :=
  match f with
  | O => digits (Z.to_N n)
  | _ =>
      let ds := digits (Z.to_N n) in
      let ds' := replicate (S f - length ds) 48%N ++ ds in
      take (length ds' - f) ds' ++ [c_dot] ++ drop (length ds' - f) ds'
  end.

(** [x.toFixed(f)] *)
Definition toFixed (x : num) (f : nat) : jstr :=
  match x with
  | S754_zero _ => fixed_digits 0 f
  | S754_finite s m e =>
      if ge_pow10 (Zpos m) e 21 then num_str x
      else (if s then [c_minus] else []) ++ fixed_digits (fixed_int m e f) f
  | _ => num_str x
  end.

(** [toFixed] rounds to the nearest multiple of [10^-f]: with [n] the integer
    whose digits are printed, [2 |n - x * 10^f| <= 1], over the common divisor. *)
Lemma fixed_int_nearest m e f :
  let '(q, r, d) := scaled m e (- Z.of_nat f) in
  0 < d /\ 2 * Z.abs (fixed_int m e f * d - (q * d + r)) <= d
  /\ q * d + r = Zpos m * 2 ^ Z.max e 0 * 10 ^ Z.max (Z.of_nat f) 0.
Proof.
  unfold fixed_int, scaled. rewrite Z.opp_involutive.
  set (d := 2 ^ Z.max (- e) 0 * 10 ^ Z.max (- Z.of_nat f) 0).
  set (n := Zpos m * 2 ^ Z.max e 0 * 10 ^ Z.max (Z.of_nat f) 0).
  assert (0 < d) as Hd by (unfold d; apply Z.mul_pos_pos; apply Z.pow_pos_nonneg; lia).
  pose proof (Z.div_mod n d ltac:(lia)) as Hn. pose proof (Z.mod_pos_bound n d Hd) as Hr.
  split; [done|]. split; [|lia].
  destruct (Z.ltb_spec (2 * (n mod d)) d); lia.
Qed.

(** Exactly [f] digits follow the point. *)
Lemma fixed_digits_length n f :
  f <> O -> exists ip fp, fixed_digits n f = ip ++ c_dot :: fp /\ length fp = f /\ ip <> [].
Proof.
  intros Hf. destruct f as [|f]; [done|].
  unfold fixed_digits. set (ds := digits (Z.to_N n)).
  set (ds' := replicate (S (S f) - length ds) 48%N ++ ds).
  assert (S (S f) <= length ds')%nat as Hl
    by (unfold ds'; rewrite length_app, length_replicate; lia).
  exists (take (length ds' - S f) ds'), (drop (length ds' - S f) ds'). split; [done|]. split.
  - rewrite length_drop. lia.
  - intros E%(f_equal length). rewrite length_take in E. simpl in E. lia.
Qed.

(** ** JSON numbers *)

(** The integer part of a JSON number: [0], or digits that do not start with [0]. *)
Definition json_int (ip : jstr) : bool :=
  match ip with
  | [] => false
  | [_] => true
  | c :: _ => negb (c =? 48)%N
  end.

(** The fraction of a JSON number: nothing, or a point and at least one digit. *)
Definition json_frac (s : jstr) : option (jstr * jstr) :=
  match s with
  | c :: t =>
      if (c =? c_dot)%N then
        match span_digits t with ([], _) => None | (f, u) => Some (f, u) end
      else Some ([], s)
  | [] => Some ([], [])
  end.

(** A JSON number at the start of [s], after its sign. *)
Definition json_unsigned (neg : bool) (r : jstr) : option (num * jstr) :=
  let '(ip, r1) := span_digits r in
  if json_int ip then
    '(fp, r2) ← json_frac r1;
    '(e, t) ← exp_part r2;
    Some (dec2num neg (digits_value 0 (ip ++ fp)) (e - Z.of_nat (length fp)), t)
  else None.

Definition json_number (s : jstr) : option (num * jstr) :=
  match s with
  | c :: t => if (c =? c_minus)%N then json_unsigned true t else json_unsigned false s
  | [] => None
  end.

(** Numbers that [JSON.stringify] prints so that they can be read back: zero
    with positive sign, and finite numbers with a decimal of 17 digits. *)
Definition printable (x : num) : bool :=
  match x with
  | S754_zero s => negb s
  | S754_finite _ m e => match shortest m e with Some _ => true | None => false end
  | _ => false
  end.

Lemma binary_round_aux_opp m e l :
  binary_round_aux prec emax true m e l = SFopp (binary_round_aux prec emax false m e l).
Proof.
  unfold binary_round_aux. destruct (shr_fexp prec emax m e l) as [mrs e1].
  destruct (shr_fexp prec emax (round_nearest_even (shr_m mrs) (loc_of_shr_record mrs)) e1 loc_Exact) as [mrs' e2].
  destruct (shr_m mrs'); try done. by destruct (e2 <=? emax - prec).
Qed.

Lemma dec2num_opp m e : dec2num true m e = SFopp (dec2num false m e).
Proof.
  unfold dec2num. destruct m as [|p]; [done|].
  destruct (Z.leb_spec 0 e) as [He|He].
  - destruct (400 <? e); [done|]. unfold cond_Zopp.
    destruct (Zpos p * 10 ^ e) as [|q|q] eqn:E;
      [pose proof (Z.pow_pos_nonneg 10 e); lia | | pose proof (Z.pow_pos_nonneg 10 e); lia].
    simpl. unfold binary_round. destruct (shl_align _ _ _). apply binary_round_aux_opp.
  - destruct (_ <? -400); [done|]. unfold ndiv. cbn [SFdiv xorb].
    destruct (SFdiv_core_binary _ _ _ _ _ _) as [[mz ez] lz]. apply binary_round_aux_opp.
Qed.

(** A decimal without exponent may carry its power of ten as zeros. *)
Lemma dec2num_shift neg m j :
  0 <= j <= 400 -> dec2num neg (m * Z.to_N (10 ^ j)) 0 = dec2num neg m j.
Proof.
  intros Hj. pose proof (Z.pow_pos_nonneg 10 j ltac:(lia) ltac:(lia)) as H10.
  destruct m as [|p]; [done|].
  destruct (Npos p * Z.to_N (10 ^ j))%N as [|q] eqn:E; [lia|].
  unfold dec2num. rewrite (proj2 (Z.leb_le 0 j)), (proj2 (Z.ltb_ge 400 j)) by lia.
  change (0 <=? 0) with true. change (400 <? 0) with false. cbn [negb].
  replace (Zpos q * 10 ^ 0) with (Zpos p * 10 ^ j); [done|].
  rewrite Z.pow_0_r, Z.mul_1_r. change (Zpos q) with (Z.of_N (Npos q)). rewrite <- E.
  rewrite N2Z.inj_mul, Z2N.id by lia. done.
Qed.

Lemma digits_fuel_head fuel n acc :
  (0 < n < 2 ^ N.of_nat fuel)%N -> exists d r, digits_fuel fuel n acc = d :: r /\ d <> 48%N.
Proof.
  revert n acc. induction fuel as [|f IH]; intros n acc Hn; [simpl in Hn; lia|].
  rewrite Nat2N.inj_succ, N.pow_succ_r' in Hn. simpl. destruct (N.ltb_spec n 10) as [H|H].
  - rewrite N.mod_small by done. eexists _, _. split; [done|]. lia.
  - apply IH. split; [apply N.div_str_pos; lia|]. apply N.Div0.div_lt_upper_bound. lia.
Qed.

Lemma digits_head n : (0 < n)%N -> exists d r, digits n = d :: r /\ d <> 48%N.
Proof.
  intros H. apply digits_fuel_head. split; [done|].
  pose proof (N.size_gt n). rewrite Nat2N.inj_succ, N2Nat.id, N.pow_succ_r'. lia.
Qed.

Lemma digits_value_zeros ds k :
  0 <= k -> digits_value 0 (ds ++ zeros k) = (digits_value 0 ds * Z.to_N (10 ^ k))%N.
Proof.
  intros Hk. rewrite digits_value_app, digits_value_acc. unfold zeros. rewrite length_replicate.
  assert (forall i, digits_value 0 (replicate i 48%N) = 0%N) as ->.
  { intros i. induction i as [|i IH]; [done|]. simpl. exact IH. }
  rewrite N.add_0_r. f_equal. rewrite Z_nat_N. by rewrite Z2N.inj_pow by lia.
Qed.

Lemma zeros_digit k : Forall (fun c => is_digit c = true) (zeros k).
Proof. apply Forall_replicate. done. Qed.

Lemma digits_value_lead0 k ds : digits_value 0 (zeros k ++ ds) = digits_value 0 ds.
Proof.
  unfold zeros. induction (Z.to_nat k) as [|i IH]; [done|]. simpl. exact IH.
Qed.

(** What may follow a number without being read as a part of it. *)
Definition num_end (t : jstr) : Prop :=
  match t with
  | [] => True
  | c :: _ => is_digit c = false /\ c <> c_dot /\ c <> 101%N /\ c <> 69%N
  end.

Lemma num_end_span t : num_end t -> match t with c :: _ => is_digit c = false | [] => True end.
Proof. by destruct t as [|c t]; [|intros (? & _)]. Qed.

Lemma num_end_frac t : num_end t -> json_frac t = Some ([], t).
Proof.
  destruct t as [|c t]; [done|]. intros (_ & H & _). simpl.
  by rewrite (proj2 (N.eqb_neq _ _) H).
Qed.

Lemma num_end_exp t : num_end t -> exp_part t = Some (0, t).
Proof.
  destruct t as [|c t]; [done|]. intros (_ & _ & H1 & H2). simpl.
  by rewrite (proj2 (N.eqb_neq _ _) H1), (proj2 (N.eqb_neq _ _) H2).
Qed.

Lemma json_frac_digits fp t :
  fp <> [] -> Forall (fun c => is_digit c = true) fp ->
  match t with c :: _ => is_digit c = false | [] => True end ->
  json_frac (c_dot :: fp ++ t) = Some (fp, t).
Proof.
  intros Hne Hd Ht. simpl. rewrite (span_digits_app fp t Hd Ht). by destruct fp.
Qed.

Lemma exp_part_digits e t :
  num_end t ->
  exp_part (101%N :: (if e <? 0 then c_minus else c_plus) :: digits (Z.to_N (Z.abs e)) ++ t) = Some (e, t).
Proof.
  intros Ht. set (ds := digits (Z.to_N (Z.abs e))).
  assert (span_digits (ds ++ t) = (ds, t)) as Hs
    by (apply span_digits_app; [apply digits_digit | by apply num_end_span]).
  assert (Z.of_N (digits_value 0 ds) = Z.abs e) as Hv by (unfold ds; rewrite digits_roundtrip; lia).
  assert (exists d r, ds = d :: r) as (d & r & E)
    by (pose proof (digits_nonempty (Z.to_N (Z.abs e))); destruct (digits _) eqn:?; [done|]; by eexists _, _).
  unfold exp_part. cbn [orb]. change (101 =? 101)%N with true. cbn [orb].
  destruct (Z.ltb_spec e 0);
    [change (c_minus =? c_minus)%N with true | change (c_plus =? c_minus)%N with false; change (c_plus =? c_plus)%N with true];
    cbv iota beta; rewrite Hs, E; rewrite <- E, Hv; unfold cond_Zopp; do 2 f_equal; lia.
Qed.

(** Reading the parts of a number gives the decimal they spell. *)
Lemma json_unsigned_parts neg ip fp e r2 t u :
  json_int ip = true -> Forall (fun c => is_digit c = true) ip ->
  match r2 with c :: _ => is_digit c = false | [] => True end ->
  json_frac r2 = Some (fp, t) -> exp_part t = Some (e, u) ->
  json_unsigned neg (ip ++ r2)
  = Some (dec2num neg (digits_value 0 (ip ++ fp)) (e - Z.of_nat (length fp)), u).
Proof.
  intros Hi Hd Hr Hf He. unfold json_unsigned.
  rewrite (span_digits_app ip r2 Hd Hr), Hi, Hf. cbn. by rewrite He.
Qed.

Lemma json_int_head ds d r : ds = d :: r -> d <> 48%N -> json_int ds = true.
Proof. intros -> H. simpl. destruct r; [done|]. by rewrite (proj2 (N.eqb_neq _ _) H). Qed.

(** One lemma per branch of [layout], for digits [ds] of a positive number. *)
Section Layout.
Context (neg : bool) (ds : jstr) (d : N) (r : jstr) (t : jstr).
Hypothesis Eds : ds = d :: r.
Hypothesis Hd0 : d <> 48%N.
Hypothesis Hdig : Forall (fun c => is_digit c = true) ds.
Hypothesis Ht : num_end t.
Let k := Z.of_nat (length ds).

Lemma layout_read_int n :
  k <= n <= 21 ->
  json_unsigned neg ((ds ++ zeros (n - k)) ++ t) = Some (dec2num neg (digits_value 0 ds) (n - k), t).
Proof using Type*.
  intros Hn. rewrite (json_unsigned_parts neg (ds ++ zeros (n - k)) [] 0 t t t).
  - rewrite app_nil_r, digits_value_zeros by lia. simpl length.
    rewrite Z.sub_0_r, dec2num_shift by lia. done.
  - rewrite Eds. eapply json_int_head; [by cbn|done].
  - apply Forall_app. split; [done | apply zeros_digit].
  - by apply num_end_span.
  - by apply num_end_frac.
  - by apply num_end_exp.
Qed.

Lemma layout_read_point n :
  0 < n < k ->
  json_unsigned neg ((take (Z.to_nat n) ds ++ [c_dot] ++ drop (Z.to_nat n) ds) ++ t)
  = Some (dec2num neg (digits_value 0 ds) (n - k), t).
Proof using Type*.
  intros Hn. rewrite <- !app_assoc.
  rewrite (json_unsigned_parts neg (take (Z.to_nat n) ds) (drop (Z.to_nat n) ds) 0
             ([c_dot] ++ drop (Z.to_nat n) ds ++ t) t t).
  - rewrite take_drop, length_drop. do 3 f_equal. lia.
  - rewrite Eds. destruct (Z.to_nat n) eqn:En; [lia|]. cbn [take]. eapply json_int_head; done.
  - by apply Forall_take.
  - done.
  - change ([c_dot] ++ ?x) with (c_dot :: x).
    apply json_frac_digits; [|by apply Forall_drop | by apply num_end_span].
    intros E%(f_equal length). rewrite length_drop in E. simpl in E. lia.
  - by apply num_end_exp.
Qed.

Lemma layout_read_lead n :
  n <= 0 ->
  json_unsigned neg ((js "0." ++ zeros (- n) ++ ds) ++ t) = Some (dec2num neg (digits_value 0 ds) (n - k), t).
Proof using Type*.
  intros Hn. change (js "0." ++ zeros (- n) ++ ds) with ([48%N] ++ [c_dot] ++ (zeros (- n) ++ ds)).
  rewrite <- !app_assoc, (app_assoc (zeros _)).
  rewrite (json_unsigned_parts neg [48%N] (zeros (- n) ++ ds) 0 ([c_dot] ++ (zeros (- n) ++ ds) ++ t) t t).
  - change ([48%N] ++ zeros (- n) ++ ds) with (zeros 1 ++ (zeros (- n) ++ ds)).
    rewrite !digits_value_lead0, length_app. unfold zeros. rewrite length_replicate. do 3 f_equal. lia.
  - done.
  - by repeat constructor.
  - done.
  - change ([c_dot] ++ ?x) with (c_dot :: x).
    apply json_frac_digits; [|by apply Forall_app; split; [apply zeros_digit|] | by apply num_end_span].
    rewrite Eds. by destruct (zeros (- n)).
  - by apply num_end_exp.
Qed.

Lemma layout_read_exp n :
  json_unsigned neg
    ((take 1 ds ++ (if k =? 1 then [] else c_dot :: drop 1 ds)
      ++ [101%N; if n - 1 <? 0 then c_minus else c_plus] ++ digits (Z.to_N (Z.abs (n - 1)))) ++ t)
  = Some (dec2num neg (digits_value 0 ds) (n - k), t).
Proof using Type*.
  set (u := [101%N; if n - 1 <? 0 then c_minus else c_plus] ++ digits (Z.to_N (Z.abs (n - 1))) ++ t).
  assert (exp_part u = Some (n - 1, t)) as Hu by apply (exp_part_digits (n - 1) t Ht).
  assert (k = 1 + Z.of_nat (length r)) as Ek by (unfold k; rewrite Eds; simpl length; lia).
  assert (is_digit d = true /\ Forall (fun c => is_digit c = true) r) as [Hd Hr]
    by (rewrite Eds in Hdig; by apply Forall_cons in Hdig).
  rewrite Eds at 1 2. cbn [take drop]. change (take 0 r) with (@nil N). change (drop 0 r) with r. rewrite <- !app_assoc. fold u.
  destruct (Z.eqb_spec k 1) as [E1|E1].
  - assert (r = []) as Er by (apply nil_length_inv; lia). rewrite app_nil_l.
    rewrite (json_unsigned_parts neg [d] [] (n - 1) u u t); try done; [|by repeat constructor].
    rewrite app_nil_r. rewrite Er in Eds. rewrite <- Eds. simpl length. do 3 f_equal. lia.
  - rewrite (json_unsigned_parts neg [d] r (n - 1) ((c_dot :: r) ++ u) u t); try done.
    + change ([d] ++ r) with (d :: r). rewrite <- Eds. do 3 f_equal. lia.
    + by repeat constructor.
    + change ((c_dot :: r) ++ u) with (c_dot :: r ++ u).
      apply json_frac_digits; [|done|done]. intros ->. simpl in Ek. lia.
Qed.

End Layout.

Lemma json_unsigned_layout neg s j t :
  (0 < s)%N -> num_end t ->
  json_unsigned neg (layout (digits s) (j + Z.of_nat (length (digits s))) ++ t) = Some (dec2num neg s j, t).
Proof.
  intros Hs Ht. destruct (digits_head s Hs) as (d & r & Eds & Hd0).
  pose proof (digits_digit s) as Hdig. pose proof (digits_roundtrip s) as Hval.
  set (n := j + Z.of_nat (length (digits s))).
  replace (dec2num neg s j) with (dec2num neg (digits_value 0 (digits s)) (n - Z.of_nat (length (digits s))))
    by (rewrite Hval; f_equal; lia).
  unfold layout. repeat match goal with |- context [if (?a && ?b)%bool then _ else _] => destruct (a && b)%bool eqn:? end.
  - eapply layout_read_int; eauto. lia.
  - eapply layout_read_point; eauto. lia.
  - eapply layout_read_lead; eauto. lia.
  - eapply layout_read_exp; eauto.
Qed.

Lemma layout_head s n : (0 < s)%N -> exists c r, layout (digits s) n = c :: r /\ is_digit c = true.
Proof.
  intros Hs. destruct (digits_head s Hs) as (d & r & E & _).
  pose proof (digits_digit s) as Hd. rewrite E in Hd |- *. apply Forall_cons in Hd as [Hd _].
  unfold layout. repeat match goal with |- context [if ?b then _ else _] => destruct b eqn:? end;
    try (by eexists _, _).
  destruct (Z.to_nat n) eqn:En; [|by eexists _, _]. lia.
Qed.

(** A printed number reads back as itself. *)
Lemma json_number_roundtrip x t :
  printable x = true -> num_end t -> json_number (num_str x ++ t) = Some (x, t).
Proof.
  destruct x as [[]| | |s m e]; try done.
  - intros _ Ht. change (json_unsigned false ([48%N] ++ t) = Some (S754_zero false, t)).
    rewrite (json_unsigned_parts false [48%N] [] 0 t t t); try done.
    + by repeat constructor.
    + by apply num_end_span.
    + by apply num_end_frac.
    + by apply num_end_exp.
  - simpl printable. destruct (shortest m e) as [[n j]|] eqn:E; [|done]. intros _ Ht.
    assert (0 < n)%N as Hn.
    { apply shortest_sound in E. destruct n; [done|lia]. }
    unfold num_str, pos_str. rewrite E. simpl default.
    pose proof (json_unsigned_layout s n j t Hn Ht) as HL.
    assert (dec2num s n j = S754_finite s m e) as Hx.
    { apply shortest_sound in E. destruct s; [by rewrite dec2num_opp, E|done]. }
    rewrite Hx in HL. destruct s; [exact HL|].
    destruct (layout_head n (j + Z.of_nat (length (digits n))) Hn) as (c & r & Ec & Hc).
    rewrite app_nil_l, Ec in *. simpl. unfold is_digit in Hc. to_prop.
    rewrite (proj2 (N.eqb_neq c c_minus)); [exact HL|]. unfold c_minus. lia.
Qed.

(** ** Numerals read back *)

Lemma digit_cases c : is_digit c = true -> c ∈ [48; 49; 50; 51; 52; 53; 54; 55; 56; 57]%N.
Proof. unfold is_digit. intros Hc. to_prop. rewrite !elem_of_cons. lia. Qed.

(** A property of units that holds of the ten digits holds of every digit. *)
Lemma digit_forallb (P : N -> bool) c :
  forallb P [48; 49; 50; 51; 52; 53; 54; 55; 56; 57]%N = true -> is_digit c = true -> P c = true.
Proof. intros HP Hc%digit_cases. rewrite forallb_forall in HP. apply HP. by apply list_elem_of_In. Qed.

Lemma digit_not_ws c : is_digit c = true -> is_ws c = false.
Proof. intros Hc. apply negb_true_iff. apply (digit_forallb (fun c => negb (is_ws c)) c); [reflexivity|done]. Qed.

Lemma trim_start_digits s : Forall (fun c => is_digit c = true) s -> trim_start s = s.
Proof. destruct 1 as [|c r Hc _]; [done|]. simpl. by rewrite digit_not_ws. Qed.

Lemma trim_digits s : Forall (fun c => is_digit c = true) s -> trim s = s.
Proof.
  intros Hs. unfold trim, trim_end. rewrite (trim_start_digits s) by done.
  rewrite trim_start_digits by by apply Forall_reverse. apply reverse_involutive.
Qed.

Lemma digits_plain n d r : digits n = d :: r -> is_digit d = true /\ (d = 48%N -> r = []).
Proof.
  intros E. pose proof (digits_digit n) as Hd. rewrite E in Hd. apply Forall_cons in Hd as [Hd _]. split; [done|].
  intros ->. destruct n as [|p]; [by injection E|].
  destruct (digits_head (Npos p)) as (d & r' & E' & Hn); [lia|]. rewrite E in E'. by injection E' as <- _.
Qed.

Lemma str_decimal_digits n : str_decimal (digits n) = Some (num_of_Z (Z.of_N n), []).
Proof.
  pose proof (digits_nonempty n) as Hne. destruct (digits n) as [|d r] eqn:E; [done|].
  destruct (digits_plain n d r E) as [Hd _]. unfold str_decimal.
  assert ((d =? c_minus)%N = false /\ (d =? c_plus)%N = false /\ (73 =? d)%N = false) as (-> & -> & Hi).
  { split_and!; apply negb_true_iff;
      [apply (digit_forallb (fun c => negb (c =? c_minus)%N) d)|apply (digit_forallb (fun c => negb (c =? c_plus)%N) d)
      |apply (digit_forallb (fun c => negb (73 =? c)%N) d)]; (reflexivity || done). }
  assert (infinity_literal false (d :: r) = None) as ->.
  { unfold infinity_literal. change (js "Infinity") with ([73; 110; 102; 105; 110; 105; 116; 121]%N). cbn [starts_with].
    by rewrite Hi. }
  unfold dec_literal. pose proof (digits_digit n) as Hds. rewrite E in Hds.
  rewrite <- (app_nil_r (d :: r)) at 1. rewrite span_digits_app by done. rewrite app_nil_r. simpl default.
  rewrite <- E, digits_roundtrip. do 2 f_equal. destruct n as [|p]; [done|]. simpl. by rewrite Pos.mul_1_r.
Qed.

(** [Number] and [parseInt] read a numeral as its value, rounded to a double. *)
Lemma Number_digits n : Number (digits n) = num_of_Z (Z.of_N n).
Proof.
  unfold Number. rewrite trim_digits by apply digits_digit. pose proof (digits_nonempty n) as Hne.
  pose proof (str_decimal_digits n) as Hs. destruct (digits n) as [|d r] eqn:E; [done|].
  destruct (digits_plain n d r E) as [Hd H0]. destruct r as [|x r]; [by rewrite Hs|].
  destruct (N.eqb_spec d 48) as [Hz|]; [by specialize (H0 Hz)|]. by rewrite Hs.
Qed.

(** ** Integers are never NaN *)

Lemma shr_1_nonneg r : 0 <= shr_m r -> 0 <= shr_m (shr_1 r).
Proof. destruct r as [m b c]. destruct m as [|[]|]; simpl; lia. Qed.

Lemma iter_shr_nonneg p : forall r, 0 <= shr_m r -> 0 <= shr_m (iter_pos shr_1 p r).
Proof. induction p as [p IH|p IH|]; intros r Hr; simpl; auto using shr_1_nonneg. Qed.

Lemma shr_fexp_nonneg m e l : 0 <= m -> 0 <= shr_m (shr_fexp prec emax m e l).1.
Proof.
  intros Hm. assert (0 <= shr_m (shr_record_of_loc m l)) as Hr by (destruct l as [|[]]; done).
  unfold shr_fexp, shr. case_match; [done|by apply iter_shr_nonneg|done].
Qed.

Lemma binary_round_aux_not_nan s m e l : 0 <= m -> isNaN (binary_round_aux prec emax s m e l) = false.
Proof.
  intros Hm. unfold binary_round_aux. pose proof (shr_fexp_nonneg m e l Hm) as H1.
  destruct (shr_fexp prec emax m e l) as [r1 e1]. simpl in H1.
  assert (0 <= round_nearest_even (shr_m r1) (loc_of_shr_record r1)) as H2.
  { unfold round_nearest_even. repeat case_match; lia. }
  pose proof (shr_fexp_nonneg _ e1 loc_Exact H2) as H3. destruct (shr_fexp prec emax _ e1 loc_Exact) as [r2 e2].
  simpl in H3. destruct (shr_m r2); [done|by case_match|lia].
Qed.

Lemma num_of_Z_not_nan z : isNaN (num_of_Z z) = false.
Proof.
  unfold num_of_Z, binary_normalize. destruct z; [done| |]; unfold binary_round;
    destruct (shl_align _ _ _) as [m e]; by apply binary_round_aux_not_nan.
Qed.

Lemma parseFloat_digits n : parseFloat (digits n) = num_of_Z (Z.of_N n).
Proof. unfold parseFloat. rewrite trim_start_digits by apply digits_digit. by rewrite str_decimal_digits. Qed.
