(* ===== verification/JsDate.v ===== *)
(** Dates as the views use them: the civil calendar of ECMAScript, the ISO text
    of an instant, and the reading of a local date and time. Instants are
    milliseconds since 1970 (UTC). The time zone and the texts outside the ISO
    format are parameters. *)

From S2P Require Import Prelude JsString JsNumber.

Open Scope Z_scope.

(** ** The calendar *)

(** The day on which a year starts. *)
Definition day_from_year (y : Z) : Z :=
  365 * (y - 1970) + (y - 1969) / 4 - (y - 1901) / 100 + (y - 1601) / 400.

Definition leap (y : Z) : bool :=
  (y mod 4 =? 0) && (negb (y mod 100 =? 0) || (y mod 400 =? 0)).

(** The year of a day: an estimate that is off by at most one. *)
Definition year_of_day (d : Z) : Z :=
  let y := 1970 + d * 400 / 146097 in
  if d <? day_from_year y then y - 1 else if day_from_year (y + 1) <=? d then y + 1 else y.

(** The days of a year before a month (0 to 11). *)
Definition month_start (lp : bool) (m : nat) : Z :=
  let l := if lp then 1 else 0 in
  nth m [0; 31; 59 + l; 90 + l; 120 + l; 151 + l; 181 + l; 212 + l; 243 + l; 273 + l; 304 + l; 334 + l; 365 + l] 0.

Fixpoint month_search (lp : bool) (dy : Z) (m : nat) : nat :=
  match m with
  | O => O
  | S m' => if month_start lp m <=? dy then m else month_search lp dy m'
  end.

Definition month_of (lp : bool) (dy : Z) : nat := month_search lp dy 11.

(** Year, month (1 to 12) and day of the month. *)
Definition civil (d : Z) : Z * Z * Z :=
  let y := year_of_day d in
  let dy := d - day_from_year y in
  let m := month_of (leap y) dy in
  (y, Z.of_nat m + 1, dy - month_start (leap y) m + 1).

Definition day_of_civil (y m d : Z) : Z :=
  day_from_year y + month_start (leap y) (Z.to_nat (m - 1)) + d - 1.

Definition days_in_month (y m : Z) : Z :=
  month_start (leap y) (Z.to_nat m) - month_start (leap y) (Z.to_nat (m - 1)).

(** ** Text *)

Definition digit (d : Z) : N := Z.to_N (48 + d).
Definition pad2 (n : Z) : jstr := [digit (n / 10); digit (n mod 10)].
Definition pad3 (n : Z) : jstr := digit (n / 100) :: pad2 (n mod 100).
Definition pad4 (n : Z) : jstr := pad2 (n / 100) ++ pad2 (n mod 100).
Definition pad6 (n : Z) : jstr := pad2 (n / 10000) ++ pad4 (n mod 10000).

Definition year_text (y : Z) : jstr :=
  if (0 <=? y) && (y <=? 9999) then pad4 y
  else if y <? 0 then [c_minus] ++ pad6 (- y) else [c_plus] ++ pad6 y.

Definition ms_per_day : Z := 86400000.

(** The latest instant a [Date] can hold. *)
Definition max_time : Z := 8640000000000000.

(** [date.toISOString()]: a range error ([None]) for an invalid date. *)
Definition toISOString (date : option Z) : option jstr :=
  t ← date;
  if Z.abs t <=? max_time then
    let '(y, m, d) := civil (t / ms_per_day) in
    let ms := t mod ms_per_day in
    Some (year_text y ++ js "-" ++ pad2 m ++ js "-" ++ pad2 d ++ js "T" ++ pad2 (ms / 3600000) ++ js ":"
          ++ pad2 (ms / 60000 mod 60) ++ js ":" ++ pad2 (ms / 1000 mod 60) ++ js "." ++ pad3 (ms mod 1000) ++ js "Z")
  else None.

(** The value of two digits. *)
Definition num2 (a b : N) : option Z :=
  if is_digit a && is_digit b then Some (Z.of_N (a - 48) * 10 + Z.of_N (b - 48)) else None.

(** The text of a [datetime-local] input, as local milliseconds:
    [YYYY-MM-DDTHH:mm], with every component in its range. *)
Definition local_datetime (s : jstr) : option Z :=
  match s with
  | [y1; y2; y3; y4; 45; m1; m2; 45; d1; d2; 84; h1; h2; 58; n1; n2]%N =>
      yh ← num2 y1 y2; yl ← num2 y3 y4; m ← num2 m1 m2; d ← num2 d1 d2; h ← num2 h1 h2; n ← num2 n1 n2;
      let y := yh * 100 + yl in
      if (1 <=? m) && (m <=? 12) && (1 <=? d) && (d <=? days_in_month y m) && (h <=? 23) && (n <=? 59)
      then Some (day_of_civil y m d * ms_per_day + h * 3600000 + n * 60000)
      else None
  | _ => None
  end.

(** The time zone: the offset [getTimezoneOffset() * 60000] at an instant, the
    instant of a local time, and how texts outside the format are read. *)
Class Zone := {
  offset_ms : Z -> Z;
  utc_of_local : Z -> Z;
  other_date : jstr -> option Z;
}.

Section Dates.
Context `{Zone}.

(** [new Date(s)] *)
Definition Date_of (s : jstr) : option Z :=
  match local_datetime s with
  | Some l => Some (utc_of_local l)
  | None => other_date s
  end.

End Dates.

(** ** The calendar is a bijection *)

Lemma day_from_year_next y : day_from_year (y + 1) = day_from_year y + if leap y then 366 else 365.
Proof.
  unfold day_from_year, leap.
  assert ((y + 1 - 1969) / 4 = (y - 1969) / 4 + if y mod 4 =? 0 then 1 else 0) as H4.
  { destruct (Z.eqb_spec (y mod 4) 0); Z.to_euclidean_division_equations; lia. }
  assert ((y + 1 - 1901) / 100 = (y - 1901) / 100 + if y mod 100 =? 0 then 1 else 0) as H100.
  { destruct (Z.eqb_spec (y mod 100) 0); Z.to_euclidean_division_equations; lia. }
  assert ((y + 1 - 1601) / 400 = (y - 1601) / 400 + if y mod 400 =? 0 then 1 else 0) as H400.
  { destruct (Z.eqb_spec (y mod 400) 0); Z.to_euclidean_division_equations; lia. }
  rewrite H4, H100, H400.
  destruct (Z.eqb_spec (y mod 4) 0), (Z.eqb_spec (y mod 100) 0), (Z.eqb_spec (y mod 400) 0); simpl; try lia;
    exfalso; Z.to_euclidean_division_equations; lia.
Qed.

Lemma year_of_day_spec d : day_from_year (year_of_day d) <= d < day_from_year (year_of_day d + 1).
Proof.
  unfold year_of_day. set (y := 1970 + d * 400 / 146097).
  assert (day_from_year (y - 1) <= d < day_from_year (y + 2)) as [Hlo Hhi].
  { unfold day_from_year, y. Z.to_euclidean_division_equations. lia. }
  destruct (Z.ltb_spec d (day_from_year y)); [split; [lia|]; by replace (y - 1 + 1) with y by lia|].
  destruct (Z.leb_spec (day_from_year (y + 1)) d); [|lia]. split; [lia|]. by replace (y + 1 + 1) with (y + 2) by lia.
Qed.

(** Every day of a year lies in the month found for it. *)
Lemma month_of_spec (lp : bool) (dy : Z) : 0 <= dy < (if lp then 366 else 365) ->
  (month_of lp dy <= 11)%nat /\ month_start lp (month_of lp dy) <= dy < month_start lp (S (month_of lp dy)).
Proof.
  intros Hd. unfold month_of. cbn [month_search].
  destruct lp;
    repeat (match goal with |- context [if ?a <=? dy then _ else _] => destruct (Z.leb_spec a dy) end; [cbn in *; lia|]);
    cbn in *; lia.
Qed.

Lemma civil_spec d : let '(y, m, dd) := civil d in
  1 <= m <= 12 /\ 1 <= dd <= days_in_month y m /\ day_of_civil y m dd = d.
Proof.
  unfold civil, days_in_month, day_of_civil. pose proof (year_of_day_spec d) as Hy.
  set (y := year_of_day d) in *. rewrite day_from_year_next in Hy.
  pose proof (month_of_spec (leap y) (d - day_from_year y)) as Hm.
  destruct Hm as [Hm Hs]; [destruct (leap y); lia|].
  set (m := month_of (leap y) (d - day_from_year y)) in *.
  replace (Z.to_nat (Z.of_nat m + 1)) with (S m) by lia. replace (Z.to_nat (Z.of_nat m + 1 - 1)) with m by lia.
  split; [lia|]. split; lia.
Qed.

(** ** Reading back the text of an instant *)

Lemma num2_pad2 n : 0 <= n < 100 -> num2 (digit (n / 10)) (digit (n mod 10)) = Some n.
Proof.
  intros Hn. unfold num2, digit.
  assert (0 <= n / 10 < 10) as H1 by (Z.to_euclidean_division_equations; lia).
  assert (0 <= n mod 10 < 10) as H2 by (apply Z.mod_pos_bound; lia).
  unfold is_digit. repeat match goal with |- context [(?a <=? ?b)%N] => destruct (N.leb_spec a b); [|lia] end.
  simpl. f_equal. rewrite !N2Z.inj_sub, !Z2N.id by lia. pose proof (Z.div_mod n 10). lia.
Qed.

Lemma pad2_units n : pad2 n = [digit (n / 10); digit (n mod 10)].
Proof. done. Qed.

(** The first sixteen units of the ISO text of a four-digit year: date, hours and minutes. *)
Lemma toISOString_minutes t : Z.abs t <= max_time -> 0 <= year_of_day (t / ms_per_day) <= 9999 ->
  exists s, toISOString (Some t) = Some s /\
    let '(y, m, d) := civil (t / ms_per_day) in
    let ms := t mod ms_per_day in
    take 16 s = pad4 y ++ [45%N] ++ pad2 m ++ [45%N] ++ pad2 d ++ [84%N] ++ pad2 (ms / 3600000) ++ [58%N] ++ pad2 (ms / 60000 mod 60).
Proof.
  intros Ht Hy. unfold toISOString. cbn [mbind option_bind]. rewrite (proj2 (Z.leb_le _ _) Ht).
  unfold civil. set (y := year_of_day (t / ms_per_day)) in *.
  eexists. split; [reflexivity|]. unfold year_text.
  rewrite (proj2 (Z.leb_le 0 y)), (proj2 (Z.leb_le y 9999)) by lia. reflexivity.
Qed.

Lemma local_datetime_minutes y m d h n :
  0 <= y <= 9999 -> 1 <= m <= 12 -> 1 <= d <= days_in_month y m -> d <= 31 -> 0 <= h <= 23 -> 0 <= n <= 59 ->
  local_datetime (pad4 y ++ [45%N] ++ pad2 m ++ [45%N] ++ pad2 d ++ [84%N] ++ pad2 h ++ [58%N] ++ pad2 n)
  = Some (day_of_civil y m d * ms_per_day + h * 3600000 + n * 60000).
Proof.
  intros Hy Hm Hd Hd' Hh Hn. unfold pad4. rewrite !pad2_units. cbn [app]. unfold local_datetime.
  rewrite !num2_pad2 by (Z.to_euclidean_division_equations; lia). cbn [mbind option_bind].
  replace (y / 100 * 100 + y mod 100) with y by (Z.to_euclidean_division_equations; lia).
  by rewrite !(proj2 (Z.leb_le _ _)) by lia.
Qed.

Lemma days_in_month_31 y m : 1 <= m <= 12 -> days_in_month y m <= 31.
Proof.
  intros Hm. unfold days_in_month.
  assert (m = 1 \/ m = 2 \/ m = 3 \/ m = 4 \/ m = 5 \/ m = 6 \/ m = 7 \/ m = 8 \/ m = 9 \/ m = 10 \/ m = 11 \/ m = 12) as Hc by lia.
  destruct (leap y); repeat (destruct Hc as [-> |Hc]; [vm_compute; congruence|]); subst; vm_compute; congruence.
Qed.

(** An instant of a four-digit year, read back from its ISO text to the minute. *)
Lemma local_datetime_iso t : Z.abs t <= max_time -> 0 <= year_of_day (t / ms_per_day) <= 9999 ->
  exists s, toISOString (Some t) = Some s /\ local_datetime (take 16 s) = Some (t - t mod 60000).
Proof.
  intros Ht Hy. destruct (toISOString_minutes t Ht Hy) as (s & Hs & Htake). exists s. split; [done|].
  pose proof (civil_spec (t / ms_per_day)) as Hc.
  assert ((civil (t / ms_per_day)).1.1 = year_of_day (t / ms_per_day)) as Ey by done.
  destruct (civil (t / ms_per_day)) as [[y m] d]. destruct Hc as (Hm & Hd & Hday). simpl in Ey. subst y.
  rewrite Htake. pose proof (days_in_month_31 (year_of_day (t / ms_per_day)) m Hm).
  rewrite local_datetime_minutes, Hday; try lia; unfold ms_per_day in *.
  - f_equal. Z.to_euclidean_division_equations. lia.
  - Z.to_euclidean_division_equations. lia.
  - Z.to_euclidean_division_equations. lia.
Qed.

#[export] Hint Resolve local_datetime_iso : js.
