(* ===== verification/Json.v ===== *)
(** JavaScript values that travel as JSON: the value type, property access,
    truthiness and [String], [JSON.stringify] with and without indentation,
    [JSON.parse], and the round trip between the two. *)

From S2P Require Import Prelude JsString JsNumber.
From Stdlib Require Import SpecFloat.

Open Scope N_scope.

(** ** Values *)

Unset Elimination Schemes.

Inductive val :=
| VUndef
| VNull
| VBool (b : bool)
| VNum (n : num)
| VStr (s : jstr)
| VArr (vs : list val)
| VObj (ps : list (jstr * val)).

Set Elimination Schemes.

(** The own properties of a plain object, in property order. *)
Abbreviation jsobj := (list (jstr * val)).

Section ValInd.
Context (P : val -> Prop).
Hypothesis Hundef : P VUndef.
Hypothesis Hnull : P VNull.
Hypothesis Hbool : forall b, P (VBool b).
Hypothesis Hnum : forall n, P (VNum n).
Hypothesis Hstr : forall s, P (VStr s).
Hypothesis Harr : forall vs, Forall P vs -> P (VArr vs).
Hypothesis Hobj : forall ps, Forall (fun p => P p.2) ps -> P (VObj ps).

Fixpoint val_ind (v : val) : P v :=
  match v with
  | VUndef => Hundef
  | VNull => Hnull
  | VBool b => Hbool b
  | VNum n => Hnum n
  | VStr s => Hstr s
  | VArr vs => Harr vs ((fix go l : Forall P l :=
      match l with [] => Forall_nil_2 P | x :: r => Forall_cons_2 P x r (val_ind x) (go r) end) vs)
  | VObj ps => Hobj ps ((fix go l : Forall (fun p => P p.2) l :=
      match l with [] => Forall_nil_2 _ | x :: r => Forall_cons_2 (fun p => P p.2) x r (val_ind x.2) (go r) end) ps)
  end.

End ValInd.

#[global] Instance val_eq_dec : EqDecision val.
Proof.
  refine (fix go (x y : val) : Decision (x = y) :=
    match x, y with
    | VUndef, VUndef => left _
    | VNull, VNull => left _
    | VBool a, VBool b => cast_if (decide (a = b))
    | VNum a, VNum b => cast_if (decide (a = b))
    | VStr a, VStr b => cast_if (decide (a = b))
    | VArr a, VArr b => cast_if (@list_eq_dec val go a b)
    | VObj a, VObj b => cast_if (@list_eq_dec (jstr * val) (@prod_eq_dec _ _ _ go) a b)
    | _, _ => right _
    end); clear go; abstract congruence.
Defined.

(** ** Objects *)

(** An array index as a property key: no leading zero, below 2^32 - 1. *)
Definition key_index (k : jstr) : option N :=
  match k with
  | [] => None
  | c :: r =>
      if forallb is_digit k && (negb (c =? 48) || match r with [] => true | _ => false end) then
        let n := digits_value 0 k in if n <? 4294967295 then Some n else None
      else None
  end.

Fixpoint obj_get (k : jstr) (o : jsobj) : option val :=
  match o with
  | [] => None
  | (k', v) :: r => if str_eq k' k then Some v else obj_get k r
  end.

(** Where a new key goes: index keys first, in ascending order, then the other
    keys in the order they were added. *)
Fixpoint obj_insert (k : jstr) (v : val) (o : jsobj) : jsobj :=
  match o with
  | [] => [(k, v)]
  | (k', v') :: r =>
      match key_index k, key_index k' with
      | Some i, Some j => if i <? j then (k, v) :: o else (k', v') :: obj_insert k v r
      | Some _, None => (k, v) :: o
      | None, _ => (k', v') :: obj_insert k v r
      end
  end.

Fixpoint obj_replace (k : jstr) (v : val) (o : jsobj) : jsobj :=
  match o with
  | [] => []
  | (k', v') :: r => if str_eq k' k then (k', v) :: r else (k', v') :: obj_replace k v r
  end.

(** Define the own property [k]: replaced in place when present. *)
Definition obj_set (o : jsobj) (k : jstr) (v : val) : jsobj :=
  match obj_get k o with
  | Some _ => obj_replace k v o
  | None => obj_insert k v o
  end.

(** The object built by defining the listed properties one after the other. *)
Definition obj_of (ps : list (jstr * val)) : jsobj := foldl (fun o p => obj_set o p.1 p.2) [] ps.

(** [Object.keys(o)] *)
Definition keys (o : jsobj) : list jstr := o.*1.

(** A property read on an object: [undefined] when absent. What an object
    inherits ([constructor], [toString], ...) is not a value of JSON and is not represented. *)
Definition get (o : jsobj) (k : jstr) : val := default VUndef (obj_get k o).

(** ** Truthiness and [String] *)

Definition truthy (v : val) : bool :=
  match v with
  | VUndef | VNull => false
  | VBool b => b
  | VNum n => truthy_num n
  | VStr s => truthy_str s
  | VArr _ | VObj _ => true
  end.

(** [String(v)]. An object that has an own [toString] property (never a
    function, in a value that came from JSON) makes the conversion throw. *)
Fixpoint to_string (v : val) : option jstr :=
  match v with
  | VUndef => Some (js "undefined")
  | VNull => Some (js "null")
  | VBool b => Some (if b then js "true" else js "false")
  | VNum n => Some (num_str n)
  | VStr s => Some s
  | VArr vs =>
      join (js ",") <$>
      (fix go l := match l with
       | [] => Some []
       | x :: r =>
           t ← (match x with VUndef | VNull => Some [] | _ => to_string x end);
           ts ← go r; Some (t :: ts)
       end) vs
  | VObj ps => match obj_get (js "toString") ps with Some _ => None | None => Some (js "[object Object]") end
  end.

(** ** [JSON.stringify] *)

Definition hex_lower (d : N) : N := if d <? 10 then 48 + d else 87 + d.

Definition u_escape (c : N) : jstr :=
  [92; 117; hex_lower (c / 4096); hex_lower ((c / 256) mod 16);
   hex_lower ((c / 16) mod 16); hex_lower (c mod 16)].

(** The escape of a unit below a space, or of a quote or a backslash. *)
Definition quote_unit (c : N) : jstr :=
  if c =? 8 then [92; 98]
  else if c =? 9 then [92; 116]
  else if c =? 10 then [92; 110]
  else if c =? 12 then [92; 102]
  else if c =? 13 then [92; 114]
  else if c =? 34 then [92; 34]
  else if c =? 92 then [92; 92]
  else if c <? 32 then u_escape c
  else [c].

(** Unpaired surrogates are escaped, pairs are kept. *)
Fixpoint quote_body (s : jstr) : jstr :=
  match s with
  | [] => []
  | c :: r =>
      if is_high c then
        match r with
        | d :: r' => if is_low d then c :: d :: quote_body r' else u_escape c ++ quote_body r
        | [] => u_escape c
        end
      else if is_low c then u_escape c ++ quote_body r
      else quote_unit c ++ quote_body r
  end.

Definition quote (s : jstr) : jstr := [34] ++ quote_body s ++ [34].

(** Members between brackets: with an empty gap on one line, otherwise one per
    line behind the indentation of the next level. *)
Definition bracket (gap ind : jstr) (op cl : N) (items : list jstr) : jstr :=
  match items with
  | [] => [op; cl]
  | _ =>
      match gap with
      | [] => op :: join [44] items ++ [cl]
      | _ =>
          let nl := 10 :: ind ++ gap in
          op :: nl ++ join (44 :: nl) items ++ (10 :: ind) ++ [cl]
      end
  end.

Definition is_undef (v : val) : bool := match v with VUndef => true | _ => false end.

(** The text of a value other than [undefined]; [undefined] members of an
    object are left out, [undefined] elements of an array become [null]. *)
Fixpoint ser (gap ind : jstr) (v : val) : jstr :=
  match v with
  | VUndef | VNull => js "null"
  | VBool b => if b then js "true" else js "false"
  | VNum n => match n with S754_nan | S754_infinity _ => js "null" | _ => num_str n end
  | VStr s => quote s
  | VArr vs => bracket gap ind 91 93 (map (ser gap (ind ++ gap)) vs)
  | VObj ps =>
      bracket gap ind 123 125
        ((fix go l := match l with
          | [] => []
          | (k, x) :: r =>
              if is_undef x then go r
              else (quote k ++ [58] ++ (if truthy_str gap then [32] else []) ++ ser gap (ind ++ gap) x) :: go r
          end) ps)
  end.

(** [JSON.stringify(v)] and [JSON.stringify(v, null, 2)] of a defined value. *)
Definition stringify (v : val) : jstr := ser [] [] v.
Definition stringify2 (v : val) : jstr := ser [32; 32] [] v.

(** ** [JSON.parse] *)

Definition is_json_ws (c : N) : bool := (c =? 32) || (c =? 9) || (c =? 10) || (c =? 13).

Fixpoint skip_ws (s : jstr) : jstr :=
  match s with
  | c :: r => if is_json_ws c then skip_ws r else s
  | [] => []
  end.

(** The four hexadecimal digits of a [\u] escape. *)
Definition hex4 (a b c d : N) : option N :=
  a ← unhex a; b ← unhex b; c ← unhex c; d ← unhex d;
  Some (a * 4096 + b * 256 + c * 16 + d).

Definition unescape_char (c : N) : option N :=
  if c =? 34 then Some 34
  else if c =? 92 then Some 92
  else if c =? 47 then Some 47
  else if c =? 98 then Some 8
  else if c =? 102 then Some 12
  else if c =? 110 then Some 10
  else if c =? 114 then Some 13
  else if c =? 116 then Some 9
  else None.

(** The rest of a string literal after its opening quote. *)
Fixpoint parse_chars (s : jstr) : option (jstr * jstr) :=
  match s with
  | [] => None
  | c :: r =>
      if c =? 34 then Some ([], r)
      else if c <? 32 then None
      else if c =? 92 then
        match r with
        | e :: r1 =>
            if e =? 117 then
              match r1 with
              | a :: b :: c' :: d :: r2 =>
                  u ← hex4 a b c' d; '(t, z) ← parse_chars r2; Some (u :: t, z)
              | _ => None
              end
            else u ← unescape_char e; '(t, z) ← parse_chars r1; Some (u :: t, z)
        | [] => None
        end
      else '(t, z) ← parse_chars r; Some (c :: t, z)
  end.

Definition literal (w : jstr) (v : val) (s : jstr) : option (val * jstr) :=
  if starts_with w s then Some (v, drop (length w) s) else None.

(** Recursive descent; the fuel bounds the nesting of the calls. *)
Fixpoint parse_value (fuel : nat) (s : jstr) : option (val * jstr) :=
  match fuel with
  | O => None
  | S f =>
      match skip_ws s with
      | [] => None
      | c :: r =>
          if c =? 123 then
            match skip_ws r with
            | d :: t => if d =? 125 then Some (VObj [], t)
                        else '(ps, t) ← parse_members f r; Some (VObj (obj_of ps), t)
            | [] => None
            end
          else if c =? 91 then
            match skip_ws r with
            | d :: t => if d =? 93 then Some (VArr [], t)
                        else '(vs, t) ← parse_elems f r; Some (VArr vs, t)
            | [] => None
            end
          else if c =? 34 then '(t, z) ← parse_chars r; Some (VStr t, z)
          else if c =? 116 then literal (js "true") (VBool true) (c :: r)
          else if c =? 102 then literal (js "false") (VBool false) (c :: r)
          else if c =? 110 then literal (js "null") VNull (c :: r)
          else '(x, t) ← json_number (c :: r); Some (VNum x, t)
      end
  end
with parse_elems (fuel : nat) (s : jstr) : option (list val * jstr) :=
  match fuel with
  | O => None
  | S f =>
      '(v, t) ← parse_value f s;
      match skip_ws t with
      | c :: u =>
          if c =? 44 then '(vs, z) ← parse_elems f u; Some (v :: vs, z)
          else if c =? 93 then Some ([v], u)
          else None
      | [] => None
      end
  end
with parse_members (fuel : nat) (s : jstr) : option (list (jstr * val) * jstr) :=
  match fuel with
  | O => None
  | S f =>
      match skip_ws s with
      | q :: r =>
          if q =? 34 then
            '(k, t) ← parse_chars r;
            match skip_ws t with
            | c :: u =>
                if c =? 58 then
                  '(v, t') ← parse_value f u;
                  match skip_ws t' with
                  | d :: u' =>
                      if d =? 44 then '(ps, z) ← parse_members f u'; Some ((k, v) :: ps, z)
                      else if d =? 125 then Some ([(k, v)], u')
                      else None
                  | [] => None
                  end
                else None
            | [] => None
            end
          else None
      | [] => None
      end
  end.

(** [JSON.parse(s)]; [None] stands for the [SyntaxError]. *)
Definition parse (s : jstr) : option val :=
  '(v, t) ← parse_value (S (length s)) s;
  match skip_ws t with [] => Some v | _ => None end.

(** ** Round trip *)

(** The values [JSON.stringify] writes without loss: 16-bit units, printable
    numbers, no [undefined], and objects in property order. *)
Definition units_ok (s : jstr) : bool := forallb (fun c => c <? 0x10000) s.

Fixpoint json_ok (v : val) : bool :=
  match v with
  | VUndef => false
  | VNull | VBool _ => true
  | VNum n => printable n
  | VStr s => units_ok s
  | VArr vs => forallb json_ok vs
  | VObj ps => bool_decide (obj_of ps = ps) && forallb (fun p => units_ok p.1 && json_ok p.2) ps
  end.

Definition ws_only (w : jstr) : Prop := Forall (fun c => is_json_ws c = true) w.

Lemma skip_ws_app w c r : ws_only w -> is_json_ws c = false -> skip_ws (w ++ c :: r) = c :: r.
Proof. intros Hw Hc. induction Hw as [|d w' Hd _ IH]; simpl; [by rewrite Hc | by rewrite Hd]. Qed.

Lemma unhex_lower d : d < 16 -> unhex (hex_lower d) = Some d.
Proof.
  intros H. unfold hex_lower, unhex. destruct (N.ltb_spec d 10).
  - replace ((48 <=? 48 + d) && (48 + d <=? 57)) with true
      by (symmetry; apply andb_true_iff; split; apply N.leb_le; lia). f_equal. lia.
  - replace ((48 <=? 87 + d) && (87 + d <=? 57)) with false
      by (symmetry; apply andb_false_iff; right; apply N.leb_gt; lia).
    replace ((65 <=? 87 + d) && (87 + d <=? 70)) with false
      by (symmetry; apply andb_false_iff; right; apply N.leb_gt; lia).
    replace ((97 <=? 87 + d) && (87 + d <=? 102)) with true
      by (symmetry; apply andb_true_iff; split; apply N.leb_le; lia). f_equal. lia.
Qed.

Lemma nibbles c : c = c / 4096 * 4096 + (c / 256) mod 16 * 256 + (c / 16) mod 16 * 16 + c mod 16.
Proof.
  pose proof (N.div_mod c 16 ltac:(lia)). pose proof (N.div_mod (c / 16) 16 ltac:(lia)).
  pose proof (N.div_mod (c / 16 / 16) 16 ltac:(lia)).
  rewrite !N.Div0.div_div in *. change (16 * 16) with 256 in *. change (256 * 16) with 4096 in *. lia.
Qed.

Lemma parse_chars_escape c z s t :
  c < 0x10000 -> parse_chars z = Some (s, t) -> parse_chars (u_escape c ++ z) = Some (c :: s, t).
Proof.
  intros Hc Hz. unfold u_escape. simpl.
  change ((u ← hex4 (hex_lower (c / 4096)) (hex_lower ((c / 256) mod 16)) (hex_lower ((c / 16) mod 16)) (hex_lower (c mod 16));
           '(t', z') ← parse_chars z; Some (u :: t', z')) = Some (c :: s, t)).
  unfold hex4. rewrite !unhex_lower by (apply N.Div0.div_lt_upper_bound || apply N.mod_lt; lia).
  cbn. rewrite Hz. cbn. by rewrite <- nibbles.
Qed.

(** A unit that a string literal holds as it is. *)
Definition plain (c : N) : Prop := 32 <= c /\ c <> 34 /\ c <> 92.

Lemma parse_chars_plain c z s t :
  plain c -> parse_chars z = Some (s, t) -> parse_chars (c :: z) = Some (c :: s, t).
Proof.
  intros (H1 & H2 & H3) Hz. simpl.
  rewrite (proj2 (N.eqb_neq c 34) H2), (proj2 (N.ltb_ge c 32) H1), (proj2 (N.eqb_neq c 92) H3), Hz. done.
Qed.

Lemma parse_chars_unit c z s t :
  c < 0x10000 -> parse_chars z = Some (s, t) -> parse_chars (quote_unit c ++ z) = Some (c :: s, t).
Proof.
  intros Hc Hz. unfold quote_unit.
  repeat match goal with
  | |- context [if ?a =? ?b then _ else _] => destruct (N.eqb_spec a b) as [->|?]; [simpl; by rewrite Hz|]
  end.
  destruct (N.ltb_spec c 32); [by apply parse_chars_escape|].
  apply parse_chars_plain; [|done]. by repeat split.
Qed.

Lemma parse_quote_body s t : wf_str s -> parse_chars (quote_body s ++ 34 :: t) = Some (s, t).
Proof.
  induction s as [|c|c d r IHr IHd] using jstr_ind2; intros Hwf; [done|..];
    apply Forall_cons in Hwf as [Hc Hwf].
  - simpl. destruct (is_high c), (is_low c); rewrite ?app_nil_r;
      first [by apply parse_chars_escape | by apply parse_chars_unit].
  - pose proof Hwf as Hwf'. apply Forall_cons in Hwf' as [Hd Hr].
    change (quote_body (c :: d :: r)) with
      (if is_high c then if is_low d then c :: d :: quote_body r else u_escape c ++ quote_body (d :: r)
       else if is_low c then u_escape c ++ quote_body (d :: r) else quote_unit c ++ quote_body (d :: r)).
    destruct (is_high c) eqn:Eh; [destruct (is_low d) eqn:El|destruct (is_low c)]; rewrite <- ?app_assoc.
    + unfold is_high, is_low in *. to_prop.
      change ((c :: d :: quote_body r) ++ 34 :: t) with (c :: d :: (quote_body r ++ 34 :: t)).
      by apply parse_chars_plain; [split; [lia|lia]|apply parse_chars_plain; [split; [lia|lia]|auto]].
    + apply parse_chars_escape; auto.
    + apply parse_chars_escape; auto.
    + apply parse_chars_unit; auto.
Qed.

Lemma forallb_Forall {A} (f : A -> bool) l : forallb f l = true <-> Forall (fun x => f x = true) l.
Proof.
  induction l as [|x r IH]; simpl; [by split|].
  rewrite andb_true_iff, IH, Forall_cons. done.
Qed.

Lemma units_ok_wf s : units_ok s = true -> wf_str s.
Proof.
  unfold units_ok. rewrite forallb_Forall. intros H. eapply Forall_impl; [exact H|]. intros c. apply N.ltb_lt.
Qed.

Lemma parse_quote s t : units_ok s = true -> parse_chars (quote_body s ++ [34] ++ t) = Some (s, t).
Proof. intros H%units_ok_wf. by apply parse_quote_body. Qed.

Section RoundTrip.
Context (gap : jstr).
Hypothesis gap_ws : ws_only gap.

(** Reading the text of [v] wherever it stands gives [v]; the fuel needed is
    bounded by the length of the text. *)
Definition reads (v : val) : Prop := forall f ind w t,
  ws_only ind -> ws_only w -> num_end t -> (length (ser gap ind v) <= f)%nat ->
  parse_value f (w ++ ser gap ind v ++ t) = Some (v, t).

Lemma num_end_ws w c t : ws_only w -> num_end (c :: t) -> num_end (w ++ c :: t).
Proof.
  destruct w as [|d w]; [done|]. intros [Hd _]%Forall_cons _. simpl.
  unfold is_json_ws in Hd. unfold is_digit, c_dot. rewrite !orb_true_iff, !N.eqb_eq in Hd.
  split; [|lia]. apply andb_false_iff. rewrite !N.leb_gt. lia.
Qed.

(** A comma and the closing brackets end a number. *)
Lemma num_end_punct c t : c = 44 \/ c = 93 \/ c = 125 -> num_end (c :: t).
Proof. intros [-> | [-> | ->]]; by repeat split. Qed.

Lemma parse_elems_read ind vs :
  vs <> [] -> Forall reads vs -> ws_only ind ->
  forall f w nl w' t, ws_only w -> ws_only nl -> ws_only w' ->
  (length (join (44%N :: nl) (map (ser gap ind) vs)) < f)%nat ->
  parse_elems f (w ++ join (44 :: nl) (map (ser gap ind) vs) ++ w' ++ 93 :: t) = Some (vs, t).
Proof using gap_ws.
  intros Hne Hvs Hind. induction Hvs as [|v vs Hv Hvs IH]; [done|].
  intros f w nl w' t Hw Hnl Hw' Hf. destruct f as [|f]; [lia|]. destruct vs as [|v2 vs].
  - simpl in *. rewrite Hv; [|done..| |lia].
    + cbn. by rewrite skip_ws_app.
    + apply num_end_ws; [done|]. apply num_end_punct. lia.
  - change (join (44 :: nl) (map (ser gap ind) (v :: v2 :: vs)))
      with (ser gap ind v ++ (44 :: nl) ++ join (44 :: nl) (map (ser gap ind) (v2 :: vs))) in *.
    rewrite !length_app in Hf. cbn [length] in Hf.
    cbn [parse_elems]. rewrite <- !app_assoc.
    rewrite Hv; [|done|done|by apply num_end_punct; lia|lia].
    cbn [mbind option_bind]. change (skip_ws ((44 :: nl) ++ ?x)) with (44 :: nl ++ x).
    cbn -[join map parse_elems ser]. rewrite IH; [done|done|done|done|done|lia].
Qed.

(** The text of the members of an object. *)
Definition member (ind : jstr) (p : jstr * val) : jstr :=
  quote p.1 ++ [58] ++ (if truthy_str gap then [32] else []) ++ ser gap ind p.2.

Lemma ser_obj ind ps :
  Forall (fun p => is_undef p.2 = false) ps ->
  ser gap ind (VObj ps) = bracket gap ind 123 125 (map (member (ind ++ gap)) ps).
Proof using Type.
  intros H. simpl. f_equal. induction H as [|[k v] ps Hv _ IH]; [done|].
  simpl in Hv |- *. by rewrite Hv, IH.
Qed.

Lemma parse_member_read f ind w k v t :
  reads v -> units_ok k = true -> ws_only ind -> ws_only w -> num_end t ->
  (length (member ind (k, v)) <= f)%nat ->
  exists r u z, skip_ws (w ++ member ind (k, v) ++ t) = 34 :: r
    /\ parse_chars r = Some (k, u) /\ skip_ws u = 58 :: z /\ parse_value f z = Some (v, t).
Proof using gap_ws.
  intros Hv Hk Hind Hw Ht Hf. unfold member, quote in *. cbn [fst snd] in *.
  eexists _, _, _. split; [|split; [|split]].
  - rewrite <- !app_assoc. change ([34] ++ ?x) with (34 :: x). by apply skip_ws_app.
  - by apply parse_quote.
  - by cbn.
  - apply Hv; [done| |done|].
    + destruct (truthy_str gap); by repeat constructor.
    + rewrite !length_app in Hf. lia.
Qed.

Lemma parse_members_read ind ps :
  ps <> [] -> Forall (fun p => units_ok p.1 = true /\ reads p.2) ps -> ws_only ind ->
  forall f w nl w' t, ws_only w -> ws_only nl -> ws_only w' ->
  (length (join (44%N :: nl) (map (member ind) ps)) < f)%nat ->
  parse_members f (w ++ join (44 :: nl) (map (member ind) ps) ++ w' ++ 125 :: t) = Some (ps, t).
Proof using gap_ws.
  intros Hne Hps Hind. induction Hps as [|[k v] ps [Hk Hv] Hps IH]; [done|].
  intros f w nl w' t Hw Hnl Hw' Hf. destruct f as [|f]; [lia|].
  cbn [fst snd] in Hk, Hv. destruct ps as [|p2 ps].
  - simpl join in *. simpl map in *.
    destruct (parse_member_read f ind w k v (w' ++ 125 :: t)) as (r & u & z & E1 & E2 & E3 & E4);
      [done..| |simpl in *; lia|].
    { apply num_end_ws; [done|]. apply num_end_punct. lia. }
    cbn [parse_members]. rewrite E1. cbn. rewrite E2. cbn. rewrite E3. cbn. rewrite E4. cbn.
    by rewrite skip_ws_app.
  - change (join (44 :: nl) (map (member ind) ((k, v) :: p2 :: ps)))
      with (member ind (k, v) ++ (44 :: nl) ++ join (44 :: nl) (map (member ind) (p2 :: ps))) in *.
    rewrite !length_app in Hf. cbn [length] in Hf. rewrite <- !app_assoc.
    destruct (parse_member_read f ind w k v
      ((44 :: nl) ++ join (44 :: nl) (map (member ind) (p2 :: ps)) ++ w' ++ 125 :: t))
      as (r & u & z & E1 & E2 & E3 & E4); [done..|by apply num_end_punct; lia|lia|].
    cbn [parse_members]. rewrite E1. cbn. rewrite E2. cbn. rewrite E3. cbn. rewrite E4.
    cbn -[join map parse_members member]. rewrite IH; [done|done|done|done|done|lia].
Qed.

End RoundTrip.

Section RoundTripMain.
Context (gap : jstr).
Hypothesis gap_ws : ws_only gap.

(** Every member text has at least one unit. *)
Lemma bracket_cases ind op cl items :
  (items = [] /\ bracket gap ind op cl items = [op; cl])
  \/ (items <> [] /\ exists w nl w', bracket gap ind op cl items = op :: w ++ join (44 :: nl) items ++ w' ++ [cl]
      /\ (ws_only ind -> ws_only w /\ ws_only nl /\ ws_only w')).
Proof using gap_ws.
  destruct items as [|x r]; [by left|]. right. split; [done|]. unfold bracket.
  destruct gap as [|g gs] eqn:Eg.
  - exists [], [], []. split; [done|]. intros _. by repeat constructor.
  - exists (10 :: ind ++ gap), (10 :: ind ++ gap), (10 :: ind). rewrite Eg. split; [done|]. intros Hind.
    repeat split; try (constructor; [done|]); try done; by apply Forall_app.
Qed.

Lemma ser_head ind v :
  json_ok v = true -> exists c r, ser gap ind v = c :: r /\ is_json_ws c = false /\ c <> 93 /\ c <> 125.
Proof using gap_ws.
  destruct v as [| |b|n|s|vs|ps]; try done; intros H.
  - (eexists _, _; split; [reflexivity|]; by repeat split).
  - destruct b; (eexists _, _; split; [reflexivity|]; by repeat split).
  - destruct n as [[]| | |s m e]; try done; [(eexists _, _; split; [reflexivity|]; by repeat split)|].
    cbn [ser num_str]. destruct s; [(eexists _, _; split; [reflexivity|]; by repeat split)|].
    unfold pos_str. simpl in H. destruct (shortest m e) as [[n j]|] eqn:E; [|done].
    simpl default. rewrite app_nil_l.
    destruct (layout_head n (j + Z.of_nat (length (digits n)))%Z) as (c & r & -> & Hc).
    { apply shortest_sound in E. destruct n; [done|lia]. }
    eexists _, _. split; [done|]. unfold is_digit in Hc. unfold is_json_ws. to_prop.
    rewrite !orb_false_iff, !N.eqb_neq. lia.
  - (eexists _, _; split; [reflexivity|]; by repeat split).
  - unfold ser; fold ser. unfold bracket. repeat case_match; (eexists _, _; split; [reflexivity|]; by repeat split).
  - unfold ser; fold ser. unfold bracket. repeat case_match; (eexists _, _; split; [reflexivity|]; by repeat split).
Qed.

(** The first unit after an opening bracket is not the closing one. *)
Lemma skip_ws_join w1 nl x r z c0 y :
  ws_only w1 -> x = c0 :: y -> is_json_ws c0 = false ->
  exists u, skip_ws (w1 ++ join (44 :: nl) (x :: r) ++ z) = c0 :: u.
Proof using Type.
  intros Hw -> Hc. destruct r; cbn [join]; eexists; by apply skip_ws_app.
Qed.

Lemma reads_arr vs : forallb json_ok vs = true -> Forall (reads gap) vs -> reads gap (VArr vs).
Proof using gap_ws.
  intros Hok Hvs f ind w t Hind Hw Ht Hf. cbn [ser] in *.
  destruct (bracket_cases ind 91 93 (map (ser gap (ind ++ gap)) vs)) as [[En E]|(Hne & w1 & nl & w2 & E & Hws)];
    rewrite E in Hf |- *; (destruct f as [|f]; [cbn in Hf; lia|]).
  - apply map_eq_nil in En as ->. cbn [parse_value]. change ([91; 93] ++ t) with (91 :: 93 :: t).
    by rewrite skip_ws_app.
  - destruct vs as [|v0 vr]; [done|]. destruct (Hws Hind) as (Hw1 & Hnl & Hw2).
    cbn [length] in Hf. rewrite !length_app in Hf. cbn [length] in Hf.
    cbn [parse_value]. rewrite <- app_comm_cons, skip_ws_app by done. cbv iota beta.
    change (91 =? 123) with false. change (91 =? 91) with true. cbv iota beta. rewrite <- !app_assoc.
    change ([93] ++ t) with (93 :: t). cbn [forallb] in Hok. apply andb_true_iff in Hok as [Hok _].
    destruct (ser_head (ind ++ gap) v0 Hok) as (c & r & E0 & Hc & H93 & _).
    destruct (skip_ws_join w1 nl _ (map (ser gap (ind ++ gap)) vr) (w2 ++ 93 :: t) c r Hw1 E0 Hc) as [u Eu].
    rewrite (Eu : skip_ws (w1 ++ join (44 :: nl) (map (ser gap (ind ++ gap)) (v0 :: vr)) ++ w2 ++ 93 :: t) = _).
    rewrite (proj2 (N.eqb_neq c 93) H93).
    rewrite (parse_elems_read gap gap_ws (ind ++ gap)); try done; [by apply Forall_app|lia].
Qed.

Lemma reads_obj ps :
  json_ok (VObj ps) = true -> Forall (fun p => reads gap p.2) ps -> reads gap (VObj ps).
Proof using gap_ws.
  intros Hok Hps f ind w t Hind Hw Ht Hf. cbn [json_ok] in Hok.
  apply andb_true_iff in Hok as [Hof Hall]. to_prop. apply forallb_Forall in Hall.
  assert (Forall (fun p => is_undef p.2 = false) ps) as Hdef.
  { eapply Forall_impl; [exact Hall|]. intros [k v] [_ H]%andb_true_iff. by destruct v. }
  assert (Forall (fun p => units_ok p.1 = true /\ reads gap p.2) ps) as Hmem.
  { apply Forall_and. split; [|done]. eapply Forall_impl; [exact Hall|]. by intros p [? _]%andb_true_iff. }
  rewrite (ser_obj gap ind ps Hdef) in Hf |- *.
  destruct (bracket_cases ind 123 125 (map (member gap (ind ++ gap)) ps)) as [[En E]|(Hne & w1 & nl & w2 & E & Hws)];
    rewrite E in Hf |- *; (destruct f as [|f]; [cbn in Hf; lia|]).
  - apply map_eq_nil in En as ->. cbn [parse_value]. change ([123; 125] ++ t) with (123 :: 125 :: t).
    by rewrite skip_ws_app.
  - destruct ps as [|p0 pr]; [done|]. destruct (Hws Hind) as (Hw1 & Hnl & Hw2).
    cbn [length] in Hf. rewrite !length_app in Hf. cbn [length] in Hf.
    cbn [parse_value]. rewrite <- app_comm_cons, skip_ws_app by done. cbv iota beta.
    change (123 =? 123) with true. cbv iota beta. rewrite <- !app_assoc.
    change ([125] ++ t) with (125 :: t).
    destruct (skip_ws_join w1 nl (member gap (ind ++ gap) p0) (map (member gap (ind ++ gap)) pr) (w2 ++ 125 :: t) 34 _ Hw1 eq_refl eq_refl) as [u Eu].
    rewrite (Eu : skip_ws (w1 ++ join (44 :: nl) (map (member gap (ind ++ gap)) (p0 :: pr)) ++ w2 ++ 125 :: t) = _).
    change (34 =? 125) with false. cbv iota beta.
    rewrite (parse_members_read gap gap_ws (ind ++ gap)); try done; [|by apply Forall_app|lia].
    cbn -[obj_of]. by rewrite Hof.
Qed.

(** Atoms: no recursion, one unit of fuel. *)
Lemma reads_atom v :
  json_ok v = true ->
  match v with VArr _ | VObj _ => False | _ => True end -> reads gap v.
Proof using gap_ws.
  intros Hok Hat f ind w t Hind Hw Ht Hf.
  destruct (ser_head ind v Hok) as (c & r & E & Hc & H1 & H2).
  destruct f as [|f]; [rewrite E in Hf; cbn in Hf; lia|].
  assert (skip_ws (w ++ ser gap ind v ++ t) = ser gap ind v ++ t) as Es
    by (rewrite E; by apply skip_ws_app).
  cbn [parse_value]. rewrite Es. destruct v as [| |b|n|s| |]; try done.
  - by destruct b.
  - cbn [json_ok] in Hok. pose proof (json_number_roundtrip n t Hok Ht) as Hn.
    assert (ser gap ind (VNum n) = num_str n) as En by (by destruct n as [[]| | |]).
    rewrite En in *. rewrite E in *. cbn [app] in *.
    assert (is_digit c = true \/ c = 45) as Hd.
    { destruct n as [[]| | |sg m e]; try done; [cbn in E; injection E as <- _; by left|].
      cbn [num_str] in E. destruct sg; [cbn in E; injection E as <- _; by right|].
      unfold pos_str in E. cbn [json_ok printable] in Hok. destruct (shortest m e) as [[x j]|] eqn:Ex; [|done].
      destruct (layout_head x (j + Z.of_nat (length (digits x)))%Z) as (c' & r' & E' & Hc').
      { apply shortest_sound in Ex. destruct x; [done|lia]. }
      cbn [default app] in E. unfold id in E. rewrite E' in E. injection E as <- _. by left. }
    rewrite !(proj2 (N.eqb_neq c _)); [by rewrite Hn| |..];
      (destruct Hd as [Hd| ->]; [unfold is_digit in Hd; to_prop; lia | done]).
  - cbn [ser]. unfold quote. rewrite <- !app_assoc. cbn [app]. cbv iota beta.
    change (34 =? 123) with false. change (34 =? 91) with false. change (34 =? 34) with true. cbv iota beta.
    pose proof (parse_quote s t Hok) as Hq. cbn [app] in Hq. by rewrite Hq.
Qed.

(** Every lossless value is read back from its text, at any indentation. *)
Lemma ser_reads v : json_ok v = true -> reads gap v.
Proof using gap_ws.
  induction v as [| |b|n|s|vs IH|ps IH] using val_ind; intros Hok; try (by apply reads_atom).
  - apply reads_arr; [done|]. cbn in Hok. apply forallb_Forall in Hok.
    rewrite Forall_forall in *. naive_solver.
  - apply reads_obj; [done|]. cbn in Hok. apply andb_true_iff in Hok as [_ Hok]. apply forallb_Forall in Hok.
    rewrite Forall_forall in *. intros p Hp. apply IH; [done|].
    by destruct (proj1 (andb_true_iff _ _) (Hok p Hp)).
Qed.

Lemma parse_ser v : json_ok v = true -> parse (ser gap [] v) = Some v.
Proof using gap_ws.
  intros Hok. unfold parse. pose proof (ser_reads v Hok (S (length (ser gap [] v))) [] [] []) as H.
  rewrite app_nil_r, app_nil_l in H. rewrite H; [done|by constructor..|done|lia].
Qed.

End RoundTripMain.

Lemma parse_stringify v : json_ok v = true -> parse (stringify v) = Some v.
Proof. apply parse_ser. constructor. Qed.

Lemma parse_stringify2 v : json_ok v = true -> parse (stringify2 v) = Some v.
Proof. apply parse_ser. by repeat constructor. Qed.

#[export] Hint Resolve parse_stringify parse_stringify2 : js.

(** The members of an object that are written: those that are not [undefined]. *)
Definition defined (ps : jsobj) : jsobj := filter (fun p => is_undef p.2 = false) ps.

Lemma stringify_defined ps : stringify (VObj ps) = stringify (VObj (defined ps)).
Proof.
  unfold stringify. simpl. f_equal. induction ps as [|[k v] ps IH]; [done|].
  unfold defined. rewrite filter_cons. destruct (decide _) as [E|E]; simpl in E |- *.
  - rewrite E. f_equal. exact IH.
  - destruct (is_undef v); [exact IH|done].
Qed.

Lemma parse_stringify_defined ps : json_ok (VObj (defined ps)) = true -> parse (stringify (VObj ps)) = Some (VObj (defined ps)).
Proof. intros H. rewrite stringify_defined. by apply parse_stringify. Qed.

(** JSON text written in this development with single quotes for double ones. *)
Definition jq (s : string) : jstr := (fun c => if c =? 39 then 34 else c) <$> js s.
