(* ===== verification/Api.v ===== *)
(** [studio/frontend/src/api.ts]: the client of the studio server. Every entry
    of the [api] object is the request it builds; [request] is the handling of
    the response. Building a request fails when a path or query component has
    an unpaired surrogate ([encodeURIComponent] throws). *)

From S2P Require Import Prelude JsString JsNumber Json.

Open Scope N_scope.

(** ** Errors, requests and responses *)

(** Messages of the errors the JavaScript engine raises itself. They differ
    between engines, so they are parameters: of [JSON.parse] by the text, of a
    type error by the expression, of [encodeURIComponent], of [toISOString] on
    an invalid date. *)
Class Engine := {
  syntax_message : jstr -> jstr;
  type_message : jstr -> jstr;
  uri_message : jstr;
  range_message : jstr;
}.

(** A thrown error, by its [message]. *)
Record jserr := mk_err { message : jstr }.

(** [err.message || fallback] *)
Definition err_or (e : jserr) (fallback : jstr) : jstr := str_or (message e) fallback.

(** Code that may throw, in sequence. *)
Definition throw_bind {A B} (m : jserr + A) (f : A -> jserr + B) : jserr + B :=
  match m with inl e => inl e | inr x => f x end.
Notation "'let!' x := m 'in' k" := (throw_bind m (fun x => k)) (at level 10, x name, m at level 100, k at level 200).

(** The arguments of [fetch]. *)
Record http_request := mk_request {
  req_url : jstr;
  req_method : jstr;
  req_headers : list (jstr * jstr);
  req_body : option jstr;
}.

(** What [fetch] settles with: a network failure, or a response with its text. *)
Record response := mk_response {
  res_status : N;
  res_statusText : jstr;
  res_text : jstr;
}.

Inductive fetch_result :=
| NetworkError (e : jserr)
| Responded (r : response).

(** [res.ok] *)
Definition res_ok (r : response) : bool := (200 <=? res_status r) && (res_status r <=? 299).

(** Members of a value: [undefined] and [null] have none (a type error). *)
Definition member_of (v : val) (k : jstr) : option val :=
  match v with
  | VUndef | VNull => None
  | VObj o => Some (get o k)
  | _ => Some VUndef
  end.

Section Client.
Context `{Engine}.

Definition BASE_URL : jstr := js "/api".

(** The options of a call: its method and its body. *)
Record options := mk_options { opt_method : option jstr; opt_body : option jstr }.

Definition no_options : options := mk_options None None.
Definition POST (body : val) : options := mk_options (Some (js "POST")) (Some (stringify body)).
Definition POST_empty : options := mk_options (Some (js "POST")) None.
Definition DELETE : options := mk_options (Some (js "DELETE")) None.

(** The first half of [request]: the arguments given to [fetch]. *)
Definition request (path : jstr) (o : options) : http_request :=
  mk_request (BASE_URL ++ path) (default (js "GET") (opt_method o))
    [(js "Content-Type", js "application/json")] (opt_body o).

(** The message of a failed response: its [error] member when it is truthy,
    otherwise the status line. Reading the body or its member may throw; the
    inner [catch] keeps the status line then. *)
Definition http_error (r : response) : jserr + jstr :=
  let line := js "HTTP Error " ++ digits (res_status r) ++ js ": " ++ res_statusText r in
  match parse (res_text r) with
  | None => inr line
  | Some data =>
      match member_of data (js "error") with
      | None => inr line
      | Some e =>
          if truthy e then
            match to_string e with
            | Some m => inr m
            | None => inl (mk_err (type_message (js "new Error(errorMsg)")))
            end
          else inr line
      end
  end.

(** The second half of [request]: what its promise settles with. *)
Definition settle (f : fetch_result) : jserr + val :=
  match f with
  | NetworkError e => inl e
  | Responded r =>
      if res_ok r then
        match parse (res_text r) with
        | Some v => inr v
        | None => inl (mk_err (syntax_message (res_text r)))
        end
      else
        match http_error r with
        | inl e => inl e
        | inr m => inl (mk_err m)
        end
  end.

(** A call: the request it sends, or the error thrown before anything is sent. *)
Definition call := (jserr + http_request)%type.

Definition send (path : jstr) (o : options) : call := inr (request path o).

(** A path with encoded components. *)
Definition with_component (s : jstr) (f : jstr -> call) : call :=
  match encodeURIComponent s with
  | Some e => f e
  | None => inl (mk_err uri_message)
  end.

(** ** Entries of [api] *)

Definition getStats : call := send (js "/stats") no_options.

Definition getCatalog : call := send (js "/catalog") no_options.

Definition listTimeSeries : call := send (js "/timeseries/list") no_options.

Definition queryTimeSeries (payload : jsobj) : call :=
  send (js "/timeseries/query") (POST (VObj payload)).

Definition writeTimeSeries (series : jstr) (point : jsobj) : call :=
  send (js "/timeseries/write") (POST (VObj [(js "series", VStr series); (js "point", VObj point)])).

Definition pruneTimeSeries (series before : jstr) : call :=
  send (js "/timeseries/prune") (POST (VObj [(js "series", VStr series); (js "before", VStr before)])).

Definition scanBucket (bucket prefix : jstr) (limit : num) : call :=
  with_component bucket (fun b => with_component prefix (fun p =>
    send (js "/kv/" ++ b ++ js "/scan?prefix=" ++ p ++ js "&limit=" ++ num_str limit) no_options)).

Definition getKV (bucket key : jstr) : call :=
  with_component bucket (fun b => with_component key (fun k =>
    send (js "/kv/" ++ b ++ js "/get?key=" ++ k) no_options)).

Definition putKV (bucket key value : jstr) (ttlSeconds : option num) : call :=
  with_component bucket (fun b =>
    send (js "/kv/" ++ b ++ js "/put")
      (POST (VObj [(js "key", VStr key); (js "value", VStr value);
                   (js "ttl", match ttlSeconds with Some t => VNum t | None => VUndef end)]))).

Definition deleteKV (bucket key : jstr) : call :=
  with_component bucket (fun b => with_component key (fun k =>
    send (js "/kv/" ++ b ++ js "/delete?key=" ++ k) DELETE)).

Definition incrementKV (bucket key : jstr) (delta : num) : call :=
  with_component bucket (fun b =>
    send (js "/kv/" ++ b ++ js "/incr") (POST (VObj [(js "key", VStr key); (js "delta", VNum delta)]))).

Definition queryDocuments (collection : jstr) (queryPayload : jsobj) : call :=
  with_component collection (fun c => send (js "/doc/" ++ c ++ js "/query") (POST (VObj queryPayload))).

Definition getDocument (collection id : jstr) : call :=
  with_component collection (fun c => with_component id (fun i =>
    send (js "/doc/" ++ c ++ js "/get?id=" ++ i) no_options)).

Definition insertDocument (collection : jstr) (doc : val) : call :=
  with_component collection (fun c => send (js "/doc/" ++ c ++ js "/insert") (POST doc)).

Definition updateDocument (collection id : jstr) (doc : val) : call :=
  with_component collection (fun c => with_component id (fun i =>
    send (js "/doc/" ++ c ++ js "/update?id=" ++ i) (POST doc))).

Definition deleteDocument (collection id : jstr) : call :=
  with_component collection (fun c => with_component id (fun i =>
    send (js "/doc/" ++ c ++ js "/delete?id=" ++ i) DELETE)).

Definition searchVectors (collection field : jstr) (vector : val) (k : num) (metric : jstr) : call :=
  send (js "/vector/search")
    (POST (VObj [(js "collection", VStr collection); (js "field", VStr field); (js "vector", vector);
                 (js "k", VNum k); (js "metric", VStr metric)])).

Definition searchFullText (collection field queryText : jstr) (k : num) : call :=
  send (js "/text/search")
    (POST (VObj [(js "collection", VStr collection); (js "field", VStr field);
                 (js "query", VStr queryText); (js "k", VNum k)])).

Definition checkIntegrity : call := send (js "/integrity/check") no_options.

Definition checkpointWAL : call := send (js "/maintenance/checkpoint") POST_empty.

Definition triggerBackup (filename : option jstr) : call :=
  send (js "/maintenance/backup")
    (POST (VObj [(js "filename", match filename with Some f => VStr f | None => VUndef end)])).

Definition listQueues : call := send (js "/queue/list") no_options.

Definition getQueueStats (name : jstr) : call :=
  with_component name (fun n => send (js "/queue/stats?name=" ++ n) no_options).

(** [x || undefined] on a string. *)
Definition or_undefined (s : jstr) : option jstr := if truthy_str s then Some s else None.

Definition opt_str (s : option jstr) : val := match s with Some s => VStr s | None => VUndef end.

Definition enqueueTask (queueName payload : jstr) (dedupId : option jstr) (priority delayMs : num) : call :=
  send (js "/queue/enqueue")
    (POST (VObj [(js "queue", VStr queueName); (js "payload", VStr payload); (js "dedup_id", opt_str dedupId);
                 (js "priority", VNum priority); (js "delay_ms", VNum delayMs)])).

Definition dequeueTask (queueName : jstr) (autoAck : bool) : call :=
  send (js "/queue/dequeue") (POST (VObj [(js "queue", VStr queueName); (js "auto_ack", VBool autoAck)])).

Definition publishPubSub (topic payload : jstr) (dedupId : option jstr) : call :=
  send (js "/pubsub/publish")
    (POST (VObj [(js "topic", VStr topic); (js "payload", VStr payload); (js "dedup_id", opt_str dedupId)])).

Definition getPubSubHistory : call := send (js "/pubsub/history") no_options.

(** ** What the client promises *)

(** The body a failing handler writes ([writeError]). *)
Definition error_body (msg : jstr) : val := VObj [(js "error", VStr msg)].

(** A failed response settles with an error. *)
Lemma settle_failed r : res_ok r = false -> exists e, settle (Responded r) = inl e.
Proof.
  intros Hok. unfold settle. rewrite Hok. unfold http_error.
  destruct (parse (res_text r)) as [data|]; [|by eexists]. destruct (member_of data _) as [e|]; [|by eexists].
  destruct (truthy e); [|by eexists]. destruct (to_string e); by eexists.
Qed.

(** The message a handler fails with is the message of the error the caller
    catches, character for character; a failure whose body is not JSON is
    reported by its status line; and an error is never taken for an answer. *)
Theorem server_error_shown status line msg text :
  res_ok (mk_response status line text) = false ->
  (parse text = Some (error_body msg) -> msg <> [] ->
   settle (Responded (mk_response status line text)) = inl (mk_err msg)) /\
  (parse text = None ->
   settle (Responded (mk_response status line text))
     = inl (mk_err (js "HTTP Error " ++ digits status ++ js ": " ++ line))) /\
  (exists e, settle (Responded (mk_response status line text)) = inl e).
Proof.
  intros Hok. unfold settle. rewrite Hok. unfold http_error. simpl res_text. split_and!.
  - intros -> Hm. by destruct msg.
  - by intros ->.
  - destruct (settle_failed _ Hok) as [e He]. exists e. unfold settle in He. rewrite Hok in He. exact He.
Qed.

(** A call that posts an object delivers it: the request is a POST of JSON
    under the API's base address, and its body parses to the object without its
    undefined members. *)
Theorem post_delivers path ps :
  json_ok (VObj (defined ps)) = true ->
  exists r, send path (POST (VObj ps)) = inr r
    /\ req_method r = js "POST" /\ req_url r = BASE_URL ++ path
    /\ req_headers r = [(js "Content-Type", js "application/json")]
    /\ (req_body r ≫= parse) = Some (VObj (defined ps)).
Proof.
  intros Hps. eexists. split; [reflexivity|]. do 3 (split; [done|]). simpl. by apply parse_stringify_defined.
Qed.

(** ** The requests of the client *)

(** A request under the API's base address, declared as JSON, that has a body
    only when it is a POST, and then a value written by [JSON.stringify]. *)
Record api_request (r : http_request) : Prop := {
  ar_url : (BASE_URL ++ [47]) `prefix_of` req_url r;
  ar_headers : req_headers r = [(js "Content-Type", js "application/json")];
  ar_method : req_method r ∈ [js "GET"; js "POST"; js "DELETE"];
  ar_body : forall b, req_body r = Some b -> req_method r = js "POST" /\ exists v, b = stringify v;
}.

(** A call that sends only such requests. *)
Definition api_ok (c : call) : Prop := forall r, c = inr r -> api_request r.

Inductive options_ok : options -> Prop :=
| ok_get : options_ok no_options
| ok_post v : options_ok (POST v)
| ok_post_empty : options_ok POST_empty
| ok_delete : options_ok DELETE.

Lemma send_ok path o : head path = Some 47 -> options_ok o -> api_ok (send path o).
Proof.
  intros Hp Ho r [= <-]. destruct path as [|c path]; [done|]. injection Hp as ->. split.
  - by exists path.
  - done.
  - destruct Ho; simpl; rewrite !elem_of_cons; auto.
  - destruct Ho; try done. intros b [= <-]. split; [done|by eexists].
Qed.

Lemma with_component_ok s f : (forall e, api_ok (f e)) -> api_ok (with_component s f).
Proof. intros Hf. unfold with_component. destruct (encodeURIComponent s); [done|]. intros r [=]. Qed.

Lemma thrown_ok e : api_ok (inl e).
Proof. intros r [=]. Qed.

Lemma throw_bind_ok {A} (m : jserr + A) (f : A -> call) : (forall x, api_ok (f x)) -> api_ok (throw_bind m f).
Proof. intros Hf. destruct m; [apply thrown_ok|apply Hf]. Qed.

End Client.

(** Show that a call sends only such requests: unfold it to what it sends. *)
Ltac api_call :=
  repeat first
    [apply with_component_ok; intros | apply throw_bind_ok; intros | apply thrown_ok
    |apply send_ok; [reflexivity|constructor]
    |match goal with |- api_ok ?c => let h := eval red in c in change (api_ok h) end].

#[export] Hint Extern 2 (api_ok _) => api_call : emits.

(** ** A concrete engine, for evaluating the client *)

Definition plain_engine : Engine := {|
  syntax_message := fun _ => js "Unexpected token"; type_message := fun e => js "Cannot read properties: " ++ e;
  uri_message := js "URI malformed"; range_message := js "Invalid time value" |}.


Module Examples.
#[local] Existing Instance plain_engine.

(** A duplicate publication is refused with a message. *)
Lemma server_error_shown_witness :
  settle (Responded (mk_response 409 (js "Conflict") (stringify (error_body (js "Duplicate publication")))))
  = inl (mk_err (js "Duplicate publication")).
Proof.
  apply (server_error_shown 409 (js "Conflict") (js "Duplicate publication")); [|vm_compute; reflexivity|done].
  vm_compute. reflexivity.
Defined.

Lemma post_delivers_witness :
  exists r, send (js "/queue/enqueue") (POST (VObj [(js "queue", VStr (js "q")); (js "dedup_id", VUndef)])) = inr r
    /\ req_method r = js "POST" /\ req_url r = js "/api/queue/enqueue"
    /\ req_headers r = [(js "Content-Type", js "application/json")]
    /\ (req_body r ≫= parse) = Some (VObj [(js "queue", VStr (js "q"))]).
Proof.
  apply (post_delivers (js "/queue/enqueue") [(js "queue", VStr (js "q")); (js "dedup_id", VUndef)]).
  vm_compute. reflexivity.
Defined.
End Examples.
