(* ===== verification/Types.v ===== *)
(** [studio/frontend/src/types.ts] and [dashboard/frontend/src/types.ts]: the
    interfaces of the responses as records, each with the decoder that reads it
    from a JSON value. TypeScript checks nothing at run time, and the servers send
    less than some interfaces declare, so the decoders take the values the code
    of the views runs on, which are more than the declared ones: arrays and
    documents may be [null] or absent, and the members no server sends may be
    absent. The interfaces as they are declared are at the end of the file
    ([declared_read]: each is within what its decoder takes). *)

From S2P Require Import Prelude JsString JsNumber Json Api.

(** ** Field readers *)

Definition as_str (v : val) : option jstr := match v with VStr s => Some s | _ => None end.
Definition as_num (v : val) : option num := match v with VNum n => Some n | _ => None end.
Definition as_bool (v : val) : option bool := match v with VBool b => Some b | _ => None end.
Definition as_obj (v : val) : option jsobj := match v with VObj o => Some o | _ => None end.

(** An optional member: absent, or of the declared type. *)
Definition optional {A} (f : val -> option A) (v : val) : option (option A) :=
  match v with VUndef => Some None | _ => Some <$> f v end.

(** A member that may be [null] or absent. *)
Definition nullable {A} (f : val -> option A) (v : val) : option (option A) :=
  match v with VUndef | VNull => Some None | _ => Some <$> f v end.

Definition as_arr {A} (f : val -> option A) (v : val) : option (list A) :=
  match v with VArr l => mapM f l | _ => None end.

Definition fld (o : jsobj) (k : string) : val := get o (js k).

(** ** Studio *)

Record DBStats := {
  page_count : num; cache_hits : num; cache_misses : num; cache_hit_rate : num;
  last_lsn : num; last_txn_id : num; read_only : bool;
  uptime_seconds : option num; queue_count : option num; queue_ready_tasks : option num;
  queue_inflight_tasks : option num; queue_dlq_tasks : option num; pubsub_events_count : option num;
}.

Definition DBStats_of (v : val) : option DBStats :=
  o ← as_obj v;
  a ← as_num (fld o "page_count"); b ← as_num (fld o "cache_hits"); c ← as_num (fld o "cache_misses");
  d ← as_num (fld o "cache_hit_rate"); e ← as_num (fld o "last_lsn"); f ← as_num (fld o "last_txn_id");
  g ← as_bool (fld o "read_only");
  h ← optional as_num (fld o "uptime_seconds"); i ← optional as_num (fld o "queue_count");
  j ← optional as_num (fld o "queue_ready_tasks"); k ← optional as_num (fld o "queue_inflight_tasks");
  l ← optional as_num (fld o "queue_dlq_tasks"); m ← optional as_num (fld o "pubsub_events_count");
  Some (Build_DBStats a b c d e f g h i j k l m).

(** The server sends the name and the type of a catalog object, and none of
    the numeric members the interface declares: they read as [undefined]. *)
Record CatalogObject := {
  co_id : option num; co_type : jstr; co_name : jstr; co_root : option num; co_flags : option num;
  co_indexes : option (list jstr);
}.

Definition CatalogObject_of (v : val) : option CatalogObject :=
  o ← as_obj v;
  a ← optional as_num (fld o "id"); b ← as_str (fld o "type"); c ← as_str (fld o "name");
  d ← optional as_num (fld o "root"); e ← optional as_num (fld o "flags");
  f ← optional (as_arr as_str) (fld o "indexes");
  Some (Build_CatalogObject a b c d e f).

Record CatalogData := {
  cat_buckets : option (list CatalogObject);
  cat_collections : option (list CatalogObject);
  cat_queues : option (list CatalogObject);
}.

Definition CatalogData_of (v : val) : option CatalogData :=
  o ← as_obj v;
  a ← nullable (as_arr CatalogObject_of) (fld o "buckets");
  b ← nullable (as_arr CatalogObject_of) (fld o "collections");
  c ← nullable (as_arr CatalogObject_of) (fld o "queues");
  Some (Build_CatalogData a b c).

Record TimeSeriesPoint := { Timestamp : jstr; Tags : val; Fields : val }.

Definition TimeSeriesPoint_of (v : val) : option TimeSeriesPoint :=
  o ← as_obj v; a ← as_str (fld o "Timestamp");
  Some (Build_TimeSeriesPoint a (fld o "Tags") (fld o "Fields")).

Record KVEntry := { key : jstr; value : jstr; size : num; is_json : option bool }.

Definition KVEntry_of (v : val) : option KVEntry :=
  o ← as_obj v; a ← as_str (fld o "key"); b ← as_str (fld o "value"); c ← as_num (fld o "size");
  d ← optional as_bool (fld o "is_json");
  Some (Build_KVEntry a b c d).

(** [count] is absent from the answer to an explain request. *)
Record QueryResult := {
  documents : option (list jsobj); qr_count : option num; execution_plan : option jstr; duration_ms : num;
}.

Definition QueryResult_of (v : val) : option QueryResult :=
  o ← as_obj v; a ← nullable (as_arr as_obj) (fld o "documents"); b ← optional as_num (fld o "count");
  c ← optional as_str (fld o "execution_plan"); d ← as_num (fld o "duration_ms");
  Some (Build_QueryResult a b c d).

Record VectorSearchResult := {
  vs_id : num; vs_doc_id : option jstr; distance : num; similarity_pct : num; vs_document : option jsobj;
}.

Definition VectorSearchResult_of (v : val) : option VectorSearchResult :=
  o ← as_obj v; a ← as_num (fld o "id"); b ← optional as_str (fld o "doc_id"); c ← as_num (fld o "distance");
  d ← as_num (fld o "similarity_pct"); e ← nullable as_obj (fld o "document");
  Some (Build_VectorSearchResult a b c d e).

Record TextSearchResult := {
  record_id : num; ts_doc_id : option jstr; score : num; ts_document : option jsobj;
}.

Definition TextSearchResult_of (v : val) : option TextSearchResult :=
  o ← as_obj v; a ← as_num (fld o "record_id"); b ← optional as_str (fld o "doc_id"); c ← as_num (fld o "score");
  d ← nullable as_obj (fld o "document");
  Some (Build_TextSearchResult a b c d).

Record IntegrityReport := {
  valid : bool; pages_checked : num; errors : option (list jstr); warnings : option (list jstr);
}.

Definition IntegrityReport_of (v : val) : option IntegrityReport :=
  o ← as_obj v; a ← as_bool (fld o "valid"); b ← as_num (fld o "pages_checked");
  c ← nullable (as_arr as_str) (fld o "errors"); d ← nullable (as_arr as_str) (fld o "warnings");
  Some (Build_IntegrityReport a b c d).

Record QueueStats := { ReadyCount : num; InFlightCount : num; DLQCount : num }.

Definition QueueStats_of (v : val) : option QueueStats :=
  o ← as_obj v; a ← as_num (fld o "ReadyCount"); b ← as_num (fld o "InFlightCount"); c ← as_num (fld o "DLQCount");
  Some (Build_QueueStats a b c).

Record QueueItem := { q_name : jstr; stats : QueueStats; has_dlq : bool; dlq_stats : option QueueStats }.

Definition QueueItem_of (v : val) : option QueueItem :=
  o ← as_obj v; a ← as_str (fld o "name"); b ← QueueStats_of (fld o "stats"); c ← as_bool (fld o "has_dlq");
  d ← optional QueueStats_of (fld o "dlq_stats");
  Some (Build_QueueItem a b c d).

Record PubSubEvent := { ev_id : jstr; ev_topic : jstr; ev_payload : jstr; ev_dedup_id : option jstr; created_at : jstr }.

Definition PubSubEvent_of (v : val) : option PubSubEvent :=
  o ← as_obj v; a ← as_str (fld o "id"); b ← as_str (fld o "topic"); c ← as_str (fld o "payload");
  d ← optional as_str (fld o "dedup_id"); e ← as_str (fld o "created_at");
  Some (Build_PubSubEvent a b c d e).

(** ** Dashboard *)

Record PeerStatus := { peer_addr : jstr; peer_status : jstr; latency_us : num; is_local : bool }.

Definition PeerStatus_of (v : val) : option PeerStatus :=
  o ← as_obj v; a ← as_str (fld o "addr"); b ← as_str (fld o "status"); c ← as_num (fld o "latency_us");
  d ← as_bool (fld o "is_local");
  Some (Build_PeerStatus a b c d).

(** [mtls_enforced] is never sent: the Go field behind it is not exported. *)
Record ClusterStatus := {
  enabled : bool; node_id : jstr; cl_addr : jstr; tls_enabled : bool; mtls_enforced : option bool;
  auth_enforced : bool; total_nodes : num; virtual_nodes : num; active_conns : num;
  peers : option (list PeerStatus);
}.

Definition ClusterStatus_of (v : val) : option ClusterStatus :=
  o ← as_obj v; a ← as_bool (fld o "enabled"); b ← as_str (fld o "node_id"); c ← as_str (fld o "addr");
  d ← as_bool (fld o "tls_enabled"); e ← optional as_bool (fld o "mtls_enforced");
  f ← as_bool (fld o "auth_enforced"); g ← as_num (fld o "total_nodes"); h ← as_num (fld o "virtual_nodes");
  i ← as_num (fld o "active_conns"); j ← nullable (as_arr PeerStatus_of) (fld o "peers");
  Some (Build_ClusterStatus a b c d e f g h i j).

(** [uptime_seconds], [read_iops] and [write_iops] are declared but never sent,
    so they read as [undefined]. *)
Record RealtimeTelemetry := {
  rt_timestamp : num; rt_page_count : num; allocated_bytes : num;
  rt_cache_hits : num; rt_cache_misses : num; rt_cache_hit_rate : num;
  rt_last_lsn : num; rt_last_txn_id : num; rt_read_only : bool; rt_uptime_seconds : option num;
  qps : num; read_iops : option num; write_iops : option num;
  rt_queue_count : num; rt_queue_ready_tasks : num; rt_queue_inflight_tasks : num; rt_queue_dlq_tasks : num;
  rt_pubsub_events_count : num; pubsub_delivered_count : option num; pubsub_active_topics : option num;
  pubsub_active_subs : option num; latency_p50_us : option num; latency_p99_us : option num;
  cluster : option ClusterStatus;
}.

Definition RealtimeTelemetry_of (v : val) : option RealtimeTelemetry :=
  o ← as_obj v;
  t ← as_num (fld o "timestamp"); a ← as_num (fld o "page_count"); ab ← as_num (fld o "allocated_bytes");
  b ← as_num (fld o "cache_hits"); c ← as_num (fld o "cache_misses"); d ← as_num (fld o "cache_hit_rate");
  e ← as_num (fld o "last_lsn"); f ← as_num (fld o "last_txn_id"); ro ← as_bool (fld o "read_only");
  up ← optional as_num (fld o "uptime_seconds");
  g ← as_num (fld o "qps"); ri ← optional as_num (fld o "read_iops"); wi ← optional as_num (fld o "write_iops");
  h ← as_num (fld o "queue_count"); i ← as_num (fld o "queue_ready_tasks");
  j ← as_num (fld o "queue_inflight_tasks"); k ← as_num (fld o "queue_dlq_tasks");
  l ← as_num (fld o "pubsub_events_count"); m ← optional as_num (fld o "pubsub_delivered_count");
  n ← optional as_num (fld o "pubsub_active_topics"); sb ← optional as_num (fld o "pubsub_active_subs");
  l5 ← optional as_num (fld o "latency_p50_us"); l9 ← optional as_num (fld o "latency_p99_us");
  p ← nullable ClusterStatus_of (fld o "cluster");
  Some (Build_RealtimeTelemetry t a ab b c d e f ro up g ri wi h i j k l m n sb l5 l9 p).

(** ** Catalog lists as the views read them *)

(** [catalog?.collections || []] and its siblings. *)
Definition collections_of (c : option CatalogData) : list CatalogObject := default [] (c ≫= cat_collections).
Definition buckets_of (c : option CatalogData) : list CatalogObject := default [] (c ≫= cat_buckets).
Definition queues_of (c : option CatalogData) : list CatalogObject := default [] (c ≫= cat_queues).

(** [xs[0]?.name || ''] (and [?? ''], which agrees on strings). *)
Definition first_name (l : list CatalogObject) : jstr := default [] (co_name <$> head l).

(** The successful responses of a call that declares an interface. *)
Definition success {A} (dec : val -> option A) (r : jserr + val) : bool :=
  match r with inl _ => true | inr v => match dec v with Some _ => true | None => false end end.

(** ** The interfaces as they are declared *)

Definition has {A} (f : val -> option A) (v : val) : bool := match f v with Some _ => true | None => false end.

(** [T[]], [Record<string, T>] and an optional member. *)
Definition array_of (f : val -> bool) (v : val) : bool := match v with VArr l => forallb f l | _ => false end.
Definition record_of (f : val -> bool) (v : val) : bool := match v with VObj o => forallb (fun p => f p.2) o | _ => false end.
Definition maybe (f : val -> bool) (v : val) : bool := match v with VUndef => true | _ => f v end.
Definition any_value (v : val) : bool := true.

Definition members (f : jsobj -> bool) (v : val) : bool := match v with VObj o => f o | _ => false end.

Definition CatalogObject_declared : val -> bool := members (fun o =>
  has as_num (fld o "id") && has as_str (fld o "type") && has as_str (fld o "name") && has as_num (fld o "root")
  && has as_num (fld o "flags") && maybe (array_of (has as_str)) (fld o "indexes")).

Definition CatalogData_declared : val -> bool := members (fun o =>
  array_of CatalogObject_declared (fld o "buckets") && array_of CatalogObject_declared (fld o "collections")
  && maybe (array_of CatalogObject_declared) (fld o "queues")).

Definition TimeSeriesPoint_declared : val -> bool := members (fun o =>
  has as_str (fld o "Timestamp") && record_of (has as_str) (fld o "Tags") && record_of any_value (fld o "Fields")).

Definition QueryResult_declared : val -> bool := members (fun o =>
  array_of (record_of any_value) (fld o "documents") && has as_num (fld o "count")
  && maybe (has as_str) (fld o "execution_plan") && has as_num (fld o "duration_ms")).

Definition VectorSearchResult_declared : val -> bool := members (fun o =>
  has as_num (fld o "id") && maybe (has as_str) (fld o "doc_id") && has as_num (fld o "distance")
  && has as_num (fld o "similarity_pct") && maybe (record_of any_value) (fld o "document")).

Definition TextSearchResult_declared : val -> bool := members (fun o =>
  has as_num (fld o "record_id") && maybe (has as_str) (fld o "doc_id") && has as_num (fld o "score")
  && maybe (record_of any_value) (fld o "document")).

Definition IntegrityReport_declared : val -> bool := members (fun o =>
  has as_bool (fld o "valid") && has as_num (fld o "pages_checked")
  && array_of (has as_str) (fld o "errors") && array_of (has as_str) (fld o "warnings")).

Definition ClusterStatus_declared : val -> bool := members (fun o =>
  has as_bool (fld o "enabled") && has as_str (fld o "node_id") && has as_str (fld o "addr") && has as_bool (fld o "tls_enabled")
  && has as_bool (fld o "mtls_enforced") && has as_bool (fld o "auth_enforced") && has as_num (fld o "total_nodes")
  && has as_num (fld o "virtual_nodes") && has as_num (fld o "active_conns") && array_of (has PeerStatus_of) (fld o "peers")).

Definition RealtimeTelemetry_declared : val -> bool := members (fun o =>
  forallb (fun k => has as_num (fld o k))
    ["timestamp"; "page_count"; "allocated_bytes"; "cache_hits"; "cache_misses"; "cache_hit_rate"; "last_lsn"; "last_txn_id";
     "uptime_seconds"; "qps"; "read_iops"; "write_iops"; "queue_count"; "queue_ready_tasks"; "queue_inflight_tasks";
     "queue_dlq_tasks"; "pubsub_events_count"]%string
  && has as_bool (fld o "read_only")
  && forallb (fun k => maybe (has as_num) (fld o k))
    ["pubsub_delivered_count"; "pubsub_active_topics"; "pubsub_active_subs"; "latency_p50_us"; "latency_p99_us"]%string
  && maybe (fun v => match v with VNull => true | _ => ClusterStatus_declared v end) (fld o "cluster")).

Lemma has_some {A} (f : val -> option A) v : has f v = true -> is_Some (f v).
Proof. unfold has. destruct (f v); [by eexists|done]. Qed.

Lemma optional_some {A} (f : val -> option A) (g : val -> bool) v : (forall v, g v = true -> is_Some (f v)) -> maybe g v = true -> is_Some (optional f v).
Proof. intros Hg. destruct v; try by eexists. all: intros [a Ha]%Hg; unfold optional; rewrite Ha; by eexists. Qed.

Lemma optional_has {A} (f : val -> option A) v : is_Some (f v) -> is_Some (optional f v).
Proof. intros [a Ha]. destruct v; try by eexists. all: unfold optional; rewrite Ha; by eexists. Qed.

Lemma nullable_some {A} (f : val -> option A) v : is_Some (f v) -> is_Some (nullable f v).
Proof. intros [a Ha]. destruct v; try by eexists. all: unfold nullable; rewrite Ha; by eexists. Qed.

Lemma nullable_maybe {A} (f : val -> option A) (g : val -> bool) v : (forall v, g v = true -> is_Some (f v)) -> maybe g v = true -> is_Some (nullable f v).
Proof. intros Hg. destruct v; try by eexists. all: intros Hv; by apply nullable_some, Hg. Qed.

Lemma array_some {A} (f : val -> option A) (g : val -> bool) v : (forall v, g v = true -> is_Some (f v)) -> array_of g v = true -> is_Some (as_arr f v).
Proof.
  intros Hg. destruct v as [| | | | |l|]; try done. cbn. intros Hl. apply mapM_is_Some, Forall_forall. intros x Hx%list_elem_of_In.
  apply Hg. by eapply forallb_forall in Hl.
Qed.

Lemma record_some v : record_of any_value v = true -> is_Some (as_obj v).
Proof. by destruct v. Qed.

Create HintDb declared.
Hint Resolve has_some array_some record_some : declared.

(** One member: it is declared as the decoder reads it, or more narrowly. *)
Ltac member := match goal with
  | H : has ?f ?v = true |- is_Some (?f ?v) => exact (has_some f v H)
  | H : has ?f ?v = true |- is_Some (optional ?f ?v) => exact (optional_has f v (has_some f v H))
  | H : maybe (has ?f) ?v = true |- is_Some (optional ?f ?v) => exact (optional_some f (has f) v (has_some f) H)
  | H : maybe ?g ?v = true |- is_Some (optional ?f ?v) => apply (optional_some f g v); [eauto with declared|exact H]
  | H : maybe (array_of ?g) ?v = true |- is_Some (nullable (as_arr ?f) ?v) =>
      apply (nullable_maybe (as_arr f) (array_of g) v); [intros ?; apply array_some; eauto with declared|exact H]
  | H : maybe ?g ?v = true |- is_Some (nullable ?f ?v) => first [exact (nullable_maybe f g v record_some H)|by auto 2 with declared]
  | H : array_of ?g ?v = true |- is_Some (nullable (as_arr ?f) ?v) => apply (nullable_some (as_arr f)), (array_some f g v); [eauto with declared|exact H]
  end.

Lemma bind_some {A B} (m : option A) (f : A -> option B) : is_Some m -> (forall a, is_Some (f a)) -> is_Some (m ≫= f).
Proof. intros [a ->] Hf. apply Hf. Qed.

Ltac declared := intros v; destruct v as [| | | | | |o]; try done; unfold members; cbn [forallb as_obj mbind option_bind];
  generalize (fld o); intros g; rewrite ?andb_true_iff; intros; destruct_and?;
  repeat (apply bind_some; [member|intros ?; cbv beta]); exact (ex_intro _ _ eq_refl).

(** Each is within what the decoder of its name takes. *)
Lemma CatalogObject_read v : CatalogObject_declared v = true -> is_Some (CatalogObject_of v).
Proof. revert v. unfold CatalogObject_declared, CatalogObject_of. declared. Qed.

Hint Resolve CatalogObject_read : declared.

Lemma CatalogData_read v : CatalogData_declared v = true -> is_Some (CatalogData_of v).
Proof. revert v. unfold CatalogData_declared, CatalogData_of. declared. Qed.

Lemma TimeSeriesPoint_read v : TimeSeriesPoint_declared v = true -> is_Some (TimeSeriesPoint_of v).
Proof. revert v. unfold TimeSeriesPoint_declared, TimeSeriesPoint_of. declared. Qed.

Lemma QueryResult_read v : QueryResult_declared v = true -> is_Some (QueryResult_of v).
Proof. revert v. unfold QueryResult_declared, QueryResult_of. declared. Qed.

Lemma VectorSearchResult_read v : VectorSearchResult_declared v = true -> is_Some (VectorSearchResult_of v).
Proof. revert v. unfold VectorSearchResult_declared, VectorSearchResult_of. declared. Qed.

Lemma TextSearchResult_read v : TextSearchResult_declared v = true -> is_Some (TextSearchResult_of v).
Proof. revert v. unfold TextSearchResult_declared, TextSearchResult_of. declared. Qed.

Lemma IntegrityReport_read v : IntegrityReport_declared v = true -> is_Some (IntegrityReport_of v).
Proof. revert v. unfold IntegrityReport_declared, IntegrityReport_of. declared. Qed.

Lemma ClusterStatus_read v : ClusterStatus_declared v = true -> is_Some (ClusterStatus_of v).
Proof. revert v. unfold ClusterStatus_declared, ClusterStatus_of. declared. Qed.

Lemma cluster_read v : maybe (fun v => match v with VNull => true | _ => ClusterStatus_declared v end) v = true -> is_Some (nullable ClusterStatus_of v).
Proof. intros Hv. destruct v; try exact (ex_intro _ _ eq_refl); apply nullable_some, ClusterStatus_read, Hv. Qed.

Hint Resolve cluster_read : declared.

Lemma RealtimeTelemetry_read v : RealtimeTelemetry_declared v = true -> is_Some (RealtimeTelemetry_of v).
Proof. revert v. unfold RealtimeTelemetry_declared, RealtimeTelemetry_of. declared. Qed.
