(* ===== verification/Routes.v ===== *)
(** How the studio server reads the addresses the client builds: the path and
    query parsing of [studio/handlers.go] ([handleKVRoute], [handleDocRoute]),
    with the decoding its [net/http] request does. The client's theorems about
    addresses are stated against it. A path with an empty, [.] or [..] segment
    is not served by a handler: the multiplexer redirects it to its cleaned
    form. *)

From S2P Require Import Prelude JsString JsNumber Json Api.

Open Scope N_scope.

(** The text before and after the first separator. *)
Fixpoint cut (sep : N) (s : jstr) : jstr * jstr :=
  match s with
  | [] => ([], [])
  | c :: r => if c =? sep then ([], r) else let '(a, b) := cut sep r in (c :: a, b)
  end.

(** [strings.TrimPrefix] *)
Definition trim_prefix (p s : list N) : list N := if starts_with p s then drop (length p) s else s.

(** Segments the multiplexer leaves as they are. *)
Definition clean_segment (s : list N) : bool :=
  negb (bool_decide (s = [])) && negb (bool_decide (s = [46])) && negb (bool_decide (s = [46; 46])).

Definition clean_path (raw : jstr) : bool := forallb clean_segment (tail (split_on (N.eqb 47) raw)).

(** [strings.Split(strings.TrimPrefix(r.URL.Path, prefix), "/")], and its first
    two parts: the name and the action. The path is cleaned before it is decoded. *)
Definition route (prefix : jstr) (url : jstr) : option (list N * list N) :=
  if clean_path (cut 63 url).1 then
    path ← unescape false (cut 63 url).1;
    match split_on (N.eqb 47) (trim_prefix prefix path) with
    | name :: action :: _ => Some (name, action)
    | _ => None
    end
  else None.

Definition kv_route : jstr -> option (list N * list N) := route (js "/api/kv/").
Definition doc_route : jstr -> option (list N * list N) := route (js "/api/doc/").

(** The pairs of a query string; malformed ones are dropped. *)
Definition query_pairs (query : jstr) : list (list N * list N) :=
  omap (fun kv => let '(k, v) := cut 61 kv in k' ← unescape true k; v' ← unescape true v; Some (k', v'))
    (split_on (N.eqb 38) query).

(** [r.URL.Query().Get(name)] *)
Definition query_get (name : jstr) (url : jstr) : list N :=
  default [] (snd <$> List.find (fun kv => bool_decide (kv.1 = name)) (query_pairs (cut 63 url).2)).

(** ** Decoding encoded components *)

Lemma unescape_component plus s e b r :
  wf_str s -> encodeURIComponent s = Some e -> utf8 s = Some b ->
  unescape plus (e ++ r) = app b <$> unescape plus r.
Proof.
  unfold encodeURIComponent, utf8. intros Hwf. destruct (code_points s) as [cps|] eqn:E; [|done].
  intros [= <-] [= <-]. apply (code_points_bound s) in E; [|done].
  induction E as [|cp cps Hcp _ IH]; [simpl; by destruct (unescape plus r)|].
  change (unescape plus ((encode_point cp ++ mjoin (encode_point <$> cps)) ++ r)
    = app (utf8_of cp ++ mjoin (utf8_of <$> cps)) <$> unescape plus r).
  rewrite <- app_assoc, encode_point_unescape by done. unfold compose in IH. simpl in IH. rewrite IH.
  destruct (unescape plus r); simpl; by rewrite ?app_assoc.
Qed.

(** Literal text without percent signs decodes to itself. *)
Lemma unescape_literal l r :
  Forall (fun c => c <> 37) l -> unescape false (l ++ r) = app l <$> unescape false r.
Proof.
  induction 1 as [|c l Hc _ IH]; simpl; [by destruct (unescape false r)|].
  rewrite (proj2 (N.eqb_neq c 37) Hc), IH. by destruct (unescape false r).
Qed.

Lemma cut_app sep l c r : Forall (fun x => x <> sep) l -> c = sep -> cut sep (l ++ c :: r) = (l, r).
Proof.
  intros Hl ->. induction Hl as [|x l Hx _ IH]; simpl; [by rewrite N.eqb_refl|].
  by rewrite (proj2 (N.eqb_neq x sep) Hx), IH.
Qed.

Lemma cut_none sep l : Forall (fun x => x <> sep) l -> cut sep l = (l, []).
Proof. induction 1 as [|x l Hx _ IH]; simpl; [done|]. by rewrite (proj2 (N.eqb_neq x sep) Hx), IH. Qed.

Lemma starts_with_app p s : starts_with p (p ++ s) = true.
Proof. induction p as [|c p IH]; [by destruct s|]. simpl. by rewrite N.eqb_refl, IH. Qed.

Lemma trim_prefix_app p s : trim_prefix p (p ++ s) = s.
Proof. unfold trim_prefix. by rewrite starts_with_app, drop_app_length. Qed.

(** ** Slashes *)

Lemma utf8_of_slash cp : 47 ∈ utf8_of cp -> cp = 47.
Proof.
  unfold utf8_of.
  destruct (N.ltb_spec cp 0x80); [|destruct (N.ltb_spec cp 0x800); [|destruct (N.ltb_spec cp 0x10000)]];
    rewrite ?elem_of_cons, elem_of_nil; intros Hin; decompose [or] Hin; try done; exfalso;
    repeat match goal with
    | H : context [?a / ?k] |- _ => generalize dependent (a / k); intros
    | H : context [?a mod ?k] |- _ => generalize dependent (a mod k); intros
    end; lia.
Qed.

Lemma code_points_slash s cps : code_points s = Some cps -> 47 ∈ cps -> 47 ∈ s.
Proof.
  revert cps. induction s as [|c|c d r IHr IHd] using jstr_ind2; intros cps.
  - intros [= <-]. done.
  - simpl. destruct (is_low c), (is_high c); try done. by intros [= <-].
  - change (code_points (c :: d :: r)) with
      (if is_low c then None else if is_high c then
         if is_low d then cons (0x10000 + (c - 0xD800) * 0x400 + (d - 0xDC00)) <$> code_points r else None
       else cons c <$> code_points (d :: r)).
    destruct (is_low c); [done|]. destruct (is_high c).
    + destruct (is_low d); [|done]. destruct (code_points r) as [l|]; [|done].
      intros [= <-] [Hc|Hin]%elem_of_cons; [lia|]. apply elem_of_cons. right. apply elem_of_cons. right. by eapply IHr.
    + destruct (code_points (d :: r)) as [l|]; [|done].
      intros [= <-] [->|Hin]%elem_of_cons; [by left|]. right. by eapply IHd.
Qed.

Lemma utf8_slash s b : utf8 s = Some b -> 47 ∈ b -> 47 ∈ s.
Proof.
  unfold utf8. destruct (code_points s) as [cps|] eqn:E; [|done]. intros [= <-] Hin.
  apply list_elem_of_join in Hin as (l & Hl & (cp & -> & Hcp)%list_elem_of_fmap).
  apply utf8_of_slash in Hl as ->. by eapply code_points_slash.
Qed.

Lemma no_slash_utf8 s b : utf8 s = Some b -> 47 ∉ s -> Forall (fun c => (47 =? c) = false) b.
Proof.
  intros Hb Hs. apply Forall_forall. intros c Hc. apply N.eqb_neq. intros <-. by eapply Hs, utf8_slash.
Qed.

(** A string around a slash is sent as the two parts around a slash. *)
Lemma code_points_app a b cps :
  code_points (a ++ 47 :: b) = Some cps ->
  exists ca cb, code_points a = Some ca /\ code_points b = Some cb /\ cps = ca ++ 47 :: cb.
Proof.
  revert cps. induction a as [|c|c d r IHr IHd] using jstr_ind2; intros cps.
  - simpl. destruct (code_points b) as [cb|]; [|done]. intros [= <-]. by exists [], cb.
  - simpl. destruct (is_low c); [done|]. destruct (is_high c); [done|].
    destruct (code_points b) as [cb|]; [|done]. intros [= <-]. by exists [c], cb.
  - change (code_points ((c :: d :: r) ++ 47 :: b)) with
      (if is_low c then None else if is_high c then
         if is_low d then cons (0x10000 + (c - 0xD800) * 0x400 + (d - 0xDC00)) <$> code_points (r ++ 47 :: b) else None
       else cons c <$> code_points ((d :: r) ++ 47 :: b)).
    change (code_points (c :: d :: r)) with
      (if is_low c then None else if is_high c then
         if is_low d then cons (0x10000 + (c - 0xD800) * 0x400 + (d - 0xDC00)) <$> code_points r else None
       else cons c <$> code_points (d :: r)).
    destruct (is_low c); [done|]. destruct (is_high c).
    + destruct (is_low d); [|done]. destruct (code_points (r ++ 47 :: b)) as [l|]; [|done]. intros [= <-].
      destruct (IHr l eq_refl) as (ca & cb & -> & -> & ->). by eexists _, cb.
    + destruct (code_points ((d :: r) ++ 47 :: b)) as [l|]; [|done]. intros [= <-].
      destruct (IHd l eq_refl) as (ca & cb & -> & -> & ->). by eexists _, cb.
Qed.

Lemma utf8_slash_app a b u :
  utf8 (a ++ 47 :: b) = Some u -> exists ua ub, utf8 a = Some ua /\ utf8 b = Some ub /\ u = ua ++ 47 :: ub.
Proof.
  unfold utf8. destruct (code_points (a ++ 47 :: b)) as [cps|] eqn:E; [|done]. intros [= <-].
  apply code_points_app in E as (ca & cb & -> & -> & ->). eexists _, _. split; [done|]. split; [done|].
  unfold compose. by rewrite fmap_app, join_app.
Qed.

(** ** Routing of the client's addresses *)

(** Units of the fixed parts of an address. *)
Definition literal (c : N) : Prop := c <> 37 /\ c <> 63 /\ c <> 47.

(** What the address of a named resource decodes to. *)
Definition addressed (name action : list N) : option (list N * list N) :=
  match split_on (N.eqb 47) (name ++ 47 :: action) with n :: a :: _ => Some (n, a) | _ => None end.

Lemma encoded_clean s e b :
  wf_str s -> encodeURIComponent s = Some e -> utf8 s = Some b -> clean_segment b = true -> clean_segment e = true.
Proof.
  intros Hwf He Hb Hc. pose proof (encodeURIComponent_unescape false s e Hwf He) as Hu. rewrite Hb in Hu.
  unfold clean_segment in *. repeat case_bool_decide; try done; subst; by injection Hu as <-.
Qed.

(** The first parameter of a query string. *)
Lemma query_first path name value v uv rest :
  Forall (fun c => c <> 63) path ->
  Forall (fun c => c <> 37 /\ c <> 43 /\ c <> 38 /\ c <> 61) name ->
  wf_str value -> encodeURIComponent value = Some v -> utf8 value = Some uv ->
  rest = [] \/ head rest = Some 38 ->
  query_get name (path ++ 63 :: name ++ 61 :: v ++ rest) = uv.
Proof.
  intros Hp Hn Hwv Hv Huv Hr. pose proof (encodeURIComponent_safe value v Hwv Hv) as Hs.
  unfold query_get. rewrite cut_app; [|exact Hp|done]. cbn [snd].
  unfold query_pairs.
  assert (exists ws, split_on (N.eqb 38) (name ++ 61 :: v ++ rest) = (name ++ 61 :: v) :: ws) as [ws ->].
  { assert (Forall (fun c => (38 =? c) = false) (name ++ 61 :: v)) as H38.
    { apply Forall_app. split; [eapply Forall_impl; [exact Hn|]; intros c Hc; apply N.eqb_neq; naive_solver|].
      constructor; [done|]. eapply Forall_impl; [exact Hs|]. intros c Hc. apply N.eqb_neq. unfold uri_safe in Hc. naive_solver. }
    replace (name ++ 61 :: v ++ rest) with ((name ++ 61 :: v) ++ rest) by by rewrite <- app_assoc.
    destruct rest as [|c q]; [rewrite app_nil_r, split_on_clean by done; by eexists|].
    destruct Hr as [|[= ->]]; [done|]. rewrite split_on_app by done. by eexists. }
  cbn [omap list_omap]. rewrite cut_app; [|eapply Forall_impl; [exact Hn | naive_solver] | done].
  assert (unescape true name = Some name) as ->.
  { clear -Hn. induction Hn as [|c l (Hc1 & Hc2 & _) _ IH]; [done|]. simpl.
    by rewrite (proj2 (N.eqb_neq c 37) Hc1), (proj2 (N.eqb_neq c 43) Hc2), IH. }
  rewrite (encodeURIComponent_unescape true value v), Huv by done. simpl.
  by rewrite bool_decide_true.
Qed.

(** A fixed prefix that ends a segment, as the two routers have. *)
Class Prefix (prefix : jstr) (segments : list jstr) := {
  prefix_literal : Forall (fun c => c <> 37 /\ c <> 63) prefix;
  prefix_clean : forallb clean_segment segments = true;
  prefix_split x : tail (split_on (N.eqb 47) (prefix ++ x)) = segments ++ split_on (N.eqb 47) x;
}.

#[export] Instance kv_prefix : Prefix (js "/api/kv/") [js "api"; js "kv"].
Proof. split; [by repeat constructor | done | done]. Qed.

#[export] Instance doc_prefix : Prefix (js "/api/doc/") [js "api"; js "doc"].
Proof. split; [by repeat constructor | done | done]. Qed.

Section Addresses.
Context (prefix : jstr) (segments : list jstr) `{!Prefix prefix segments}.
Variables (s e b action : jstr).
Hypothesis Hwf : wf_str s.
Hypothesis He : encodeURIComponent s = Some e.
Hypothesis Hb : utf8 s = Some b.
Hypothesis Hclean : clean_segment b = true.
Hypothesis Haction : Forall literal action.
Hypothesis Hac : clean_segment action = true.

Let path := prefix ++ e ++ 47 :: action.

Lemma path_no_query : Forall (fun c => c <> 63) path.
Proof using All.
  unfold path. pose proof (encodeURIComponent_safe s e Hwf He) as Hs.
  apply Forall_app. split; [eapply Forall_impl; [exact prefix_literal | by intros ? []]|].
  apply Forall_app. split; [eapply Forall_impl; [exact Hs | unfold uri_safe; naive_solver]|].
  constructor; [done|]. eapply Forall_impl; [exact Haction | unfold literal; naive_solver].
Qed.

Lemma path_clean : clean_path path = true.
Proof using All.
  pose proof (encodeURIComponent_safe s e Hwf He) as Hs.
  unfold clean_path, path. rewrite prefix_split, forallb_app, prefix_clean, split_on_app; [|clear Hac|done].
  2: { eapply Forall_impl; [exact Hs|]. intros c (_ & _ & Hc & _). by apply N.eqb_neq. }
  rewrite split_on_clean; [by simpl; rewrite Hac, (encoded_clean s e b)|].
  eapply Forall_impl; [exact Haction|]. intros c (_ & _ & Hc). by apply N.eqb_neq.
Qed.

Lemma path_unescape : unescape false path = Some (prefix ++ b ++ 47 :: action).
Proof using All.
  unfold path. rewrite unescape_literal by (eapply Forall_impl; [exact prefix_literal | by intros ? []]).
  rewrite (unescape_component false s e b) by done.
  change (47 :: action) with ([47] ++ action). rewrite unescape_literal by by repeat constructor.
  rewrite <- (app_nil_r action), unescape_literal by (eapply Forall_impl; [exact Haction | by intros ? []]).
  simpl. by rewrite app_nil_r.
Qed.

(** The address of an encoded name, an action and an optional query. *)
Lemma route_address query :
  query = [] \/ head query = Some 63 -> route prefix (path ++ query) = addressed b action.
Proof using All.
  intros Hq. assert (cut 63 (path ++ query) = (path, tail query)) as Hcut.
  { destruct query as [|c q]; [rewrite app_nil_r; apply cut_none, path_no_query|].
    destruct Hq as [|[= ->]]; [done|]. apply cut_app; [apply path_no_query | done]. }
  unfold route. rewrite Hcut. cbn [fst]. rewrite path_clean, path_unescape. simpl. by rewrite trim_prefix_app.
Qed.

(** The first parameter of the query of such an address. *)
Lemma query_address name value v uv rest :
  Forall (fun c => c <> 37 /\ c <> 43 /\ c <> 38 /\ c <> 61) name ->
  wf_str value -> encodeURIComponent value = Some v -> utf8 value = Some uv ->
  rest = [] \/ head rest = Some 38 ->
  query_get name (path ++ 63 :: name ++ 61 :: v ++ rest) = uv.
Proof using All. intros. by apply (query_first path name value); [apply path_no_query|..]. Qed.
End Addresses.

Lemma addressed_no_slash s b action :
  utf8 s = Some b -> 47 ∉ s -> Forall literal action -> addressed b action = Some (b, action).
Proof.
  intros Hb Hs Ha. unfold addressed. rewrite split_on_app; [|by eapply no_slash_utf8|done].
  rewrite split_on_clean; [done|]. eapply Forall_impl; [exact Ha|]. intros c (_ & _ & Hc). by apply N.eqb_neq.
Qed.

(** A name that reaches its handler whole: 16-bit units, its bytes one clean
    segment of a path. *)
Definition segment_name (s : jstr) (b : list N) : Prop :=
  wf_str s /\ utf8 s = Some b /\ clean_segment b = true /\ 47 ∉ s.

(** A text that can be a query parameter. *)
Definition param_text (s : jstr) (b : list N) : Prop := wf_str s /\ utf8 s = Some b.

Lemma param_encodes s b : param_text s b -> exists e, encodeURIComponent s = Some e.
Proof.
  intros [_ Hb]. destruct (encodeURIComponent s) as [e|] eqn:E; [by eexists|].
  apply encodeURIComponent_utf8 in E. congruence.
Qed.

(** A call that is sent, and is read by a router as an action on a name, with
    a first parameter. *)
Definition reads `{Engine} (router : jstr -> option (list N * list N)) (c : call)
    (name action : list N) (param : option (jstr * list N)) : Prop :=
  exists r, c = inr r /\ router (req_url r) = Some (name, action) /\
    match param with Some (k, v) => query_get k (req_url r) = v | None => True end.

Section Reads.
Context `{Engine} (prefix : jstr) (segments : list jstr) `{!Prefix prefix segments}.
Variables (s b action n a : jstr).
Hypothesis Hs : param_text s b.
Hypothesis Hclean : clean_segment b = true.
Hypothesis Haction : Forall literal action.
Hypothesis Hac : clean_segment action = true.
Hypothesis Hread : addressed b action = Some (n, a).

Lemma reads_name mk o :
  (forall e, BASE_URL ++ mk e = prefix ++ e ++ 47 :: action) ->
  reads (route prefix) (with_component s (fun e => send (mk e) o)) n a None.
Proof using All.
  intros Hmk. destruct (param_encodes s b) as [e He]; [done|]. destruct Hs as [Hwf Hb].
  unfold reads, with_component. rewrite He. eexists. split; [done|]. split; [|done].
  cbn [req_url request]. rewrite Hmk, <- (app_nil_r (prefix ++ _)), <- Hread.
  by eapply (route_address prefix segments s e b action); eauto.
Qed.

Lemma reads_param mk o name value uv rest :
  (forall e v, BASE_URL ++ mk e v = (prefix ++ e ++ 47 :: action) ++ 63 :: name ++ 61 :: v ++ rest) ->
  Forall (fun c => c <> 37 /\ c <> 43 /\ c <> 38 /\ c <> 61) name ->
  param_text value uv -> rest = [] \/ head rest = Some 38 ->
  reads (route prefix) (with_component s (fun e => with_component value (fun v => send (mk e v) o))) n a
    (Some (name, uv)).
Proof using All.
  intros Hmk Hn [Hwv Huv] Hr. destruct (param_encodes s b) as [e He]; [done|].
  destruct (param_encodes value uv) as [v Hv]; [done|]. destruct Hs as [Hwf Hb].
  unfold reads, with_component. rewrite He, Hv. eexists. split; [done|].
  cbn [req_url request]. rewrite Hmk, <- Hread. split; [by eapply (route_address prefix segments s e b action); eauto|].
  by apply (query_address prefix segments s e b action) with (value := value).
Qed.
End Reads.

(** One call: the name's bytes, the action, and what follows the parameter. *)
Ltac reads_call Hread act tl :=
  match type of Hread with param_text ?s ?b =>
    first [eapply (reads_param _ _ s b act) with (rest := tl) | eapply (reads_name _ _ s b act)]
  end;
  [exact Hread | done | by repeat constructor | done | try (by eapply addressed_no_slash; [..|repeat constructor])
  | intros; rewrite <- ?app_assoc, ?app_nil_r; reflexivity | ..];
  first [done | by repeat constructor | by left | by right | idtac].

(** Every key-value call of the client reaches the server's key-value
    router as the action the client meant, on the bucket it named, and with the
    key or prefix it named, byte for byte, whatever characters they hold, as
    long as the bucket's name is one clean path segment. *)
Theorem kv_calls_reach `{Engine} bucket key value limit ttl delta ub uk :
  segment_name bucket ub -> param_text key uk ->
  reads kv_route (scanBucket bucket key limit) ub (js "scan") (Some (js "prefix", uk)) /\
  reads kv_route (getKV bucket key) ub (js "get") (Some (js "key", uk)) /\
  reads kv_route (putKV bucket key value ttl) ub (js "put") None /\
  reads kv_route (deleteKV bucket key) ub (js "delete") (Some (js "key", uk)) /\
  reads kv_route (incrementKV bucket key delta) ub (js "incr") None.
Proof.
  intros (Hwf & Hb & Hc & H47) Hk. pose proof (conj Hwf Hb : param_text bucket ub) as Hn. split_and!.
  - reads_call Hn (js "scan") (js "&limit=" ++ num_str limit).
  - reads_call Hn (js "get") (@nil N).
  - reads_call Hn (js "put") (@nil N).
  - reads_call Hn (js "delete") (@nil N).
  - reads_call Hn (js "incr") (@nil N).
Qed.

(** Likewise for the document calls: the router reads the collection, the
    action and, for the calls on one document, its identifier. *)
Theorem doc_calls_reach `{Engine} collection id doc q uc ui :
  segment_name collection uc -> param_text id ui ->
  reads doc_route (queryDocuments collection q) uc (js "query") None /\
  reads doc_route (getDocument collection id) uc (js "get") (Some (js "id", ui)) /\
  reads doc_route (insertDocument collection doc) uc (js "insert") None /\
  reads doc_route (updateDocument collection id doc) uc (js "update") (Some (js "id", ui)) /\
  reads doc_route (deleteDocument collection id) uc (js "delete") (Some (js "id", ui)).
Proof.
  intros (Hwf & Hb & Hc & H47) Hk. pose proof (conj Hwf Hb : param_text collection uc) as Hn. split_and!.
  - reads_call Hn (js "query") (@nil N).
  - reads_call Hn (js "get") (@nil N).
  - reads_call Hn (js "insert") (@nil N).
  - reads_call Hn (js "update") (@nil N).
  - reads_call Hn (js "delete") (@nil N).
Qed.

(** A bucket whose name holds a slash is not reachable: the server splits
    the decoded path, so a scan of [a/c] is read as the action [c] on the
    bucket [a]. *)
Theorem kv_slash_misroutes `{Engine} a c key limit u uk :
  param_text (a ++ 47 :: c) u -> 47 ∉ a -> 47 ∉ c -> param_text key uk ->
  exists ua uc, utf8 a = Some ua /\ utf8 c = Some uc
    /\ reads kv_route (scanBucket (a ++ 47 :: c) key limit) ua uc (Some (js "prefix", uk)).
Proof.
  intros Hn H1 H2 Hk. destruct (utf8_slash_app a c u (proj2 Hn)) as (ua & uc & Ha & Hc & ->).
  exists ua, uc. split; [done|]. split; [done|].
  assert (clean_segment (ua ++ 47 :: uc) = true) as Hcl.
  { unfold clean_segment. by destruct ua as [|? [|? [|]]]; repeat (case_bool_decide; [simplify_eq|]). }
  reads_call Hn (js "scan") (js "&limit=" ++ num_str limit).
  unfold addressed. rewrite <- app_assoc. simpl.
  rewrite !split_on_app; [done | by eapply no_slash_utf8 | done | by eapply no_slash_utf8 | done].
Qed.

Module Examples.
#[local] Existing Instance plain_engine.

(** A key with a space, a slash and a two-byte letter. *)
Lemma kv_calls_reach_witness :
  reads kv_route (getKV (js "user profiles") (js "a/é")) (js "user profiles") (js "get")
    (Some (js "key", [97; 47; 0xC3; 0xA9])).
Proof.
  apply (kv_calls_reach (js "user profiles") (js "a/é") [] (num_of_Z 100) None (num_of_Z 1)).
  - split_and!; [apply (bool_decide_unpack _); by vm_compute | by vm_compute | by vm_compute | by apply (bool_decide_unpack _)].
  - split; [apply (bool_decide_unpack _); by vm_compute | by vm_compute].
Defined.

Lemma doc_calls_reach_witness :
  reads doc_route (updateDocument (js "users") (js "id 1&x=2") VNull) (js "users") (js "update")
    (Some (js "id", js "id 1&x=2")).
Proof.
  apply (doc_calls_reach (js "users") (js "id 1&x=2") VNull []).
  - split_and!; [apply (bool_decide_unpack _); by vm_compute | by vm_compute | by vm_compute | by apply (bool_decide_unpack _)].
  - split; [apply (bool_decide_unpack _); by vm_compute | by vm_compute].
Defined.

Lemma kv_slash_misroutes_witness :
  exists ua uc, utf8 (js "app") = Some ua /\ utf8 (js "put") = Some uc
    /\ reads kv_route (scanBucket (js "app" ++ 47 :: js "put") (js "k") (num_of_Z 100)) ua uc (Some (js "prefix", js "k")).
Proof.
  apply (kv_slash_misroutes (js "app") (js "put") (js "k") (num_of_Z 100) (js "app/put")).
  - split; [apply (bool_decide_unpack _); by vm_compute | by vm_compute].
  - by apply (bool_decide_unpack _).
  - by apply (bool_decide_unpack _).
  - split; [apply (bool_decide_unpack _); by vm_compute | by vm_compute].
Defined.

End Examples.
