(* ===== verification/Go.v ===== *)
(** The parts of Go and its standard library that [studio/handlers.go] and
    [studio/timeseries.go] rely on: strings as bytes with their UTF-8 readings,
    machine integers, [strings.TrimSpace], the decoding of a JSON body into a
    struct, RFC 3339 times and the [%v] text of a JSON value.

    A body is one JSON text, its members are matched by their exact names, and
    its numbers are taken in the shortest form: that is how [JSON.stringify],
    and so the client, writes them. *)

From S2P Require Import Prelude JsString JsNumber JsDate Json.
From Stdlib Require Import SpecFloat.

Open Scope N_scope.

(** ** Strings *)

Definition bytes := list N.

(** A string literal of the Go sources. *)
Definition gs (s : string) : bytes := bytes_of s.

(** The code points of a text, an unpaired surrogate replaced by U+FFFD: how a
    JSON string is decoded. *)
Fixpoint scalars (s : jstr) : list N :=
  match s with
  | [] => []
  | c :: r =>
      if is_low c then 0xFFFD :: scalars r
      else if is_high c then
        match r with
        | d :: r' =>
            if is_low d then 0x10000 + (c - 0xD800) * 0x400 + (d - 0xDC00) :: scalars r'
            else 0xFFFD :: scalars r
        | [] => [0xFFFD]
        end
      else c :: scalars r
  end.

(** The Go string of a JSON string. *)
Definition go_string (s : jstr) : bytes := mjoin (utf8_of <$> scalars s).

(** A continuation byte, and the second byte a lead byte allows. *)
Definition is_cont (b : N) : bool := (0x80 <=? b) && (b <=? 0xBF).

Definition second_ok (a b : N) : bool :=
  if a =? 0xE0 then (0xA0 <=? b) && (b <=? 0xBF)
  else if a =? 0xED then (0x80 <=? b) && (b <=? 0x9F)
  else if a =? 0xF0 then (0x90 <=? b) && (b <=? 0xBF)
  else if a =? 0xF4 then (0x80 <=? b) && (b <=? 0x8F)
  else is_cont b.

(** [utf8.DecodeRune] repeated, as the JSON encoder does: a byte that starts no
    valid sequence is U+FFFD. *)
Fixpoint runes (bs : bytes) : list N :=
  match bs with
  | [] => []
  | a :: r =>
      if a <? 0x80 then a :: runes r
      else
        match r with
        | b :: r1 =>
            if (0xC2 <=? a) && (a <=? 0xDF) && is_cont b then (a - 0xC0) * 64 + (b - 0x80) :: runes r1
            else
              match r1 with
              | c :: r2 =>
                  if (0xE0 <=? a) && (a <=? 0xEF) && second_ok a b && is_cont c
                  then (a - 0xE0) * 4096 + (b - 0x80) * 64 + (c - 0x80) :: runes r2
                  else
                    match r2 with
                    | d :: r3 =>
                        if (0xF0 <=? a) && (a <=? 0xF4) && second_ok a b && is_cont c && is_cont d
                        then (a - 0xF0) * 262144 + (b - 0x80) * 4096 + (c - 0x80) * 64 + (d - 0x80) :: runes r3
                        else 0xFFFD :: runes r
                    | [] => 0xFFFD :: runes r
                    end
              | [] => 0xFFFD :: runes r
              end
        | [] => [0xFFFD]
        end
  end.

(** The JSON string a Go string is written as, read by the client. *)
Definition text_of (b : bytes) : jstr := mjoin (units_of <$> runes b).

(** [strings.TrimSpace] drops the characters of [unicode.IsSpace]. *)
Definition is_space (c : N) : bool :=
  ((9 <=? c) && (c <=? 13)) || (c =? 32) || (c =? 0x85) || (c =? 0xA0) || (c =? 0x1680)
  || ((0x2000 <=? c) && (c <=? 0x200A)) || (c =? 0x2028) || (c =? 0x2029) || (c =? 0x202F)
  || (c =? 0x205F) || (c =? 0x3000).

Fixpoint drop_space (cps : list N) : list N :=
  match cps with
  | c :: r => if is_space c then drop_space r else cps
  | [] => []
  end.

Definition blank (s : bytes) : bool := bool_decide (drop_space (runes s) = []).

Definition trim_space (s : bytes) : bytes :=
  mjoin (utf8_of <$> reverse (drop_space (reverse (drop_space (runes s))))).

(** ** Strings survive the wire *)

(** A Unicode scalar value. *)
Definition scalar (cp : N) : Prop := cp < 0xD800 \/ (0xE000 <= cp /\ cp < 0x110000).

Lemma scalars_code_points s cps : code_points s = Some cps -> scalars s = cps.
Proof.
  revert cps. induction s as [|c|c d r IHr IHd] using jstr_ind2; intros cps.
  - by intros [= <-].
  - simpl. destruct (is_low c), (is_high c); try done. by intros [= <-].
  - change (code_points (c :: d :: r)) with
      (if is_low c then None else if is_high c then
         if is_low d then cons (0x10000 + (c - 0xD800) * 0x400 + (d - 0xDC00)) <$> code_points r else None
       else cons c <$> code_points (d :: r)).
    change (scalars (c :: d :: r)) with
      (if is_low c then 0xFFFD :: scalars (d :: r) else if is_high c then
         if is_low d then 0x10000 + (c - 0xD800) * 0x400 + (d - 0xDC00) :: scalars r else 0xFFFD :: scalars (d :: r)
       else c :: scalars (d :: r)).
    destruct (is_low c); [done|]. destruct (is_high c).
    + destruct (is_low d); [|done]. destruct (code_points r) as [l|]; [|done]. intros [= <-]. by rewrite (IHr l).
    + destruct (code_points (d :: r)) as [l|]; [|done]. intros [= <-]. by rewrite (IHd l).
Qed.

Lemma go_string_utf8 s b : utf8 s = Some b -> go_string s = b.
Proof.
  unfold utf8. destruct (code_points s) as [cps|] eqn:E; [|done]. intros [= <-].
  unfold go_string. by rewrite (scalars_code_points s cps).
Qed.

Lemma scalar_unit c : c < 0x10000 -> is_low c = false -> is_high c = false -> scalar c.
Proof.
  unfold scalar, is_low, is_high. intros Hc Hl Hh. destruct (N.ltb_spec c 0xD800); [lia|]. right.
  destruct (N.leb_spec 0xD800 c); [|lia]. destruct (N.leb_spec 0xDC00 c).
  - simpl in Hl. apply N.ltb_ge in Hl. lia.
  - simpl in Hh. apply N.ltb_ge in Hh. lia.
Qed.

Lemma scalars_scalar s : wf_str s -> Forall scalar (scalars s).
Proof.
  assert (scalar 0xFFFD) as Hr by (right; lia).
  induction s as [|c|c d r IHr IHd] using jstr_ind2; intros Hwf; [constructor|..].
  - apply Forall_cons in Hwf as [Hc _]. simpl. destruct (is_low c) eqn:El; [by repeat constructor|].
    destruct (is_high c) eqn:Eh; (constructor; [|constructor]); [done|by apply scalar_unit].
  - apply Forall_cons in Hwf as [Hc Hwf]. pose proof (proj1 (Forall_cons _ _ _) Hwf) as [Hd Hwr].
    change (scalars (c :: d :: r)) with
      (if is_low c then 0xFFFD :: scalars (d :: r) else if is_high c then
         if is_low d then 0x10000 + (c - 0xD800) * 0x400 + (d - 0xDC00) :: scalars r else 0xFFFD :: scalars (d :: r)
       else c :: scalars (d :: r)).
    specialize (IHd Hwf). specialize (IHr Hwr).
    destruct (is_low c) eqn:El; [by constructor|]. destruct (is_high c) eqn:Eh; [|constructor; [by apply scalar_unit|done]].
    destruct (is_low d) eqn:Ed; constructor; try done. unfold scalar, is_high, is_low in *. to_prop. lia.
Qed.

(** The units of a scalar value are one code point. *)
Lemma scalars_units cp r : scalar cp -> scalars (units_of cp ++ r) = cp :: scalars r.
Proof.
  intros Hs. unfold units_of, scalar in *. destruct (N.ltb_spec cp 0x10000) as [H|H].
  - cbn [app scalars]. unfold is_low, is_high.
    destruct (N.leb_spec 0xDC00 cp), (N.ltb_spec cp 0xE000), (N.leb_spec 0xD800 cp), (N.ltb_spec cp 0xDC00);
      simpl; done || lia.
  - cbn [app scalars]. pose proof (N.mod_lt (cp - 0x10000) 0x400). pose proof (N.div_mod (cp - 0x10000) 0x400).
    assert ((cp - 0x10000) / 0x400 < 0x400) by (apply N.Div0.div_lt_upper_bound; lia).
    set (q := (cp - 0x10000) / 0x400) in *. set (m := (cp - 0x10000) mod 0x400) in *. unfold is_low, is_high.
    destruct (N.leb_spec 0xDC00 (0xD800 + q)); [lia|]. destruct (N.leb_spec 0xD800 (0xD800 + q)); [|lia].
    destruct (N.ltb_spec (0xD800 + q) 0xDC00); [|lia]. destruct (N.leb_spec 0xDC00 (0xDC00 + m)); [|lia].
    destruct (N.ltb_spec (0xDC00 + m) 0xE000); [|lia]. cbn [andb]. f_equal. lia.
Qed.

(** Decide the comparisons of a goal from the hypotheses. *)
Ltac decide_N :=
  repeat match goal with
  | |- context [?a <=? ?b] => first [rewrite (proj2 (N.leb_le a b)) by lia | rewrite (proj2 (N.leb_gt a b)) by lia]
  | |- context [?a <? ?b] => first [rewrite (proj2 (N.ltb_lt a b)) by lia | rewrite (proj2 (N.ltb_ge a b)) by lia]
  | |- context [?a =? ?b] => first [rewrite (proj2 (N.eqb_eq a b)) by lia | rewrite (proj2 (N.eqb_neq a b)) by lia]
  end.

(** Decoding the bytes of a scalar value gives it back, wherever they stand. *)
Lemma runes_utf8_of cp r : scalar cp -> runes (utf8_of cp ++ r) = cp :: runes r.
Proof.
  intros Hs. unfold scalar in Hs. unfold utf8_of.
  destruct (N.ltb_spec cp 0x80) as [H1|H1]; [simpl; by decide_N|].
  destruct (N.ltb_spec cp 0x800) as [H2|H2]; [|destruct (N.ltb_spec cp 0x10000) as [H3|H3]]; cbn [app runes].
  - pose proof (N.mod_lt cp 64). pose proof (N.div_mod cp 64). set (q := cp / 64) in *. set (m := cp mod 64) in *.
    unfold is_cont. decide_N. cbn [andb]. f_equal. lia.
  - pose proof (N.mod_lt cp 64). pose proof (N.div_mod cp 64). pose proof (N.mod_lt (cp / 64) 64).
    pose proof (N.div_mod (cp / 64) 64). replace (cp / 4096) with (cp / 64 / 64) by (by rewrite N.Div0.div_div).
    set (q := cp / 64 / 64) in *. set (m := cp mod 64) in *. set (n := (cp / 64) mod 64) in *.
    assert (second_ok (224 + q) (128 + n) = true) as ->.
    { unfold second_ok, is_cont. destruct (N.eqb_spec (224 + q) 224); [decide_N; done|].
      destruct (N.eqb_spec (224 + q) 237); [decide_N; done|]. by decide_N. }
    unfold is_cont. decide_N. cbn [andb]. f_equal. lia.
  - pose proof (N.mod_lt cp 64). pose proof (N.div_mod cp 64). pose proof (N.mod_lt (cp / 64) 64).
    pose proof (N.div_mod (cp / 64) 64). pose proof (N.mod_lt (cp / 64 / 64) 64). pose proof (N.div_mod (cp / 64 / 64) 64).
    rewrite (N.Div0.div_div cp 64 64) in *. change (64 * 64) with 4096 in *.
    assert (cp / 262144 = cp / 4096 / 64) as E by (by rewrite N.Div0.div_div). rewrite E.
    set (q := cp / 4096 / 64) in *. set (m := cp mod 64) in *. set (n := (cp / 64) mod 64) in *.
    set (k := (cp / 4096) mod 64) in *.
    assert (second_ok (240 + q) (128 + k) = true) as ->.
    { unfold second_ok, is_cont. destruct (N.eqb_spec (240 + q) 240); [decide_N; done|].
      destruct (N.eqb_spec (240 + q) 244); [decide_N; done|]. by decide_N. }
    unfold is_cont. decide_N. cbn [andb]. f_equal. lia.
Qed.

(** A text as the server holds it: unpaired surrogates replaced. *)
Definition sanitize (s : jstr) : jstr := mjoin (units_of <$> scalars s).

Lemma text_go_string s : wf_str s -> text_of (go_string s) = sanitize s.
Proof.
  intros Hwf. unfold text_of, go_string, sanitize. f_equal. f_equal.
  induction (scalars_scalar s Hwf) as [|cp cps Hcp _ IH]; [done|].
  change (runes (utf8_of cp ++ mjoin (utf8_of <$> cps)) = cp :: cps). by rewrite runes_utf8_of, IH.
Qed.

Lemma scalars_sanitize s : wf_str s -> scalars (sanitize s) = scalars s.
Proof.
  intros Hwf. unfold sanitize. induction (scalars_scalar s Hwf) as [|cp cps Hcp _ IH]; [done|].
  change (scalars (units_of cp ++ mjoin (units_of <$> cps)) = cp :: cps). by rewrite scalars_units, IH.
Qed.

Lemma units_surrogates c d : is_high c = true -> is_low d = true ->
  units_of (0x10000 + (c - 0xD800) * 0x400 + (d - 0xDC00)) = [c; d].
Proof.
  unfold is_high, is_low, units_of. intros Hc Hd. to_prop. decide_N.
  set (a := c - 0xD800). set (b := d - 0xDC00). assert (b < 0x400) by lia.
  replace (0x10000 + a * 0x400 + b - 0x10000) with (b + a * 0x400) by lia.
  rewrite N.div_add, N.Div0.mod_add, N.div_small, N.mod_small by lia. f_equal; [lia|]. f_equal. lia.
Qed.

Lemma code_points_units s cps : wf_str s -> code_points s = Some cps -> mjoin (units_of <$> cps) = s.
Proof.
  revert cps. induction s as [|c|c d r IHr IHd] using jstr_ind2; intros cps Hwf.
  - by intros [= <-].
  - apply Forall_cons in Hwf as [Hc _]. simpl. destruct (is_low c), (is_high c); try done. intros [= <-].
    simpl. unfold units_of. by decide_N.
  - apply Forall_cons in Hwf as [Hc Hwf]. pose proof (proj1 (Forall_cons _ _ _) Hwf) as [Hd Hwr].
    change (code_points (c :: d :: r)) with
      (if is_low c then None else if is_high c then
         if is_low d then cons (0x10000 + (c - 0xD800) * 0x400 + (d - 0xDC00)) <$> code_points r else None
       else cons c <$> code_points (d :: r)).
    destruct (is_low c); [done|]. destruct (is_high c) eqn:Eh.
    + destruct (is_low d) eqn:El; [|done]. destruct (code_points r) as [l|]; [|done]. intros [= <-].
      change (units_of (0x10000 + (c - 0xD800) * 0x400 + (d - 0xDC00)) ++ mjoin (units_of <$> l) = c :: d :: r). by rewrite units_surrogates, (IHr l).
    + destruct (code_points (d :: r)) as [l|]; [|done]. intros [= <-].
      change (units_of c ++ mjoin (units_of <$> l) = c :: d :: r). rewrite (IHd l) by done. unfold units_of. by decide_N.
Qed.

(** The bytes of a well-formed text read back as the text. *)
Lemma text_utf8 s b : wf_str s -> utf8 s = Some b -> text_of b = s.
Proof.
  intros Hwf Hb. rewrite <- (go_string_utf8 s b), text_go_string by done. unfold sanitize.
  unfold utf8 in Hb. destruct (code_points s) as [cps|] eqn:E; [|done].
  rewrite (scalars_code_points s cps), (code_points_units s cps) by done. done.
Qed.

#[export] Hint Resolve text_utf8 go_string_utf8 : js.

(** ** Integers *)

Open Scope Z_scope.

(** Two's complement arithmetic at 64 bits, and conversion to [uint8]. *)
Definition int64 (z : Z) : Z := (z + 2 ^ 63) mod 2 ^ 64 - 2 ^ 63.
Definition uint8 (z : Z) : Z := z mod 256.

Lemma int64_small z : - 2 ^ 63 <= z < 2 ^ 63 -> int64 z = z.
Proof. intros Hz. unfold int64. rewrite Z.mod_small; lia. Qed.

Lemma int64_range z : - 2 ^ 63 <= int64 z < 2 ^ 63.
Proof. unfold int64. pose proof (Z.mod_pos_bound (z + 2 ^ 63) (2 ^ 64)). lia. Qed.

(** [strconv.ParseInt(s, 10, 64)] on the literal of a JSON number. *)
Definition parse_int (s : jstr) : option Z :=
  let '(neg, ds) := match s with c :: r => if (c =? c_minus)%N then (true, r) else (false, s) | [] => (false, []) end in
  if negb (bool_decide (ds = [])) && forallb is_digit ds then
    let z := cond_Zopp neg (Z.of_N (digits_value 0 ds)) in
    if (- 2 ^ 63 <=? z) && (z <? 2 ^ 63) then Some z else None
  else None.

Lemma digits_all n : forallb is_digit (digits n) = true.
Proof. apply forallb_Forall. apply digits_digit. Qed.

(** The decimal text of an integer in range is read as the integer. *)
Lemma parse_int_str z : - 2 ^ 63 <= z < 2 ^ 63 -> parse_int (Z_str z) = Some z.
Proof.
  intros Hz. unfold Z_str, parse_int. destruct (Z.ltb_spec z 0) as [Hn|Hn].
  - rewrite N.eqb_refl. rewrite bool_decide_false by apply digits_nonempty. rewrite digits_all. cbn [negb andb].
    rewrite digits_roundtrip. simpl cond_Zopp. rewrite Z2N.id by lia. rewrite Z.opp_involutive.
    by rewrite (proj2 (Z.leb_le _ _)), (proj2 (Z.ltb_lt _ _)) by lia.
  - destruct (digits (Z.to_N z)) as [|c r] eqn:E; [by apply digits_nonempty in E|].
    assert ((c =? c_minus)%N = false) as ->.
    { pose proof (digits_digit (Z.to_N z)) as Hd. rewrite E in Hd. apply Forall_cons in Hd as [Hc _].
      apply N.eqb_neq. intros ->. done. }
    rewrite <- E, digits_all. rewrite bool_decide_false by by rewrite E. cbn [negb andb].
    rewrite digits_roundtrip. simpl cond_Zopp. rewrite Z2N.id by lia.
    by rewrite (proj2 (Z.leb_le _ _)), (proj2 (Z.ltb_lt _ _)) by lia.
Qed.

(** ** Decoding JSON into a struct *)

(** The value a member decodes to, and whether it had the type of the field: a
    mismatch is an error, but the other fields are decoded all the same. An
    absent or [null] member leaves the zero value. *)
Definition decoded (A : Type) := (A * bool)%type.

Definition go_str (v : val) : decoded bytes :=
  match v with VUndef | VNull => ([], true) | VStr s => (go_string s, true) | _ => ([], false) end.

Definition go_int (v : val) : decoded Z :=
  match v with
  | VUndef | VNull => (0, true)
  | VNum n => match parse_int (num_str n) with Some z => (z, true) | None => (0, false) end
  | _ => (0, false)
  end.

Definition go_bool (v : val) : decoded bool :=
  match v with VUndef | VNull => (false, true) | VBool b => (b, true) | _ => (false, false) end.

(** [[]T] from the decoding of [T] (of an absent element, its zero value). *)
Definition go_slice {A} (f : val -> decoded A) (v : val) : decoded (list A) :=
  match v with
  | VUndef | VNull => ([], true)
  | VArr vs => ((f <$> vs).*1, forallb snd (f <$> vs))
  | _ => ([], false)
  end.

(** [any]: strings and keys are Go strings, of which the text is kept. *)
Fixpoint go_any (v : val) : val :=
  match v with
  | VUndef => VNull
  | VStr s => VStr (sanitize s)
  | VArr vs => VArr (map go_any vs)
  | VObj ps => VObj (obj_of (map (fun p => (sanitize p.1, go_any p.2)) ps))
  | _ => v
  end.

(** [map[string]any]; [None] is the nil map. *)
Definition go_map (v : val) : decoded (option jsobj) :=
  match v with
  | VUndef | VNull => (None, true)
  | VObj _ => match go_any v with VObj o => (Some o, true) | _ => (None, false) end
  | _ => (None, false)
  end.

(** A nested struct. *)
Definition go_struct {A} (f : jsobj -> decoded A) (v : val) : decoded A :=
  match v with
  | VUndef | VNull => ((f []).1, true)
  | VObj o => f o
  | _ => ((f []).1, false)
  end.

(** [json.NewDecoder(r.Body).Decode(&req)]: the struct, and whether the error
    is nil. An empty or malformed body decodes nothing. *)
Definition Decode {A} (f : val -> decoded A) (body : option jstr) : decoded A :=
  match body ≫= parse with
  | Some v => f v
  | None => ((f VUndef).1, false)
  end.

(** ** Times *)

(** A [time.Time] is its nanoseconds since 1970 (UTC); the zero time is the
    first of January of the year one. *)
Definition zero_time : Z := -62135596800 * 10 ^ 9.

Definition IsZero (t : Z) : bool := t =? zero_time.

Definition eat (c : N) (s : bytes) : option bytes :=
  match s with d :: r => if (d =? c)%N then Some r else None | [] => None end.

(** Two digits. *)
Definition two (s : bytes) : option (Z * bytes) :=
  match s with a :: b :: r => n ← num2 a b; Some (n, r) | _ => None end.

(** The hour, of one digit or two. *)
Definition hours (strict : bool) (s : bytes) : option (Z * bytes) :=
  match s with
  | a :: b :: r =>
      if is_digit a then
        if is_digit b then two s
        else if strict then None else Some (Z.of_N (a - 48), b :: r)
      else None
  | _ => None
  end.

(** A fraction of a second, cut at nanoseconds. *)
Definition nanos (ds : bytes) : Z :=
  let ds' := take 9 ds in Z.of_N (digits_value 0 ds') * 10 ^ (9 - Z.of_nat (length ds')).

Definition fraction (strict : bool) (s : bytes) : Z * bytes :=
  match s with
  | c :: r =>
      if (c =? 46)%N || (negb strict && (c =? 44)%N) then
        match span_digits r with ([], _) => (0, s) | (ds, t) => (nanos ds, t) end
      else (0, s)
  | [] => (0, [])
  end.

(** The offset of the zone, in seconds. *)
Definition zone (strict : bool) (s : bytes) : option Z :=
  match s with
  | [90%N] => Some 0
  | c :: r =>
      if (c =? c_plus)%N || (c =? c_minus)%N then
        '(h, r) ← two r; r ← eat 58 r; '(m, r) ← two r;
        if bool_decide (r = []) && (if strict then (h <? 24) && (m <? 60) else (h <=? 24) && (m <=? 60))
        then Some (cond_Zopp (c =? c_minus)%N (h * 3600 + m * 60)) else None
      else None
  | [] => None
  end.

(** [time.Parse(time.RFC3339, s)], and its strict form for JSON. *)
Definition parse_rfc3339 (strict : bool) (s : bytes) : option Z :=
  '(yh, r) ← two s; '(yl, r) ← two r; r ← eat 45 r; '(mo, r) ← two r; r ← eat 45 r; '(d, r) ← two r;
  r ← eat 84 r; '(h, r) ← hours strict r; r ← eat 58 r; '(mi, r) ← two r; r ← eat 58 r; '(sec, r) ← two r;
  let '(ns, r) := fraction strict r in
  off ← zone strict r;
  let y := yh * 100 + yl in
  if (1 <=? mo) && (mo <=? 12) && (1 <=? d) && (d <=? days_in_month y mo) && (h <=? 23) && (mi <=? 59) && (sec <=? 59)
  then Some ((day_of_civil y mo d * 86400 + h * 3600 + mi * 60 + sec - off) * 10 ^ 9 + ns)
  else None.

(** [time.Time.UnmarshalJSON] on a member of a struct. *)
Definition go_time (v : val) : decoded Z :=
  match v with
  | VUndef | VNull => (zero_time, true)
  | VStr s => match parse_rfc3339 true (go_string s) with Some t => (t, true) | None => (zero_time, false) end
  | _ => (zero_time, false)
  end.

(** The fraction as it is written: up to nine digits, without trailing zeros. *)
Definition fraction_text (ns : Z) : jstr :=
  if ns =? 0 then []
  else
    let ds := digits (Z.to_N ns) in
    let padded := zeros (9 - Z.of_nat (length ds)) ++ ds in
    c_dot :: reverse (strip_zeros (reverse padded) 0).1.

(** [time.Time.MarshalJSON] of a UTC time; an error outside the years 0 to 9999. *)
Definition rfc3339_nano (t : Z) : option jstr :=
  let sec := t / 10 ^ 9 in
  let '(y, m, d) := civil (sec / 86400) in
  let s := sec mod 86400 in
  if (0 <=? y) && (y <=? 9999) then
    Some (pad4 y ++ [45%N] ++ pad2 m ++ [45%N] ++ pad2 d ++ [84%N] ++ pad2 (s / 3600) ++ [58%N]
          ++ pad2 (s / 60 mod 60) ++ [58%N] ++ pad2 (s mod 60) ++ fraction_text (t mod 10 ^ 9) ++ [90%N])
  else None.

(** ** Floating point *)

(** Values of type [float32] and their arithmetic. *)
Definition f32 := spec_float.
Definition sub32 : f32 -> f32 -> f32 := SFsub 24 128.
Definition add32 : f32 -> f32 -> f32 := SFadd 24 128.
Definition mul32 : f32 -> f32 -> f32 := SFmul 24 128.
Definition div32 : f32 -> f32 -> f32 := SFdiv 24 128.
Definition f32_of_Z (z : Z) : f32 := binary_normalize 24 128 z 0 false.

Definition is_finite (x : spec_float) : bool :=
  match x with S754_zero _ | S754_finite _ _ _ => true | _ => false end.

(** Conversion of a [float64]. *)
Definition to_f32 (x : num) : f32 :=
  match x with
  | S754_finite s m e => binary_normalize 24 128 (cond_Zopp s (Zpos m)) e s
  | _ => x
  end.

(** The [float32] nearest to [m * 10^e]. *)
Definition dec2f32 (neg : bool) (m : N) (e : Z) : f32 :=
  match m with
  | N0 => S754_zero neg
  | Npos p =>
      if 0 <=? e then
        if 60 <? e then S754_infinity neg else binary_normalize 24 128 (cond_Zopp neg (Zpos p * 10 ^ e)) 0 neg
      else if Z.of_nat (length (digits m)) + e <? -60 then S754_zero neg
      else SFdiv 24 128 (S754_finite neg p 0) (S754_finite false (Z.to_pos (10 ^ (- e))) 0)
  end.

(** A number of a body decoded into a [float32]: its decimal text is rounded
    once; an overflow is an error. *)
Definition go_f32 (v : val) : decoded f32 :=
  match v with
  | VUndef | VNull => (S754_zero false, true)
  | VNum (S754_zero s) => (S754_zero false, true)
  | VNum (S754_finite s m e) =>
      let '(d, j) := default (Npos m, e) (shortest m e) in
      let x := dec2f32 s d j in if is_finite x then (x, true) else (S754_zero false, false)
  | _ => (S754_zero false, false)
  end.

(** The shortest decimal that reads back as a [float32]: how the JSON encoder
    writes it, and the number the client reads there. *)
Definition try32 (m : positive) (e n : Z) (k : nat) : option (N * Z) :=
  let j := n - Z.of_nat k in
  let '(q, r, d) := scaled m e j in
  let ok c := bool_decide (dec2f32 false c.1 c.2 = S754_finite false m e) in
  let near := normalize (if 2 * r <? d then q else q + 1) j in
  let far := normalize (if 2 * r <? d then q + 1 else q) j in
  if ok near then Some near else if ok far then Some far else None.

Fixpoint shortest32 (m : positive) (e n : Z) (k fuel : nat) : option (N * Z) :=
  match try32 m e n k with
  | Some c => Some c
  | None => match fuel with O => None | S f => shortest32 m e n (S k) f end
  end.

Definition json_f32 (x : f32) : num :=
  match x with
  | S754_finite s m e =>
      let '(d, j) := default (Npos m, e) (shortest32 m e (dec_exponent m e) 1 8) in dec2num s d j
  | _ => x
  end.

(** ** The [%v] text of a JSON value *)

(** Bytewise order of strings. *)
Fixpoint bytes_le (a b : bytes) : bool :=
  match a, b with
  | [], _ => true
  | _, [] => false
  | x :: a', y :: b' => (x <? y)%N || ((x =? y)%N && bytes_le a' b')
  end.

(** [strconv.FormatFloat(x, 'g', -1, 64)] *)
Definition float_text (x : num) : jstr :=
  match x with
  | S754_nan => js "NaN"
  | S754_infinity s => if s then js "-Inf" else js "+Inf"
  | S754_zero s => if s then js "-0" else js "0"
  | S754_finite s m e =>
      let '(d, j) := default (Npos m, e) (shortest m e) in
      let ds := digits d in
      let x := j + Z.of_nat (length ds) - 1 in
      (if s then [c_minus] else []) ++
      (if (x <? -4) || (6 <=? x) then
         take 1 ds ++ (if bool_decide (length ds = 1%nat) then [] else c_dot :: drop 1 ds)
         ++ [101%N; if x <? 0 then c_minus else c_plus] ++ (if Z.abs x <? 10 then [48%N] else [])
         ++ digits (Z.to_N (Z.abs x))
       else layout ds (x + 1))
  end.

(** [fmt.Sprintf("%v", v)]: maps are printed by increasing key. *)
Fixpoint insert_key (p : jstr * jstr) (l : list (jstr * jstr)) : list (jstr * jstr) :=
  match l with
  | [] => [p]
  | q :: r => if bytes_le (go_string p.1) (go_string q.1) then p :: l else q :: insert_key p r
  end.

Fixpoint sprint (v : val) : jstr :=
  match v with
  | VUndef | VNull => js "<nil>"
  | VBool b => js (if b then "true" else "false")
  | VNum n => float_text n
  | VStr s => s
  | VArr vs => js "[" ++ join (js " ") (map sprint vs) ++ js "]"
  | VObj ps =>
      js "map[" ++ join (js " ") (map (fun p => p.1 ++ js ":" ++ p.2)
        (foldr insert_key [] (map (fun p => (p.1, sprint p.2)) ps))) ++ js "]"
  end.

(** ** Laws of the decoders *)

Lemma go_string_ascii s : Forall (fun c => c < 128)%N s -> go_string s = s.
Proof.
  induction 1 as [|c s Hc _ IH]; [done|]. unfold go_string in *. cbn [scalars].
  assert (is_low c = false) as -> by (unfold is_low; by decide_N).
  assert (is_high c = false) as -> by (unfold is_high; by decide_N).
  change (utf8_of c ++ mjoin (utf8_of <$> scalars s) = c :: s). rewrite IH. unfold utf8_of. by decide_N.
Qed.

Lemma digit_is_digit n : 0 <= n < 10 -> is_digit (digit n) = true.
Proof. intros Hn. unfold digit, is_digit. decide_N. done. Qed.

Lemma digit_value n : 0 <= n < 10 -> Z.of_N (digit n - 48) = n.
Proof. intros Hn. unfold digit. lia. Qed.

Lemma two_pad2 n r : 0 <= n < 100 -> two (pad2 n ++ r) = Some (n, r).
Proof. intros Hn. unfold pad2. cbn [app two]. by rewrite num2_pad2. Qed.

Lemma hours_pad2 strict n r : 0 <= n < 100 -> hours strict (pad2 n ++ r) = Some (n, r).
Proof.
  intros Hn. unfold pad2. cbn [app hours]. rewrite !digit_is_digit by (Z.to_euclidean_division_equations; lia).
  by apply two_pad2.
Qed.

Lemma eat_here c r : eat c (c :: r) = Some r.
Proof. simpl. by rewrite N.eqb_refl. Qed.

Lemma fraction_pad3 strict n r : 0 <= n < 1000 -> match r with c :: _ => is_digit c = false | [] => True end ->
  fraction strict (46%N :: pad3 n ++ r) = (n * 10 ^ 6, r).
Proof.
  intros Hn Hr. unfold fraction. rewrite N.eqb_refl. cbn [orb]. rewrite span_digits_app; [|clear Hr|done].
  - unfold pad3, pad2. f_equal. unfold nanos, digits_value. cbn -[Z.mul Z.pow Z.div Z.modulo].
    change (9 - 3) with 6. f_equal. unfold digit. Z.to_euclidean_division_equations. lia.
  - unfold pad3, pad2. repeat constructor; apply digit_is_digit; Z.to_euclidean_division_equations; lia.
Qed.

(** The ISO text of a client's instant is read as the same instant, in either
    form of the parser. *)
Lemma parse_iso strict t : Z.abs t <= max_time -> 0 <= year_of_day (t / ms_per_day) <= 9999 ->
  exists s, toISOString (Some t) = Some s /\ parse_rfc3339 strict s = Some (t * 10 ^ 6).
Proof.
  intros Ht Hy. unfold toISOString. cbn [mbind option_bind]. rewrite (proj2 (Z.leb_le _ _) Ht).
  pose proof (civil_spec (t / ms_per_day)) as Hc.
  assert ((civil (t / ms_per_day)).1.1 = year_of_day (t / ms_per_day)) as Ey by done.
  destruct (civil (t / ms_per_day)) as [[y m] d]. destruct Hc as (Hm & Hd & Hday). simpl in Ey. subst y.
  set (y := year_of_day (t / ms_per_day)) in *. pose proof (days_in_month_31 y m Hm).
  eexists. split; [reflexivity|]. unfold year_text.
  rewrite (proj2 (Z.leb_le 0 y)), (proj2 (Z.leb_le y 9999)) by lia. cbn [andb].
  assert (0 <= t mod ms_per_day < ms_per_day) as Hms by (apply Z.mod_pos_bound; done).
  set (ms := t mod ms_per_day) in *. unfold ms_per_day in *.
  change (js "-") with [45%N]. change (js "T") with [84%N]. change (js ":") with [58%N]. change (js ".") with [46%N].
  change (js "Z") with [90%N]. unfold parse_rfc3339, pad4. rewrite <- !app_assoc.
  repeat (first
    [ rewrite two_pad2 by (Z.to_euclidean_division_equations; lia)
    | rewrite hours_pad2 by (Z.to_euclidean_division_equations; lia)
    | rewrite eat_here ]; cbn [mbind option_bind app]).
  rewrite fraction_pad3; [|Z.to_euclidean_division_equations; lia|done]. cbn [zone mbind option_bind].
  replace (y / 100 * 100 + y mod 100) with y by (Z.to_euclidean_division_equations; lia).
  rewrite !(proj2 (Z.leb_le _ _)); try (Z.to_euclidean_division_equations; lia). cbn [andb]. f_equal.
  rewrite Hday. unfold ms. Z.to_euclidean_division_equations. lia.
Qed.
