(* ===== verification/Btree.v ===== *)
(** [internal/btree]: the B+tree that keeps buckets, documents and queues, on
    pages of [internal/storage] with their capacity. A page is a leaf with its
    neighbours in the chain of leaves, or an internal node; what the slots of a
    page hold is a list. Reading and allocating pages do not fail. *)

From S2P Require Import Prelude JsString JsNumber Go.

Open Scope Z_scope.

(** ** Keys *)

(** [bytes.Compare] *)
Fixpoint Compare (a b : bytes) : comparison :=
  match a, b with
  | [], [] => Eq
  | [], _ => Lt
  | _, [] => Gt
  | x :: a, y :: b => match N.compare x y with Eq => Compare a b | c => c end
  end.

Definition MaxKeySize : nat := 2048.
Definition MaxValueSize : nat := 4096.

(** ** Pages *)

Definition InvalidPage : N := 0xFFFFFFFFFFFFFFFF.

Abbreviation item := (bytes * bytes)%type.

Inductive page :=
| Leaf (prev next : N) (items : list item)
| Internal (items : list (N * bytes)) (rightmost : N).

Abbreviation pages := (gmap N page).

(** What the slots of a page may take: each record has a slot of its own. *)
Definition page_room : Z := 16384 - 64.

Definition leaf_cost (it : item) : Z := 4 + Z.of_nat (length it.1) + Z.of_nat (length it.2) + 4.
Definition internal_cost (it : N * bytes) : Z := 10 + Z.of_nat (length it.2) + 4.

(** [SetItems]: records are added until one does not fit; whether all did. *)
Fixpoint fill {A} (cost : A -> Z) (free : Z) (items : list A) : list A * bool :=
  match items with
  | [] => ([], true)
  | it :: r =>
      if cost it <=? free then let '(l, ok) := fill cost (free - cost it) r in (it :: l, ok) else ([], false)
  end.

Definition fill_leaf : list item -> list item * bool := fill leaf_cost page_room.
Definition fill_internal : list (N * bytes) -> list (N * bytes) * bool := fill internal_cost page_room.

(** ** Searching within a page *)

(** [KeyAt] *)
Definition key_at (items : list item) (i : nat) : bytes := match items !! i with Some it => it.1 | None => [] end.
Definition separator_at (items : list (N * bytes)) (i : nat) : bytes := match items !! i with Some it => it.2 | None => [] end.

(** [LeafNode.BinarySearch]: the loop from [low] up to [high], which is behind
    the last slot considered. *)
Fixpoint search_loop (fuel : nat) (key : bytes) (items : list item) (low high : nat) : nat * bool :=
  match fuel with
  | O => (low, false)
  | S f =>
      if (low <? high)%nat then
        let mid := Nat.div2 (low + (high - 1)) in
        match Compare key (key_at items mid) with
        | Eq => (mid, true)
        | Lt => search_loop f key items low mid
        | Gt => search_loop f key items (S mid) high
        end
      else (low, false)
  end.

Definition BinarySearch (key : bytes) (items : list item) : nat * bool := search_loop (S (length items)) key items 0 (length items).

(** [RouteChild]: the first slot whose key is greater. *)
Fixpoint route_loop (fuel : nat) (key : bytes) (items : list (N * bytes)) (low high : nat) : nat :=
  match fuel with
  | O => low
  | S f =>
      if (low <? high)%nat then
        let mid := Nat.div2 (low + high) in
        match Compare key (separator_at items mid) with
        | Lt => route_loop f key items low mid
        | _ => route_loop f key items (S mid) high
        end
      else low
  end.

Definition RouteChild (key : bytes) (items : list (N * bytes)) (rightmost : N) : N :=
  match items !! route_loop (S (length items)) key items 0 (length items) with
  | Some (child, _) => child
  | None => rightmost
  end.

(** ** The tree *)

(** New pages. *)
Class Allocator := {
  Allocate : pages -> N;
  Allocate_fresh P : P !! Allocate P = None /\ Allocate P <> InvalidPage;
}.

(** The way from a page to the leaf that should hold a key; no tree is higher
    than it has pages. *)
Fixpoint descend (fuel : nat) (key : bytes) (id : N) (P : pages) : list N :=
  match fuel with
  | O => []
  | S f =>
      match P !! id with
      | Some (Internal items rightmost) => id :: descend f key (RouteChild key items rightmost) P
      | Some (Leaf _ _ _) => [id]
      | None => []
      end
  end.

Definition path_to (key : bytes) (root : N) (P : pages) : list N := descend (S (size P)) key root P.

Definition leaf_items (id : N) (P : pages) : list item := match P !! id with Some (Leaf _ _ items) => items | _ => [] end.
Definition next_leaf (id : N) (P : pages) : N := match P !! id with Some (Leaf _ next _) => next | _ => InvalidPage end.
Definition prev_leaf (id : N) (P : pages) : N := match P !! id with Some (Leaf prev _ _) => prev | _ => InvalidPage end.

Definition findLeaf (key : bytes) (root : N) (P : pages) : N := default InvalidPage (last (path_to key root P)).

Definition Search (key : bytes) (root : N) (P : pages) : option bytes :=
  if bool_decide (root = InvalidPage) then None
  else
    let items := leaf_items (findLeaf key root P) P in
    match BinarySearch key items with
    | (idx, true) => snd <$> items !! idx
    | (_, false) => None
    end.

(** The items of a leaf with a key written into them. *)
Definition written (key value : bytes) (items : list item) : list item :=
  match BinarySearch key items with
  | (idx, true) => <[idx := (key_at items idx, value)]> items
  | (idx, false) => take idx items ++ (key, value) :: drop idx items
  end.

(** How far an insertion has come: done, failed, or a page split in two, with
    the key between the halves. *)
Inductive outcome := Done | Failed | Split (cl : N) (key : bytes) (cr : N).

(** [SetPrevLeaf] of the leaf behind a split one. *)
Definition relink (rid next : N) (P : pages) : pages :=
  if bool_decide (next = InvalidPage) then P
  else match P !! next with Some (Leaf _ n its) => <[next := Leaf rid n its]> P | _ => P end.

Section Tree.
Context `{Allocator}.

(** The leaf: it takes the item, or is split. *)
Definition insert_leaf (key value : bytes) (id : N) (P : pages) : pages * outcome :=
  match P !! id with
  | Some (Leaf prev next old) =>
      let items := written key value old in
      let '(kept, ok) := fill_leaf items in
      if ok then (<[id := Leaf prev next kept]> P, Done)
      else
        let rid := Allocate P in
        let mid := Nat.div2 (length items) in
        let '(lkept, lok) := fill_leaf (take mid items) in
        let '(rkept, rok) := fill_leaf (drop mid items) in
        let P := relink rid next P in
        let P := <[id := Leaf prev rid lkept]> P in
        if negb lok then (<[rid := Leaf id next []]> P, Failed)
        else
          let P := <[rid := Leaf id next rkept]> P in
          if rok then (P, match drop mid items with (k, _) :: _ => Split id k rid | [] => Failed end) else (P, Failed)
  | _ => (P, Failed)
  end.

(** The entries of a parent after its child [cl] was split. *)
Definition split_entries (cl : N) (key : bytes) (cr : N) (items : list (N * bytes)) (rightmost : N) : option (list (N * bytes) * N) :=
  if bool_decide (cl = rightmost) then Some (items ++ [(cl, key)], cr)
  else
    match list_find (fun it => it.1 = cl) items with
    | Some (i, (_, oldKey)) => Some (take i items ++ (cl, key) :: (cr, oldKey) :: drop (S i) items, rightmost)
    | None => None
    end.

(** The parent: it takes the two halves, or is split itself. *)
Definition insert_parent (cl : N) (key : bytes) (cr : N) (id : N) (P : pages) : pages * outcome :=
  match P !! id with
  | Some (Internal old rightmost) =>
      match split_entries cl key cr old rightmost with
      | None => (P, Failed)
      | Some (items, newRightmost) =>
          let '(kept, ok) := fill_internal items in
          if ok then (<[id := Internal kept newRightmost]> P, Done)
          else
            let rid := Allocate P in
            let mid := Nat.div2 (length items) in
            match items !! mid with
            | None => (<[rid := Internal [] 0]> P, Failed)
            | Some (child, promotedKey) =>
                let '(lkept, lok) := fill_internal (take mid items) in
                let '(rkept, rok) := fill_internal (drop (S mid) items) in
                let P := <[id := Internal lkept child]> P in
                if negb lok then (<[rid := Internal [] 0]> P, Failed)
                else
                  let P := <[rid := Internal rkept newRightmost]> P in
                  (P, if rok then Split id promotedKey rid else Failed)
            end
      end
  | _ => (P, Failed)
  end.

(** The leaf at the end of the path, then its parents from the last up. *)
Fixpoint insert_path (key value : bytes) (path : list N) (P : pages) : pages * outcome :=
  match path with
  | [] => (P, Failed)
  | [id] => insert_leaf key value id P
  | id :: rest =>
      match insert_path key value rest P with
      | (P, Split cl k cr) => insert_parent cl k cr id P
      | r => r
      end
  end.

(** [Insert]: the pages, the root and whether there was no error. *)
Definition Insert (key value : bytes) (root : N) (P : pages) : pages * N * bool :=
  if (MaxKeySize <? length key)%nat || (MaxValueSize <? length value)%nat then (P, root, false)
  else if bool_decide (root = InvalidPage) then
    let id := Allocate P in
    let '(kept, ok) := fill_leaf [(key, value)] in
    (<[id := Leaf InvalidPage InvalidPage kept]> P, if ok then id else root, ok)
  else
    match insert_path key value (path_to key root P) P with
    | (P, Done) => (P, root, true)
    | (P, Failed) => (P, root, false)
    | (P, Split cl k cr) =>
        let id := Allocate P in
        let '(kept, ok) := fill_internal [(cl, k)] in
        (<[id := Internal kept cr]> P, if ok then id else root, ok)
    end.

(** [Delete]: the pages and whether there was no error. *)
Definition Delete (key : bytes) (root : N) (P : pages) : pages * bool :=
  if bool_decide (root = InvalidPage) then (P, true)
  else
    let id := findLeaf key root P in
    match P !! id with
    | Some (Leaf prev next items) =>
        match BinarySearch key items with
        | (idx, true) => let '(kept, ok) := fill_leaf (take idx items ++ drop (S idx) items) in (<[id := Leaf prev next kept]> P, ok)
        | (_, false) => (P, true)
        end
    | _ => (P, false)
    end.
End Tree.
