(* ===== verification/BtreeSearch.v ===== *)
(** Searching in the pages of the B+tree: the order of keys, and what the two
    binary searches find. *)

From Stdlib Require Import Orders OrdersTac Sorted.
From S2P Require Import Prelude JsString JsNumber Go Btree.

Open Scope Z_scope.

(** ** The order of keys *)

Definition klt (a b : bytes) : Prop := Compare a b = Lt.
Definition kle (a b : bytes) : Prop := klt a b \/ a = b.

Lemma Compare_eq a b : Compare a b = Eq <-> a = b.
Proof.
  revert b. induction a as [|x a IH]; intros [|y b]; cbn; try done. destruct (N.compare_spec x y) as [->|Hx|Hx]; [|split; [done|intros [= -> _]; lia]..].
  rewrite IH. split; [by intros ->|by intros [= ->]].
Qed.

Lemma Compare_antisym a b : Compare b a = CompOpp (Compare a b).
Proof. revert b. induction a as [|x a IH]; intros [|y b]; cbn; try done. rewrite (N.compare_antisym y x). destruct (y ?= x)%N eqn:E; cbn; by rewrite ?E. Qed.

Lemma klt_trans a b c : klt a b -> klt b c -> klt a c.
Proof.
  unfold klt. revert b c. induction a as [|x a IH]; intros [|y b] [|z c]; cbn; try done.
  destruct (N.compare_spec x y) as [->|Hx|Hx]; destruct (N.compare_spec y z) as [->|Hy|Hy]; try done; intros H1 H2.
  - eauto.
  - by rewrite (proj2 (N.compare_lt_iff x z)).
  - rewrite (proj2 (N.compare_lt_iff x z)); [done|lia].
Qed.

Lemma klt_irrefl a : ~ klt a a.
Proof. unfold klt. intros H. by rewrite (proj2 (Compare_eq a a) eq_refl) in H. Qed.

Module Keys <: OrderedTypeFull.
Definition t := bytes.
Definition eq := @Logic.eq bytes.
Definition eq_equiv : Equivalence eq := _.
Definition lt := klt.
Definition le := kle.
Definition compare := Compare.

Lemma lt_strorder : StrictOrder lt.
Proof. split; [intros a; apply klt_irrefl|intros a b c; apply klt_trans]. Qed.

Lemma lt_compat : Proper (eq ==> eq ==> iff) lt.
Proof. by intros a b -> c d ->. Qed.

Lemma le_lteq a b : le a b <-> lt a b \/ eq a b.
Proof. done. Qed.

Lemma compare_spec a b : CompareSpec (eq a b) (lt a b) (lt b a) (compare a b).
Proof.
  unfold compare, lt, klt. destruct (Compare a b) eqn:E; constructor; [by apply Compare_eq|done|]. by rewrite Compare_antisym, E.
Qed.

Definition eq_dec (a b : bytes) : {a = b} + {a <> b} := decide (a = b).
End Keys.

Module KeysTac := OTF_to_OrderTac Keys.

(** Decide goals about the order of keys. *)
Ltac korder := subst; KeysTac.order.

Lemma Compare_spec a b : CompareSpec (a = b) (klt a b) (klt b a) (Compare a b).
Proof. apply Keys.compare_spec. Qed.

(** ** Ordered entries *)

Definition ordered {A} (key : A -> bytes) (l : list A) : Prop := StronglySorted klt (key <$> l).

Definition below {A} (key : A -> bytes) (k : bytes) (l : list A) : Prop := Forall (fun x => klt (key x) k) l.
Definition above {A} (key : A -> bytes) (k : bytes) (l : list A) : Prop := Forall (fun x => klt k (key x)) l.

Lemma ordered_app {A} (key : A -> bytes) a b : ordered key (a ++ b) <-> ordered key a /\ ordered key b /\ forall x y, x ∈ a -> y ∈ b -> klt (key x) (key y).
Proof.
  unfold ordered. induction a as [|x a IH]; cbn [app fmap list_fmap].
  - split; [|naive_solver]. intros H. split_and!; [constructor|done|by intros ? ? ?%elem_of_nil].
  - split.
    + intros [H1 H2]%StronglySorted_inv. apply IH in H1 as (Ha & Hb & Hab). rewrite fmap_app in H2. apply Forall_app in H2 as [H2 H3]. split_and!; [by constructor|done|].
      intros u y [->|Hu]%elem_of_cons Hy; [|by apply Hab]. rewrite Forall_fmap, Forall_forall in H3. by apply H3.
    + intros ([Ha Hx]%StronglySorted_inv & Hb & Hab). constructor; [apply IH; split_and!; [done..|]; intros; apply Hab; [by right|done]|].
      rewrite fmap_app. apply Forall_app. split; [done|]. rewrite Forall_fmap, Forall_forall. intros y Hy. apply Hab; [by left|done].
Qed.

Lemma ordered_cons {A} (key : A -> bytes) x l : ordered key (x :: l) <-> above key (key x) l /\ ordered key l.
Proof.
  unfold ordered, above. cbn. split; [intros [H1 H2]%StronglySorted_inv|intros [H1 H2]; constructor; [done|by rewrite Forall_fmap]].
  rewrite Forall_fmap in H2. done.
Qed.

Lemma ordered_lookup {A} (key : A -> bytes) l i j x y : ordered key l -> (i < j)%nat -> l !! i = Some x -> l !! j = Some y -> klt (key x) (key y).
Proof.
  intros Ho Hij Hx Hy. rewrite <- (take_drop_middle l i x Hx) in Ho. apply ordered_app in Ho as (_ & Ho & _). apply ordered_cons in Ho as [Ho _].
  unfold above in Ho. rewrite Forall_forall in Ho. apply Ho. eapply (list_elem_of_lookup_2 _ (j - S i)). rewrite lookup_drop. by replace (S i + (j - S i))%nat with j by lia.
Qed.

(** Writing, reading and removing an entry of an ordered list. *)
Fixpoint put (k v : bytes) (l : list item) : list item :=
  match l with
  | [] => [(k, v)]
  | (k', v') :: r => match Compare k k' with Eq => (k, v) :: r | Lt => (k, v) :: l | Gt => (k', v') :: put k v r end
  end.

Definition get (k : bytes) (l : list item) : option bytes := snd <$> List.find (fun it => bool_decide (it.1 = k)) l.

Definition remove (k : bytes) (l : list item) : list item := filter (fun it => it.1 <> k) l.

Lemma put_below k v a b : below fst k a -> put k v (a ++ b) = a ++ put k v b.
Proof.
  intros Ha. induction Ha as [|[k' v'] a Hx _ IH]; [done|]. cbn. cbn in Hx. destruct (Compare_spec k k'); [exfalso; korder..|]. by rewrite IH.
Qed.

Lemma put_above k v a b : above fst k b -> put k v (a ++ b) = put k v a ++ b.
Proof.
  intros Hb. induction a as [|[k' v'] a IH]; cbn.
  - destruct Hb as [|[k' v'] b Hx _]; [done|]. cbn in *. destruct (Compare_spec k k'); [exfalso; korder|done|exfalso; korder].
  - destruct (Compare k k'); [done|done|]. by rewrite IH.
Qed.

Lemma put_here k v w b : put k v ((k, w) :: b) = (k, v) :: b.
Proof. cbn. by rewrite (proj2 (Compare_eq k k)). Qed.

Lemma below_trans {A} (key : A -> bytes) k k' l : below key k l -> kle k k' -> below key k' l.
Proof. intros H Hk. eapply Forall_impl; [exact H|]. intros x Hx. cbn in *. destruct Hk as [Hk| ->]; [by eapply klt_trans|done]. Qed.

Lemma above_trans {A} (key : A -> bytes) k k' l : above key k l -> kle k' k -> above key k' l.
Proof. intros H Hk. eapply Forall_impl; [exact H|]. intros x Hx. cbn in *. destruct Hk as [Hk| ->]; [by eapply klt_trans|done]. Qed.

Lemma put_elem k v l x : x ∈ put k v l -> x = (k, v) \/ x ∈ l.
Proof.
  induction l as [|[k' v'] l IH]; cbn; [intros ->%list_elem_of_singleton; auto|]. destruct (Compare k k').
  - intros [->|Hx]%elem_of_cons; [auto|right; by right].
  - intros [->|Hx]%elem_of_cons; auto.
  - intros [->|Hx]%elem_of_cons; [right; by left|]. destruct (IH Hx); [auto|right; by right].
Qed.

Lemma put_nonempty k v l : put k v l <> [].
Proof. destruct l as [|[k' v'] l]; cbn; [done|]. by destruct (Compare k k'). Qed.

Lemma put_ordered k v l : ordered fst l -> ordered fst (put k v l).
Proof.
  induction l as [|[k' v'] l IH]; cbn [put]; [intros _; repeat constructor|]. intros Ho. pose proof Ho as [Ha Hl]%ordered_cons. cbn in Ha.
  destruct (Compare_spec k k') as [->|Hk|Hk].
  - apply ordered_cons. by split.
  - apply ordered_cons. split; [|done]. constructor; [done|]. eapply above_trans; [exact Ha|by left].
  - apply ordered_cons. split; [|by apply IH]. apply Forall_forall. intros x [->|Hx]%put_elem; [done|]. unfold above in Ha. rewrite Forall_forall in Ha. by apply Ha.
Qed.

Lemma get_none k l : (forall x, x ∈ l -> x.1 <> k) -> get k l = None.
Proof.
  intros Hl. unfold get. induction l as [|x l IH]; [done|]. cbn. rewrite bool_decide_eq_false_2 by (apply Hl; by left). apply IH. intros y Hy. apply Hl. by right.
Qed.

Lemma get_app_not k a b : (forall x, x ∈ a -> x.1 <> k) -> get k (a ++ b) = get k b.
Proof.
  intros Hl. unfold get. induction a as [|x l IH]; [done|]. cbn. rewrite bool_decide_eq_false_2 by (apply Hl; by left). apply IH. intros y Hy. apply Hl. by right.
Qed.

Lemma get_head k v b : get k ((k, v) :: b) = Some v.
Proof. unfold get. cbn. by rewrite bool_decide_eq_true_2. Qed.

Lemma below_not {A} (key : A -> bytes) k l : below key k l -> forall x, x ∈ l -> key x <> k.
Proof. intros H x Hx. unfold below in H. rewrite Forall_forall in H. specialize (H _ Hx). intros E. cbn in H. korder. Qed.

Lemma above_not {A} (key : A -> bytes) k l : above key k l -> forall x, x ∈ l -> key x <> k.
Proof. intros H x Hx. unfold above in H. rewrite Forall_forall in H. specialize (H _ Hx). intros E. cbn in H. korder. Qed.

Lemma get_around k a l b : below fst k a -> above fst k b -> get k (a ++ l ++ b) = get k l.
Proof.
  intros Ha Hb. rewrite get_app_not by by apply below_not. destruct (get k l) as [v|] eqn:E.
  - unfold get in *. induction l as [|x l IH]; [done|]. cbn in *. case_bool_decide; [done|]. by apply IH.
  - unfold get in *. induction l as [|x l IH]; [by apply get_none, above_not|]. cbn in *. case_bool_decide; [done|]. by apply IH.
Qed.

Lemma filter_keeps {A} (Q : A -> Prop) `{forall x, Decision (Q x)} (l : list A) : (forall x, x ∈ l -> Q x) -> filter Q l = l.
Proof. intros Hl. induction l as [|x l IH]; [done|]. rewrite filter_cons_True by (apply Hl; by left). rewrite IH; [done|]. intros y Hy. apply Hl. by right. Qed.

Lemma filter_drops {A} (Q : A -> Prop) `{forall x, Decision (Q x)} (l : list A) : (forall x, x ∈ l -> ~ Q x) -> filter Q l = [].
Proof. intros Hl. induction l as [|x l IH]; [done|]. rewrite filter_cons_False by (apply Hl; by left). apply IH. intros y Hy. apply Hl. by right. Qed.

Lemma remove_none k l : (forall x, x ∈ l -> x.1 <> k) -> remove k l = l.
Proof. apply filter_keeps. Qed.

Lemma ordered_filter (Q : item -> Prop) `{forall x, Decision (Q x)} l : ordered fst l -> ordered fst (filter Q l).
Proof.
  induction l as [|x l IH]; [done|]. intros [Ha Ho]%ordered_cons. rewrite filter_cons. case_decide; [|auto]. apply ordered_cons. split; [|auto].
  apply Forall_forall. intros y [_ Hy]%list_elem_of_filter. unfold above in Ha. rewrite Forall_forall in Ha. by apply Ha.
Qed.

(** ** The two binary searches *)

Lemma div2_between low high : (low < high)%nat -> (low <= Nat.div2 (low + high) < high)%nat.
Proof. intros H. rewrite Nat.div2_div. split; [apply Nat.div_le_lower_bound; lia|apply Nat.Div0.div_lt_upper_bound; lia]. Qed.

(** Where a key is, or would be. *)
Definition located_at (key : bytes) (items : list item) (r : nat * bool) : Prop :=
  if r.2 then exists v, items !! r.1 = Some (key, v)
  else (r.1 <= length items)%nat /\ below fst key (take r.1 items) /\ above fst key (drop r.1 items).

Lemma below_take {A} (key : A -> bytes) k l n : (forall i x, (i < n)%nat -> l !! i = Some x -> klt (key x) k) -> below key k (take n l).
Proof. intros H. apply Forall_lookup. intros i x Hx. apply lookup_take_Some in Hx as [Hx Hi]. eauto. Qed.

Lemma above_drop {A} (key : A -> bytes) k l n : (forall i x, (n <= i)%nat -> l !! i = Some x -> klt k (key x)) -> above key k (drop n l).
Proof. intros H. apply Forall_lookup. intros i x Hx. rewrite lookup_drop in Hx. apply (H (n + i)%nat); [lia|done]. Qed.

Lemma search_loop_located fuel key items low high : ordered fst items -> (high <= length items)%nat -> (high < low + fuel)%nat -> (low <= high)%nat ->
  (forall i x, (i < low)%nat -> items !! i = Some x -> klt x.1 key) -> (forall i x, (high <= i)%nat -> items !! i = Some x -> klt key x.1) ->
  located_at key items (search_loop fuel key items low high).
Proof.
  intros Ho. revert low high. induction fuel as [|fuel IH]; intros low high Hh Hf Hl Hlo Hhi; [lia|]. cbn [search_loop].
  destruct (Nat.ltb_spec low high) as [Hlt|Hge].
  2: { assert (high = low) as -> by lia. split_and!; cbn; [lia|by apply below_take|by apply above_drop]. }
  pose proof (div2_between low high Hlt) as Hm2. assert (low <= Nat.div2 (low + (high - 1)) < high)%nat as Hmid.
  { rewrite Nat.div2_div. split; [apply Nat.div_le_lower_bound; lia|apply Nat.Div0.div_lt_upper_bound; lia]. }
  set (mid := Nat.div2 (low + (high - 1))) in *. clearbody mid.
  destruct (lookup_lt_is_Some_2 items mid) as [[k v] Hx]; [lia|]. unfold key_at. rewrite Hx. cbn [fst].
  destruct (Compare_spec key k) as [->|Hk|Hk].
  - by exists v.
  - apply IH; [lia|lia|lia|done|]. intros i x Hi Hxi. destruct (decide (i = mid)) as [->|Hne]; [by rewrite Hx in Hxi; injection Hxi as <-|].
    eapply klt_trans; [exact Hk|]. apply (ordered_lookup fst items mid i (k, v) x Ho); [lia|done|done].
  - apply IH; [done|lia|lia| |done]. intros i x Hi Hxi. destruct (decide (i = mid)) as [->|Hne]; [by rewrite Hx in Hxi; injection Hxi as <-|].
    eapply klt_trans; [|exact Hk]. apply (ordered_lookup fst items i mid x (k, v) Ho); [lia|done|done].
Qed.

Lemma BinarySearch_located key items : ordered fst items -> located_at key items (BinarySearch key items).
Proof. intros Ho. apply search_loop_located; try done; try lia. intros i x Hi Hx. apply lookup_lt_Some in Hx. lia. Qed.

(** The pages hold their items as an ordered list does. *)
Lemma split_at (items : list item) i k v : ordered fst items -> items !! i = Some (k, v) ->
  items = take i items ++ (k, v) :: drop (S i) items /\ below fst k (take i items) /\ above fst k (drop (S i) items).
Proof.
  intros Ho Hi. split; [by rewrite take_drop_middle|]. split.
  - apply below_take. intros j x Hj Hx. apply (ordered_lookup fst items j i x (k, v)); done.
  - apply above_drop. intros j x Hj Hx. apply (ordered_lookup fst items i j (k, v) x); [done|lia|done|done].
Qed.

Lemma written_put k v items : ordered fst items -> written k v items = put k v items.
Proof.
  intros Ho. unfold written. pose proof (BinarySearch_located k items Ho) as Hl. destruct (BinarySearch k items) as [idx []]; cbn in Hl.
  - destruct Hl as [w Hw]. unfold key_at. rewrite Hw. cbn. destruct (split_at items idx k w Ho Hw) as (E & Hb & _). rewrite E at 2. rewrite put_below, put_here by done.
    rewrite insert_take_drop by (by eapply lookup_lt_Some). done.
  - destruct Hl as (Hi & Hb & Ha). rewrite <- (take_drop idx items) at 3. rewrite put_below by done. f_equal. destruct Ha as [|[k' v'] r Hx Hr]; [done|].
    cbn in *. destruct (Compare_spec k k'); [exfalso; korder|done|exfalso; korder].
Qed.

Lemma found_get k items : ordered fst items ->
  (match BinarySearch k items with (idx, true) => snd <$> items !! idx | (_, false) => None end) = get k items.
Proof.
  intros Ho. pose proof (BinarySearch_located k items Ho) as Hl. destruct (BinarySearch k items) as [idx []]; cbn in Hl.
  - destruct Hl as [w Hw]. rewrite Hw. cbn. destruct (split_at items idx k w Ho Hw) as (E & Hb & _). rewrite E, get_app_not by by apply below_not. by rewrite get_head.
  - destruct Hl as (Hi & Hb & Ha). rewrite <- (take_drop idx items), get_app_not by by apply below_not. symmetry. apply get_none. by apply above_not.
Qed.

Lemma removed_remove k items : ordered fst items ->
  (match BinarySearch k items with (idx, true) => take idx items ++ drop (S idx) items | (_, false) => items end) = remove k items.
Proof.
  intros Ho. pose proof (BinarySearch_located k items Ho) as Hl. destruct (BinarySearch k items) as [idx []]; cbn in Hl.
  - destruct Hl as [w Hw]. destruct (split_at items idx k w Ho Hw) as (E & Hb & Ha). rewrite E at 3. unfold remove. rewrite filter_app, filter_cons_False by naive_solver.
    change (take idx items ++ drop (S idx) items = remove k (take idx items) ++ remove k (drop (S idx) items)).
    by rewrite (remove_none _ _ (below_not fst _ _ Hb)), (remove_none _ _ (above_not fst _ _ Ha)).
  - destruct Hl as (Hi & Hb & Ha). symmetry. apply remove_none. intros x. rewrite <- (take_drop idx items). intros [Hx|Hx]%elem_of_app; [by eapply below_not|by eapply above_not].
Qed.

(** The child of a key: behind all separators up to it. *)
Lemma route_loop_spec fuel key (items : list (N * bytes)) low high : ordered snd items -> (high <= length items)%nat -> (high < low + fuel)%nat -> (low <= high)%nat ->
  (forall i x, (i < low)%nat -> items !! i = Some x -> kle x.2 key) -> (forall i x, (high <= i)%nat -> items !! i = Some x -> klt key x.2) ->
  let i := route_loop fuel key items low high in
  (i <= length items)%nat /\ (forall j x, (j < i)%nat -> items !! j = Some x -> kle x.2 key) /\ forall j x, (i <= j)%nat -> items !! j = Some x -> klt key x.2.
Proof.
  intros Ho. revert low high. induction fuel as [|fuel IH]; intros low high Hh Hf Hl Hlo Hhi; [lia|]. cbn [route_loop].
  destruct (Nat.ltb_spec low high) as [Hlt|Hge]; [|assert (high = low) as -> by lia; by split_and!].
  pose proof (div2_between low high Hlt) as Hmid. set (mid := Nat.div2 (low + high)) in *. clearbody mid.
  destruct (lookup_lt_is_Some_2 items mid) as [[c k] Hx]; [lia|]. unfold separator_at. rewrite Hx. cbn [snd].
  assert (forall i x, (i < S mid)%nat -> kle k key -> items !! i = Some x -> kle x.2 key) as Hup.
  { intros i x Hi Hk Hxi. destruct (decide (i = mid)) as [->|Hne]; [by rewrite Hx in Hxi; injection Hxi as <-|].
    pose proof (ordered_lookup snd items i mid x (c, k) Ho ltac:(lia) Hxi Hx) as Hik. cbn in Hik. left. destruct Hk as [Hk| ->]; [by eapply klt_trans|done]. }
  destruct (Compare_spec key k) as [E|Hk|Hk].
  - apply IH; [done|lia|lia| |done]. intros i x Hi. apply (Hup i x Hi). by right.
  - apply IH; [lia|lia|lia|done|]. intros i x Hi Hxi. destruct (decide (i = mid)) as [->|Hne]; [by rewrite Hx in Hxi; injection Hxi as <-|].
    eapply klt_trans; [exact Hk|]. apply (ordered_lookup snd items mid i (c, k) x Ho); [lia|done|done].
  - apply IH; [done|lia|lia| |done]. intros i x Hi. apply (Hup i x Hi). by left.
Qed.

(** The entries of an ordered list are what is read from it. *)
Lemma get_elem k v l : ordered fst l -> (k, v) ∈ l <-> get k l = Some v.
Proof.
  intros Ho. split.
  - intros (i & Hi)%list_elem_of_lookup_1. destruct (split_at l i k v Ho Hi) as (E & Hb & _). rewrite E, get_app_not; [apply get_head|]. by apply below_not.
  - unfold get. intros ((k' & v') & E & [= <-])%fmap_Some. apply List.find_some in E as [Hin E]. apply bool_decide_eq_true in E. cbn in E. subst k'. by apply list_elem_of_In.
Qed.

Lemma ordered_keys (l : list item) : ordered fst l -> NoDup l.*1.
Proof.
  induction l as [|x l IH]; [intros _; apply NoDup_nil_2|]. intros [Ha Ho]%ordered_cons. cbn. apply NoDup_cons. split; [|auto].
  intros (y & E & Hy)%list_elem_of_fmap. unfold above in Ha. rewrite Forall_forall in Ha. specialize (Ha y Hy). cbn in Ha. rewrite <- E in Ha. by eapply klt_irrefl.
Qed.
