(* ===== verification/BtreeInvariant.v ===== *)
(** What the pages of a B+tree hold: subtrees between two keys, the chain of
    their leaves, and the entries in order. *)

From S2P Require Import Prelude JsString JsNumber Go Btree BtreeSearch.

Open Scope Z_scope.

(** ** Subtrees *)

(** Bounds of the keys: from [lo] on, and below [hi]. *)
Definition from (lo : option bytes) (k : bytes) : Prop := match lo with Some l => kle l k | None => True end.
Definition past (lo : option bytes) (k : bytes) : Prop := match lo with Some l => klt l k | None => True end.
Definition upto (k : bytes) (hi : option bytes) : Prop := match hi with Some h => klt k h | None => True end.

(** The entries are in order and within the bounds. *)
Definition bounded (lo hi : option bytes) (l : list item) : Prop := ordered fst l /\ forall x, x ∈ l -> from lo x.1 /\ upto x.1 hi.

(** Leaves with their items, and the entries they hold. *)
Abbreviation leaves := (list (N * list item)).

Definition entries (ls : leaves) : list item := mjoin (snd <$> ls).

(** No leaf is empty. *)
Definition full (ls : leaves) : Prop := Forall (fun l => l.2 <> []) ls.

(** The children of an internal node; [node] says what a child is. *)
Fixpoint kids (node : N -> option bytes -> option bytes -> list N -> leaves -> Prop)
    (items : list (N * bytes)) (right : N) (lo hi : option bytes) (ids : list N) (ls : leaves) : Prop :=
  match items with
  | [] => node right lo hi ids ls
  | (c, k) :: items => exists ids1 ids2 ls1 ls2, ids = ids1 ++ ids2 /\ ls = ls1 ++ ls2 /\ node c lo (Some k) ids1 ls1
      /\ past lo k /\ upto k hi /\ kids node items right (Some k) hi ids2 ls2
  end.

(** The items of a leaf fit on its page. *)
Definition fits (items : list item) : Prop := fill_leaf items = (items, true).

(** The subtree of height [h] at the page [id], with the pages it owns. *)
Fixpoint subtree (P : pages) (h : nat) (id : N) (lo hi : option bytes) (ids : list N) (ls : leaves) : Prop :=
  match h with
  | O => exists prev next items, P !! id = Some (Leaf prev next items) /\ fits items /\ bounded lo hi items /\ ids = [id] /\ ls = [(id, items)]
  | S h => exists items right ids', P !! id = Some (Internal items right) /\ ids = id :: ids' /\ kids (subtree P h) items right lo hi ids' ls
  end.

(** A page without its neighbours. *)
Definition skeleton (p : page) : page := match p with Leaf _ _ its => Leaf 0 0 its | _ => p end.

Definition same_skeleton (P P' : pages) (i : N) : Prop := skeleton <$> P' !! i = skeleton <$> P !! i.

Lemma entries_app a b : entries (a ++ b) = entries a ++ entries b.
Proof. unfold entries. by rewrite fmap_app, join_app. Qed.

Lemma kids_impl node node' items right lo hi ids ls : kids node items right lo hi ids ls ->
  (forall c lo hi ids' ls', ids' ⊆ ids -> node c lo hi ids' ls' -> node' c lo hi ids' ls') -> kids node' items right lo hi ids ls.
Proof.
  revert lo ids ls. induction items as [|[c k] items IH]; intros lo ids ls; cbn; [intros H Hn; by apply Hn|].
  intros (ids1 & ids2 & ls1 & ls2 & -> & -> & H1 & H2 & H3 & H4) Hn. exists ids1, ids2, ls1, ls2. split_and!; try done; [apply Hn; [set_solver|done]|].
  apply IH; [done|]. intros. apply Hn; [set_solver|done].
Qed.

(** Only the pages a subtree owns matter, and not their neighbours. *)
Lemma subtree_frame P P' h id lo hi ids ls : subtree P h id lo hi ids ls -> (forall i, i ∈ ids -> same_skeleton P P' i) -> subtree P' h id lo hi ids ls.
Proof.
  revert id lo hi ids ls. induction h as [|h IH]; intros id lo hi ids ls; cbn [subtree].
  - intros (prev & next & items & Hp & Hi & Hb & -> & ->) Hf. specialize (Hf id ltac:(by left)). unfold same_skeleton in Hf. rewrite Hp in Hf.
    destruct (P' !! id) as [[prev' next' items'|]|] eqn:E; cbn in Hf; try done. injection Hf as ->. by exists prev', next', items.
  - intros (items & right & ids' & Hp & -> & Hk) Hf. pose proof (Hf id ltac:(by left)) as Hi. unfold same_skeleton in Hi. rewrite Hp in Hi.
    destruct (P' !! id) as [[|items' right']|] eqn:E; cbn in Hi; try done. injection Hi as -> ->. exists items, right, ids'. split_and!; try done.
    eapply kids_impl; [exact Hk|]. intros c lo' hi' ids'' ls'' Hsub Hn. apply IH; [done|]. intros i Hin. apply Hf. right. by apply Hsub.
Qed.

Lemma subtree_id P h id lo hi ids ls : subtree P h id lo hi ids ls -> id ∈ ids.
Proof. destruct h; cbn; [intros (? & ? & ? & _ & _ & _ & -> & _)|intros (? & ? & ? & _ & -> & _)]; by left. Qed.

Lemma kids_each (Q : list N -> leaves -> Prop) node items right lo hi ids ls : kids node items right lo hi ids ls ->
  (forall c lo hi ids' ls', node c lo hi ids' ls' -> Q ids' ls') -> (forall i1 i2 l1 l2, Q i1 l1 -> Q i2 l2 -> Q (i1 ++ i2) (l1 ++ l2)) -> Q ids ls.
Proof.
  intros Hk Hn Ha. revert lo ids ls Hk. induction items as [|[c k] items IH]; intros lo ids ls; cbn; [by apply Hn|].
  intros (ids1 & ids2 & ls1 & ls2 & -> & -> & H1 & _ & _ & H4). eauto.
Qed.

(** The pages exist, and the leaves are among them with their items. *)
Lemma subtree_pages P h id lo hi ids ls : subtree P h id lo hi ids ls ->
  (forall i, i ∈ ids -> is_Some (P !! i)) /\ forall i its, (i, its) ∈ ls -> i ∈ ids /\ leaf_items i P = its.
Proof.
  revert id lo hi ids ls. induction h as [|h IH]; intros id lo hi ids ls; cbn [subtree].
  - intros (prev & next & items & Hp & _ & _ & -> & ->). split; [by intros i ->%list_elem_of_singleton|].
    intros i its [= -> ->]%list_elem_of_singleton. split; [by left|]. unfold leaf_items. by rewrite Hp.
  - intros (items & right & ids' & Hp & -> & Hk). assert ((forall i, i ∈ ids' -> is_Some (P !! i)) /\ forall i its, (i, its) ∈ ls -> i ∈ ids' /\ leaf_items i P = its) as [H1 H2].
    { apply (kids_each (fun ids ls => (forall i, i ∈ ids -> is_Some (P !! i)) /\ forall i its, (i, its) ∈ ls -> i ∈ ids /\ leaf_items i P = its) _ _ _ _ _ _ _ Hk); [intros; by eapply IH|]. intros i1 i2 l1 l2 [A1 A2] [B1 B2]. split; [intros i [Hi|Hi]%elem_of_app; auto|].
      intros i its [Hi|Hi]%elem_of_app; [apply A2 in Hi|apply B2 in Hi]; (split; [apply elem_of_app; naive_solver|naive_solver]). }
    split; [intros i [->|Hi]%elem_of_cons; [by rewrite Hp|by apply H1]|]. intros i its Hi. apply H2 in Hi as [? ?]. split; [by right|done].
Qed.

Lemma past_from lo k x : past lo k -> kle k x -> from lo x.
Proof. destruct lo as [l|]; cbn; [|done]. intros H1 H2. left. destruct H2 as [H2| ->]; [by eapply klt_trans|done]. Qed.

Lemma upto_trans k x hi : upto k hi -> klt x k -> upto x hi.
Proof. destruct hi as [h|]; cbn; [|done]. intros H1 H2. by eapply klt_trans. Qed.

Lemma bounded_app lo k hi a b : past lo k -> upto k hi -> bounded lo (Some k) a -> bounded (Some k) hi b -> bounded lo hi (a ++ b).
Proof.
  intros Hlo Hhi [Ha1 Ha2] [Hb1 Hb2]. split.
  - apply ordered_app. split_and!; [done..|]. intros x y Hx%Ha2 Hy%Hb2. cbn in *. destruct Hx as [_ Hx], Hy as [[Hy| ->] _]; [by eapply klt_trans|done].
  - intros x [Hx|Hx]%elem_of_app; [apply Ha2 in Hx as [H1 H2]|apply Hb2 in Hx as [H1 H2]]; cbn in *; split; try done; [by eapply upto_trans|by eapply past_from].
Qed.

Lemma kids_bounded node items right lo hi ids ls : (forall c lo hi ids ls, node c lo hi ids ls -> bounded lo hi (entries ls)) ->
  kids node items right lo hi ids ls -> bounded lo hi (entries ls).
Proof.
  intros Hn. revert lo ids ls. induction items as [|[c k] items IH]; intros lo ids ls; cbn; [apply Hn|].
  intros (ids1 & ids2 & ls1 & ls2 & -> & -> & H1 & H2 & H3 & H4). rewrite entries_app. eapply bounded_app; [done|done|by eapply Hn|by eapply IH].
Qed.

Lemma subtree_bounded P h id lo hi ids ls : subtree P h id lo hi ids ls -> bounded lo hi (entries ls).
Proof.
  revert id lo hi ids ls. induction h as [|h IH]; intros id lo hi ids ls; cbn [subtree].
  - intros (prev & next & items & _ & _ & Hb & _ & ->). unfold entries. cbn. by rewrite app_nil_r.
  - intros (items & right & ids' & _ & _ & Hk). eapply kids_bounded; [|exact Hk]. apply IH.
Qed.

(** Separators are in order and within the bounds. *)
Lemma kids_separators node items right lo hi ids ls : kids node items right lo hi ids ls ->
  ordered snd items /\ forall x, x ∈ items -> past lo x.2 /\ upto x.2 hi.
Proof.
  revert lo ids ls. induction items as [|[c k] items IH]; intros lo ids ls; cbn; [intros _; split; [constructor|by intros x ?%elem_of_nil]|].
  intros (ids1 & ids2 & ls1 & ls2 & -> & -> & H1 & H2 & H3 & H4). apply IH in H4 as [Ho Hb]. split.
  - apply ordered_cons. split; [|done]. apply Forall_forall. intros x Hx. apply Hb in Hx as [Hx _]. done.
  - intros x [->|Hx]%elem_of_cons; [done|]. apply Hb in Hx as [Hx Hx']. split; [|done]. destruct lo; cbn in *; [by eapply klt_trans|done].
Qed.

(** ** The child of a key *)

Fixpoint route (key : bytes) (items : list (N * bytes)) (right : N) : N :=
  match items with
  | [] => right
  | (c, k) :: items => match Compare key k with Lt => c | _ => route key items right end
  end.

Lemma route_index key items right i : (i <= length items)%nat -> (forall j x, (j < i)%nat -> items !! j = Some x -> kle x.2 key) ->
  (forall j x, (i <= j)%nat -> items !! j = Some x -> klt key x.2) ->
  match items !! i with Some (c, _) => c | None => right end = route key items right.
Proof.
  revert i. induction items as [|[c k] items IH]; intros i Hi Hle Hgt; [by destruct i|]. cbn [route]. destruct i as [|i].
  - cbn. specialize (Hgt 0%nat (c, k) ltac:(lia) eq_refl). cbn in Hgt. unfold klt in Hgt. by rewrite Hgt.
  - cbn. specialize (Hle 0%nat (c, k) ltac:(lia) eq_refl) as Hk. cbn in Hk. destruct (Compare_spec key k); [|exfalso; destruct Hk; korder|];
      (apply IH; [cbn in Hi; lia|intros j x Hj; apply (Hle (S j)); lia|intros j x Hj; apply (Hgt (S j)); lia]).
Qed.

Lemma RouteChild_route key items right : ordered snd items -> RouteChild key items right = route key items right.
Proof.
  intros Ho. unfold RouteChild. destruct (route_loop_spec (S (length items)) key items 0 (length items)) as (H1 & H2 & H3); try done; try lia.
  - intros j x Hj Hx. apply lookup_lt_Some in Hx. lia.
  - by apply route_index.
Qed.

Lemma split_entries_cons cl k cr c0 k0 items right : c0 <> cl ->
  split_entries cl k cr ((c0, k0) :: items) right = (fun p => ((c0, k0) :: p.1, p.2)) <$> split_entries cl k cr items right.
Proof.
  intros Hne. unfold split_entries. case_bool_decide; [done|]. cbn [list_find]. rewrite decide_False by done.
  destruct (list_find (fun it => it.1 = cl) items) as [[i [c' k']]|]; done.
Qed.

Lemma kids_right node items right lo hi ids ls : (forall c lo hi ids ls, node c lo hi ids ls -> c ∈ ids) -> kids node items right lo hi ids ls -> right ∈ ids.
Proof.
  intros Hn. revert lo ids ls. induction items as [|[c k] items IH]; intros lo ids ls; cbn; [apply Hn|].
  intros (ids1 & ids2 & ls1 & ls2 & -> & _ & _ & _ & _ & H4). apply elem_of_app. right. by eapply IH.
Qed.

#[global] Instance klt_decision a b : Decision (klt a b) := decide (Compare a b = Lt).

(** A node that keeps what another says of the pages in [ids]. *)
Definition framed (node node' : N -> option bytes -> option bytes -> list N -> leaves -> Prop) (ids : list N) : Prop :=
  forall c lo hi ids' ls, ids' ⊆ ids -> node c lo hi ids' ls -> node' c lo hi ids' ls.

Lemma kids_framed node node' items right lo hi ids ls : framed node node' ids -> kids node items right lo hi ids ls -> kids node' items right lo hi ids ls.
Proof. intros Hf Hk. eapply kids_impl; [exact Hk|]. intros c lo' hi' ids' ls' Hs Hn. by eapply Hf. Qed.

(** The child of a key within its siblings: what is around it, and what becomes
    of the node when the child is replaced, or split. *)
Record focus (node : N -> option bytes -> option bytes -> list N -> leaves -> Prop) (key : bytes) (items : list (N * bytes)) (right : N) (lo hi : option bytes)
    (ids : list N) (ls : leaves) (lo' hi' : option bytes) (ids1 ids2 ids3 : list N) (ls1 ls2 ls3 : leaves) : Prop := {
  fo_ids : ids = ids1 ++ ids2 ++ ids3;
  fo_ls : ls = ls1 ++ ls2 ++ ls3;
  fo_node : node (route key items right) lo' hi' ids2 ls2;
  fo_from : from lo' key;
  fo_upto : upto key hi';
  fo_below : below fst key (entries ls1);
  fo_above : above fst key (entries ls3);
  fo_plug node' ids' ls' : framed node node' (ids1 ++ ids3) -> node' (route key items right) lo' hi' ids' ls' ->
    kids node' items right lo hi (ids1 ++ ids' ++ ids3) (ls1 ++ ls' ++ ls3);
  fo_split node' r ks a b la lb : framed node node' (ids1 ++ ids3) -> past lo' ks -> upto ks hi' ->
    node' (route key items right) lo' (Some ks) a la -> node' r (Some ks) hi' b lb ->
    exists items' right', split_entries (route key items right) ks r items right = Some (items', right')
      /\ kids node' items' right' lo hi (ids1 ++ (a ++ b) ++ ids3) (ls1 ++ (la ++ lb) ++ ls3);
}.

Lemma kids_focus node key items right lo hi ids ls :
  (forall c lo hi ids ls, node c lo hi ids ls -> c ∈ ids /\ bounded lo hi (entries ls)) -> NoDup ids ->
  kids node items right lo hi ids ls -> from lo key -> upto key hi ->
  exists lo' hi' ids1 ids2 ids3 ls1 ls2 ls3, focus node key items right lo hi ids ls lo' hi' ids1 ids2 ids3 ls1 ls2 ls3.
Proof.
  intros Hn. revert lo ids ls. induction items as [|[c k] items IH]; intros lo ids ls Hd Hk Hlo Hhi.
  - exists lo, hi, [], ids, [], [], ls, []. split; try done; [by rewrite app_nil_r|by rewrite app_nil_r|constructor|constructor|..].
    + intros node' ids' ls' _ H. cbn. by rewrite !app_nil_r.
    + intros node' r ks a b la lb _ H1 H2 H3 H4. cbn [route] in *. exists [(right, ks)], r. unfold split_entries. rewrite bool_decide_eq_true_2 by done. split; [done|].
      cbn. rewrite !app_nil_r. by exists a, b, la, lb.
  - cbn [kids] in Hk. destruct Hk as (ids1 & ids2 & ls1 & ls2 & -> & -> & H1 & H2 & H3 & H4). apply NoDup_app in Hd as (Hd1 & Hd12 & Hd2).
    destruct (Hn _ _ _ _ _ H1) as [Hc Hb1]. assert (bounded (Some k) hi (entries ls2)) as Hb2 by (eapply kids_bounded; [|exact H4]; intros; by eapply Hn).
    assert (right ∈ ids2) as Hright by (eapply kids_right; [|exact H4]; intros; by eapply Hn). destruct (decide (klt key k)) as [Ek|Ek].
    { assert (route key ((c, k) :: items) right = c) as Er by (cbn; unfold klt in Ek; by rewrite Ek).
      exists lo, (Some k), [], ids1, ids2, [], ls1, ls2. split; rewrite ?Er; try done; [constructor|..].
      - apply Forall_forall. intros x Hx. apply Hb2 in Hx as [Hx _]. cbn in Hx. destruct Hx as [Hx| <-]; [by eapply klt_trans|done].
      - intros node' ids' ls' Hf H. exists ids', ids2, ls', ls2. split_and!; try done. eapply kids_framed; [exact Hf|exact H4].
      - intros node' r ks a b la lb Hf G1 G2 G3 G4. unfold split_entries. rewrite bool_decide_eq_false_2 by (intros ->; by apply (Hd12 right)).
        cbn [list_find]. rewrite decide_True by done. cbn. exists ((c, ks) :: (r, k) :: items), right. split; [done|]. cbn.
        exists a, (b ++ ids2), la, (lb ++ ls2). rewrite <- !app_assoc. split_and!; try done; [apply (upto_trans k); [exact H3|exact G2]|].
        exists b, ids2, lb, ls2. split_and!; try done. eapply kids_framed; [exact Hf|exact H4]. }
    assert (kle k key) as Hkk by (destruct (Compare_spec key k); [by right|done|by left]).
    assert (route key ((c, k) :: items) right = route key items right) as Er by (cbn; unfold klt in Ek; by destruct (Compare key k)).
    destruct (IH (Some k) ids2 ls2 Hd2 H4 Hkk Hhi) as (lo' & hi' & j1 & j2 & j3 & m1 & m2 & m3 & [E1 E2 F1 F2 F3 F4 F5 F6 F7]).
    assert (route key items right <> c) as Hrc by (intros E; rewrite E in F1; apply (Hd12 c Hc); rewrite E1; apply Hn in F1 as [F1 _]; set_solver).
    assert (forall node', framed node node' ((ids1 ++ j1) ++ j3) -> framed node node' (j1 ++ j3) /\ framed node node' ids1) as Hfr
      by (intros node' Hf; split; intros c' l1 l2 i' l' Hs; apply Hf; set_solver).
    exists lo', hi', (ids1 ++ j1), j2, j3, (ls1 ++ m1), m2, m3. split; rewrite ?Er, ?entries_app; try done.
    + by rewrite E1, <- !app_assoc.
    + by rewrite E2, <- !app_assoc.
    + apply Forall_app. split; [|done]. apply Forall_forall. intros x Hx. apply Hb1 in Hx as [_ Hx]. cbn in Hx. destruct Hkk as [Hkk| ->]; [by eapply klt_trans|done].
    + intros node' ids' ls' [Hf Hf1]%Hfr H. exists ids1, (j1 ++ ids' ++ j3), ls1, (m1 ++ ls' ++ m3). rewrite <- !app_assoc. split_and!; try done; [by apply Hf1|by apply F6].
    + intros node' r ks a b la lb [Hf Hf1]%Hfr G1 G2 G3 G4. destruct (F7 node' r ks a b la lb Hf G1 G2 G3 G4) as (items' & right' & S1 & S2).
      rewrite split_entries_cons by done. rewrite S1. eexists _, _. split; [reflexivity|]. cbn.
      exists ids1, (j1 ++ (a ++ b) ++ j3), ls1, (m1 ++ (la ++ lb) ++ m3). rewrite <- !app_assoc. rewrite <- !app_assoc in S2. split_and!; try done. by apply Hf1.
Qed.
