(* ===== verification/BtreeRoom.v ===== *)
(** What fits on the pages of a B+tree: pages are filled up to their capacity,
    and when entries are slim both halves of a page that overflows fit. *)

From S2P Require Import Prelude JsString JsNumber Go Btree BtreeSearch BtreeInvariant.

Open Scope Z_scope.

(** ** Filling pages *)

Lemma fill_all {A} (cost : A -> Z) free items kept : fill cost free items = (kept, true) -> kept = items.
Proof.
  revert free kept. induction items as [|x items IH]; intros free kept; cbn; [by intros [= <-]|]. destruct (cost x <=? free); [|done].
  destruct (fill cost (free - cost x) items) as [l ok] eqn:E. intros [= <- ->]. by rewrite (IH _ _ E).
Qed.

Definition small (k v : bytes) : Prop := (length k <= MaxKeySize)%nat /\ (length v <= MaxValueSize)%nat.

Lemma fill_one k v : small k v -> fill_leaf [(k, v)] = ([(k, v)], true).
Proof.
  intros [Hk Hv]. unfold fill_leaf, MaxKeySize, MaxValueSize in *. cbn [fill]. unfold leaf_cost. cbn [fst snd]. rewrite (proj2 (Z.leb_le _ _)); [done|]. unfold page_room. lia.
Qed.

Fixpoint total {A} (cost : A -> Z) (l : list A) : Z := match l with [] => 0 | x :: l => cost x + total cost l end.

Lemma total_app {A} (cost : A -> Z) a b : total cost (a ++ b) = total cost a + total cost b.
Proof. induction a as [|x a IH]; cbn in *; lia. Qed.

Lemma total_least {A} (cost : A -> Z) c l : (forall x, c <= cost x) -> c * Z.of_nat (length l) <= total cost l.
Proof. intros Hc. induction l as [|x l IH]; cbn in *; [lia|]. specialize (Hc x). lia. Qed.

Lemma total_most {A} (cost : A -> Z) c l : Forall (fun x => cost x <= c) l -> total cost l <= c * Z.of_nat (length l).
Proof. induction 1 as [|x l Hx _ IH]; cbn in *; lia. Qed.

Lemma fill_total {A} (cost : A -> Z) free l : (forall x, 0 <= cost x) -> 0 <= free -> fill cost free l = (l, true) <-> total cost l <= free.
Proof.
  intros Hc. revert free. induction l as [|x l IH]; intros free Hf; cbn; [done|]. specialize (Hc x) as Hx. pose proof (total_least cost 0 l Hc). destruct (Z.leb_spec (cost x) free).
  - specialize (IH (free - cost x) ltac:(lia)). destruct (fill cost (free - cost x) l) as [l' ok]. split.
    + intros [= -> ->]. assert (total cost l <= free - cost x) by by apply IH. lia.
    + intros Ht. assert (total cost l <= free - cost x) as Ht' by lia. by apply IH in Ht' as [= -> ->].
  - split; [done|]. lia.
Qed.

(** What a page takes is a prefix that fits on it. *)
Lemma fill_prefix {A} (cost : A -> Z) free l : (fill cost free l).1 `prefix_of` l.
Proof.
  revert free. induction l as [|x l IH]; intros free; cbn; [done|]. destruct (cost x <=? free); [|apply prefix_nil].
  specialize (IH (free - cost x)). destruct (fill cost (free - cost x) l) as [l' ok]. by apply prefix_cons.
Qed.

Lemma fill_again {A} (cost : A -> Z) free l : fill cost free (fill cost free l).1 = ((fill cost free l).1, true).
Proof.
  revert free. induction l as [|x l IH]; intros free; cbn; [done|]. destruct (cost x <=? free) eqn:E; [|done].
  specialize (IH (free - cost x)). destruct (fill cost (free - cost x) l) as [l' ok]. cbn in *. by rewrite E, IH.
Qed.

Lemma fill_ok {A} (cost : A -> Z) free l : (fill cost free l).2 = true <-> fill cost free l = (l, true).
Proof. split; [|by intros ->]. intros E. destruct (fill cost free l) as [k ok] eqn:Ef. cbn in E. subst ok. by rewrite (fill_all _ _ _ _ Ef). Qed.

Lemma leaf_cost_least x : 8 <= leaf_cost x.
Proof. unfold leaf_cost. lia. Qed.

Lemma internal_cost_least x : 14 <= internal_cost x.
Proof. unfold internal_cost. lia. Qed.

Lemma fits_total l : fits l <-> total leaf_cost l <= page_room.
Proof. apply fill_total; [|done]. intros x. pose proof (leaf_cost_least x). lia. Qed.

Lemma fits_internal l : fill_internal l = (l, true) <-> total internal_cost l <= page_room.
Proof. apply fill_total; [|done]. intros x. pose proof (internal_cost_least x). lia. Qed.

(** ** Slim pages *)

(** An item of a leaf takes at most 255 bytes, so a separator at most 261. *)
Definition slim_item (it : item) : Prop := leaf_cost it <= 255.
Definition slim_entry (it : N * bytes) : Prop := internal_cost it <= 261.

Definition slim (p : page) : Prop :=
  match p with
  | Leaf _ _ items => fits items /\ Forall slim_item items
  | Internal items _ => fill_internal items = (items, true) /\ Forall slim_entry items
  end.

Definition slims (P : pages) : Prop := map_Forall (fun _ => slim) P.

Lemma half_length {A} (l : list A) : Z.of_nat (length (take (Nat.div2 (length l)) l)) = Z.of_nat (length l) / 2.
Proof.
  rewrite length_take. pose proof (Nat.div2_div (length l)) as E. rewrite E, Nat.min_l; [|apply Nat.Div0.div_le_upper_bound; lia]. by rewrite Nat2Z.inj_div.
Qed.

(** Both halves of a leaf that overflows by one slim item fit. *)
Lemma leaf_halves l : Forall slim_item l -> total leaf_cost l <= page_room + 255 -> ~ fits l ->
  let mid := Nat.div2 (length l) in fits (take mid l) /\ fits (drop mid l) /\ drop mid l <> [].
Proof.
  intros Hs Ht Hf mid. rewrite fits_total in Hf. pose proof (total_most _ _ _ Hs) as Hm. pose proof (half_length l) as Hl. fold mid in Hl.
  pose proof (total_app leaf_cost (take mid l) (drop mid l)) as Ha. rewrite take_drop in Ha. pose proof (total_least leaf_cost 8 (take mid l) leaf_cost_least) as H1.
  pose proof (total_least leaf_cost 8 (drop mid l) leaf_cost_least) as H2.
  assert (Z.of_nat (length l) = Z.of_nat (length (take mid l)) + Z.of_nat (length (drop mid l))) as Hlen by (rewrite <- (take_drop mid l) at 1; rewrite length_app; lia).
  unfold page_room in *. assert (65 <= Z.of_nat (length l)) by lia. assert (32 <= Z.of_nat (length l) / 2 < Z.of_nat (length l) - 32) by (split; [apply Z.div_le_lower_bound; lia|apply Z.div_lt_upper_bound; lia]).
  rewrite !fits_total. unfold page_room. split_and!; [lia|lia|]. intros E. rewrite E in Hlen. cbn in Hlen. lia.
Qed.

(** And both halves of a node around its middle entry. *)
Lemma node_halves (l : list (N * bytes)) : Forall slim_entry l -> total internal_cost l <= page_room + 261 -> fill_internal l <> (l, true) ->
  let mid := Nat.div2 (length l) in
  is_Some (l !! mid) /\ fill_internal (take mid l) = (take mid l, true) /\ fill_internal (drop (S mid) l) = (drop (S mid) l, true).
Proof.
  intros Hs Ht Hf mid. rewrite fits_internal in Hf. pose proof (total_most _ _ _ Hs) as Hm. pose proof (half_length l) as Hl. fold mid in Hl.
  unfold page_room in *. assert (63 <= Z.of_nat (length l)) by lia. assert (31 <= Z.of_nat (length l) / 2 < Z.of_nat (length l) - 31) by (split; [apply Z.div_le_lower_bound; lia|apply Z.div_lt_upper_bound; lia]).
  assert (mid < length l)%nat as Hmid by (unfold mid; rewrite Nat.div2_div; apply Nat.Div0.div_lt_upper_bound; lia). destruct (lookup_lt_is_Some_2 l mid Hmid) as [x Hx].
  pose proof (total_app internal_cost (take mid l) (x :: drop (S mid) l)) as Ha. rewrite take_drop_middle in Ha by done. cbn [total] in Ha.
  pose proof (total_least internal_cost 14 (take mid l) internal_cost_least) as H1. pose proof (total_least internal_cost 14 (drop (S mid) l) internal_cost_least) as H2.
  pose proof (internal_cost_least x). assert (Z.of_nat (length l) = Z.of_nat (length (take mid l)) + 1 + Z.of_nat (length (drop (S mid) l))) as Hlen
    by (rewrite <- (take_drop_middle l mid x Hx) at 1; rewrite length_app; cbn; lia).
  rewrite !fits_internal. unfold page_room. split_and!; [by rewrite Hx|lia|lia].
Qed.

(** ** Slim entries are inserted *)

Lemma slim_small k v : slim_item (k, v) -> small k v.
Proof. unfold slim_item, leaf_cost, small, MaxKeySize, MaxValueSize. cbn [fst snd]. lia. Qed.

Lemma slim_separator k v c : slim_item (k, v) -> slim_entry (c, k).
Proof. unfold slim_item, slim_entry, leaf_cost, internal_cost. cbn [fst snd]. lia. Qed.

Lemma put_total k v l : total leaf_cost (put k v l) <= total leaf_cost l + leaf_cost (k, v).
Proof. induction l as [|[k' v'] l IH]; cbn [put total]; [lia|]. pose proof (leaf_cost_least (k', v')). destruct (Compare k k'); cbn [total]; lia. Qed.

Lemma slims_insert P i p : slims P -> slim p -> slims (<[i := p]> P).
Proof. intros HP Hp. by apply map_Forall_insert_2. Qed.

Lemma slims_relink P rid next : slims P -> slims (relink rid next P).
Proof. intros HP. unfold relink. case_bool_decide; [done|]. destruct (P !! next) as [[p n its|]|] eqn:E; [|done..]. apply slims_insert; [done|]. apply (HP _ _ E). Qed.

Lemma split_entries_total cl ks cr items right items' right' : split_entries cl ks cr items right = Some (items', right') -> Forall slim_entry items -> slim_entry (cl, ks) ->
  Forall slim_entry items' /\ total internal_cost items' = total internal_cost items + internal_cost (cl, ks).
Proof.
  unfold split_entries. intros Hs Hf Hk. case_bool_decide.
  { injection Hs as <- <-. split; [apply Forall_app; split; [done|by constructor]|]. rewrite total_app. cbn. lia. }
  destruct (list_find _ items) as [[i [c old]]|] eqn:E; [|done]. apply list_find_Some in E as (Hi & _). injection Hs as <- <-.
  rewrite <- (take_drop_middle items i (c, old) Hi), Forall_app, Forall_cons in Hf. destruct Hf as (H1 & H2 & H3). split.
  - apply Forall_app. split; [done|]. constructor; [done|]. by constructor.
  - rewrite <- (take_drop_middle items i (c, old) Hi) at 3. rewrite !total_app. cbn [total]. unfold internal_cost. cbn [snd]. lia.
Qed.

(** What an insertion into slim pages comes to. *)
Definition kept_slim (k v : bytes) (P P' : pages) (r : outcome) : Prop :=
  slims P -> slim_item (k, v) -> slims P' /\ match r with Done => True | Failed => False | Split cl ks cr => slim_entry (cl, ks) end.

Section Slim.
Context `{Allocator}.

Lemma insert_leaf_slim k v id prev next items P P' r : P !! id = Some (Leaf prev next items) -> ordered fst items ->
  insert_leaf k v id P = (P', r) -> kept_slim k v P P' r.
Proof.
  intros Hp Ho Hins HP Hkv. destruct (HP _ _ Hp) as [Hf Hall]. unfold insert_leaf in Hins. rewrite Hp, written_put in Hins by done.
  assert (Forall slim_item (put k v items)) as Hnew by (apply Forall_forall; intros x [->|Hx]%put_elem; [done|]; rewrite Forall_forall in Hall; by apply Hall).
  destruct (fill_leaf (put k v items)) as [kept ok] eqn:Ef. destruct ok.
  { pose proof (fill_all _ _ _ _ Ef) as ->. injection Hins as <- <-. split; [by apply slims_insert|done]. }
  destruct (leaf_halves (put k v items) Hnew) as (H1 & H2 & H3); [apply fits_total in Hf; pose proof (put_total k v items); unfold slim_item in Hkv; lia|unfold fits; congruence|].
  unfold fits in H1, H2. rewrite H1, H2 in Hins. cbn [negb] in Hins. destruct (drop _ (put k v items)) as [|[ks vs] tl] eqn:Ed; [done|]. injection Hins as <- <-.
  rewrite <- (take_drop (Nat.div2 (length (put k v items))) (put k v items)), Ed in Hnew. apply Forall_app in Hnew as [Hl Hr]. split.
  - apply slims_insert; [apply slims_insert; [by apply slims_relink|done]|done].
  - apply Forall_cons in Hr as [Hr _]. by eapply slim_separator.
Qed.

Lemma insert_parent_slim cl ks cr id old right items' right' P P' r k v : P !! id = Some (Internal old right) ->
  split_entries cl ks cr old right = Some (items', right') -> slim_entry (cl, ks) -> insert_parent cl ks cr id P = (P', r) -> kept_slim k v P P' r.
Proof.
  intros Hp Hs Hks Hins HP _. destruct (HP _ _ Hp) as [Hf Hall]. unfold insert_parent in Hins. rewrite Hp, Hs in Hins.
  destruct (split_entries_total _ _ _ _ _ _ _ Hs Hall Hks) as [Hall' Ht]. destruct (fill_internal items') as [kept ok] eqn:Ef. destruct ok.
  { pose proof (fill_all _ _ _ _ Ef) as ->. injection Hins as <- <-. split; [by apply slims_insert|done]. }
  destruct (node_halves items' Hall') as ([[c key] Hm] & H1 & H2); [apply fits_internal in Hf; unfold slim_entry in Hks; lia|congruence|].
  rewrite Hm, H1, H2 in Hins. injection Hins as <- <-. rewrite <- (take_drop_middle items' _ _ Hm), Forall_app, Forall_cons in Hall'. destruct Hall' as (G1 & G2 & G3).
  split; [apply slims_insert; [by apply slims_insert|done]|done].
Qed.
End Slim.
