(* ===== verification/BtreeInsert.v ===== *)
(** Inserting into the pages of a B+tree is inserting into the list of its
    entries. *)

From S2P Require Import Prelude JsString JsNumber Go Btree BtreeSearch BtreeInvariant BtreeRoom.

Open Scope Z_scope.

(** ** The chain of leaves *)

Definition links (P : pages) (i : N) : option (N * N) := match P !! i with Some (Leaf p n _) => Some (p, n) | _ => None end.

(** The page [new] is put behind [leaf]. *)
Definition relinked (P P' : pages) (leaf new : N) : Prop := exists p n, links P leaf = Some (p, n) /\ links P new = None
  /\ links P' leaf = Some (p, new) /\ links P' new = Some (leaf, n)
  /\ forall i, i <> leaf -> i <> new -> links P' i = if bool_decide (i = n) then (fun q => (new, q.2)) <$> links P i else links P i.

Definition grown (P P' : pages) (L L' : list N) : Prop :=
  (L' = L /\ forall i, links P' i = links P i)
  \/ exists leaf new A B, L = A ++ leaf :: B /\ L' = A ++ leaf :: new :: B /\ relinked P P' leaf new.

Lemma grown_app P P' A L L' B : grown P P' L L' -> grown P P' (A ++ L ++ B) (A ++ L' ++ B).
Proof.
  intros [[-> H]|(leaf & new & X & Y & -> & -> & H)]; [by left|]. right. exists leaf, new, (A ++ X), (Y ++ B). by rewrite <- !app_assoc.
Qed.

Lemma grown_links P P1 P2 L L' : grown P P1 L L' -> (forall i, links P2 i = links P1 i) -> grown P P2 L L'.
Proof.
  intros [[-> H]|(leaf & new & X & Y & -> & -> & p & n & H1 & H2 & H3 & H4 & H5)] Hl; [left; split; [done|]; intros i; by rewrite Hl|].
  right. exists leaf, new, X, Y. split_and!; try done. exists p, n. rewrite !Hl. split_and!; try done. intros i Hi1 Hi2. rewrite Hl. auto.
Qed.

Lemma relink_spec P rid next : P !! InvalidPage = None ->
  forall i, same_skeleton P (relink rid next P) i /\ links (relink rid next P) i = (if bool_decide (i = next) then (fun q => (rid, q.2)) <$> links P i else links P i).
Proof.
  intros HI i. unfold relink, same_skeleton, links. destruct (decide (i = next)) as [->|Hne].
  - rewrite (bool_decide_eq_true_2 (next = next)) by done. case_bool_decide as En; [by rewrite En, HI|]. destruct (P !! next) as [[p n its|]|] eqn:E; rewrite ?lookup_insert_eq, ?E; done.
  - rewrite (bool_decide_eq_false_2 (i = next)) by done. case_bool_decide as En; [done|]. destruct (P !! next) as [[p n its|]|]; rewrite ?lookup_insert_ne by done; done.
Qed.

(** ** What an insertion does to a subtree *)

Record inserted (k v : bytes) (P P' : pages) (ids : list N) (ls : leaves) (ids' : list N) (ls' : leaves) : Prop := {
  in_entries : entries ls' = put k v (entries ls);
  in_nodup : NoDup ids';
  in_old i : i ∈ ids -> i ∈ ids';
  in_new i : i ∈ ids' -> i ∈ ids \/ P !! i = None;
  in_frame i : i ∉ ids' -> same_skeleton P P' i;
  in_dom i : is_Some (P !! i) -> is_Some (P' !! i);
  in_grown : grown P P' (fst <$> ls) (fst <$> ls');
  in_valid : P' !! InvalidPage = None;
  in_full : full ls -> full ls';
}.

Definition resulting (P : pages) (h : nat) (id : N) (lo hi : option bytes) (ids : list N) (ls : leaves) (r : outcome) : Prop :=
  match r with
  | Done => subtree P h id lo hi ids ls
  | Split c ks new => c = id /\ past lo ks /\ upto ks hi /\ exists a b la lb, ids = a ++ b /\ ls = la ++ lb
      /\ subtree P h id lo (Some ks) a la /\ subtree P h new (Some ks) hi b lb
  | Failed => False
  end.

(** ** Halves of a leaf *)

Lemma bounded_put k v lo hi l : bounded lo hi l -> from lo k -> upto k hi -> bounded lo hi (put k v l).
Proof. intros [Ho Hb] Hlo Hhi. split; [by apply put_ordered|]. intros x [->|Hx]%put_elem; auto. Qed.

Lemma halves_bounded lo hi l mid ks vs tl : bounded lo hi l -> drop mid l = (ks, vs) :: tl -> take mid l <> [] ->
  past lo ks /\ upto ks hi /\ bounded lo (Some ks) (take mid l) /\ bounded (Some ks) hi (drop mid l).
Proof.
  intros [Ho Hb] Ed Hne. rewrite <- (take_drop mid l) in Ho, Hb. rewrite Ed in *. apply ordered_app in Ho as (Ho1 & Ho2 & H12).
  assert (forall x, x ∈ take mid l -> klt x.1 ks) as Hlt by (intros x Hx; apply (H12 x (ks, vs) Hx); by left).
  assert (upto ks hi) as Hup by (apply (Hb (ks, vs)); set_solver). split_and!; [|done|..].
  - destruct (take mid l) as [|x0 r]; [done|]. specialize (Hlt x0 ltac:(by left)). destruct (Hb x0) as [Hx _]; [set_solver|]. destruct lo as [b|]; cbn in *; [|done].
    destruct Hx as [Hx| ->]; [by eapply klt_trans|done].
  - split; [done|]. intros x Hx. split; [apply Hb; set_solver|by apply Hlt].
  - split; [done|]. intros x Hx. split; [|apply Hb; set_solver]. apply ordered_cons in Ho2 as [Ho2 _]. unfold above in Ho2. rewrite Forall_forall in Ho2.
    apply elem_of_cons in Hx as [->|Hx]; [by right|left; by apply Ho2].
Qed.

(** An item alone fits on a page, so a page that overflows has two. *)
Lemma half_nonempty k v items : small k v -> (fill_leaf (put k v items)).2 = false -> take (Nat.div2 (length (put k v items))) (put k v items) <> [].
Proof.
  intros Hsm Hf Ht. destruct (put k v items) as [|x1 [|x2 r]] eqn:En; [done| |done].
  assert (x1 = (k, v)) as -> by (destruct items as [|[k' v'] [|]]; cbn in En; repeat case_match; congruence). by rewrite (fill_one k v Hsm) in Hf.
Qed.

(** ** Around and above what has changed *)

(** Siblings of a subtree are not touched. *)
Lemma inserted_around k v P P' ids ls ids' ls' A B la lb : inserted k v P P' ids ls ids' ls' -> NoDup (A ++ ids ++ B) ->
  (forall i, i ∈ A ++ B -> is_Some (P !! i)) -> below fst k (entries la) -> above fst k (entries lb) ->
  inserted k v P P' (A ++ ids ++ B) (la ++ ls ++ lb) (A ++ ids' ++ B) (la ++ ls' ++ lb) /\ forall i, i ∈ A ++ B -> same_skeleton P P' i.
Proof.
  intros [He Hd Hold Hnew Hfr Hdom Hg Hv Hfl] HN Hex Hbe Hab. apply NoDup_app in HN as (NA & NAx & NB). apply NoDup_app in NB as (Nids & NBx & NB).
  assert (forall i, i ∈ ids' -> i ∈ A ++ B -> False) as Hdis.
  { intros i Hi Hab'. destruct (Hnew i Hi) as [Hi'|Hi']; [|destruct (Hex i Hab'); congruence]. apply elem_of_app in Hab' as [Hin|Hin]; [apply (NAx i Hin); set_solver|by apply (NBx i)]. }
  split; [split|]; try done.
  - by rewrite !entries_app, He, put_below, put_above.
  - apply NoDup_app. split_and!; [done| |apply NoDup_app; split_and!; [done| |done]]; set_solver.
  - set_solver.
  - intros i Hi. rewrite !elem_of_app in Hi |- *. destruct Hi as [Hi|[Hi|Hi]]; [auto| |auto]. destruct (Hnew i Hi); auto.
  - intros i Hi. apply Hfr. set_solver.
  - rewrite !fmap_app. by apply grown_app.
  - unfold full in *. rewrite !Forall_app. naive_solver.
  - intros i Hi. apply Hfr. intros Hin. by apply (Hdis i).
Qed.

(** Internal pages are changed, and added. *)
Record raised (P P' : pages) (ids ids' : list N) : Prop := {
  ra_nodup : NoDup ids';
  ra_old i : i ∈ ids -> i ∈ ids';
  ra_new i : i ∈ ids' -> i ∈ ids \/ P !! i = None;
  ra_frame i : i ∉ ids' -> P' !! i = P !! i;
  ra_dom i : is_Some (P !! i) -> is_Some (P' !! i);
  ra_links i : links P' i = links P i;
  ra_valid : P' !! InvalidPage = None;
}.

Lemma raised_trans P1 P2 P3 i1 i2 i3 : raised P1 P2 i1 i2 -> raised P2 P3 i2 i3 -> raised P1 P3 i1 i3.
Proof.
  intros [A1 A2 A3 A4 A5 A6 A7] [B1 B2 B3 B4 B5 B6 B7]. split; try done; auto.
  - intros i Hi. destruct (B3 i Hi) as [Hi'|Hi']; [by apply A3|]. right. destruct (P1 !! i) eqn:E; [|done]. destruct (A5 i ltac:(by rewrite E)). congruence.
  - intros i Hi. rewrite B4 by done. apply A4. auto.
  - intros i. by rewrite B6.
Qed.

Lemma raised_set P id items right items' right' ids : P !! id = Some (Internal items right) -> id ∈ ids -> NoDup ids -> P !! InvalidPage = None ->
  raised P (<[id := Internal items' right']> P) ids ids.
Proof.
  intros Hp Hid HN HI. split; try done; [auto|..].
  - intros i Hi. by rewrite lookup_insert_ne by set_solver.
  - intros i Hi. destruct (decide (i = id)) as [->|]; [by rewrite lookup_insert_eq|by rewrite lookup_insert_ne].
  - intros i. unfold links. destruct (decide (i = id)) as [->|]; [by rewrite lookup_insert_eq, Hp|by rewrite lookup_insert_ne].
  - by rewrite lookup_insert_ne by congruence.
Qed.

Lemma raised_new P id items right ids ids' : P !! id = None -> id <> InvalidPage -> id ∉ ids -> NoDup ids -> ids' ≡ₚ id :: ids -> P !! InvalidPage = None ->
  raised P (<[id := Internal items right]> P) ids ids'.
Proof.
  intros Hp Hv Hid HN Hperm HI. split.
  - rewrite Hperm. by apply NoDup_cons.
  - intros i Hi. rewrite Hperm. by right.
  - intros i. rewrite Hperm. intros [->|Hi]%elem_of_cons; auto.
  - intros i Hi. rewrite Hperm in Hi. by rewrite lookup_insert_ne by set_solver.
  - intros i Hi. destruct (decide (i = id)) as [->|]; [by rewrite lookup_insert_eq|by rewrite lookup_insert_ne].
  - intros i. unfold links. destruct (decide (i = id)) as [->|]; [by rewrite lookup_insert_eq, Hp|by rewrite lookup_insert_ne].
  - by rewrite lookup_insert_ne.
Qed.

Lemma inserted_raised k v P P1 P2 ids ls ids' ls' ids'' : inserted k v P P1 ids ls ids' ls' -> raised P1 P2 ids' ids'' -> inserted k v P P2 ids ls ids'' ls'.
Proof.
  intros [He Hd Hold Hnew Hfr Hdom Hg Hv Hfl] [H1 H2 H3 H4 H5 H6 H7]. split; try done; auto.
  - intros i Hi. destruct (H3 i Hi) as [Hi'|Hi']; [by apply Hnew|]. right. destruct (P !! i) eqn:E; [|done]. destruct (Hdom i ltac:(by rewrite E)). congruence.
  - intros i Hi. unfold same_skeleton. rewrite H4 by done. apply Hfr. auto.
  - by eapply grown_links.
Qed.

Lemma framed_subtree P P' h ids : (forall i, i ∈ ids -> same_skeleton P P' i) -> framed (subtree P h) (subtree P' h) ids.
Proof. intros Hs c lo hi ids' ls Hsub Hn. eapply subtree_frame; [exact Hn|]. intros i Hi. by apply Hs, Hsub. Qed.

(** A node is split at an entry. *)
Lemma kids_split node items right lo hi ids ls mid c k : kids node items right lo hi ids ls -> items !! mid = Some (c, k) ->
  past lo k /\ upto k hi /\ exists ids1 ids2 ls1 ls2, ids = ids1 ++ ids2 /\ ls = ls1 ++ ls2
    /\ kids node (take mid items) c lo (Some k) ids1 ls1 /\ kids node (drop (S mid) items) right (Some k) hi ids2 ls2.
Proof.
  revert lo ids ls mid. induction items as [|[c0 k0] items IH]; intros lo ids ls mid; [done|]. cbn [kids].
  intros (ids1 & ids2 & ls1 & ls2 & -> & -> & H1 & H2 & H3 & H4) Hm. destruct mid as [|mid].
  { injection Hm as -> ->. split_and!; [done..|]. by exists ids1, ids2, ls1, ls2. }
  destruct (IH (Some k0) ids2 ls2 mid H4 Hm) as (G1 & G2 & j1 & j2 & m1 & m2 & -> & -> & G3 & G4). split_and!; [|done|].
  { destruct lo; cbn in *; [by eapply klt_trans|done]. }
  exists (ids1 ++ j1), j2, (ls1 ++ m1), m2. rewrite <- !app_assoc. split_and!; try done. cbn. by exists ids1, j1, ls1, m1.
Qed.

Section Insert.
Context `{Allocator}.

Lemma insert_leaf_fits k v id prev next items new lo hi P : P !! InvalidPage = None ->
  P !! id = Some (Leaf prev next items) -> new = put k v items -> bounded lo hi new -> fits new ->
  let P' := <[id := Leaf prev next new]> P in inserted k v P P' [id] [(id, items)] [id] [(id, new)] /\ resulting P' 0 id lo hi [id] [(id, new)] Done.
Proof.
  intros HI Hp -> Hb Hf P'. assert (forall l, entries [(id, l)] = l) as He by (intros l; unfold entries; cbn; apply app_nil_r).
  split; [|exists prev, next, (put k v items); unfold P'; by rewrite lookup_insert_eq].
  split; rewrite ?He; try done; [apply NoDup_singleton|by left|..].
  - intros i Hi. unfold same_skeleton, P'. by rewrite lookup_insert_ne by set_solver.
  - intros i Hi. unfold P'. destruct (decide (i = id)) as [->|Hne]; [by rewrite lookup_insert_eq|by rewrite lookup_insert_ne].
  - left. split; [done|]. intros i. unfold links, P'. destruct (decide (i = id)) as [->|Hne]; [by rewrite lookup_insert_eq, Hp|by rewrite lookup_insert_ne].
  - unfold P'. by rewrite lookup_insert_ne by congruence.
  - intros _. apply Forall_singleton, put_nonempty.
Qed.

Lemma insert_leaf_halves k v id rid prev next items left right P : P !! InvalidPage = None -> P !! rid = None -> rid <> InvalidPage ->
  P !! id = Some (Leaf prev next items) -> left ++ right = put k v items -> left <> [] -> right <> [] ->
  inserted k v P (<[rid := Leaf id next right]> (<[id := Leaf prev rid left]> (relink rid next P))) [id] [(id, items)] [id; rid] [(id, left); (rid, right)].
Proof.
  intros HI Hfresh Hv Hp E Hl0 Hr0. pose proof (relink_spec P rid next HI) as HP1. set (P1 := relink rid next P) in *. clearbody P1. assert (rid <> id) as Hrid by congruence.
  split.
  - unfold entries. cbn. by rewrite !app_nil_r.
  - apply NoDup_cons. split; [set_solver|apply NoDup_singleton].
  - set_solver.
  - intros i [->|[->|?%elem_of_nil]%elem_of_cons]%elem_of_cons; [left; by left|by right|done].
  - intros i Hi. unfold same_skeleton. rewrite !lookup_insert_ne by set_solver. apply HP1.
  - intros i Hi. destruct (decide (i = rid)) as [->|Hr]; [by rewrite lookup_insert_eq|]. rewrite lookup_insert_ne by done.
    destruct (decide (i = id)) as [->|Hne]; [by rewrite lookup_insert_eq|]. rewrite lookup_insert_ne by done. destruct (HP1 i) as [Hs _]. unfold same_skeleton in Hs.
    destruct (P1 !! i); [done|]. destruct Hi as [? Hi]. by rewrite Hi in Hs.
  - right. exists id, rid, [], []. split_and!; try done. exists prev, next. unfold links at 1 2 3 4. rewrite Hp, Hfresh, lookup_insert_ne, !lookup_insert_eq by done. split_and!; try done.
    intros i Hi Hr. destruct (HP1 i) as [_ Hl]. rewrite <- Hl. unfold links. by rewrite !lookup_insert_ne by done.
  - rewrite !lookup_insert_ne by congruence. destruct (HP1 InvalidPage) as [Hs _]. unfold same_skeleton in Hs. rewrite HI in Hs. by destruct (P1 !! InvalidPage).
  - intros _. by repeat constructor.
Qed.

Lemma insert_leaf_spec k v id prev next items lo hi P P' r : small k v -> P !! InvalidPage = None ->
  P !! id = Some (Leaf prev next items) -> bounded lo hi items -> from lo k -> upto k hi ->
  insert_leaf k v id P = (P', r) ->
  r = Failed \/ exists ids' ls', inserted k v P P' [id] [(id, items)] ids' ls' /\ resulting P' 0 id lo hi ids' ls' r.
Proof.
  intros Hsm HI Hp Hb Hlo Hhi. pose proof (bounded_put k v lo hi items Hb Hlo Hhi) as Hbn. unfold insert_leaf. rewrite Hp, (written_put k v items (proj1 Hb)).
  pose proof (half_nonempty k v items Hsm) as Hne. destruct (fill_leaf (put k v items)) as [kept []] eqn:Ef.
  { pose proof (fill_all _ _ _ _ Ef) as ->. intros [= <- <-]. right. exists [id], [(id, put k v items)]. by apply insert_leaf_fits. }
  specialize (Hne eq_refl). destruct (Allocate_fresh P) as [Hfresh Hv]. set (new := put k v items) in *. set (mid := Nat.div2 (length new)) in *.
  destruct (fill_leaf (take mid new)) as [lkept lok] eqn:El, (fill_leaf (drop mid new)) as [rkept rok] eqn:Er.
  destruct lok; cbn [negb]; [|intros [= <- <-]; by left]. destruct rok; [|intros [= <- <-]; by left].
  pose proof (fill_all _ _ _ _ El) as ->. pose proof (fill_all _ _ _ _ Er) as ->. destruct (drop mid new) as [|[ks vs] tl] eqn:Ed; [intros [= <- <-]; by left|].
  destruct (halves_bounded lo hi new mid ks vs tl Hbn Ed Hne) as (H1 & H2 & H3 & H4). rewrite <- Ed in *. intros [= <- <-]. right.
  exists [id; Allocate P], [(id, take mid new); (Allocate P, drop mid new)]. split; [apply insert_leaf_halves; try done; [apply take_drop|by rewrite Ed]|]. split_and!; try done.
  exists [id], [Allocate P], [(id, take mid new)], [(Allocate P, drop mid new)]. split_and!; try done.
  - exists prev, (Allocate P), (take mid new). rewrite lookup_insert_ne, lookup_insert_eq by congruence. by split_and!.
  - exists id, next, (drop mid new). rewrite lookup_insert_eq. by split_and!.
Qed.

Lemma insert_parent_spec h cl ks cr id old rightmost items right lo hi ids ls P P' r :
  P !! id = Some (Internal old rightmost) -> NoDup (id :: ids) -> P !! InvalidPage = None ->
  split_entries cl ks cr old rightmost = Some (items, right) -> kids (subtree P h) items right lo hi ids ls ->
  insert_parent cl ks cr id P = (P', r) ->
  r = Failed \/ exists ids', raised P P' (id :: ids) ids' /\ resulting P' (S h) id lo hi ids' ls r.
Proof.
  intros Hp HN HI Hs Hk. assert (forall i, i ∈ ids -> is_Some (P !! i)) as Hex.
  { apply (kids_each (fun ids _ => forall i, i ∈ ids -> is_Some (P !! i)) _ _ _ _ _ _ _ Hk); [intros; by eapply subtree_pages|set_solver]. }
  pose proof HN as [Hid HN']%NoDup_cons. unfold insert_parent. rewrite Hp, Hs. destruct (fill_internal items) as [kept []] eqn:Ef.
  { pose proof (fill_all _ _ _ _ Ef) as ->. intros [= <- <-]. right. exists (id :: ids). split; [eapply raised_set; try done; by left|].
    cbn. exists items, right, ids. rewrite lookup_insert_eq. split_and!; try done. eapply kids_framed, Hk. apply framed_subtree.
    intros i Hi. unfold same_skeleton. by rewrite lookup_insert_ne by set_solver. }
  destruct (Allocate_fresh P) as [Hfresh Hv]. set (rid := Allocate P) in *. clearbody rid. assert (rid <> id) as Hrid by congruence.
  destruct (items !! Nat.div2 (length items)) as [[child key]|] eqn:Em; [|intros [= <- <-]; by left].
  destruct (kids_split _ _ _ _ _ _ _ _ _ _ Hk Em) as (H1 & H2 & i1 & i2 & l1 & l2 & -> & -> & H3 & H4).
  destruct (fill_internal (take _ items)) as [lkept []] eqn:El, (fill_internal (drop _ items)) as [rkept []] eqn:Er; cbn [negb]; intros [= <- <-]; try by left.
  pose proof (fill_all _ _ _ _ El) as ->. pose proof (fill_all _ _ _ _ Er) as ->. right.
  assert (rid ∉ i1 ++ i2) as Hr by (intros Hin; destruct (Hex rid Hin); congruence). set (P' := <[rid := _]> (<[id := _]> P)).
  assert (framed (subtree P h) (subtree P' h) (i1 ++ i2)) as Hf.
  { apply framed_subtree. intros i Hi. unfold same_skeleton, P'. by rewrite !lookup_insert_ne by set_solver. }
  exists ((id :: i1) ++ rid :: i2). split.
  - eapply raised_trans; [eapply raised_set; [exact Hp|by left|exact HN|exact HI]|]. apply raised_new; try done; [by rewrite lookup_insert_ne|set_solver|solve_Permutation|by rewrite lookup_insert_ne by congruence].
  - split_and!; try done. exists (id :: i1), (rid :: i2), l1, l2. split_and!; try done; cbn.
    + eexists _, _, i1. unfold P' at 1. rewrite lookup_insert_ne, lookup_insert_eq by done. split_and!; [done..|]. eapply kids_framed; [|exact H3]. intros ? ? ? ? ? ?; apply Hf; set_solver.
    + eexists _, _, i2. unfold P' at 1. rewrite lookup_insert_eq. split_and!; [done..|]. eapply kids_framed; [|exact H4]. intros ? ? ? ? ? ?; apply Hf; set_solver.
Qed.

(** ** A subtree *)

Lemma descend_cons fuel k id P h lo hi ids ls : subtree P h id lo hi ids ls -> exists p, descend (S fuel) k id P = id :: p.
Proof. destruct h; cbn [subtree]; [intros (? & ? & ? & Hp & _)|intros (? & ? & ? & Hp & _)]; cbn; rewrite Hp; eauto. Qed.

Lemma kids_focus_at P h key items right lo hi ids ls : NoDup ids -> kids (subtree P h) items right lo hi ids ls -> from lo key -> upto key hi ->
  RouteChild key items right = route key items right
  /\ exists lo' hi' ids1 ids2 ids3 ls1 ls2 ls3, focus (subtree P h) key items right lo hi ids ls lo' hi' ids1 ids2 ids3 ls1 ls2 ls3.
Proof.
  intros HN Hk Hlo Hhi. split; [by eapply RouteChild_route, kids_separators|]. apply kids_focus; try done. intros c l1 l2 i s Hn. split; [by eapply subtree_id|by eapply subtree_bounded].
Qed.

Lemma insert_subtree k v : small k v -> forall h id lo hi ids ls P P' r fuel, subtree P h id lo hi ids ls -> NoDup ids -> P !! InvalidPage = None ->
  from lo k -> upto k hi -> (h < fuel)%nat -> insert_path k v (descend fuel k id P) P = (P', r) ->
  kept_slim k v P P' r /\ (r = Failed \/ exists ids' ls', inserted k v P P' ids ls ids' ls' /\ resulting P' h id lo hi ids' ls' r).
Proof.
  intros Hsm. induction h as [|h IH]; intros id lo hi ids ls P P' r fuel Ht HN HI Hlo Hhi Hf Hins; (destruct fuel as [|fuel]; [lia|]).
  { destruct Ht as (prev & next & items & Hp & Hfit & Hb & -> & ->). cbn in Hins. rewrite Hp in Hins. cbn in Hins.
    split; [by eapply insert_leaf_slim; [|apply Hb|]|by eapply insert_leaf_spec]. }
  pose proof (subtree_pages _ _ _ _ _ _ _ Ht) as [Hex _]. destruct Ht as (items & right & ids' & Hp & -> & Hk). pose proof HN as [Hid HN']%NoDup_cons.
  destruct (kids_focus_at P h k items right lo hi ids' ls HN' Hk Hlo Hhi) as (Er & lo' & hi' & i1 & i2 & i3 & l1 & l2 & l3 & [-> -> F1 F2 F3 F4 F5 F6 F7]).
  cbn [descend] in Hins. rewrite Hp, Er in Hins. set (c := route k items right) in *. destruct fuel as [|fuel]; [lia|]. destruct (descend_cons fuel k c P h _ _ _ _ F1) as [p Ep].
  rewrite Ep in Hins. change (insert_path k v (id :: c :: p) P) with (match insert_path k v (c :: p) P with (P, Split cl ks cr) => insert_parent cl ks cr id P | r => r end) in Hins.
  rewrite <- Ep in Hins. destruct (insert_path k v (descend (S fuel) k c P) P) as [P1 r1] eqn:E1.
  pose proof HN' as (_ & _ & (Hd2 & _)%NoDup_app)%NoDup_app. destruct (IH c lo' hi' i2 l2 P P1 r1 (S fuel) F1 Hd2 HI F2 F3 ltac:(lia) E1) as [Hsl [->|(j & m & Hin & Hres)]]; [injection Hins as <- <-; auto|].
  destruct (inserted_around k v P P1 i2 l2 j m (id :: i1) i3 l1 l3 Hin HN) as [Hall Hsk]; [intros i Hi; apply Hex; set_solver|done|done|].
  assert (framed (subtree P h) (subtree P1 h) (i1 ++ i3)) as Hfr by (apply framed_subtree; intros i Hi; apply Hsk; set_solver).
  pose proof (Hsk id ltac:(by left)) as Hpid. unfold same_skeleton in Hpid. rewrite Hp in Hpid. destruct (P1 !! id) as [[|it' ri']|] eqn:Ep1; try done. injection Hpid as -> ->.
  destruct r1 as [| |cl ks cr]; [|done|].
  - injection Hins as <- <-. split; [done|]. right. eexists _, _. split; [exact Hall|]. cbn. exists items, right, (i1 ++ j ++ i3). split_and!; try done. by apply F6.
  - destruct Hres as (-> & Hpast & Hupto & a & b & la & lb & -> & -> & Hsa & Hsb). destruct (F7 _ cr ks a b la lb Hfr Hpast Hupto Hsa Hsb) as (items' & right' & Hs & Hk').
    split; [intros HP Hkv; destruct (Hsl HP Hkv) as [HP1 Hks]; by eapply insert_parent_slim|].
    destruct (insert_parent_spec h c ks cr id items right items' right' lo hi _ _ P1 P' r Ep1 (in_nodup _ _ _ _ _ _ _ _ Hall) (in_valid _ _ _ _ _ _ _ _ Hin) Hs Hk' Hins) as [->|(ids'' & Hra & Hres)]; [by left|].
    right. eexists ids'', _. split; [by eapply inserted_raised|exact Hres].
Qed.
End Insert.
