(* ===== verification/BtreeMap.v ===== *)
(** The B+tree as an ordered map: inserting, searching and deleting on pages are
    the operations of the list of entries, and the chain of leaves is kept. *)

From S2P Require Import Prelude JsString JsNumber Go Btree BtreeSearch BtreeInvariant BtreeRoom BtreeInsert.

Open Scope Z_scope.

(** ** The chain of leaves *)

Fixpoint chained (P : pages) (prev : N) (L : list N) : Prop :=
  match L with
  | [] => True
  | i :: L => links P i = Some (prev, hd InvalidPage L) /\ chained P i L
  end.

Lemma chained_ext P P' p L : (forall i, i ∈ L -> links P' i = links P i) -> chained P p L -> chained P' p L.
Proof.
  revert p. induction L as [|i L IH]; intros p Hl; cbn; [done|]. intros [H1 H2]. split; [rewrite Hl; [done|by left]|]. apply IH; [|done]. intros j Hj. apply Hl. by right.
Qed.

Lemma relinked_chained P P' leaf new A B p : relinked P P' leaf new -> NoDup (A ++ leaf :: B) -> InvalidPage ∉ A ++ leaf :: B ->
  chained P p (A ++ leaf :: B) -> chained P' p (A ++ leaf :: new :: B).
Proof.
  intros (p0 & n & H1 & H2 & H3 & H4 & H5). revert p. induction A as [|a A IH]; intros p HN HI.
  - cbn [app chained]. intros [Hl Hc]. rewrite H1 in Hl. injection Hl as -> ->. split_and!; [done|by rewrite H4|]. apply NoDup_cons in HN as [Hb HN].
    destruct B as [|j B]; [done|]. cbn [chained hd] in *. destruct Hc as [Hj Hc]. apply NoDup_cons in HN as [Hjb HN].
    assert (forall i, i ∈ j :: B -> i <> new) as Hnew by (intros i Hi ->; apply elem_of_cons in Hi as [->|Hi]; [congruence|];
      clear - Hc Hi H2; revert Hc; generalize j as q; induction B as [|x B IH]; intros q; [by apply elem_of_nil in Hi|]; cbn; intros [Hx Hc]; apply elem_of_cons in Hi as [->|Hi]; [congruence|by eapply IH]).
    split.
    + rewrite H5; [|set_solver|apply Hnew; by left]. rewrite bool_decide_eq_true_2 by done. by rewrite Hj.
    + eapply chained_ext; [|exact Hc]. intros i Hi. rewrite H5; [|set_solver|apply Hnew; by right]. by rewrite bool_decide_eq_false_2 by (intros ->; done).
  - cbn [app chained]. intros [Ha Hc]. cbn [app] in HN, HI. apply NoDup_cons in HN as [Hna HN]. split.
    + assert (n <> a) as Hn.
      { assert (n = hd InvalidPage B) as ->.
        { clear - Hc H1. revert Hc. generalize a as q. induction A as [|x A IH]; intros q; cbn; [intros [Hx _]; congruence|]. intros [_ Hc]. by eapply IH. }
        destruct B; cbn; set_solver. }
      rewrite H5; [|set_solver|intros ->; congruence]. rewrite bool_decide_eq_false_2 by done. rewrite Ha. by destruct A.
    + apply IH; [done|set_solver|done].
Qed.

Lemma grown_chained P P' p L L' : grown P P' L L' -> NoDup L -> InvalidPage ∉ L -> chained P p L -> chained P' p L'.
Proof.
  intros [[-> H]|(leaf & new & A & B & -> & -> & H)] HN HI Hc; [by eapply chained_ext; [intros i _; apply H|]|by eapply relinked_chained].
Qed.

(** ** Trees *)

(** The leaves of the tree at [root]. *)
Definition tree (P : pages) (root : N) (ls : leaves) : Prop :=
  P !! InvalidPage = None
  /\ ((root = InvalidPage /\ ls = [])
      \/ exists h ids, subtree P h root None None ids ls /\ NoDup ids /\ chained P InvalidPage (fst <$> ls)).

(** Leaves are pages of the subtree, each once, and no subtree is higher than
    it has pages. *)
Lemma subtree_leaves P h id lo hi ids ls : subtree P h id lo hi ids ls -> (fst <$> ls) `sublist_of` ids /\ (h < length ids)%nat /\ ls <> [].
Proof.
  revert id lo hi ids ls. induction h as [|h IH]; intros id lo hi ids ls; cbn [subtree].
  - intros (prev & next & items & _ & _ & _ & -> & ->). cbn. split_and!; [done|lia|done].
  - intros (items & right & ids' & _ & -> & Hk). assert ((fst <$> ls) `sublist_of` ids' /\ (h < length ids')%nat /\ ls <> []) as (H1 & H2 & H3).
    { apply (kids_each (fun ids ls => (fst <$> ls) `sublist_of` ids /\ (h < length ids)%nat /\ ls <> []) _ _ _ _ _ _ _ Hk); [intros; by eapply IH|].
      intros i1 i2 l1 l2 (A1 & A2 & A3) (B1 & B2 & B3). rewrite fmap_app, length_app. split_and!; [by apply sublist_app|lia|by destruct l1]. }
    split_and!; [by constructor|cbn; lia|done].
Qed.

Lemma subtree_height P h id lo hi ids ls : subtree P h id lo hi ids ls -> NoDup ids -> (h < S (size P))%nat.
Proof.
  intros Ht HN. pose proof (subtree_leaves _ _ _ _ _ _ _ Ht) as (_ & Hh & _). pose proof (subtree_pages _ _ _ _ _ _ _ Ht) as [Hex _].
  assert (length ids <= size P)%nat; [|lia]. rewrite <- size_dom, <- (size_list_to_set (C := gset N) ids HN). apply subseteq_size. intros i Hi%elem_of_list_to_set.
  apply elem_of_dom. by apply Hex.
Qed.

Section Operations.
Context `{Allocator}.

Lemma root_not_invalid P h id lo hi ids ls : subtree P h id lo hi ids ls -> P !! InvalidPage = None -> id <> InvalidPage.
Proof. intros Ht HI ->. pose proof (subtree_id _ _ _ _ _ _ _ Ht) as Hid. apply (subtree_pages _ _ _ _ _ _ _ Ht) in Hid as [? ?]. congruence. Qed.

Lemma tree_chain P h id ids ls : subtree P h id None None ids ls -> NoDup ids -> P !! InvalidPage = None -> NoDup (fst <$> ls) /\ InvalidPage ∉ fst <$> ls.
Proof.
  intros Ht HN HI. pose proof (subtree_leaves _ _ _ _ _ _ _ Ht) as (Hsub & _). split; [by eapply sublist_NoDup|].
  intros Hin. eapply elem_of_sublist in Hin; [|exact Hsub]. apply (subtree_pages _ _ _ _ _ _ _ Ht) in Hin as [? ?]. congruence.
Qed.

Lemma insert_root k v P ls P' root' : small k v -> tree P InvalidPage ls -> Insert k v InvalidPage P = (P', root', true) ->
  tree P' root' [(root', [(k, v)])] /\ entries [(root', [(k, v)])] = put k v (entries ls).
Proof.
  intros Hsm [HI Ht] Hins. assert (ls = []) as ->.
  { destruct Ht as [[_ ?]|(h & ids & Ht & _)]; [done|]. by apply root_not_invalid in Ht. }
  split; [|done]. unfold Insert in Hins. destruct ((MaxKeySize <? length k)%nat || (MaxValueSize <? length v)%nat); [done|]. rewrite bool_decide_eq_true_2, fill_one in Hins by done.
  destruct (Allocate_fresh P) as [Hfr Hv]. injection Hins as <- <-. split; [by rewrite lookup_insert_ne|]. right. exists 0%nat, [Allocate P]. split_and!; [|apply NoDup_singleton|].
  - exists InvalidPage, InvalidPage, [(k, v)]. rewrite lookup_insert_eq. split_and!; try done; [by apply fill_one|]. split; [repeat constructor|done].
  - cbn. unfold links. by rewrite lookup_insert_eq.
Qed.

(** Inserting is writing into the entries. *)
Lemma Insert_put k v P root ls P' root' : tree P root ls -> Insert k v root P = (P', root', true) ->
  exists ls', tree P' root' ls' /\ entries ls' = put k v (entries ls) /\ (full ls -> full ls').
Proof.
  intros Htree Hins. assert (small k v) as Hsm.
  { unfold Insert in Hins. destruct (Nat.ltb_spec MaxKeySize (length k)) as [?|Hk]; [done|]. destruct (Nat.ltb_spec MaxValueSize (length v)) as [?|Hv]; [done|]. done. }
  destruct (decide (root = InvalidPage)) as [->|Hroot]; [destruct (insert_root k v P ls P' root' Hsm Htree Hins); eexists; split_and!; [done|done|intros _; by apply Forall_singleton]|]. destruct Htree as [HI [[? _]|(h & ids & Ht & HN & Hch)]]; [done|].
  unfold Insert in Hins. destruct ((MaxKeySize <? length k)%nat || (MaxValueSize <? length v)%nat); [done|]. rewrite bool_decide_eq_false_2 in Hins by done.
  destruct (insert_path k v (path_to k root P) P) as [P1 r] eqn:E. unfold path_to in E.
  destruct (insert_subtree k v Hsm h root None None ids ls P P1 r _ Ht HN HI I I (subtree_height _ _ _ _ _ _ _ Ht HN) E) as [_ [->|(ids' & ls' & Hin & Hres)]]; [done|].
  pose proof (tree_chain P h root ids ls Ht HN HI) as [HL1 HL2]. exists ls'. split; [|split; apply Hin].
  assert (chained P1 InvalidPage (fst <$> ls')) as Hch' by (eapply grown_chained; [apply Hin|done..]).
  destruct r as [| |cl ks cr]; [|done|].
  - injection Hins as <- <-. split; [apply Hin|]. right. exists h, ids'. split_and!; [done|apply Hin|done].
  - destruct Hres as (-> & _ & _ & a & b & la & lb & -> & -> & Ha & Hb). destruct (fill_internal [(root, ks)]) as [kept []] eqn:Ef; [|done].
    pose proof (fill_all _ _ _ _ Ef) as ->. destruct (Allocate_fresh P1) as [Hfr Hv]. set (id := Allocate P1) in *. clearbody id. injection Hins as <- <-.
    assert (id ∉ a ++ b) as Hid.
    { intros Hi. assert (is_Some (P1 !! id)) as [? ?]; [|congruence]. apply elem_of_app in Hi as [Hi|Hi]; [by apply (subtree_pages _ _ _ _ _ _ _ Ha)|by apply (subtree_pages _ _ _ _ _ _ _ Hb)]. }
    destruct (raised_new P1 id [(root, ks)] cr (a ++ b) (id :: a ++ b) Hfr Hv Hid ltac:(apply Hin) ltac:(done) ltac:(apply Hin)) as [R1 R2 R3 R4 R5 R6 R7].
    split; [done|]. right. exists (S h), (id :: a ++ b). split_and!; [|done|by eapply chained_ext; [intros i _; apply R6|]].
    assert (framed (subtree P1 h) (subtree (<[id := Internal [(root, ks)] cr]> P1) h) (a ++ b)) as Hfrm.
    { apply framed_subtree. intros i Hi. unfold same_skeleton. by rewrite lookup_insert_ne by set_solver. }
    cbn. exists [(root, ks)], cr, (a ++ b). rewrite lookup_insert_eq. split_and!; try done. cbn. exists a, b, la, lb. split_and!; try done; apply Hfrm; set_solver.
Qed.
(** No slim entry is refused. *)
Lemma Insert_slim k v P root ls : tree P root ls -> slims P -> slim_item (k, v) -> exists P' root', Insert k v root P = (P', root', true) /\ slims P'.
Proof.
  intros [HI Ht] HP Hkv. pose proof (slim_small _ _ Hkv) as Hsm. unfold Insert. destruct Hsm as [Hk Hv]. rewrite (proj2 (Nat.ltb_ge _ _) Hk), (proj2 (Nat.ltb_ge _ _) Hv). cbn [orb].
  destruct Ht as [[-> ->]|(h & ids & Ht & HN & _)].
  { rewrite bool_decide_eq_true_2, fill_one by done. eexists _, _. split; [done|]. apply slims_insert; [done|]. split; [by apply fill_one|by constructor]. }
  rewrite bool_decide_eq_false_2 by by eapply root_not_invalid. destruct (insert_path k v (path_to k root P) P) as [P1 r] eqn:E.
  destruct (insert_subtree k v (conj Hk Hv) h root None None ids ls P P1 r _ Ht HN HI I I (subtree_height _ _ _ _ _ _ _ Ht HN) E) as [Hsl _].
  destruct (Hsl HP Hkv) as [HP1 Hr]. destruct r as [| |cl ks cr]; [eauto|done|].
  assert (fill_internal [(cl, ks)] = ([(cl, ks)], true)) as Ef by (apply fits_internal; cbn; unfold slim_entry in Hr; unfold page_room; lia).
  rewrite Ef. eexists _, _. split; [done|]. apply slims_insert; [done|]. split; [done|by constructor].
Qed.

(** ** The leaf of a key *)

Record leaf_at (k : bytes) (P : pages) (h : nat) (id : N) (lo hi : option bytes) (ids : list N) (ls : leaves) (leaf : N) (l1 : leaves) (items : list item) (l2 : leaves) : Prop := {
  le_leaves : ls = l1 ++ (leaf, items) :: l2;
  le_page : exists prev next, P !! leaf = Some (Leaf prev next items);
  le_below : below fst k (entries l1);
  le_above : above fst k (entries l2);
  le_ordered : ordered fst items;
  le_fits : fits items;
  le_plug prev next items' : ordered fst items' -> fits items' -> (forall x, x ∈ items' -> x ∈ items \/ x.1 = k) ->
    subtree (<[leaf := Leaf prev next items']> P) h id lo hi ids (l1 ++ (leaf, items') :: l2);
}.

Lemma descend_leaf k P h id lo hi ids ls fuel : subtree P h id lo hi ids ls -> NoDup ids -> from lo k -> upto k hi -> (h < fuel)%nat ->
  exists leaf l1 items l2, last (descend fuel k id P) = Some leaf /\ leaf_at k P h id lo hi ids ls leaf l1 items l2.
Proof.
  revert id lo hi ids ls fuel. induction h as [|h IH]; intros id lo hi ids ls fuel Ht HN Hlo Hhi Hf; (destruct fuel as [|fuel]; [lia|]).
  - destruct Ht as (prev & next & items & Hp & Hfit & [Ho Hb] & -> & ->). cbn. rewrite Hp. exists id, [], items, []. split; [done|]. split; try done; [eauto|constructor|constructor|].
    intros prev' next' items' Ho' Hf' Hsub. exists prev', next', items'. rewrite lookup_insert_eq. split_and!; try done. split; [done|]. intros x [Hx| ->]%Hsub; auto.
  - destruct Ht as (items & right & ids' & Hp & -> & Hk). pose proof HN as [Hid HN']%NoDup_cons.
    destruct (kids_focus_at P h k items right lo hi ids' ls HN' Hk Hlo Hhi) as (Er & lo' & hi' & i1 & i2 & i3 & l1 & l2 & l3 & [-> -> F1 F2 F3 F4 F5 F6 F7]).
    cbn [descend]. rewrite Hp, Er. destruct fuel as [|fuel]; [lia|]. destruct (descend_cons fuel k _ P h _ _ _ _ F1) as [p Ep].
    pose proof HN' as (_ & N1 & (Hd2 & N2 & _)%NoDup_app)%NoDup_app. destruct (IH _ lo' hi' i2 l2 (S fuel) F1 Hd2 F2 F3 ltac:(lia)) as (leaf & m1 & its & m2 & Hlast & [-> [prev [next Hleaf]] H1 H2 H3 H4 H5]).
    exists leaf, (l1 ++ m1), its, (m2 ++ l3). split; [rewrite Ep in *; by cbn in *|].
    assert (leaf ∈ i2) as Hin by (apply (proj2 (subtree_pages _ _ _ _ _ _ _ F1) leaf its); set_solver).
    split; try done; [by rewrite <- !app_assoc|eauto|rewrite entries_app; by apply Forall_app|rewrite entries_app; by apply Forall_app|].
    intros prev' next' items' Ho' Hf' Hsub. cbn. exists items, right, (i1 ++ i2 ++ i3). rewrite lookup_insert_ne by set_solver. split_and!; try done. rewrite <- !app_assoc. cbn.
    change (l1 ++ m1 ++ (leaf, items') :: m2 ++ l3) with (l1 ++ m1 ++ ((leaf, items') :: m2) ++ l3). rewrite (app_assoc m1). apply F6; [|by apply H5].
    apply framed_subtree. intros i Hi. unfold same_skeleton. rewrite lookup_insert_ne; [done|]. intros ->. apply elem_of_app in Hi as [Hi|Hi]; [apply (N1 i Hi); set_solver|by apply (N2 i)].
Qed.

Lemma tree_leaf k P root ls : tree P root ls -> root <> InvalidPage ->
  exists h ids l1 items l2, NoDup ids /\ chained P InvalidPage (fst <$> ls) /\ leaf_at k P h root None None ids ls (findLeaf k root P) l1 items l2.
Proof.
  intros [HI [[? _]|(h & ids & Ht & HN & Hch)]] Hr; [done|]. destruct (descend_leaf k P h root None None ids ls (S (size P)) Ht HN I I (subtree_height _ _ _ _ _ _ _ Ht HN)) as (leaf & l1 & items & l2 & Hl & Hat).
  unfold findLeaf, path_to. rewrite Hl. cbn. eauto 10.
Qed.

(** Searching is reading from the entries. *)
Lemma subtree_get k P h root ids ls : subtree P h root None None ids ls -> NoDup ids -> root <> InvalidPage -> Search k root P = get k (entries ls).
Proof.
  intros Ht HN Hr. destruct (descend_leaf k P h root None None ids ls (S (size P)) Ht HN I I (subtree_height _ _ _ _ _ _ _ Ht HN)) as (leaf & l1 & items & l2 & Hl & [-> (prev & next & Hp) H1 H2 H3 _ _]).
  unfold Search, findLeaf, path_to. rewrite bool_decide_eq_false_2 by done. rewrite Hl. change (default InvalidPage (Some leaf)) with leaf. unfold leaf_items. rewrite Hp, found_get by done.
  change ((leaf, items) :: l2) with ([(leaf, items)] ++ l2). rewrite !entries_app, get_around by done. unfold entries. cbn. by rewrite app_nil_r.
Qed.

Lemma Search_get k P root ls : tree P root ls -> Search k root P = get k (entries ls).
Proof.
  intros [HI [[-> ->]|(h & ids & Ht & HN & _)]]; [done|]. eapply subtree_get; [exact Ht|exact HN|by eapply root_not_invalid].
Qed.

Lemma fits_remove k items : fits items -> fits (remove k items).
Proof.
  rewrite !fits_total. intros H0. assert (total leaf_cost (remove k items) <= total leaf_cost items); [|lia]. clear H0. unfold remove.
  induction items as [|x l IH]; [done|]. rewrite filter_cons. pose proof (leaf_cost_least x). case_decide; cbn [total]; lia.
Qed.

Lemma remove_around k a l b : below fst k a -> above fst k b -> remove k (a ++ l ++ b) = a ++ remove k l ++ b.
Proof.
  intros Ha Hb. unfold remove. rewrite !filter_app. change (remove k a ++ remove k l ++ remove k b = a ++ remove k l ++ b).
  by rewrite (remove_none _ _ (below_not fst _ _ Ha)), (remove_none _ _ (above_not fst _ _ Hb)).
Qed.

Lemma removed_nowhere k ls : (forall x, x ∈ entries ls -> x.1 <> k) -> (fun l => (l.1, remove k l.2)) <$> ls = ls.
Proof.
  induction ls as [|[i its] ls IH]; [done|]. change (entries ((i, its) :: ls)) with (its ++ entries ls). intros Hx. rewrite fmap_cons. cbn [fst snd].
  rewrite remove_none, IH; [done| |]; intros x Hin; apply Hx, elem_of_app; auto.
Qed.

(** Deleting is removing from the entries, leaf by leaf, and does not fail. *)
Lemma Delete_remove k P root ls : tree P root ls -> exists P' ls', Delete k root P = (P', true) /\ tree P' root ls' /\ entries ls' = remove k (entries ls)
  /\ ls' = (fun l => (l.1, remove k l.2)) <$> ls /\ (slims P -> slims P').
Proof.
  intros Htree. pose proof Htree as [HI _]. unfold Delete. case_bool_decide as Er.
  { destruct Htree as [_ [[_ ->]|(h & ids & Ht & _)]]; [|by apply root_not_invalid in Ht]. exists P, []. split_and!; try done. split; [done|]. by left. }
  destruct (tree_leaf k P root ls Htree Er) as (h & ids & l1 & items & l2 & HN & Hch & [-> (prev & next & Hp) H1 H2 H3 H4 H5]). rewrite Hp.
  pose proof (removed_remove k items H3) as Hrem. assert (entries (l1 ++ (findLeaf k root P, remove k items) :: l2) = remove k (entries (l1 ++ (findLeaf k root P, items) :: l2))) as He.
  { change (?x :: l2) with ([x] ++ l2). rewrite !entries_app, remove_around by done. unfold entries. cbn. by rewrite !app_nil_r. }
  assert (l1 ++ (findLeaf k root P, remove k items) :: l2 = (fun l => (l.1, remove k l.2)) <$> (l1 ++ (findLeaf k root P, items) :: l2)) as Hls.
  { rewrite fmap_app, fmap_cons. cbn [fst snd]. f_equal; [|f_equal]; symmetry; apply removed_nowhere; [by apply below_not|by apply above_not]. }
  destruct (BinarySearch k items) as [idx []].
  - rewrite Hrem. pose proof (fits_remove k items H4) as Hfit. unfold fits in Hfit. rewrite Hfit. eexists _, _. split_and!; [done| |exact He|exact Hls|].
    + split; [rewrite lookup_insert_ne; [done|congruence]|]. right. exists h, ids. split_and!; [apply H5; try done| |].
      * by apply ordered_filter.
      * intros x [_ Hx]%list_elem_of_filter. by left.
      * done.
      * rewrite !fmap_app in *. eapply chained_ext; [|exact Hch]. intros i _. unfold links. destruct (decide (i = findLeaf k root P)) as [->|]; [by rewrite lookup_insert_eq, Hp|by rewrite lookup_insert_ne].
    + intros HP. apply slims_insert; [done|]. split; [done|]. destruct (HP _ _ Hp) as [_ Hall]. apply Forall_forall. intros x [_ Hx]%list_elem_of_filter. rewrite Forall_forall in Hall. by apply Hall.
  - eexists _, _. split_and!; [done|exact Htree| | |done]; rewrite <- Hrem in He, Hls; done.
Qed.
(** ** Insertions that fail *)

(** What ends at the leaf is what the insertion ends with. *)
Lemma insert_path_ends k v path leaf P P' r : last path = Some leaf -> (forall cl ks cr, r <> Split cl ks cr) -> insert_leaf k v leaf P = (P', r) -> insert_path k v path P = (P', r).
Proof.
  intros Hl Hr Hf. induction path as [|i path IH]; [done|]. destruct path as [|j path]; [cbn in Hl; injection Hl as ->; done|].
  change (insert_path k v (i :: j :: path) P) with (match insert_path k v (j :: path) P with (P, Split cl ks cr) => insert_parent cl ks cr i P | r => r end).
  rewrite IH by done. destruct r as [| |cl ks cr]; [done|done|]. by destruct (Hr cl ks cr).
Qed.

(** An item that fits into its leaf changes nothing else. *)
Lemma Insert_single k v P root i items : tree P root [(i, items)] -> small k v -> fits (put k v items) ->
  exists p, Insert k v root P = (<[i := p]> P, root, true) /\ tree (<[i := p]> P) root [(i, put k v items)] /\ exists prev next, p = Leaf prev next (put k v items).
Proof.
  intros Htree Hsm Hfit. pose proof Htree as [HI [[_ ?]|(h & ids & Ht & HN & Hch)]]; [done|].
  destruct (descend_leaf k P h root None None ids _ (S (size P)) Ht HN I I (subtree_height _ _ _ _ _ _ _ Ht HN)) as (leaf & l1 & its & l2 & Hl & [E (prev & next & Hp) H1 H2 H3 H4 H5]).
  assert (l1 = [] /\ l2 = [] /\ leaf = i /\ its = items) as (-> & -> & -> & ->) by (destruct l1 as [|? [|]]; [by injection E as <- <- <-|done|done]).
  exists (Leaf prev next (put k v items)). split_and!; [| |by eauto].
  - unfold Insert. destruct Hsm as [Hk Hv]. rewrite (proj2 (Nat.ltb_ge _ _) Hk), (proj2 (Nat.ltb_ge _ _) Hv), bool_decide_eq_false_2 by by eapply root_not_invalid. cbn [orb]. unfold path_to.
    rewrite (insert_path_ends k v _ i P (<[i := Leaf prev next (put k v items)]> P) Done Hl); [done|done|]. unfold insert_leaf. rewrite Hp, written_put by done. unfold fits in Hfit. by rewrite Hfit.
  - split; [rewrite lookup_insert_ne; [done|congruence]|]. right. exists h, ids. split_and!; [|done|].
    + apply (H5 prev next); [by apply put_ordered|done|]. intros x [->|Hx]%put_elem; auto.
    + eapply chained_ext; [|exact Hch]. intros j _. unfold links. destruct (decide (j = i)) as [->|]; [by rewrite lookup_insert_eq, Hp|by rewrite lookup_insert_ne].
Qed.

(** What is left of a leaf whose halves do not both fit: a part of its left
    half. *)
Lemma insert_leaf_failed k v id prev next items P : let new := put k v items in let mid := Nat.div2 (length new) in
  P !! id = Some (Leaf prev next items) -> ordered fst items -> ~ fits new -> ~ (fits (take mid new) /\ fits (drop mid new)) ->
  exists kept right, kept `prefix_of` take mid new /\ fits kept
    /\ insert_leaf k v id P = (<[Allocate P := Leaf id next right]> (<[id := Leaf prev (Allocate P) kept]> (relink (Allocate P) next P)), Failed).
Proof.
  intros new mid Hp Ho Hn Hm. unfold insert_leaf. rewrite Hp, written_put by done. fold new. fold mid. pose proof (fill_ok leaf_cost page_room new) as Hfn.
  pose proof (fill_prefix leaf_cost page_room (take mid new)) as Hpre. pose proof (fill_again leaf_cost page_room (take mid new)) as Hag.
  pose proof (fill_ok leaf_cost page_room (take mid new)) as Hl. pose proof (fill_ok leaf_cost page_room (drop mid new)) as Hr. change (fill leaf_cost page_room) with fill_leaf in *. unfold fits in Hn, Hm.
  destruct (fill_leaf new) as [kept0 ok0]. cbn in Hfn. destruct ok0; [exfalso; apply Hn, Hfn; done|].
  destruct (fill_leaf (take mid new)) as [kept lok], (fill_leaf (drop mid new)) as [right rok]. cbn [fst snd] in *. exists kept.
  destruct lok; cbn [negb]; [|exists []; done]. destruct rok; [|exists right; done]. exfalso. apply Hm. split; [by apply Hl|by apply Hr].
Qed.

(** C17: An insertion that fails loses other entries: a leaf that overflows is
    split by the number of its items, and when one half still does not fit on its
    page the insertion returns an error with the root as it was, but every entry
    of the right half, which a search found before, is then found no more; this
    holds for every tree and every key and value of an accepted size. *)
Theorem failed_insert_loses k v P root ls : tree P root ls -> root <> InvalidPage -> small k v ->
  let new := put k v (leaf_items (findLeaf k root P) P) in let mid := Nat.div2 (length new) in
  ~ fits new -> ~ (fits (take mid new) /\ fits (drop mid new)) ->
  exists P', Insert k v root P = (P', root, false) /\ forall x, x ∈ drop mid new -> (x.1 <> k -> Search x.1 root P = Some x.2) /\ Search x.1 root P' = None.
Proof.
  intros Htree Hr Hsm. pose proof Htree as [HI [[? _]|(h & ids & Ht & HN & _)]]; [done|].
  destruct (descend_leaf k P h root None None ids ls (S (size P)) Ht HN I I (subtree_height _ _ _ _ _ _ _ Ht HN)) as (leaf & l1 & items & l2 & Hl & [-> (prev & next & Hp) H1 H2 H3 H4 H5]).
  assert (findLeaf k root P = leaf) as Efl by (unfold findLeaf, path_to; by rewrite Hl). assert (leaf_items (findLeaf k root P) P = items) as -> by (rewrite Efl; unfold leaf_items; by rewrite Hp).
  intros new mid Hn Hm. destruct (insert_leaf_failed k v leaf prev next items P Hp H3 Hn Hm) as (kept & right & Hpre & Hfit & Eleaf). fold new mid in Hpre.
  destruct (Allocate_fresh P) as [Hfr _]. set (rid := Allocate P) in *. set (P' := <[rid := _]> _) in Eleaf. exists P'. split.
  { unfold Insert. destruct Hsm as [Hk Hv]. rewrite (proj2 (Nat.ltb_ge _ _) Hk), (proj2 (Nat.ltb_ge _ _) Hv), bool_decide_eq_false_2 by done. cbn [orb].
    unfold path_to. by rewrite (insert_path_ends k v _ leaf P P' Failed Hl ltac:(done) Eleaf). }
  assert (ordered fst new) as Hon by by apply put_ordered. destruct Hpre as [rest Erest].
  assert (subtree P' h root None None ids (l1 ++ (leaf, kept) :: l2)) as Ht'.
  { eapply subtree_frame; [apply (H5 prev rid kept)|].
    - rewrite <- (take_drop mid new), Erest in Hon. by apply ordered_app in Hon as [(Hon & _)%ordered_app _].
    - done.
    - intros x Hx. assert (x ∈ new) as [->|?]%put_elem; [|by right|by left]. rewrite <- (take_drop mid new), Erest. set_solver.
    - intros i Hi. unfold same_skeleton, P'. assert (i <> rid) as Hir by (intros ->; apply (subtree_pages _ _ _ _ _ _ _ Ht) in Hi as [? ?]; congruence).
      rewrite (lookup_insert_ne _ rid) by done. destruct (decide (i = leaf)) as [->|Hne]; [by rewrite !lookup_insert_eq|]. rewrite !lookup_insert_ne by done. apply (relink_spec P rid next HI). }
  assert (entries (l1 ++ (leaf, items) :: l2) = entries l1 ++ items ++ entries l2) as Ee by (rewrite entries_app; done).
  intros x Hx. split.
  - intros Hk. rewrite (subtree_get x.1 P h root ids _ Ht HN Hr), Ee. assert (x ∈ new) as [->|Hxi]%put_elem; [rewrite <- (take_drop mid new); set_solver|done|].
    apply get_elem; [rewrite <- Ee; by eapply subtree_bounded|]. destruct x. set_solver.
  - rewrite (subtree_get x.1 P' h root ids _ Ht' HN Hr). rewrite entries_app. change (entries ((leaf, kept) :: l2)) with (kept ++ entries l2).
    assert (ordered fst (put k v (entries l1 ++ items ++ entries l2))) as Hall by (apply put_ordered; rewrite <- Ee; by eapply subtree_bounded).
    rewrite put_below, put_above in Hall by done. fold new in Hall. rewrite <- (take_drop mid new), Erest, <- !app_assoc in Hall.
    apply get_none. intros y Hy E. assert (klt y.1 x.1 \/ klt x.1 y.1) as [Hlt|Hlt]; [|rewrite E in Hlt; by eapply klt_irrefl|rewrite E in Hlt; by eapply klt_irrefl].
    apply ordered_app in Hall as (_ & Hall & A1). apply ordered_app in Hall as (_ & Hall & A2). apply ordered_app in Hall as (_ & Hall & _). apply ordered_app in Hall as (_ & _ & A3).
    apply elem_of_app in Hy as [Hy|[Hy|Hy]%elem_of_app]; [left; apply A1; set_solver|left; apply A2; set_solver|right; apply A3; set_solver].
Qed.
End Operations.
