(* ===== verification/BtreeCursor.v ===== *)
(** [internal/btree/cursor.go]: cursors over the leaves of a B+tree, and the
    scans made with them. *)

From S2P Require Import Prelude JsString JsNumber Go Btree BtreeSearch BtreeInvariant BtreeRoom BtreeInsert BtreeMap.

Open Scope Z_scope.

(** ** Cursors *)

Record cursor := Cursor { c_page : N; c_items : list item; c_idx : Z; c_valid : bool; c_err : bool }.

Definition NewCursor : cursor := Cursor InvalidPage [] (-1) false false.

(** [release], [Close] *)
Definition release (c : cursor) : cursor := NewCursor.

Definition Valid (c : cursor) : bool := c_valid c && negb (c_err c).

(** [Key] and [Value] *)
Definition current (c : cursor) : option item := if Valid c && (0 <=? c_idx c) then c_items c !! Z.to_nat (c_idx c) else None.

(** [findLeftmostLeaf] and [findRightmostLeaf] *)
Fixpoint leftmost (fuel : nat) (id : N) (P : pages) : option N :=
  match fuel with
  | O => None
  | S f =>
      match P !! id with
      | Some (Leaf _ _ _) => Some id
      | Some (Internal [] r) => leftmost f r P
      | Some (Internal ((child, _) :: _) _) => leftmost f child P
      | None => None
      end
  end.

Fixpoint rightmost (fuel : nat) (id : N) (P : pages) : option N :=
  match fuel with
  | O => None
  | S f =>
      match P !! id with
      | Some (Leaf _ _ _) => Some id
      | Some (Internal _ r) => rightmost f r P
      | None => None
      end
  end.

(** The moves of a cursor; what they return is whether the cursor is then
    valid. *)

Definition failed (c : cursor) : cursor := Cursor (c_page c) (c_items c) (c_idx c) false true.

(** The cursor goes to a leaf, to its first or its last item. *)
Definition enter (c : cursor) (id : N) (last : bool) (P : pages) : cursor :=
  match P !! id with
  | None => failed c
  | Some _ =>
      let items := leaf_items id P in
      if bool_decide (items = []) then Cursor id items (c_idx c) false (c_err c)
      else Cursor id items (if last then Z.of_nat (length items) - 1 else 0) true (c_err c)
  end.

Definition First (root : N) (P : pages) : cursor :=
  if bool_decide (root = InvalidPage) then NewCursor
  else match leftmost (S (size P)) root P with None => failed NewCursor | Some id => enter NewCursor id false P end.

Definition Last (root : N) (P : pages) : cursor :=
  if bool_decide (root = InvalidPage) then NewCursor
  else match rightmost (S (size P)) root P with None => failed NewCursor | Some id => enter NewCursor id true P end.

Definition Seek (key : bytes) (root : N) (P : pages) : cursor :=
  if bool_decide (root = InvalidPage) then NewCursor
  else
    let id := findLeaf key root P in
    match P !! id with
    | None => failed NewCursor
    | Some _ =>
        let items := leaf_items id P in
        let idx := (BinarySearch key items).1 in
        if (idx <? length items)%nat then Cursor id items (Z.of_nat idx) true false
        else if bool_decide (next_leaf id P = InvalidPage) then Cursor id items (-1) false false
        else enter (Cursor id items (-1) false false) (next_leaf id P) false P
    end.

Definition Next (c : cursor) (P : pages) : cursor :=
  if negb (c_valid c) then c
  else
    let c := Cursor (c_page c) (c_items c) (c_idx c + 1) true (c_err c) in
    if c_idx c <? Z.of_nat (length (c_items c)) then c
    else if bool_decide (next_leaf (c_page c) P = InvalidPage) then Cursor (c_page c) (c_items c) (c_idx c) false (c_err c)
    else enter c (next_leaf (c_page c) P) false P.

Definition Prev (c : cursor) (P : pages) : cursor :=
  if negb (c_valid c) then c
  else
    let c := Cursor (c_page c) (c_items c) (c_idx c - 1) true (c_err c) in
    if 0 <=? c_idx c then c
    else if bool_decide (prev_leaf (c_page c) P = InvalidPage) then Cursor (c_page c) (c_items c) (c_idx c) false (c_err c)
    else enter c (prev_leaf (c_page c) P) true P.

(** ** Scans *)

(** The loop of [PrefixScan] and [RangeScan]: the entries the callback [fn] is
    called with, until [within] or [fn] fails for one. *)
Fixpoint scan (fuel : nat) (within : bytes -> bool) (fn : item -> bool) (c : cursor) (P : pages) : list item :=
  match fuel with
  | O => []
  | S f =>
      match current c with
      | None => []
      | Some it =>
          if negb (within it.1) then []
          else it :: (if fn it then let c := Next c P in if c_valid c then scan f within fn c P else [] else [])
      end
  end.

Definition before (limit : option bytes) (k : bytes) : bool := match limit with Some e => bool_decide (klt k e) | None => true end.

Definition RangeScan (fuel : nat) (start limit : option bytes) (fn : item -> bool) (root : N) (P : pages) : list item :=
  scan fuel (before limit) fn (match start with Some k => Seek k root P | None => First root P end) P.

Definition PrefixScan (fuel : nat) (prefix : bytes) (fn : item -> bool) (root : N) (P : pages) : list item :=
  scan fuel (fun k => bool_decide (prefix `prefix_of` k)) fn (Seek prefix root P) P.

(** ** What a scan visits *)

(** The leaves up to the first that is empty. *)
Fixpoint leading (ls : leaves) : list item :=
  match ls with
  | [] => []
  | (_, []) :: _ => []
  | (_, items) :: ls => items ++ leading ls
  end.

Fixpoint visited (within : bytes -> bool) (fn : item -> bool) (l : list item) : list item :=
  match l with
  | [] => []
  | it :: l => if within it.1 then it :: (if fn it then visited within fn l else []) else []
  end.

(** The leaves behind a page in the chain. *)
Definition behind (P : pages) (id : N) (ls : leaves) : Prop :=
  next_leaf id P = hd InvalidPage (fst <$> ls) /\ chained P id (fst <$> ls) /\ forall i items, (i, items) ∈ ls -> exists p n, P !! i = Some (Leaf p n items).

Lemma behind_next P id i items ls : behind P id ((i, items) :: ls) -> next_leaf id P = i /\ leaf_items i P = items /\ is_Some (P !! i) /\ behind P i ls.
Proof.
  intros (H1 & H2 & H3). cbn in *. destruct H2 as [Hl Hc]. destruct (H3 i items ltac:(by left)) as (p & n & Hp). unfold leaf_items. rewrite Hp. split_and!; try done.
  split_and!; [|done|intros j its Hj; apply H3; by right]. unfold links, next_leaf in *. rewrite Hp in *. by injection Hl.
Qed.

(** A cursor with the entries that are still to come. *)
Definition remaining (P : pages) (c : cursor) (l : list item) : Prop :=
  match l with
  | [] => c_valid c = false
  | _ => exists id items i ls, c = Cursor id items (Z.of_nat i) true false /\ (i < length items)%nat /\ P !! InvalidPage = None /\ behind P id ls /\ l = drop i items ++ leading ls
  end.

Lemma enter_remaining P id c c' ls : P !! InvalidPage = None -> behind P id ls -> c_err c = false -> c_valid c' = false ->
  remaining P (if bool_decide (next_leaf id P = InvalidPage) then c' else enter c (next_leaf id P) false P) (leading ls).
Proof.
  intros HI Hb Hc Hc'. destruct ls as [|[i items] ls].
  { destruct Hb as (H1 & _). cbn in H1. by rewrite bool_decide_eq_true_2. }
  destruct (behind_next P id i items ls Hb) as (E1 & E2 & E3 & E4). rewrite bool_decide_eq_false_2 by (intros E; destruct E3; congruence). rewrite E1. unfold enter.
  destruct E3 as [p Ep]. rewrite Ep, E2, Hc. destruct items as [|x items]; [done|]. cbn [leading app]. exists i, (x :: items), 0%nat, ls. split_and!; try done. cbn. lia.
Qed.

Lemma Next_remaining P c x l : remaining P c (x :: l) -> current c = Some x /\ remaining P (Next c P) l.
Proof.
  intros (id & items & i & ls & -> & Hi & HI & Hb & E). destruct (lookup_lt_is_Some_2 items i Hi) as [y Hy]. rewrite (drop_S _ _ _ Hy) in E. injection E as -> ->. split.
  { unfold current. cbn. rewrite (proj2 (Z.leb_le _ _)) by lia. by rewrite Nat2Z.id. }
  unfold Next. cbn [c_valid negb c_idx c_items c_page c_err]. destruct (Z.ltb_spec (Z.of_nat i + 1) (Z.of_nat (length items))) as [Hlt|Hge].
  - destruct (lookup_lt_is_Some_2 items (S i)) as [z Hz]; [lia|]. rewrite (drop_S _ _ _ Hz). cbn [app]. exists id, items, (S i), ls. rewrite (drop_S _ _ _ Hz).
    replace (Z.of_nat i + 1) with (Z.of_nat (S i)) by lia. split_and!; try done. lia.
  - rewrite drop_ge by lia. cbn [app]. by apply enter_remaining.
Qed.

Lemma scan_visited within fn P c l fuel : remaining P c l -> (length l < fuel)%nat -> scan fuel within fn c P = visited within fn l.
Proof.
  revert c fuel. induction l as [|x l IH]; intros c fuel Hr Hf; (destruct fuel as [|fuel]; [cbn in Hf; lia|]); cbn [scan visited].
  - cbn in Hr. unfold current, Valid. by rewrite Hr.
  - destruct (Next_remaining P c x l Hr) as [-> Hn]. destruct (within x.1); cbn [negb]; [|done]. f_equal. destruct (fn x); [|done]. cbn in Hf.
    destruct (c_valid (Next c P)) eqn:Ev; [apply IH; [done|lia]|]. destruct l as [|y l]; [done|]. cbn in Hn. destruct Hn as (? & ? & ? & ? & E & _). by rewrite E in Ev.
Qed.

(** ** Where a scan starts *)

Lemma leftmost_leaf P h id lo hi ids ls fuel : subtree P h id lo hi ids ls -> (h < fuel)%nat -> exists i items ls', ls = (i, items) :: ls' /\ leftmost fuel id P = Some i.
Proof.
  revert id lo hi ids ls fuel. induction h as [|h IH]; intros id lo hi ids ls fuel Ht Hf; (destruct fuel as [|fuel]; [lia|]); cbn [leftmost].
  - destruct Ht as (prev & next & items & Hp & _ & _ & -> & ->). rewrite Hp. eauto.
  - destruct Ht as (items & right & ids' & Hp & -> & Hk). rewrite Hp. destruct items as [|[c k] items]; cbn [kids] in Hk.
    + eapply IH; [exact Hk|lia].
    + destruct Hk as (ids1 & ids2 & ls1 & ls2 & -> & -> & Hc & _). destruct (IH c _ _ _ _ fuel Hc ltac:(lia)) as (i & its & ls' & -> & E). cbn. eauto.
Qed.

Lemma chained_behind P p L1 i L2 : chained P p (L1 ++ i :: L2) -> exists q, links P i = Some (q, hd InvalidPage L2) /\ chained P i L2.
Proof. revert p. induction L1 as [|x L1 IH]; intros p; cbn; [intros [H1 H2]; eauto|]. intros [_ Hc]. by eapply IH. Qed.

Lemma tree_behind P root l1 leaf items l2 : tree P root (l1 ++ (leaf, items) :: l2) -> behind P leaf l2 /\ exists p n, P !! leaf = Some (Leaf p n items).
Proof.
  intros (_ & [[_ E]|(h & ids & Ht & HN & Hch)]); [by destruct l1|].
  assert (forall i its, (i, its) ∈ l1 ++ (leaf, items) :: l2 -> exists p n, P !! i = Some (Leaf p n its)) as Hleaf.
  { intros i its Hi. pose proof (proj2 (subtree_pages _ _ _ _ _ _ _ Ht) i its Hi) as [_ <-]. apply list_elem_of_split in Hi as (m1 & m2 & E). rewrite E, fmap_app in Hch.
    apply chained_behind in Hch as (q & Hl & _). unfold links, leaf_items in *. cbn in Hl. destruct (P !! i) as [[p n its'|]|]; [eauto|done..]. }
  split; [|apply Hleaf; set_solver]. rewrite fmap_app in Hch. apply chained_behind in Hch as (q & Hl & Hc). split_and!; [|done|intros; apply Hleaf; set_solver].
  unfold links, next_leaf in *. cbn in Hl. destruct (P !! leaf) as [[p n its'|]|]; by inv Hl.
Qed.

Lemma First_remaining P root ls : tree P root ls -> remaining P (First root P) (leading ls).
Proof.
  intros Htree. unfold First. pose proof Htree as [HI [[-> ->]|(h & ids & Ht & HN & Hch)]]; [by rewrite bool_decide_eq_true_2|].
  rewrite bool_decide_eq_false_2 by by eapply root_not_invalid. destruct (leftmost_leaf P h root None None ids ls _ Ht (subtree_height _ _ _ _ _ _ _ Ht HN)) as (i & items & ls' & -> & ->).
  destruct (tree_behind P root [] i items ls' Htree) as [Hb (p & n & Hp)]. unfold enter, leaf_items. rewrite Hp. destruct items as [|x items]; [done|].
  cbn [leading app]. exists i, (x :: items), 0%nat, ls'. split_and!; try done. cbn. lia.
Qed.

Definition since (start : option bytes) (it : item) : Prop := match start with Some k => ~ klt it.1 k | None => True end.

#[global] Instance since_decision start it : Decision (since start it).
Proof. destruct start; cbn; apply _. Defined.

Lemma since_below k a l : below fst k a -> filter (since (Some k)) (a ++ l) = filter (since (Some k)) l.
Proof. intros Ha. rewrite filter_app, (filter_drops _ a); [done|]. intros x Hx Hn. unfold below in Ha. rewrite Forall_forall in Ha. by apply Hn, Ha. Qed.

Lemma since_above k l : above fst k l -> filter (since (Some k)) l = l.
Proof. intros Ha. apply filter_keeps. intros x Hx. cbn. unfold above in Ha. rewrite Forall_forall in Ha. specialize (Ha x Hx). cbn in Ha. intros Hn. korder. Qed.

Lemma drop_since k items : ordered fst items -> drop (BinarySearch k items).1 items = filter (since (Some k)) items.
Proof.
  intros Ho. pose proof (BinarySearch_located k items Ho) as Hl. destruct (BinarySearch k items) as [idx []]; cbn in *.
  - destruct Hl as [v Hv]. destruct (split_at items idx k v Ho Hv) as (E & H1 & H2). rewrite (drop_S _ _ _ Hv). rewrite E at 2. rewrite since_below by done.
    rewrite filter_cons_True by (cbn; apply klt_irrefl). by rewrite since_above.
  - destruct Hl as (_ & H1 & H2). rewrite <- (take_drop idx items) at 2. by rewrite since_below, since_above.
Qed.

Lemma leading_full ls : full ls -> leading ls = entries ls.
Proof. induction 1 as [|[i items] ls Hx _ IH]; [done|]. cbn. destruct items; [done|]. by rewrite IH. Qed.

Lemma leading_above k ls : above fst k (entries ls) -> above fst k (leading ls).
Proof.
  induction ls as [|[i items] ls IH]; [done|]. change ((i, items) :: ls) with ([(i, items)] ++ ls). rewrite entries_app. unfold entries at 1. cbn. rewrite app_nil_r.
  intros [H1 H2]%Forall_app. destruct items; [constructor|]. apply (Forall_app _ (_ :: _)). split; [done|by apply IH].
Qed.

(** A seek finds the entries from its key on, up to an empty leaf. *)
Lemma Seek_remaining k P root ls : tree P root ls -> root <> InvalidPage ->
  exists l1 leaf items l2, ls = l1 ++ (leaf, items) :: l2 /\ below fst k (entries l1) /\ above fst k (entries l2)
    /\ remaining P (Seek k root P) (filter (since (Some k)) items ++ leading l2).
Proof.
  intros Htree Hr. destruct (tree_leaf k P root ls Htree Hr) as (h & ids & l1 & items & l2 & _ & _ & [-> _ H1 H2 H3 _ _]). exists l1, (findLeaf k root P), items, l2. split_and!; try done.
  destruct (tree_behind P root l1 (findLeaf k root P) items l2 Htree) as [Hb (p & n & Hp)]. unfold Seek. rewrite bool_decide_eq_false_2 by done. unfold leaf_items. rewrite Hp.
  rewrite <- drop_since by done. pose proof Htree as [HI _]. destruct (Nat.ltb_spec (BinarySearch k items).1 (length items)) as [Hlt|Hge].
  - destruct (lookup_lt_is_Some_2 items _ Hlt) as [y Hy]. rewrite (drop_S _ _ _ Hy). cbn [app]. exists (findLeaf k root P), items, (BinarySearch k items).1, l2. by rewrite (drop_S _ _ _ Hy).
  - rewrite drop_ge by lia. cbn [app]. by apply enter_remaining.
Qed.

(** ** Ranges *)

(** A callback is called until it says no. *)
Fixpoint until (fn : item -> bool) (l : list item) : list item := match l with [] => [] | it :: l => it :: (if fn it then until fn l else []) end.

Lemma visited_filter within fn l : ordered fst l -> (forall x y : item, x ∈ l -> klt x.1 y.1 -> within y.1 = true -> within x.1 = true) ->
  visited within fn l = until fn (filter (fun it => within it.1 = true) l).
Proof.
  induction l as [|x l IH]; [done|]. intros [Ha Ho]%ordered_cons Hw. cbn [visited]. rewrite filter_cons. destruct (within x.1) eqn:E.
  - rewrite decide_True by done. cbn [until]. f_equal. destruct (fn x); [|done]. apply IH; [done|]. intros y z Hy. apply Hw. by right.
  - rewrite decide_False by done. rewrite filter_drops; [done|]. intros y Hy Hn. unfold above in Ha. rewrite Forall_forall in Ha. specialize (Hw x y ltac:(by left) (Ha y Hy) Hn). congruence.
Qed.

(** Without empty leaves, all entries from the start on remain. *)
Lemma start_full P root ls start : tree P root ls -> full ls ->
  remaining P (match start with Some k => Seek k root P | None => First root P end) (filter (since start) (entries ls)).
Proof.
  intros Htree Hfull. destruct start as [k|]; [|rewrite filter_keeps by done; rewrite <- leading_full by done; by apply First_remaining].
  destruct (decide (root = InvalidPage)) as [->|Hr].
  { destruct Htree as [HI [[_ ->]|(h & ids & Ht & _)]]; [done|by apply root_not_invalid in Ht]. }
  destruct (Seek_remaining k P root ls Htree Hr) as (l1 & leaf & items & l2 & -> & H1 & H2 & Hrem). apply Forall_app in Hfull as [_ [_ Hfull]%Forall_cons].
  rewrite entries_app, since_below by done. change ((leaf, items) :: l2) with ([(leaf, items)] ++ l2). rewrite entries_app, filter_app, (since_above _ (entries l2)) by done.
  rewrite leading_full in Hrem by done. unfold entries at 1. cbn. by rewrite app_nil_r.
Qed.

Lemma prefix_since (prefix k : bytes) : prefix `prefix_of` k -> ~ klt k prefix.
Proof. intros [s ->]. unfold klt. induction prefix as [|c p IH]; [by destruct s|]. cbn. by rewrite N.compare_refl. Qed.

Lemma prefix_between (prefix a b : bytes) : ~ klt a prefix -> klt a b -> prefix `prefix_of` b -> prefix `prefix_of` a.
Proof.
  unfold klt. revert a b. induction prefix as [|x p IH]; intros a b H1 H2 H3; [apply prefix_nil|]. destruct a as [|y a]; [done|]. destruct b as [|z b]; [by apply prefix_nil_not in H3|].
  pose proof (prefix_cons_inv_1 _ _ _ _ H3) as <-. apply prefix_cons_inv_2 in H3. cbn in H1, H2. destruct (N.compare_spec y x) as [->|?|?]; [|done|done]. apply prefix_cons. by eapply IH.
Qed.

(** Both scans call back with the entries of their range, in order. *)
Lemma RangeScan_full P root ls start limit fn fuel : tree P root ls -> full ls -> ordered fst (entries ls) -> (length (entries ls) < fuel)%nat ->
  RangeScan fuel start limit fn root P = until fn (filter (fun it => before limit it.1 = true) (filter (since start) (entries ls))).
Proof.
  intros Htree Hfull Ho Hf. unfold RangeScan. pose proof (length_filter (since start) (entries ls)). erewrite scan_visited; [|by apply start_full|lia].
  apply visited_filter; [by apply ordered_filter|]. intros x y _ Hxy. unfold before. destruct limit as [e|]; [|done]. rewrite !bool_decide_eq_true. by apply klt_trans.
Qed.

Lemma PrefixScan_full P root ls prefix fn fuel : tree P root ls -> full ls -> ordered fst (entries ls) -> (length (entries ls) < fuel)%nat ->
  PrefixScan fuel prefix fn root P = until fn (filter (fun it => prefix `prefix_of` it.1) (entries ls)).
Proof.
  intros Htree Hfull Ho Hf. unfold PrefixScan. pose proof (length_filter (since (Some prefix)) (entries ls)).
  rewrite (scan_visited _ _ _ _ _ _ (start_full P root ls (Some prefix) Htree Hfull)) by lia. rewrite visited_filter; [|by apply ordered_filter|].
  - f_equal. rewrite list_filter_filter. apply list_filter_iff. intros x. rewrite bool_decide_eq_true. split; [naive_solver|]. intros Hx. split; [done|]. by apply prefix_since.
  - intros x y [Hx _]%list_elem_of_filter Hxy. rewrite !bool_decide_eq_true. by apply prefix_between.
Qed.

(** ** There and back *)

Lemma Prev_Next P root l1 id items l2 i : tree P root (l1 ++ (id, items) :: l2) -> (i < length items)%nat ->
  let c := Cursor id items (Z.of_nat i) true false in c_valid (Next c P) = true -> Prev (Next c P) P = c.
Proof.
  intros Htree Hi. destruct (tree_behind P root l1 id items l2 Htree) as [Hb (p & n & Hp)]. pose proof Htree as [HI _]. unfold Next. cbn.
  destruct (Z.ltb_spec (Z.of_nat i + 1) (Z.of_nat (length items))) as [Hlt|Hge].
  { intros _. unfold Prev. cbn. rewrite (proj2 (Z.leb_le _ _)) by lia. f_equal. lia. }
  destruct l2 as [|[j its] l2]; [destruct Hb as (E & _); cbn in E; by rewrite bool_decide_eq_true_2|].
  pose proof (behind_next P id j its l2 Hb) as (E1 & E2 & [q Eq] & _). rewrite bool_decide_eq_false_2 by congruence. rewrite E1. unfold enter. rewrite Eq, E2. cbn.
  case_bool_decide; [done|]. intros _. unfold Prev. cbn. destruct Hb as (_ & [Hl _] & _). unfold prev_leaf, links in *. cbn in Hl. destruct (P !! j) as [[p' n' ?|]|]; [|done..]. injection Hl as -> _.
  rewrite bool_decide_eq_false_2 by congruence. unfold enter, leaf_items. rewrite Hp. rewrite bool_decide_eq_false_2 by (intros ->; cbn in Hi; lia). cbn. f_equal. lia.
Qed.

(** ** Fuel *)

Definition page_items (p : page) : list item := match p with Leaf _ _ items => items | Internal _ _ => [] end.

(** No scan visits more entries than there are on all pages. *)
Definition scan_fuel (P : pages) : nat := S (sum_list_with (fun ip => length (page_items ip.2)) (map_to_list P)).

Lemma entries_length ls : length (entries ls) = sum_list_with (fun l : N * list item => length l.2) ls.
Proof. induction ls as [|l ls IH]; [done|]. change (entries (l :: ls)) with (l.2 ++ entries ls). by rewrite length_app, IH. Qed.

Lemma scan_fuel_enough P root ls : tree P root ls -> (length (entries ls) < scan_fuel P)%nat.
Proof.
  intros Htree. pose proof Htree as [HI Ht]. rewrite entries_length. unfold scan_fuel.
  assert (exists k, (fun ip => (ip.1, page_items ip.2)) <$> map_to_list P ≡ₚ ls ++ k) as [k Hk].
  { apply submseteq_Permutation, NoDup_submseteq.
    - destruct Ht as [[_ ->]|(h & ids & Ht & HN & _)]; [apply NoDup_nil_2|]. eapply NoDup_fmap_1, (tree_chain P h root ids ls Ht HN HI).
    - intros [i items] Hin. apply list_elem_of_split in Hin as (l1 & l2 & ->). destruct (tree_behind P root l1 i items l2 Htree) as [_ (p & n & Hp)].
      apply list_elem_of_fmap. exists (i, Leaf p n items). split; [done|]. by apply elem_of_map_to_list. }
  assert (sum_list_with (fun ip => length (page_items ip.2)) (map_to_list P) = sum_list_with (fun l : N * list item => length l.2) ((fun ip => (ip.1, page_items ip.2)) <$> map_to_list P)) as ->.
  { clear Hk. induction (map_to_list P) as [|x l IH]; [done|]. cbn. by rewrite IH. }
  rewrite Hk, sum_list_with_app. lia.
Qed.

(** Everything up to the first empty leaf. *)
Lemma whole_scan P root ls : tree P root ls -> RangeScan (scan_fuel P) None None (fun _ => true) root P = leading ls.
Proof.
  intros Ht. unfold RangeScan. rewrite (scan_visited _ _ _ _ _ _ (First_remaining P root ls Ht)).
  - induction (leading ls) as [|x l IH]; [done|]. cbn. by rewrite IH.
  - pose proof (scan_fuel_enough P root ls Ht) as Hf. assert (length (leading ls) <= length (entries ls))%nat; [|lia]. clear. induction ls as [|[i its] ls IH]; [done|].
    change (entries ((i, its) :: ls)) with (its ++ entries ls). cbn [leading]. destruct its; [cbn; lia|]. rewrite !length_app. lia.
Qed.
