(* ===== verification/BtreeSpec.v ===== *)
(** What a B+tree is for its clients: a map from keys to values that can be
    searched and scanned in order; and where it is not. *)

From S2P Require Import Prelude JsString JsNumber Go Btree BtreeSearch BtreeInvariant BtreeRoom BtreeInsert BtreeMap BtreeCursor.

Open Scope Z_scope.

(** ** Operations *)

Inductive op := OInsert (key value : bytes) | ODelete (key : bytes).

(** The pages and the root of a tree after an operation, and whether it
    returned no error. *)
Definition exec `{Allocator} (o : op) (s : pages * N) : pages * N * bool :=
  match o with
  | OInsert k v => Insert k v s.2 s.1
  | ODelete k => let '(P, ok) := Delete k s.2 s.1 in (P, s.2, ok)
  end.

(** A sequence of operations up to the first that fails. *)
Fixpoint execs `{Allocator} (ops : list op) (s : pages * N) : pages * N * bool :=
  match ops with
  | [] => (s, true)
  | o :: ops => let '(s, ok) := exec o s in if ok then execs ops s else (s, false)
  end.

Definition empty_tree : pages * N := (∅, InvalidPage).

(** What the operations do to a map. *)
Definition apply_op (m : gmap bytes bytes) (o : op) : gmap bytes bytes := match o with OInsert k v => <[k := v]> m | ODelete k => delete k m end.

Definition contents (ops : list op) : gmap bytes bytes := foldl apply_op ∅ ops.

(** Key and value of an insertion take at most 247 bytes together. *)
Definition slim_op (o : op) : Prop := match o with OInsert k v => slim_item (k, v) | ODelete _ => True end.

Definition insertion (o : op) : Prop := match o with OInsert _ _ => True | ODelete _ => False end.

(** ** The entries as a map *)

Lemma get_put k k' v l : get k (put k' v l) = if decide (k = k') then Some v else get k l.
Proof.
  unfold get. induction l as [|[k0 v0] l IH]; cbn [put].
  - cbn. case_decide; case_bool_decide; naive_solver.
  - destruct (Compare_spec k' k0) as [->|Hk|Hk]; cbn.
    + case_bool_decide; case_decide; naive_solver.
    + case_bool_decide; case_decide; naive_solver.
    + case_bool_decide as E; [|done]. rewrite decide_False; [done|]. intros ->. korder.
Qed.

Lemma get_remove k k' l : get k (remove k' l) = if decide (k = k') then None else get k l.
Proof.
  case_decide as E.
  - subst k'. apply get_none. intros x Hx. unfold remove in Hx. by apply list_elem_of_filter in Hx as [Hx _].
  - unfold get, remove in *. induction l as [|x l IH]; [done|]. rewrite filter_cons. cbn. case_decide as Ex; cbn; case_bool_decide as Ek; cbn; [done|exact IH| |exact IH].
    exfalso. congruence.
Qed.

Lemma ordered_NoDup (l : list item) : ordered fst l -> NoDup l.
Proof. intros Ho. eapply NoDup_fmap_1. by apply ordered_keys. Qed.

Section Spec.
Context `{Allocator}.

(** The pages hold a map. *)
Definition holds (s : pages * N) (m : gmap bytes bytes) (ls : leaves) : Prop := tree s.1 s.2 ls /\ slims s.1 /\ forall k, get k (entries ls) = m !! k.

Lemma exec_holds o s m ls : holds s m ls -> slim_op o -> exists s' ls', exec o s = (s', true) /\ holds s' (apply_op m o) ls' /\ (insertion o -> full ls -> full ls').
Proof.
  intros (Ht & Hsl & Hm) Ho. destruct s as [P root], o as [k v|k]; cbn in *.
  - destruct (Insert_slim k v P root ls Ht Hsl Ho) as (P' & root' & E & Hsl'). destruct (Insert_put k v P root ls P' root' Ht E) as (ls' & Ht' & Hent & Hfull).
    exists (P', root'), ls'. split_and!; [done| |auto]. split_and!; [done|done|]. intros k'. rewrite Hent, get_put. case_decide; [subst; by rewrite lookup_insert_eq|by rewrite lookup_insert_ne].
  - destruct (Delete_remove k P root ls Ht) as (P' & ls' & E & Ht' & Hent & _ & Hsl'). rewrite E. exists (P', root), ls'. split_and!; [done| |done].
    split_and!; [done|by apply Hsl'|]. intros k'. cbn. rewrite Hent, get_remove. case_decide; [subst; by rewrite lookup_delete_eq|by rewrite lookup_delete_ne].
Qed.

Lemma execs_holds ops : Forall slim_op ops -> forall s m ls, holds s m ls ->
  exists s' ls', execs ops s = (s', true) /\ holds s' (foldl apply_op m ops) ls' /\ (Forall insertion ops -> full ls -> full ls').
Proof.
  induction 1 as [|o ops Ho _ IH]; intros s m ls Hs; cbn; [by eauto 10|]. destruct (exec_holds o s m ls Hs Ho) as (s1 & ls1 & -> & H1 & F1).
  destruct (IH s1 _ ls1 H1) as (s2 & ls2 & E2 & H2 & F2). exists s2, ls2. split_and!; [done..|]. intros [Hi Hi']%Forall_cons Hf. auto.
Qed.

(** Whatever the sizes, operations that succeed leave a tree. *)
Lemma execs_tree ops : forall s s' ls, tree s.1 s.2 ls -> execs ops s = (s', true) -> exists ls', tree s'.1 s'.2 ls'.
Proof.
  induction ops as [|o ops IH]; intros [P root] s' ls Ht; cbn [execs]; [intros [= <-]; by exists ls|].
  destruct (exec o (P, root)) as [[P1 root1] ok] eqn:E. destruct ok; [|done]. intros Hs. assert (exists ls1, tree P1 root1 ls1) as [ls1 Ht1]; [|by eapply (IH (P1, root1))].
  destruct o as [k v|k]; cbn in E; [destruct (Insert_put k v P root ls P1 root1 Ht E) as (ls1 & H1 & _); by exists ls1|].
  destruct (Delete_remove k P root ls Ht) as (P2 & ls1 & E2 & H2 & _). rewrite E2 in E. injection E as <- <-. by exists ls1.
Qed.

Lemma empty_holds : holds empty_tree ∅ [].
Proof. split_and!; [split; [done|by left]|apply map_Forall_empty|done]. Qed.

Lemma tree_ordered P root ls : tree P root ls -> ordered fst (entries ls).
Proof. intros (_ & [[_ ->]|(h & ids & Ht & _)]); [constructor|]. by apply subtree_bounded in Ht as [Ho _]. Qed.

(** C14: The B+tree is a map: whatever sequence of insertions and deletions is
    made on an empty tree, with at most 247 bytes of key and value in each
    insertion, none of them fails, though leaves and nodes are split on the
    way; and searching a key then finds what a map with the same insertions and
    deletions holds for it. *)
Theorem btree_is_map ops : Forall slim_op ops ->
  exists P root, execs ops empty_tree = ((P, root), true) /\ forall k, Search k root P = contents ops !! k.
Proof.
  intros Hs. destruct (execs_holds ops Hs _ _ _ empty_holds) as ([P root] & ls & E & (Ht & _ & Hm) & _). exists P, root. split; [done|]. intros k. by rewrite (Search_get k P root ls Ht).
Qed.

(** C15: Scans of a tree that entries were only inserted into are exact: a range
    scan calls back with the entries from its start up to its limit, a prefix
    scan with the entries whose keys have the prefix, both in the order of the
    keys and until the callback says no; the leaves are reached through their
    chain. *)
Theorem btree_scans ops : Forall slim_op ops -> Forall insertion ops ->
  exists P root l, execs ops empty_tree = ((P, root), true) /\ ordered fst l /\ (forall k v, (k, v) ∈ l <-> contents ops !! k = Some v)
    /\ (forall start limit fn fuel, (length l < fuel)%nat ->
          RangeScan fuel start limit fn root P = until fn (filter (fun it => before limit it.1 = true) (filter (since start) l)))
    /\ forall prefix fn fuel, (length l < fuel)%nat -> PrefixScan fuel prefix fn root P = until fn (filter (fun it => prefix `prefix_of` it.1) l).
Proof.
  intros Hs Hi. destruct (execs_holds ops Hs _ _ _ empty_holds) as ([P root] & ls & E & (Ht & _ & Hm) & Hf). pose proof (tree_ordered P root ls Ht) as Ho. specialize (Hf Hi (Forall_nil_2 _)).
  exists P, root, (entries ls). split_and!; [done|done|intros k v; by rewrite get_elem, Hm|..]; intros; [by apply RangeScan_full|by apply PrefixScan_full].
Qed.
End Spec.

(** ** An allocator *)

(** The page behind the last one. *)
Definition next_page (P : pages) : N :=
  let n := N.succ (foldr N.max 0%N (fst <$> map_to_list P)) in if bool_decide (n = InvalidPage) then N.succ n else n.

Lemma max_least (l : list N) i : i ∈ l -> (i <= foldr N.max 0 l)%N.
Proof. induction l as [|x l IH]; [by intros ?%elem_of_nil|]. intros [->|Hi]%elem_of_cons; cbn; [lia|]. specialize (IH Hi). lia. Qed.

#[export, program] Instance extension : Allocator := {| Allocate := next_page |}.
Next Obligation.
  intros P. unfold next_page. set (n := foldr _ _ _). assert (forall m, (n < m)%N -> P !! m = None) as Hn.
  { intros m Hm. destruct (P !! m) as [p|] eqn:E; [|done]. apply elem_of_map_to_list in E. apply (list_elem_of_fmap_2 fst) in E. apply max_least in E. cbn in E. subst n. lia. }
  case_bool_decide as Ei; split; [apply Hn; lia|lia|apply Hn; lia|done].
Qed.

(** ** Where it is not a map *)

Definition zeros (n : nat) : bytes := replicate n 0%N.
Definition wide (k : N) : op := OInsert (k :: zeros 2047) (zeros 4096).
Definition long (k : N) : op := OInsert [k] (zeros 4096).

Definition emptied_leaf : pages * N * bool := execs [long 1; long 2; long 3; long 4; ODelete [1%N]; ODelete [2%N]] empty_tree.

(** A leaf emptied by deletions hides what is behind it: cursors stop at it,
    so that a scan of the whole tree finds nothing while a search, or a scan
    that starts behind it, still finds the other entries. *)
Theorem emptied_leaf_hides :
  let '((P, root), ok) := emptied_leaf in
  ok = true /\ Search [3%N] root P = Some (zeros 4096) /\ c_valid (First root P) = false /\ RangeScan 10 None None (fun _ => true) root P = []
  /\ RangeScan 10 (Some [3%N]) None (fun _ => true) root P = [([3%N], zeros 4096); ([4%N], zeros 4096)].
Proof. vm_compute. split_and!; reflexivity. Qed.

Module Examples.

(** Enough entries to split a leaf. *)
Definition entries_200 : list op := (fun k => OInsert [N.of_nat k] (zeros 200)) <$> seq 0 80.

Lemma entries_200_slim : Forall slim_op entries_200.
Proof. apply Forall_fmap, Forall_true. intros k. unfold compose, slim_op, slim_item, leaf_cost. cbn [fst snd length]. unfold zeros. rewrite length_replicate. lia. Qed.

Lemma btree_is_map_witness :
  exists P root, execs (entries_200 ++ [ODelete [7%N]]) empty_tree = ((P, root), true) /\ Search [7%N] root P = None /\ Search [8%N] root P = Some (zeros 200).
Proof.
  destruct (btree_is_map (H := extension) (entries_200 ++ [ODelete [7%N]])) as (P & root & E & Hs).
  - apply Forall_app. split; [apply entries_200_slim|]. repeat constructor.
  - exists P, root. split; [exact E|]. rewrite !Hs. split; vm_compute; reflexivity.
Defined.

Lemma btree_scans_witness :
  exists P root l, execs entries_200 empty_tree = ((P, root), true) /\ (forall k v, (k, v) ∈ l <-> contents entries_200 !! k = Some v)
    /\ forall fuel, (length l < fuel)%nat -> RangeScan fuel None None (fun _ => true) root P = until (fun _ => true) (filter (fun it => before None it.1 = true) (filter (since None) l)).
Proof.
  destruct (btree_scans (H := extension) entries_200) as (P & root & l & E & _ & Hl & Hr & _).
  - apply entries_200_slim.
  - apply Forall_fmap, Forall_true. intros k. exact I.
  - exists P, root, l. split; [exact E|]. split; [exact Hl|]. intros fuel Hf. apply Hr. exact Hf.
Defined.

(** Three small entries and two large ones, and a third large one that splits
    them. *)
Definition mixed_leaf : pages * N * bool := execs [OInsert [1%N] []; OInsert [2%N] []; OInsert [3%N] []; wide 4; wide 5] empty_tree.

Lemma failed_insert_loses_witness :
  exists P', Insert (6%N :: zeros 2047) (zeros 4096) mixed_leaf.1.2 mixed_leaf.1.1 = (P', mixed_leaf.1.2, false)
    /\ Search (4%N :: zeros 2047) mixed_leaf.1.2 mixed_leaf.1.1 = Some (zeros 4096) /\ Search (4%N :: zeros 2047) mixed_leaf.1.2 P' = None.
Proof.
  destruct (execs_tree (H := extension) [OInsert [1%N] []; OInsert [2%N] []; OInsert [3%N] []; wide 4; wide 5] empty_tree mixed_leaf.1 []) as [ls Ht].
  { split; [done|by left]. } { vm_compute. reflexivity. }
  destruct (failed_insert_loses (6%N :: zeros 2047) (zeros 4096) mixed_leaf.1.1 mixed_leaf.1.2 ls Ht) as (P' & E & Hx).
  - vm_compute. discriminate.
  - split; apply Nat.leb_le; vm_compute; reflexivity.
  - intros E%(f_equal snd). vm_compute in E. discriminate.
  - intros [_ E%(f_equal snd)]. vm_compute in E. discriminate.
  - exists P'. split; [exact E|]. destruct (Hx (4%N :: zeros 2047, zeros 4096)) as [H1 H2]; [|split; [apply H1; vm_compute; discriminate|exact H2]].
    apply list_elem_of_lookup_2 with 0%nat. vm_compute. reflexivity.
Defined.

(** The leaf was split, and its halves are chained. *)
Example leaf_split : (fun s => (size s.1, next_leaf 1 s.1)) (execs entries_200 empty_tree).1 = (3%nat, 2%N).
Proof. vm_compute. reflexivity. Qed.

End Examples.
