(* ===== verification/GoHeap.v ===== *)
(** [container/heap] of the Go library, as [internal/queue/queue.go] uses it: a
    binary heap in a slice, with [Push] and [Pop] by sifting up and down. The
    order is a parameter; the heap keeps its elements and hands out a least
    one first. *)

From S2P Require Import Prelude.

Open Scope nat_scope.

Section Heap.
Context {A : Type} (less : A -> A -> bool).

(** [h.Swap(i, j)] and [h.Less(i, j)], for indices of the slice. *)
Definition swap (l : list A) (i j : nat) : list A :=
  match l !! i, l !! j with
  | Some a, Some b => <[i := b]> (<[j := a]> l)
  | _, _ => l
  end.

Definition less_at (l : list A) (i j : nat) : bool :=
  match l !! i, l !! j with Some a, Some b => less a b | _, _ => false end.

Definition parent (j : nat) : nat := (j - 1) / 2.

(** [up]: the loop ends at the root, so [j] rounds are enough. *)
Fixpoint up (fuel : nat) (l : list A) (j : nat) : list A :=
  match fuel with
  | O => l
  | S f =>
      let i := parent j in
      if (i =? j) || negb (less_at l j i) then l else up f (swap l i j) i
  end.

(** The smaller child of [i] below [n]. *)
Definition child (l : list A) (i n : nat) : nat :=
  let j1 := 2 * i + 1 in let j2 := j1 + 1 in
  if (j2 <? n) && less_at l j2 j1 then j2 else j1.

(** [down]: the index more than doubles, so [n] rounds are enough. *)
Fixpoint down (fuel : nat) (l : list A) (i n : nat) : list A :=
  match fuel with
  | O => l
  | S f =>
      if n <=? 2 * i + 1 then l
      else
        let j := child l i n in
        if negb (less_at l j i) then l else down f (swap l i j) j n
  end.

Definition Push (l : list A) (x : A) : list A := up (length l) (l ++ [x]) (length l).

(** The heap is not empty when [Pop] is called. *)
Definition Pop (l : list A) : list A :=
  let n := length l - 1 in take n (down n (swap l 0 n) 0 n).

(** ** The elements *)

Lemma swap_lookup l i j a b k : l !! i = Some a -> l !! j = Some b ->
  swap l i j !! k = if decide (k = i) then Some b else if decide (k = j) then Some a else l !! k.
Proof.
  intros Hi Hj. unfold swap. rewrite Hi, Hj. destruct (decide (k = i)) as [->|Hk].
  - apply list_lookup_insert_eq. rewrite length_insert. by eapply lookup_lt_Some.
  - rewrite list_lookup_insert_ne by done. destruct (decide (k = j)) as [->|Hk'].
    + apply list_lookup_insert_eq. by eapply lookup_lt_Some.
    + by apply list_lookup_insert_ne.
Qed.

Lemma swap_length l i j : length (swap l i j) = length l.
Proof. unfold swap. repeat case_match; by rewrite ?length_insert. Qed.

Lemma swap_Permutation l i j : swap l i j ≡ₚ l.
Proof.
  unfold swap. destruct (l !! i) as [a|] eqn:Hi; [|done]. destruct (l !! j) as [b|] eqn:Hj; [|done].
  destruct (decide (i = j)) as [->|Hij].
  { rewrite list_insert_insert_eq. by rewrite list_insert_id; simplify_eq. }
  apply Permutation_inj. split; [by rewrite !length_insert|].
  exists (fun k => if decide (k = i) then j else if decide (k = j) then i else k). split.
  - intros x y. repeat case_decide; congruence.
  - intros k. pose proof (swap_lookup l i j a b k Hi Hj) as E. unfold swap in E. rewrite Hi, Hj in E. rewrite E.
    repeat case_decide; subst; by rewrite ?Hi, ?Hj.
Qed.

Lemma up_Permutation fuel l j : up fuel l j ≡ₚ l.
Proof.
  revert l j. induction fuel as [|f IH]; intros l j; [done|]. simpl. case_match; [done|].
  by rewrite IH, swap_Permutation.
Qed.

Lemma down_Permutation fuel l i n : down fuel l i n ≡ₚ l.
Proof.
  revert l i. induction fuel as [|f IH]; intros l i; [done|]. simpl. repeat (case_match; [done|]).
  by rewrite IH, swap_Permutation.
Qed.

Lemma up_length fuel l j : length (up fuel l j) = length l.
Proof. apply Permutation_length, up_Permutation. Qed.

Lemma down_length fuel l i n : length (down fuel l i n) = length l.
Proof. apply Permutation_length, down_Permutation. Qed.

Lemma child_cases l i n : 2 * i + 1 < n -> child l i n = 2 * i + 1 \/ child l i n = 2 * i + 2 /\ 2 * i + 2 < n.
Proof.
  intros Hn. unfold child. destruct (Nat.ltb_spec (2 * i + 1 + 1) n) as [Hlt|]; [|by left]. cbn [andb].
  destruct (less_at _ _ _); [right|left]; lia.
Qed.

(** Positions from [n] on are left alone. *)
Lemma down_beyond fuel l i n k : n <= k -> i < n -> n <= length l -> down fuel l i n !! k = l !! k.
Proof.
  intros Hk. revert l i. induction fuel as [|f IH]; intros l i Hi Hl; [done|]. cbn [down].
  destruct (Nat.leb_spec n (2 * i + 1)); [done|]. case_match; [done|]. destruct (child_cases l i n) as [Hc|[Hc ?]]; [lia|..].
  all: rewrite IH by (rewrite ?swap_length; lia); unfold swap; repeat case_match; try done;
    rewrite !list_lookup_insert_ne by lia; done.
Qed.

Lemma Push_Permutation l x : Push l x ≡ₚ x :: l.
Proof. unfold Push. by rewrite up_Permutation, Permutation_app_comm. Qed.

(** What [Pop] leaves, next to the root it takes away. *)
Lemma Pop_Permutation x l : x :: Pop (x :: l) ≡ₚ x :: l.
Proof.
  unfold Pop. replace (length (x :: l) - 1) with (length l) by (simpl; lia). set (n := length l).
  set (s := swap (x :: l) 0 n). assert (length s = S n) as Hs by (unfold s; by rewrite swap_length).
  assert (s !! n = Some x) as Hx.
  { destruct (lookup_lt_is_Some_2 (x :: l) n) as [b Hb]; [simpl; lia|]. unfold s.
    rewrite (swap_lookup _ _ _ x b) by done. repeat case_decide; try done. subst n. destruct l; [|done]. simpl in Hb. congruence. }
  assert (down n s 0 n !! n = Some x) as Hd.
  { destruct n as [|m] eqn:En; [done|]. by rewrite down_beyond by lia. }
  transitivity (down n s 0 n); [|by rewrite down_Permutation; apply swap_Permutation].
  pose proof (take_S_r _ _ _ Hd) as E. rewrite take_ge in E by (rewrite down_length; lia). rewrite E at 2.
  by rewrite Permutation_app_comm.
Qed.

(** ** The order *)

(** A strict weak order: [less] never holds both ways, and not being less is
    transitive. *)
Class StrictWeak : Prop := {
  less_asym a b : less a b = true -> less b a = false;
  less_trans a b c : less b a = false -> less c b = false -> less c a = false;
}.

Context `{StrictWeak}.

Lemma parent_spec j : j = 0 /\ parent j = 0 \/ 0 < j /\ (j = 2 * parent j + 1 \/ j = 2 * parent j + 2).
Proof.
  unfold parent. destruct j as [|j]; [by left|right]. split; [lia|]. replace (S j - 1) with j by lia.
  pose proof (Nat.div_mod_eq j 2). pose proof (Nat.mod_upper_bound j 2). lia.
Qed.

(** The element at [j] is not below its parent, for the [j < n] of [P]. *)
Definition edges (P : nat -> Prop) (n : nat) (l : list A) : Prop :=
  forall j a b, 0 < j < n -> P j -> l !! parent j = Some a -> l !! j = Some b -> less b a = false.

Definition heap (l : list A) : Prop := edges (fun _ => True) (length l) l.

(** The children of [j] are not below the parent of [j]. *)
Definition grands (j n : nat) (l : list A) : Prop :=
  forall k a b, 0 < j -> j < k < n -> parent k = j -> l !! parent j = Some a -> l !! k = Some b -> less b a = false.

Lemma swap_up n l i j a b :
  l !! i = Some a -> l !! j = Some b -> less b a = true -> 0 < j -> i = parent j ->
  edges (fun k => k <> j) n l -> grands j n l -> edges (fun k => k <> i) n (swap l i j) /\ grands i n (swap l i j).
Proof.
  intros Ha Hb Hlt Hj -> He Hg. pose proof (parent_spec j) as Hp. split.
  - intros k u v Hk Hne. rewrite !(swap_lookup _ _ _ a b) by done. pose proof (parent_spec k) as Hpk.
    destruct (decide (k = j)) as [->|Hkj].
    + rewrite decide_True, decide_False by lia. intros [= <-] [= <-]. by apply less_asym.
    + rewrite (decide_False (P := k = parent j)) by done.
      destruct (decide (parent k = parent j)) as [Ekp|].
      * intros [= <-] Hv. apply (less_trans b a); [by apply less_asym|].
        apply (He k); [lia|done|by rewrite Ekp|done].
      * destruct (decide (parent k = j)) as [Ekp|].
        -- intros [= <-] Hv. apply (Hg k); [lia|lia|done|done|done].
        -- intros Hu Hv. by apply (He k).
  - intros k u v Hi Hk Hpk. rewrite !(swap_lookup _ _ _ a b) by done. pose proof (parent_spec k) as Hps.
    pose proof (parent_spec (parent j)) as Hpp. rewrite (decide_False (P := parent (parent j) = parent j)) by lia.
    rewrite (decide_False (P := parent (parent j) = j)) by lia. rewrite (decide_False (P := k = parent j)) by lia.
    intros Hu. assert (parent j < n) as Hpn by lia.
    assert (less a u = false) as Hau by (apply (He (parent j)); [lia|lia|done|done]).
    destruct (decide (k = j)) as [->|Hkj]; [by intros [= <-]|]. intros Hv.
    apply (less_trans u a); [done|]. apply (He k); [lia|done|by rewrite Hpk|done].
Qed.

Lemma up_edges fuel n l j : j <= fuel -> j < n ->
  edges (fun k => k <> j) n l -> grands j n l -> edges (fun _ => True) n (up fuel l j).
Proof.
  revert l j. induction fuel as [|f IH]; intros l j Hf Hj He Hg.
  - intros k u v Hk _. apply He; lia.
  - cbn [up]. pose proof (parent_spec j) as Hp.
    destruct (Nat.eqb_spec (parent j) j) as [E1|E1]; cbn [orb]; [|destruct (less_at l j (parent j)) eqn:E2; cbn [negb]].
    + intros k u v Hk _. apply He; lia.
    + unfold less_at in E2. destruct (l !! j) as [b|] eqn:Hb; [|done].
      destruct (l !! parent j) as [a|] eqn:Ha; [|done].
      destruct (swap_up n l (parent j) j a b) as [He' Hg']; try done; [lia|].
      apply IH; try done; lia.
    + intros k u v Hk _ Hu Hv. destruct (decide (k = j)) as [->|]; [|by apply (He k)].
      unfold less_at in E2. by rewrite Hu, Hv in E2.
Qed.

Lemma Push_heap l x : heap l -> heap (Push l x).
Proof.
  intros Hl. unfold Push, heap. rewrite up_length. apply up_edges; [done|rewrite length_app; simpl; lia|..].
  - intros k u v Hk Hne. rewrite length_app in Hk. simpl in Hk. pose proof (parent_spec k).
    rewrite !lookup_app_l by lia. apply Hl; [lia|done].
  - intros k u v Hj Hk. rewrite length_app in Hk. simpl in Hk. lia.
Qed.

Lemma less_irrefl a : less a a = false.
Proof. destruct (less a a) eqn:E; [|done]. rewrite <- E. by apply less_asym. Qed.

Lemma child_least l i n k b v : 2 * i + 1 < n -> n <= length l -> 0 < k < n -> parent k = i ->
  l !! child l i n = Some b -> l !! k = Some v -> less v b = false.
Proof.
  intros Hi Hl Hk Hp. pose proof (parent_spec k) as Hps. rewrite Hp in Hps. unfold child.
  replace (2 * i + 1 + 1) with (2 * i + 2) by lia. unfold less_at.
  destruct (lookup_lt_is_Some_2 l (2 * i + 1)) as [c1 H1]; [lia|].
  destruct Hps as [?|[_ [->| ->]]]; [lia|..].
  - rewrite H1. destruct (Nat.ltb_spec (2 * i + 2) n) as [Hlt|]; cbn [andb].
    + destruct (lookup_lt_is_Some_2 l (2 * i + 2)) as [c2 H2]; [lia|]. rewrite H2. destruct (less c2 c1) eqn:E.
      * rewrite H2. intros [= <-] [= <-]. by apply less_asym.
      * rewrite H1. intros [= <-] [= <-]. apply less_irrefl.
    + rewrite H1. intros [= <-] [= <-]. apply less_irrefl.
  - rewrite (proj2 (Nat.ltb_lt _ _)) by lia. cbn [andb].
    destruct (lookup_lt_is_Some_2 l (2 * i + 2)) as [c2 H2]; [lia|]. rewrite H1, H2. destruct (less c2 c1) eqn:E.
    + rewrite H2. intros [= <-] [= <-]. apply less_irrefl.
    + rewrite H1. by intros [= <-] [= <-].
Qed.

Lemma swap_down n l i a b : 2 * i + 1 < n -> n <= length l ->
  l !! i = Some a -> l !! child l i n = Some b -> less b a = true ->
  edges (fun k => parent k <> i) n l -> grands i n l ->
  let j := child l i n in edges (fun k => parent k <> j) n (swap l i j) /\ grands j n (swap l i j).
Proof.
  intros Hi Hl Ha Hb Hlt He Hg j. pose proof (child_cases l i n Hi) as Hc. fold j in Hc, Hb.
  assert (parent j = i) as Hpj by (pose proof (parent_spec j); lia). split.
  - intros k u v Hk Hne. rewrite !(swap_lookup _ _ _ a b) by done. pose proof (parent_spec k) as Hpk.
    rewrite (decide_False (P := parent k = j)) by done.
    destruct (decide (k = i)) as [->|Hki].
    + rewrite (decide_False (P := parent i = i)) by lia. intros Hu [= <-]. apply (Hg j); try done; lia.
    + destruct (decide (k = j)) as [->|Hkj].
      * rewrite decide_True by done. intros [= <-] [= <-]. by apply less_asym.
      * destruct (decide (parent k = i)) as [Epi|].
        -- intros [= <-] Hv. by apply (child_least l i n k).
        -- intros Hu Hv. by apply (He k).
  - intros k u v Hj Hk Hpk. pose proof (parent_spec k). rewrite !(swap_lookup _ _ _ a b) by done. rewrite Hpj.
    rewrite decide_True by done. rewrite !decide_False by lia. intros [= <-] Hv.
    apply (He k); [lia|lia|by rewrite Hpk|done].
Qed.

Lemma down_edges fuel n l i : n - i <= fuel -> n <= length l ->
  edges (fun k => parent k <> i) n l -> grands i n l -> edges (fun _ => True) n (down fuel l i n).
Proof.
  revert l i. induction fuel as [|f IH]; intros l i Hf Hl He Hg.
  - intros k u v Hk _. pose proof (parent_spec k). apply He; lia.
  - cbn [down]. destruct (Nat.leb_spec n (2 * i + 1)) as [Hi|Hi].
    { intros k u v Hk _. pose proof (parent_spec k). apply He; lia. }
    pose proof (child_cases l i n Hi) as Hc.
    destruct (lookup_lt_is_Some_2 l i) as [a Ha]; [lia|].
    destruct (lookup_lt_is_Some_2 l (child l i n)) as [b Hb]; [lia|].
    unfold less_at. rewrite Ha, Hb. destruct (less b a) eqn:Hlt; cbn [negb].
    + destruct (swap_down n l i a b) as [He' Hg']; try done. apply IH; rewrite ?swap_length; try done; lia.
    + intros k u v Hk _ Hu Hv. destruct (decide (parent k = i)) as [Hp|]; [|by apply (He k)].
      rewrite Hp, Ha in Hu. injection Hu as <-. apply (less_trans a b); [done|]. by apply (child_least l i n k).
Qed.

Lemma Pop_heap l : heap l -> heap (Pop l).
Proof.
  intros Hl. unfold Pop. set (n := length l - 1). set (s := swap l 0 n).
  assert (length s = length l) as Hs by apply swap_length.
  assert (edges (fun _ => True) n (down n s 0 n)) as He.
  { apply down_edges; [lia|unfold n in *; lia|..].
    - intros k u v Hk Hp. assert (forall q, q <> 0 -> q <> n -> s !! q = l !! q) as Hq.
      { intros q H0 Hn. unfold s, swap. repeat case_match; try done. by rewrite !list_lookup_insert_ne. }
      pose proof (parent_spec k). rewrite !Hq by lia. apply Hl; [lia|done].
    - intros k u v ?. lia. }
  intros k u v. rewrite length_take, down_length. intros Hk _. pose proof (parent_spec k).
  rewrite !lookup_take_lt by lia. apply He; [lia|done].
Qed.

(** Nothing is below the root. *)
Lemma heap_root l x y : heap l -> l !! 0 = Some x -> y ∈ l -> less y x = false.
Proof.
  intros Hl Hx [j Hj]%list_elem_of_lookup. revert y Hj. induction (lt_wf j) as [j _ IH]. intros y Hj.
  destruct (decide (j = 0)) as [->|Hne]; [simplify_eq; apply less_irrefl|].
  pose proof (parent_spec j) as Hp. apply lookup_lt_Some in Hj as Hlt.
  destruct (lookup_lt_is_Some_2 l (parent j)) as [p Hpj]; [lia|].
  apply (less_trans x p); [by apply (IH (parent j)); [lia|]|]. by apply (Hl j); [lia|..].
Qed.

Lemma heap_nil : heap [].
Proof. intros j a b Hj. simpl in Hj. lia. Qed.

(** Loops of [Push] keep the heap and gather the elements. *)
Lemma pushes l xs : heap l -> heap (foldl Push l xs) /\ foldl Push l xs ≡ₚ xs ++ l.
Proof.
  revert l. induction xs as [|x xs IH]; intros l Hl; [done|]. cbn [foldl]. destruct (IH (Push l x)) as [Hh Hp]; [by apply Push_heap|].
  split; [done|]. rewrite Hp, Push_Permutation. by rewrite <- Permutation_middle.
Qed.
End Heap.

