(* ===== verification/QueueMessage.v ===== *)
(** [internal/queue/message.go]: the messages of the task queues and the binary
    form in which they are kept in the database. *)

From coqutil Require Export Datatypes.RecordSetters.
From S2P Require Import Prelude JsString JsNumber Go.

Export TriangleBracketNotations.

#[global] Arguments constant {E} newValue _ /.

Open Scope Z_scope.

(** [MessageState] is a byte with four named values. *)
Definition StateReady : N := 0.
Definition StateInvisible : N := 1.
Definition StateCompleted : N := 2.
Definition StateDeadLetter : N := 3.

(** The numeral of a number, as [%d] writes it. *)
Definition decimal (z : Z) : bytes := Z_str z.

Definition MessageState_String (s : N) : bytes :=
  if (s =? StateReady)%N then gs "ready"
  else if (s =? StateInvisible)%N then gs "invisible"
  else if (s =? StateCompleted)%N then gs "completed"
  else if (s =? StateDeadLetter)%N then gs "dead_letter"
  else gs "state_" ++ decimal (Z.of_N s).

(** The callbacks of a message only call [Ack], [Nack] and [Extend] of the
    engine with its [ID]. *)
Record Message := {
  m_ID : bytes; m_Queue : bytes; m_Payload : bytes; m_Priority : Z; m_DedupID : bytes; m_RetryCount : Z; m_MaxRetries : Z;
  m_State : N; m_VisibleAt : Z; m_CreatedAt : Z; m_ExpireAt : Z;
}.

(** ** The binary form *)

(** The low [8 * n] bits of a number, big end first: [PutUint16], [PutUint32]
    and [PutUint64] of a conversion to that width. *)
Fixpoint big_endian (n : nat) (z : Z) : bytes :=
  match n with
  | O => []
  | S k => Z.to_N (z / 256 ^ Z.of_nat k mod 256) :: big_endian k z
  end.

(** [Uint16], [Uint32] and [Uint64]. *)
Definition unsigned (bs : bytes) : Z := foldl (fun acc b => acc * 256 + Z.of_N b) 0 bs.

(** A string or slice behind its length, in [w] bytes. *)
Definition chunk (w : nat) (bs : bytes) : bytes := big_endian w (Z.of_nat (length bs)) ++ bs.

Definition Encode (m : Message) : bytes :=
  gs "QM" ++ [m_State m] ++ [Z.to_N (m_Priority m)] ++ big_endian 4 (m_RetryCount m) ++ big_endian 4 (m_MaxRetries m)
  ++ big_endian 8 (m_VisibleAt m) ++ big_endian 8 (m_CreatedAt m) ++ big_endian 8 (m_ExpireAt m)
  ++ chunk 2 (m_ID m) ++ chunk 2 (m_Queue m) ++ chunk 2 (m_DedupID m) ++ chunk 4 (m_Payload m).

(** The bytes of a chunk at the front of [buf], and what is behind it. *)
Definition read_chunk (w : nat) (no_length no_data : string) (buf : bytes) : bytes + bytes * bytes :=
  if (length buf <? w)%nat then inl (gs no_length)
  else
    let n := Z.to_nat (unsigned (take w buf)) in
    let rest := drop w buf in
    if (length rest <? n)%nat then inl (gs no_data) else inr (take n rest, drop n rest).

Definition sub (buf : bytes) (i j : nat) : bytes := take (j - i) (drop i buf).

(** [if err != nil { return nil, err }] after a part that may fail. *)
Definition and_then {A B} (r : bytes + A) (k : A -> bytes + B) : bytes + B :=
  match r with inl e => inl e | inr a => k a end.

Notation "'field!' p := r 'in' k" := (and_then r (fun p => k)) (at level 10, p pattern, r at level 100, k at level 200).

Definition DecodeMessage (buf : bytes) : bytes + Message :=
  if (length buf <? 36)%nat then inl (gs "coco/queue: buffer too small for message header")
  else if negb (bool_decide (take 2 buf = gs "QM")) then inl (gs "coco/queue: invalid message magic")
  else
    field! (id, buf1) := read_chunk 2 "coco/queue: truncated ID length" "coco/queue: truncated ID data" (drop 36 buf) in
    field! (q, buf2) := read_chunk 2 "coco/queue: truncated Queue length" "coco/queue: truncated Queue data" buf1 in
    field! (d, buf3) := read_chunk 2 "coco/queue: truncated DedupID length" "coco/queue: truncated DedupID data" buf2 in
    field! (p, _) := read_chunk 4 "coco/queue: truncated Payload length" "coco/queue: truncated Payload data" buf3 in
    inr {|
      m_ID := id; m_Queue := q; m_Payload := p; m_Priority := unsigned (sub buf 3 4); m_DedupID := d;
      m_RetryCount := unsigned (sub buf 4 8); m_MaxRetries := unsigned (sub buf 8 12);
      m_State := Z.to_N (unsigned (sub buf 2 3)); m_VisibleAt := int64 (unsigned (sub buf 12 20));
      m_CreatedAt := int64 (unsigned (sub buf 20 28)); m_ExpireAt := int64 (unsigned (sub buf 28 36)) |}.

(** ** Reading what was written *)

Lemma length_big_endian n z : length (big_endian n z) = n.
Proof. induction n; simpl; congruence. Qed.

Lemma unsigned_snoc bs b : unsigned (bs ++ [b]) = unsigned bs * 256 + Z.of_N b.
Proof. unfold unsigned. by rewrite foldl_app. Qed.

Lemma unsigned_app bs cs : unsigned (bs ++ cs) = unsigned bs * 256 ^ Z.of_nat (length cs) + unsigned cs.
Proof.
  revert cs. apply rev_ind; [rewrite app_nil_r; cbn; lia|]. intros c cs IH.
  rewrite app_assoc, !unsigned_snoc, IH, length_app. cbn [length].
  replace (Z.of_nat (length cs + 1)) with (Z.succ (Z.of_nat (length cs))) by lia. rewrite Z.pow_succ_r by lia. lia.
Qed.

Lemma unsigned_big_endian n z : unsigned (big_endian n z) = z mod 256 ^ Z.of_nat n.
Proof.
  induction n as [|n IH]; [by rewrite Z.mod_1_r|]. cbn [big_endian]. change (?a :: ?l) with ([a] ++ l).
  rewrite unsigned_app, length_big_endian, IH. unfold unsigned. cbn [foldl].
  set (p := 256 ^ Z.of_nat n). assert (0 < p) by (apply Z.pow_pos_nonneg; lia).
  rewrite Z2N.id by (apply Z.mod_pos_bound; lia).
  replace (256 ^ Z.of_nat (S n)) with (p * 256) by (unfold p; rewrite Nat2Z.inj_succ, Z.pow_succ_r by lia; lia).
  rewrite Z.rem_mul_r by lia. lia.
Qed.

Lemma unsigned_small n z : 0 <= z < 256 ^ Z.of_nat n -> unsigned (big_endian n z) = z.
Proof. intros Hz. by rewrite unsigned_big_endian, Z.mod_small. Qed.

(** A 64-bit integer survives its conversion to [uint64] and back. *)
Lemma signed_big_endian z : - 2 ^ 63 <= z < 2 ^ 63 -> int64 (unsigned (big_endian 8 z)) = z.
Proof.
  intros Hz. rewrite unsigned_big_endian. change (256 ^ Z.of_nat 8) with (2 ^ 64). unfold int64.
  rewrite Zplus_mod_idemp_l, Z.mod_small; lia.
Qed.

Section Chunks.
Context (w : nat) (e1 e2 : string) (x : bytes).
Hypothesis fits : Z.of_nat (length x) < 256 ^ Z.of_nat w.

Lemma read_chunk_app r : read_chunk w e1 e2 (chunk w x ++ r) = inr (x, r).
Proof using fits.
  unfold read_chunk, chunk. rewrite <- app_assoc. rewrite take_app_length', drop_app_length' by (by rewrite length_big_endian).
  rewrite unsigned_small, Nat2Z.id, take_app_length, drop_app_length by lia.
  rewrite !length_app, length_big_endian. by rewrite !(proj2 (Nat.ltb_ge _ _)) by lia.
Qed.

(** A chunk that is cut off is refused. *)
Lemma read_chunk_short t : t `prefix_of` chunk w x -> t <> chunk w x -> exists e, read_chunk w e1 e2 t = inl e.
Proof using fits.
  intros [r Hr] Hne. unfold read_chunk. destruct (Nat.ltb_spec (length t) w) as [|Hw]; [by eexists|].
  apply (f_equal (take w)) in Hr as Ht. apply (f_equal (drop w)) in Hr as Hd. unfold chunk in Ht, Hd.
  rewrite take_app_length' in Ht by (by rewrite length_big_endian). rewrite drop_app_length' in Hd by (by rewrite length_big_endian).
  rewrite take_app_le in Ht by done. rewrite drop_app_le in Hd by done. rewrite <- Ht, unsigned_small, Nat2Z.id by lia.
  rewrite (proj2 (Nat.ltb_lt _ _)); [by eexists|]. rewrite Hd, length_app. destruct r; [|simpl; lia].
  rewrite app_nil_r in Hr. done.
Qed.
End Chunks.

(** The values the fields hold, as far as [Encode] has room for them. *)
Record encodable_message (m : Message) : Prop := {
  enc_state : (m_State m < 256)%N;
  enc_priority : 0 <= m_Priority m < 256;
  enc_retry : 0 <= m_RetryCount m < 2 ^ 32;
  enc_max : 0 <= m_MaxRetries m < 2 ^ 32;
  enc_visible : - 2 ^ 63 <= m_VisibleAt m < 2 ^ 63;
  enc_created : - 2 ^ 63 <= m_CreatedAt m < 2 ^ 63;
  enc_expire : - 2 ^ 63 <= m_ExpireAt m < 2 ^ 63;
  enc_id : Z.of_nat (length (m_ID m)) < 2 ^ 16;
  enc_queue : Z.of_nat (length (m_Queue m)) < 2 ^ 16;
  enc_dedup : Z.of_nat (length (m_DedupID m)) < 2 ^ 16;
  enc_payload : Z.of_nat (length (m_Payload m)) < 2 ^ 32;
}.

Lemma decode_encode m rest : encodable_message m -> DecodeMessage (Encode m ++ rest) = inr m.
Proof.
  intros [Hs Hp Hr Hx Hv Hc He Hi Hq Hd Hl]. unfold DecodeMessage.
  assert ((length (Encode m ++ rest) <? 36)%nat = false) as ->.
  { apply Nat.ltb_ge. unfold Encode. rewrite !length_app, !length_big_endian. simpl. lia. }
  assert (bool_decide (take 2 (Encode m ++ rest) = gs "QM") = true) as -> by (by apply bool_decide_eq_true).
  change (drop 36 (Encode m ++ rest))
    with ((chunk 2 (m_ID m) ++ chunk 2 (m_Queue m) ++ chunk 2 (m_DedupID m) ++ chunk 4 (m_Payload m)) ++ rest).
  rewrite <- !app_assoc. cbn [negb]. do 4 (rewrite read_chunk_app by done; cbn [and_then]).
  change (sub (Encode m ++ rest) 2 3) with [m_State m].
  change (sub (Encode m ++ rest) 3 4) with [Z.to_N (m_Priority m)].
  change (sub (Encode m ++ rest) 4 8) with (big_endian 4 (m_RetryCount m)).
  change (sub (Encode m ++ rest) 8 12) with (big_endian 4 (m_MaxRetries m)).
  change (sub (Encode m ++ rest) 12 20) with (big_endian 8 (m_VisibleAt m)).
  change (sub (Encode m ++ rest) 20 28) with (big_endian 8 (m_CreatedAt m)).
  change (sub (Encode m ++ rest) 28 36) with (big_endian 8 (m_ExpireAt m)).
  rewrite !unsigned_small, !signed_big_endian by done. unfold unsigned. cbn [foldl].
  rewrite !Z.mul_0_l, !Z.add_0_l, Z2N.id, N2Z.id by lia. by destruct m.
Qed.

(** C27: a message read back is the message written: for every message whose
    numbers and lengths fit the widths of their fields, decoding the encoding, with
    whatever bytes behind it, gives back the message, every field as it was. *)
Theorem message_roundtrip m rest : encodable_message m -> DecodeMessage (Encode m ++ rest) = inr m.
Proof. apply decode_encode. Qed.

Lemma prefix_app_cases {A} (t x y : list A) : t `prefix_of` x ++ y -> (t `prefix_of` x /\ t <> x) \/ exists u, t = x ++ u /\ u `prefix_of` y.
Proof.
  intros Ht. destruct (prefix_weak_total t x (x ++ y)) as [Hx|[u ->]]; [done|by apply prefix_app_r|..].
  - destruct (decide (length t = length x)) as [E|E].
    + right. exists []. destruct Hx as [k ->]. rewrite length_app in E. destruct k; [|simpl in E; lia].
      rewrite !app_nil_r. split; [done|apply prefix_nil].
    + left. split; [done|]. by intros ->.
  - right. exists u. split; [done|]. by apply prefix_app_inv in Ht.
Qed.

Lemma read_next {B} w e1 e2 x y t (k : bytes * bytes -> bytes + B) :
  Z.of_nat (length x) < 256 ^ Z.of_nat w -> t `prefix_of` chunk w x ++ y -> t <> chunk w x ++ y ->
  (forall u, u `prefix_of` y -> u <> y -> exists e, k (x, u) = inl e) -> exists e, and_then (read_chunk w e1 e2 t) k = inl e.
Proof.
  intros Hx Hp Hne Hk. apply prefix_app_cases in Hp as [[Hp Hn]|(u & -> & Hp)].
  - destruct (read_chunk_short w e1 e2 x Hx t) as [e ->]; [done..|]. by exists e.
  - rewrite read_chunk_app by done. apply Hk; [done|]. by intros ->.
Qed.

Lemma truncated_body m t : t `prefix_of` Encode m -> t <> Encode m -> (36 <= length t)%nat ->
  let body := chunk 2 (m_ID m) ++ chunk 2 (m_Queue m) ++ chunk 2 (m_DedupID m) ++ chunk 4 (m_Payload m) in
  drop 36 t `prefix_of` body /\ drop 36 t <> body.
Proof.
  intros [r Hpre] Hne H36 body. split.
  - exists r. rewrite <- drop_app_le by done. by rewrite <- Hpre.
  - intros Heq. apply Hne. destruct r as [|b r]; [by rewrite Hpre, app_nil_r|]. exfalso.
    apply (f_equal (drop 36)) in Hpre. rewrite drop_app_le, Heq in Hpre by done.
    apply (f_equal length) in Hpre. rewrite length_app in Hpre. change (drop 36 (Encode m)) with body in Hpre.
    cbn [length] in Hpre. lia.
Qed.

(** A record cut off anywhere is refused: no proper beginning of an encoded
    message decodes, so a torn write is never taken for a task. *)
Theorem truncated_rejected m t : encodable_message m -> t `prefix_of` Encode m -> t <> Encode m ->
  exists e, DecodeMessage t = inl e.
Proof.
  intros Hm Hpre Hne. unfold DecodeMessage. destruct (Nat.ltb_spec (length t) 36) as [|H36]; [by eexists|].
  destruct (negb _); [by eexists|]. destruct (truncated_body m t) as [Hb Hn]; [done..|]. destruct Hm.
  eapply read_next; [|exact Hb|exact Hn|]; [done|]. intros u1 H1 N1. eapply read_next; [|exact H1|exact N1|]; [done|]. intros u2 H2 N2.
  eapply read_next; [|exact H2|exact N2|]; [done|]. intros u3 H3 N3. rewrite <- (app_nil_r (chunk 4 _)) in H3, N3.
  eapply read_next; [|exact H3|exact N3|]; [done|]. intros u4 H4 N4. by apply prefix_nil_inv in H4.
Qed.

Module Examples.

Definition report_task : Message := {|
  m_ID := gs "msg_1700000000000000000_1"; m_Queue := gs "emails"; m_Payload := [0; 255; 0xC3; 0xA9]%N; m_Priority := 200;
  m_DedupID := gs "d1"; m_RetryCount := 2; m_MaxRetries := 5; m_State := StateInvisible;
  m_VisibleAt := 1700000030000000000; m_CreatedAt := 1700000000000000000; m_ExpireAt := 0 |}.

Lemma report_task_fits : encodable_message report_task.
Proof. by split. Qed.

Lemma message_roundtrip_witness : DecodeMessage (Encode report_task ++ [1; 2; 3]%N) = inr report_task.
Proof. apply (message_roundtrip report_task [1; 2; 3]%N). by split. Defined.

Lemma truncated_rejected_witness : exists e, DecodeMessage (take 60 (Encode report_task)) = inl e.
Proof.
  apply (truncated_rejected report_task); [by split|apply prefix_take|]. intros E. apply (f_equal length) in E. by vm_compute in E.
Defined.

End Examples.
