(* ===== verification/QueueEngine.v ===== *)
(** [internal/queue/queue.go], [internal/queue/dedup.go] and the handle of
    [queue/queue.go] with its options: task queues with priorities, delays,
    leases, retries, a dead-letter queue and deduplication.

    Every operation runs under the lock of its queue, so an operation is a
    function of the state; each reading of the clock is an argument, in the order
    of the calls of [time.Now]. The database tree that keeps the messages is the
    class [BTree]: operations take its contents and return the new ones. *)

From S2P Require Import Prelude JsString JsNumber Go GoHeap QueueMessage.

Open Scope Z_scope.

Definition second : Z := 10 ^ 9.
Definition minute : Z := 60 * second.

(** ** Deduplication *)

(** The identifiers with the instants their windows end. *)
Abbreviation Deduplicator := (gmap bytes Z).

Definition cleanupLocked (now : Z) (d : Deduplicator) : Deduplicator := filter (fun p => now < p.2) d.

(** Whether the identifier is new; it is recorded then. *)
Definition CheckOrSet (now : Z) (dedupID : bytes) (window : Z) (d : Deduplicator) : Deduplicator * bool :=
  if bool_decide (dedupID = []) then (d, true)
  else if (match d !! dedupID with Some e => now <? e | None => false end) then (d, false)
  else
    let d := <[dedupID := int64 (now + window)]> d in
    (if (1000 <? size d)%nat then cleanupLocked now d else d, true).

Definition IsDuplicate (now : Z) (dedupID : bytes) (d : Deduplicator) : bool :=
  if bool_decide (dedupID = []) then false
  else match d !! dedupID with Some e => now <? e | None => false end.

Definition dedup_Remove (dedupID : bytes) (d : Deduplicator) : Deduplicator :=
  if bool_decide (dedupID = []) then d else delete dedupID d.

(** ** The tree behind a queue *)

(** [Insert], [Delete] and the values a cursor visits from [First] on. *)
Class BTree (T : Type) := {
  bt_Insert : bytes -> bytes -> T -> T;
  bt_Delete : bytes -> T -> T;
  bt_Values : T -> list bytes;
}.

(** The sizes [BTree.Insert] accepts. *)
Definition fits (k v : bytes) : bool := (length k <=? 2048)%nat && (length v <=? 4096)%nat.

(** ** The engine *)

Record Config := {
  DefaultVisibilityTimeout : Z; DefaultMaxRetries : Z; DedupWindow : Z; EnableDLQ : bool;
}.

Definition DefaultConfig : Config := Build_Config (30 * second) 5 (10 * minute) true.

(** [priorityHeap.Less] *)
Definition before (a b : Message) : bool :=
  if negb (m_Priority a =? m_Priority b) then m_Priority b <? m_Priority a else m_VisibleAt a <? m_VisibleAt b.

(** [q_tree] tells whether there is a tree; [q_notified] whether the channel of
    capacity one holds a token. *)
#[warnings="-register-all"]
Inductive QueueEngine := {
  q_name : bytes; q_cfg : Config; q_ready : list Message; q_inFlight : gmap bytes Message;
  q_dlq : option QueueEngine; q_dedup : Deduplicator; q_tree : bool; q_seq : Z; q_closed : bool; q_notified : bool;
}.

Inductive queue_error := ErrDuplicateMessage | ErrClosed | ErrMessageNotFound | ErrMaxRetriesExceeded.

Section Engine.
Context {T : Type} `{BTree T}.

(** [msg_%d_%d] *)
Definition message_id (now seq : Z) : bytes := gs "msg_" ++ decimal now ++ gs "_" ++ decimal seq.

Definition persist (e : QueueEngine) (m : Message) (t : T) : T :=
  if q_tree e then bt_Insert (m_ID m) (Encode m) t else t.

Definition forget (e : QueueEngine) (id : bytes) (t : T) : T := if q_tree e then bt_Delete id t else t.

Definition notify (e : QueueEngine) : QueueEngine := e <| q_notified := true |>.

(** The message as [Enqueue] completes it. *)
Definition stamped (e : QueueEngine) (now : Z) (id : bytes) (m : Message) : Message := {|
  m_ID := id; m_Queue := q_name e; m_Payload := m_Payload m; m_Priority := m_Priority m; m_DedupID := m_DedupID m;
  m_RetryCount := m_RetryCount m;
  m_MaxRetries := if m_MaxRetries m <=? 0 then DefaultMaxRetries (q_cfg e) else m_MaxRetries m;
  m_State := StateReady; m_VisibleAt := if m_VisibleAt m <=? 0 then now else m_VisibleAt m;
  m_CreatedAt := now; m_ExpireAt := m_ExpireAt m |}.

(** [now] is read first, [nowd] in [CheckOrSet]. *)
Definition Enqueue (now nowd : Z) (msg : Message) (e : QueueEngine) (t : T) : QueueEngine * T * (queue_error + Message) :=
  let check := if bool_decide (m_DedupID msg = []) then (q_dedup e, true)
               else CheckOrSet nowd (m_DedupID msg) (DedupWindow (q_cfg e)) (q_dedup e) in
  let e := e <| q_dedup := check.1 |> in
  if negb check.2 then (e, t, inl ErrDuplicateMessage)
  else if q_closed e then (e, t, inl ErrClosed)
  else
    let seq := if bool_decide (m_ID msg = []) then (q_seq e + 1) mod 2 ^ 64 else q_seq e in
    let id := if bool_decide (m_ID msg = []) then message_id now seq else m_ID msg in
    let msg := stamped e now id msg in
    let e := e <| q_seq := seq |> in
    (notify (e <| q_ready := Push before (q_ready e) msg |>), persist e msg t, inr msg).

(** The inner loop of [Dequeue]: expired messages are dropped from the top. Each
    round takes one away. *)
Fixpoint next_visible (fuel : nat) (now : Z) (e : QueueEngine) (ready : list Message) (t : T)
    : list Message * T * option Message :=
  match fuel, ready with
  | S f, msg :: _ =>
      if (0 <? m_ExpireAt msg) && (m_ExpireAt msg <=? now)
      then next_visible f now e (Pop before ready) (forget e (m_ID msg) t)
      else if now <? m_VisibleAt msg then (ready, t, None)
      else (Pop before ready, t, Some msg)
  | _, _ => (ready, t, None)
  end.

Definition leased (now visibility : Z) (m : Message) : Message :=
  m <| m_State := StateInvisible |> <| m_RetryCount := int64 (m_RetryCount m + 1) |>
    <| m_VisibleAt := int64 (now + visibility) |>.

(** One round of [Dequeue] under the lock; [inr None] when it goes on to wait
    for a token or for the end of its context. *)
Definition dequeue_round (now visibility : Z) (e : QueueEngine) (t : T) : QueueEngine * T * (queue_error + option Message) :=
  let visibility := if visibility <=? 0 then DefaultVisibilityTimeout (q_cfg e) else visibility in
  if q_closed e then (e, t, inl ErrClosed)
  else
    match next_visible (length (q_ready e)) now e (q_ready e) t with
    | (ready, t, None) => (e <| q_ready := ready |>, t, inr None)
    | (ready, t, Some msg) =>
        let msg := leased now visibility msg in
        let e := e <| q_ready := ready |> <| q_inFlight := <[m_ID msg := msg]> (q_inFlight e) |> in
        (e, persist e msg t, inr (Some msg))
    end.

(** Receiving from the channel. *)
Definition receive (e : QueueEngine) : QueueEngine := e <| q_notified := false |>.

Definition Ack (msgID : bytes) (e : QueueEngine) (t : T) : QueueEngine * T * option queue_error :=
  match q_inFlight e !! msgID with
  | None => (e, t, Some ErrMessageNotFound)
  | Some _ => (e <| q_inFlight := delete msgID (q_inFlight e) |>, forget e msgID t, None)
  end.

(** Routing to the dead-letter queue, whose answer is ignored; [now] is the
    instant the message becomes visible, [dnow] the one [Enqueue] reads. *)
Definition dead_letter (now dnow : Z) (msg : Message) (e : QueueEngine) (t : T) : QueueEngine * T :=
  let msg := msg <| m_State := StateDeadLetter |> in
  let t := forget e (m_ID msg) t in
  match q_dlq e with
  | Some d =>
      let r := Enqueue dnow dnow (msg <| m_VisibleAt := now |> <| m_DedupID := [] |>) d t in
      (e <| q_dlq := Some r.1.1 |>, r.1.2)
  | None => (e, t)
  end.

(** Back into the heap. *)
Definition requeued (now : Z) (msg : Message) (e : QueueEngine) (t : T) : QueueEngine * T :=
  let msg := msg <| m_State := StateReady |> <| m_VisibleAt := now |> in
  (e <| q_ready := Push before (q_ready e) msg |>, persist e msg t).

Definition Nack (now dnow : Z) (msgID : bytes) (requeue : bool) (e : QueueEngine) (t : T) : QueueEngine * T * option queue_error :=
  match q_inFlight e !! msgID with
  | None => (e, t, Some ErrMessageNotFound)
  | Some msg =>
      let e := e <| q_inFlight := delete msgID (q_inFlight e) |> in
      if negb requeue || (m_MaxRetries msg <=? m_RetryCount msg)
      then (dead_letter now dnow msg e t, Some ErrMaxRetriesExceeded)
      else let r := requeued now msg e t in (notify r.1, r.2, None)
  end.

Definition Extend (now : Z) (msgID : bytes) (d : Z) (e : QueueEngine) (t : T) : QueueEngine * T * option queue_error :=
  match q_inFlight e !! msgID with
  | None => (e, t, Some ErrMessageNotFound)
  | Some msg =>
      let msg := msg <| m_VisibleAt := int64 (now + d) |> in
      (e <| q_inFlight := <[msgID := msg]> (q_inFlight e) |>, persist e msg t, None)
  end.

Record Stats := { ReadyCount : Z; InFlightCount : Z; DLQCount : Z }.

Fixpoint engine_Stats (e : QueueEngine) : Stats := {|
  ReadyCount := Z.of_nat (length (q_ready e)); InFlightCount := Z.of_nat (size (q_inFlight e));
  DLQCount := match q_dlq e with
              | Some d => ReadyCount (engine_Stats d) + InFlightCount (engine_Stats d)
              | None => 0
              end |}.

Fixpoint Close (e : QueueEngine) : QueueEngine :=
  if q_closed e then e
  else {| q_name := q_name e; q_cfg := q_cfg e; q_ready := q_ready e; q_inFlight := q_inFlight e;
          q_dlq := match q_dlq e with Some d => Some (Close d) | None => None end;
          q_dedup := q_dedup e; q_tree := q_tree e; q_seq := q_seq e; q_closed := true; q_notified := q_notified e |}.

(** What the visibility worker does with the message [id]; whether it went back
    into the heap. *)
Definition expire_lease (now dnow : Z) (id : bytes) (e : QueueEngine) (t : T) : QueueEngine * T * bool :=
  match q_inFlight e !! id with
  | Some msg =>
      if m_VisibleAt msg <=? now then
        let e := e <| q_inFlight := delete id (q_inFlight e) |> in
        if m_MaxRetries msg <=? m_RetryCount msg then (dead_letter now dnow msg e t, false)
        else (requeued now msg e t, true)
      else (e, t, false)
  | None => (e, t, false)
  end.

(** The loop over the map, in the order Go takes; [dnow] is the clock of the
    dead-letter queue at each message. *)
Fixpoint expire_leases (now : Z) (ids : list (bytes * Z)) (e : QueueEngine) (t : T) (changed : bool) : QueueEngine * T * bool :=
  match ids with
  | [] => (e, t, changed)
  | (id, dnow) :: r =>
      let '(e, t, c) := expire_lease now dnow id e t in expire_leases now r e t (changed || c)
  end.

Definition checkInFlightAndDelayed (now : Z) (ids : list (bytes * Z)) (e : QueueEngine) (t : T) : QueueEngine * T :=
  if q_closed e then (e, t)
  else
    let '(e, t, changed) := expire_leases now ids e t false in
    (if changed then notify e else e, t).

(** A message read back from the tree: a lease does not outlive the process. *)
Definition restored (now : Z) (m : Message) : Message :=
  if (m_State m =? StateInvisible)%N then m <| m_State := StateReady |> <| m_VisibleAt := now |> else m.

Definition restoreFromTree (now : Z) (t : T) : list Message :=
  foldl (fun ready v => match DecodeMessage v with inr m => Push before ready (restored now m) | inl _ => ready end)
    [] (bt_Values t).

Definition configured (cfg : Config) : Config := {|
  DefaultVisibilityTimeout := if DefaultVisibilityTimeout cfg <=? 0 then 30 * second else DefaultVisibilityTimeout cfg;
  DefaultMaxRetries := if DefaultMaxRetries cfg <=? 0 then 5 else DefaultMaxRetries cfg;
  DedupWindow := if DedupWindow cfg <=? 0 then 10 * minute else DedupWindow cfg;
  EnableDLQ := EnableDLQ cfg |}.

Definition blank_engine (name : bytes) (cfg : Config) (dlq : option QueueEngine) (tree : bool) (ready : list Message) : QueueEngine := {|
  q_name := name; q_cfg := cfg; q_ready := ready; q_inFlight := ∅; q_dlq := dlq; q_dedup := ∅; q_tree := tree;
  q_seq := 0; q_closed := false; q_notified := false |}.

(** A dead-letter queue has no tree and no dead-letter queue of its own. *)
Definition dlq_engine (name : bytes) (cfg : Config) : QueueEngine :=
  blank_engine (name ++ gs ".dlq") (configured (Build_Config (DefaultVisibilityTimeout cfg) (DefaultMaxRetries cfg) (DedupWindow cfg) false))
    None false [].

(** The engine of a queue with a tree, when it is not itself a dead-letter
    queue. *)
Definition NewQueueEngine (now : Z) (name : bytes) (cfg : Config) (t : T) : QueueEngine :=
  let cfg := configured cfg in
  blank_engine name cfg (if EnableDLQ cfg then Some (dlq_engine name cfg) else None) true (restoreFromTree now t).

(** ** The handle of [queue/queue.go] *)

Record Options := {
  o_VisibilityTimeout : Z; o_MaxRetries : Z; o_DedupID : bytes; o_DedupWindow : Z; o_Priority : Z; o_Delay : Z; o_TTL : Z; o_EnableDLQ : bool;
}.

Definition DefaultOptions : Options := Build_Options (30 * second) 5 [] (10 * minute) 128 0 0 true.

Definition WithVisibilityTimeout (d : Z) (o : Options) : Options := o <| o_VisibilityTimeout := d |>.
Definition WithMaxRetries (n : Z) (o : Options) : Options := o <| o_MaxRetries := n |>.
Definition WithDedupID (id : bytes) (window : option Z) (o : Options) : Options :=
  o <| o_DedupID := id |> <| o_DedupWindow := default (o_DedupWindow o) window |>.
Definition WithPriority (p : Z) (o : Options) : Options := o <| o_Priority := p |>.
Definition WithDelay (d : Z) (o : Options) : Options := o <| o_Delay := d |>.
Definition WithTTL (ttl : Z) (o : Options) : Options := o <| o_TTL := ttl |>.
Definition WithDLQ (enabled : bool) (o : Options) : Options := o <| o_EnableDLQ := enabled |>.

(** The message an enqueueing builds at the instant [now]. *)
Definition built (now : Z) (payload : bytes) (o : Options) : Message := {|
  m_ID := []; m_Queue := []; m_Payload := payload; m_Priority := o_Priority o; m_DedupID := o_DedupID o; m_RetryCount := 0;
  m_MaxRetries := o_MaxRetries o; m_State := StateReady;
  m_VisibleAt := if 0 <? o_Delay o then int64 (now + o_Delay o) else now; m_CreatedAt := 0;
  m_ExpireAt := if 0 <? o_TTL o then int64 (now + o_TTL o) else 0 |}.

Definition Queue_Enqueue (now0 now nowd : Z) (payload : bytes) (o : Options) (e : QueueEngine) (t : T) : QueueEngine * T * (queue_error + Message) :=
  Enqueue now nowd (built now0 payload o) e t.

(** A round of the handle's [Dequeue]. *)
Definition Queue_Dequeue (now : Z) (o : Options) (e : QueueEngine) (t : T) : QueueEngine * T * (queue_error + option Message) :=
  dequeue_round now (o_VisibilityTimeout o) e t.
End Engine.

(** [DequeueBatch] over the handle's [Dequeue]: the tasks taken before it fails
    are kept. *)
Fixpoint batch {S E} (dequeue : S -> S * (E + Message)) (count : nat) (results : list Message) (s : S) : S * (E + list Message) :=
  match count with
  | O => (s, inr results)
  | Datatypes.S n =>
      match dequeue s with
      | (s, inr m) => batch dequeue n (results ++ [m]) s
      | (s, inl e) => (s, if bool_decide (length results = 0%nat) then inl e else inr results)
      end
  end.

Definition DequeueBatch {S E} (dequeue : S -> S * (E + Message)) (count : Z) (s : S) : S * (E + list Message) :=
  if count <=? 0 then (s, inr []) else batch dequeue (Z.to_nat count) [] s.

(** An identifier stays recorded while its window lasts. *)
Lemma CheckOrSet_keeps now id id' window d until : d !! id = Some until -> now < until -> (CheckOrSet now id' window d).1 !! id = Some until.
Proof.
  intros Hd Hn. unfold CheckOrSet. case_bool_decide; [done|]. destruct (decide (id' = id)) as [->|E].
  - rewrite Hd. by rewrite (proj2 (Z.ltb_lt _ _)).
  - match goal with |- context [if ?c then (d, false) else _] => destruct c; [done|] end. cbn [fst].
    destruct (1000 <? _)%nat; [|by rewrite lookup_insert_ne]. unfold cleanupLocked.
    apply map_lookup_filter_Some_2; [by rewrite lookup_insert_ne|done].
Qed.

Lemma CheckOrSet_records now id window d : id <> [] -> (CheckOrSet now id window d).2 = true -> now < int64 (now + window) ->
  (CheckOrSet now id window d).1 !! id = Some (int64 (now + window)).
Proof.
  intros Hid Hc Hw. unfold CheckOrSet in *. rewrite bool_decide_eq_false_2 in * by done.
  match goal with |- context [if ?c then (d, false) else _] => destruct c; [done|] end. cbn [fst].
  destruct (1000 <? _)%nat; [|apply lookup_insert_eq]. unfold cleanupLocked. apply map_lookup_filter_Some_2; [apply lookup_insert_eq|done].
Qed.

(** ** A tree for examples *)

Module Sorted.

(** Entries in the order of their keys. *)
Abbreviation tree := (list (bytes * bytes)).

Fixpoint put (k v : bytes) (t : tree) : tree :=
  match t with
  | [] => [(k, v)]
  | (k', v') :: r =>
      if bool_decide (k = k') then (k, v) :: r else if bytes_le k k' then (k, v) :: t else (k', v') :: put k v r
  end.

#[global] Instance sorted_tree : BTree tree := {|
  bt_Insert k v t := if fits k v then put k v t else t;
  bt_Delete k t := filter (fun p => p.1 <> k) t;
  bt_Values t := t.*2;
|}.

End Sorted.
