(* ===== verification/TaskSpec.v ===== *)
(** What a task queue promises, without its heap, its maps and its two engines:
    tasks under their identifiers, each waiting or held by a consumer, in the
    queue or among the dead letters, and the events that may happen to them. *)

From S2P Require Import Prelude JsString JsNumber Go GoHeap QueueMessage QueueEngine.

Open Scope Z_scope.

(** The queue itself or its dead letters. *)
Inductive side := Main | Dead.

#[export] Instance side_eq_dec : EqDecision side.
Proof. solve_decision. Defined.

Record task := { t_side : side; t_held : bool; t_msg : Message }.

Abbreviation tasks := (gmap bytes task).

(** Why a lease ends without an acknowledgement. *)
Inductive reason := Rejected | TimedOut (now : Z).

Inductive event :=
| Added (m : Message)
| Expired (now : Z) (d : side) (m : Message)
| Taken (now : Z) (d : side) (m : Message)
| Acked (d : side) (id : bytes)
| Extended (d : side) (id : bytes)
| Requeued (why : reason) (d : side) (id : bytes)
| Buried (why : reason) (id : bytes)
| Dropped (why : reason) (d : side) (id : bytes).

Definition expired (now : Z) (m : Message) : bool := (0 <? m_ExpireAt m) && (m_ExpireAt m <=? now).

Definition lease_over (why : reason) (m : Message) : Prop :=
  match why with Rejected => True | TimedOut now => m_VisibleAt m <= now end.

(** What the message in the dead-letter queue keeps of the one that failed. *)
Record buried_as (m m' : Message) : Prop := {
  b_id : m_ID m' = m_ID m; b_payload : m_Payload m' = m_Payload m; b_priority : m_Priority m' = m_Priority m;
  b_expire : m_ExpireAt m' = m_ExpireAt m; b_retry : m_RetryCount m' = m_RetryCount m;
}.

(** The range of [int64]. *)
Definition in_int64 (z : Z) : Prop := - 2 ^ 63 <= z < 2 ^ 63.

Inductive tstep : tasks -> event -> tasks -> Prop :=
| t_add s m : s !! m_ID m = None -> m_State m = StateReady -> m_RetryCount m = 0 -> 0 < m_MaxRetries m < 2 ^ 63 ->
    tstep s (Added m) (<[m_ID m := Build_task Main false m]> s)
| t_expire s now d m : s !! m_ID m = Some (Build_task d false m) -> expired now m = true ->
    tstep s (Expired now d m) (delete (m_ID m) s)
| t_take s now v d m : s !! m_ID m = Some (Build_task d false m) -> expired now m = false -> m_VisibleAt m <= now ->
    (forall id m', s !! id = Some (Build_task d false m') -> before m' m = false) ->
    tstep s (Taken now d (leased now v m)) (<[m_ID m := Build_task d true (leased now v m)]> s)
| t_ack s d id m : s !! id = Some (Build_task d true m) -> tstep s (Acked d id) (delete id s)
| t_extend s d id m z : s !! id = Some (Build_task d true m) -> in_int64 z ->
    tstep s (Extended d id) (<[id := Build_task d true (m <| m_VisibleAt := z |>)]> s)
| t_requeue s why d id m z : s !! id = Some (Build_task d true m) -> lease_over why m -> m_RetryCount m < m_MaxRetries m -> in_int64 z ->
    tstep s (Requeued why d id) (<[id := Build_task d false (m <| m_State := StateReady |> <| m_VisibleAt := z |>)]> s)
| t_bury s why id m m' : s !! id = Some (Build_task Main true m) -> lease_over why m -> buried_as m m' ->
    tstep s (Buried why id) (<[id := Build_task Dead false m']> s)
| t_drop s why d id m : s !! id = Some (Build_task d true m) -> lease_over why m -> tstep s (Dropped why d id) (delete id s).

Inductive tsteps : tasks -> list event -> tasks -> Prop :=
| ts_nil s : tsteps s [] s
| ts_cons s ev s' evs s'' : tstep s ev s' -> tsteps s' evs s'' -> tsteps s (ev :: evs) s''.

#[export] Hint Constructors tstep tsteps : core.

Lemma tsteps_one s ev s' : tstep s ev s' -> tsteps s [ev] s'.
Proof. eauto. Qed.

Lemma tsteps_app s evs s' evs' s'' : tsteps s evs s' -> tsteps s' evs' s'' -> tsteps s (evs ++ evs') s''.
Proof. induction 1; simpl; eauto. Qed.

(** ** Well-formed tasks *)

(** A task is filed under its identifier; in the queue it has a delivery left
    while it waits, and no more than allowed while it is held. *)
Definition task_ok (id : bytes) (k : task) : Prop :=
  m_ID (t_msg k) = id /\
  (t_side k = Main -> m_MaxRetries (t_msg k) < 2 ^ 63 /\
    if t_held k then 0 < m_RetryCount (t_msg k) <= m_MaxRetries (t_msg k)
    else 0 <= m_RetryCount (t_msg k) < m_MaxRetries (t_msg k)).

Definition tasks_ok (s : tasks) : Prop := map_Forall task_ok s.

Lemma tstep_ok s ev s' : tasks_ok s -> tstep s ev s' -> tasks_ok s'.
Proof.
  intros Hs Hst. destruct Hst as [s m Hn ? Hr Hm|s now d m Hm He|s now v d m Hm He Hv Hb|s d id m Hm|s d id m z Hm ?|s why d id m z Hm Hl Hr ?
    |s why id m m' Hm Hl Hb|s why d id m Hm Hl]; try (by apply map_Forall_delete); apply map_Forall_insert_2; try done.
  - split; [done|]. intros _. cbn [t_held t_msg]. lia.
  - destruct (Hs _ _ Hm) as [_ Hok]. split; [done|]. intros Hd. destruct (Hok Hd) as [Hx Hrange]. destruct m. cbn in Hx, Hrange |- *.
    split; [done|]. rewrite int64_small; lia.
  - destruct (Hs _ _ Hm) as [Hid Hok]. split; [done|]. intros Hd. by destruct (Hok Hd).
  - destruct (Hs _ _ Hm) as [Hid Hok]. split; [done|]. intros Hd. destruct (Hok Hd) as [? Hrange]. destruct m. cbn in *. lia.
  - destruct (Hs _ _ Hm) as [Hid Hok]. split; [|done]. cbn. by rewrite (b_id m m').
Qed.

Lemma tsteps_ok s evs s' : tasks_ok s -> tsteps s evs s' -> tasks_ok s'.
Proof. intros Hs. induction 1 as [|s ev s' evs s'' Hst _ IH]; [done|]. apply IH. by eapply tstep_ok. Qed.

(** ** No task is lost *)

(** The events that take the task [id] away, its expiry aside. *)
Definition removes (id : bytes) (ev : event) : Prop :=
  match ev with
  | Acked _ i | Dropped _ _ i => i = id
  | _ => False
  end.

(** What a task keeps through its life. *)
Record same_task (m m' : Message) : Prop := {
  same_id : m_ID m' = m_ID m; same_payload : m_Payload m' = m_Payload m; same_priority : m_Priority m' = m_Priority m;
  same_expire : m_ExpireAt m' = m_ExpireAt m;
}.

#[export] Instance same_task_preorder : PreOrder same_task.
Proof. split; [by intros m|]. intros a b c [] []. split; congruence. Qed.

Lemma update_keeps (s : tasks) i k0 k0' id k : s !! i = Some k0 -> s !! id = Some k -> same_task (t_msg k0) (t_msg k0') ->
  exists k', <[i := k0']> s !! id = Some k' /\ same_task (t_msg k) (t_msg k').
Proof.
  intros Hi Hk Hsame. destruct (decide (i = id)) as [->|E].
  - exists k0'. rewrite lookup_insert_eq. split; [done|]. congruence.
  - exists k. by rewrite lookup_insert_ne.
Qed.

Lemma tstep_keeps s ev s' id k : tasks_ok s -> tstep s ev s' -> s !! id = Some k -> m_ExpireAt (t_msg k) <= 0 -> ~ removes id ev ->
  exists k', s' !! id = Some k' /\ same_task (t_msg k) (t_msg k').
Proof.
  intros Hs Hst Hk Hx Hr.
  destruct Hst as [s m Hn ? ? ?|s now d m Hm He|s now v d m Hm He Hv Hb|s d i m Hm|s d i m z Hm ?|s why d i m z Hm Hl ? ?
    |s why i m m' Hm Hl Hb|s why d i m Hm Hl]; cbn in Hr; try (exists k; by rewrite lookup_delete_ne); try (by eapply update_keeps).
  - exists k. by rewrite lookup_insert_ne by congruence.
  - exists k. rewrite lookup_delete_ne; [done|]. intros E. rewrite E, Hk in Hm. injection Hm as ->. cbn in Hx.
    unfold expired in He. apply andb_true_iff in He as [He _]. apply Z.ltb_lt in He. lia.
  - eapply update_keeps; [done..|]. destruct Hb. by split.
Qed.

Lemma tsteps_keep s evs s' id k : tasks_ok s -> tsteps s evs s' -> s !! id = Some k -> m_ExpireAt (t_msg k) <= 0 -> Forall (fun ev => ~ removes id ev) evs ->
  exists k', s' !! id = Some k' /\ same_task (t_msg k) (t_msg k').
Proof.
  intros Hs Hst. revert k. induction Hst as [s|s ev s1 evs s2 Hst _ IH]; intros k Hk Hx Hf; [by exists k|].
  apply Forall_cons in Hf as [Hr Hf]. destruct (tstep_keeps _ _ _ _ _ Hs Hst Hk Hx Hr) as (k1 & Hk1 & S1).
  assert (m_ExpireAt (t_msg k1) <= 0) as Hx1 by (by rewrite (same_expire _ _ S1)).
  destruct (IH (tstep_ok _ _ _ Hs Hst) _ Hk1 Hx1 Hf) as (k2 & Hk2 & S2). exists k2. split; [done|]. by transitivity (t_msg k1).
Qed.

(** ** A task is held by one consumer at a time *)

(** The events that may end a lease of [id] on side [d] that lasts until
    [until]. *)
Definition ends_lease (d : side) (id : bytes) (until : Z) (ev : event) : Prop :=
  let over why := match why with Rejected => True | TimedOut now => until <= now end in
  match ev with
  | Acked d' i | Extended d' i => d' = d /\ i = id
  | Requeued why d' i | Dropped why d' i => d' = d /\ i = id /\ over why
  | Buried why i => d = Main /\ i = id /\ over why
  | _ => False
  end.

(** The event hands out the task [id]. *)
Definition hands_out (id : bytes) (ev : event) : Prop :=
  match ev with Taken _ _ m => m_ID m = id | _ => False end.

Lemma leased_id now v m : m_ID (leased now v m) = m_ID m.
Proof. by destruct m. Qed.

Lemma tstep_held s ev s' id d m : tasks_ok s -> tstep s ev s' -> s !! id = Some (Build_task d true m) ->
  ~ ends_lease d id (m_VisibleAt m) ev -> s' !! id = Some (Build_task d true m) /\ ~ hands_out id ev.
Proof.
  intros Hs Hst Hk He. assert (m_ID m = id) as Hid by (by destruct (Hs _ _ Hk)).
  destruct Hst as [s m1 Hn ? ? ?|s now d1 m1 Hm ?|s now v d1 m1 Hm ? ? ?|s d1 i m1 Hm|s d1 i m1 z Hm ?|s why d1 i m1 z Hm Hl ? ?
    |s why i m1 m2 Hm Hl ?|s why d1 i m1 Hm Hl]; cbn in He |- *.
  all: match goal with
       | |- <[?i := _]> _ !! _ = _ /\ _ => destruct (decide (i = id)) as [E|E]; [|rewrite lookup_insert_ne by done]
       | |- delete ?i _ !! _ = _ /\ _ => destruct (decide (i = id)) as [E|E]; [|rewrite lookup_delete_ne by done]
       end; try (split; [done|rewrite ?leased_id; intros ?; by exfalso; auto]); try congruence.
  all: exfalso; apply He; rewrite E, Hk in Hm; simplify_eq; split_and?; try done; by destruct why.
Qed.

Lemma tsteps_held s evs s' id d m : tasks_ok s -> tsteps s evs s' -> s !! id = Some (Build_task d true m) ->
  Forall (fun ev => ~ ends_lease d id (m_VisibleAt m) ev) evs ->
  s' !! id = Some (Build_task d true m) /\ Forall (fun ev => ~ hands_out id ev) evs.
Proof.
  intros Hs Hst Hk. induction Hst as [s|s ev s1 evs s2 Hst _ IH]; [done|]. intros [He Hf]%Forall_cons.
  destruct (tstep_held _ _ _ _ _ _ Hs Hst Hk He) as [Hk1 Hn]. destruct (IH (tstep_ok _ _ _ Hs Hst) Hk1 Hf). auto.
Qed.

(** ** Deliveries are bounded *)

(** How often [id] is handed out by the queue itself. *)
Definition delivers (id : bytes) (ev : event) : Z :=
  match ev with Taken _ Main m => if bool_decide (m_ID m = id) then 1 else 0 | _ => 0 end.

Definition deliveries (id : bytes) (evs : list event) : Z := foldr (fun ev n => delivers id ev + n) 0 evs.

Lemma deliveries_app id evs evs' : deliveries id (evs ++ evs') = deliveries id evs + deliveries id evs'.
Proof. induction evs as [|ev evs IH]; simpl; lia. Qed.

(** The deliveries a task has left. *)
Definition left_of (k : task) : Z :=
  match t_side k with Main => m_MaxRetries (t_msg k) - m_RetryCount (t_msg k) | Dead => 0 end.

Definition left (s : tasks) (id : bytes) : Z := match s !! id with Some k => left_of k | None => 0 end.

Definition adds (id : bytes) (ev : event) : Prop := match ev with Added m => m_ID m = id | _ => False end.

Lemma left_of_nonneg id k : task_ok id k -> 0 <= left_of k.
Proof. intros [_ Hok]. unfold left_of. destruct k as [[] h m]; [|done]. destruct (Hok eq_refl) as [_ Hr]. cbn in *. destruct h; lia. Qed.

Lemma left_nonneg s id : tasks_ok s -> 0 <= left s id.
Proof. intros Hs. unfold left. destruct (s !! id) as [k|] eqn:Hk; [|done]. by eapply left_of_nonneg, Hs. Qed.

Lemma left_update s i k k' id n : s !! i = Some k -> n + left_of k' <= left_of k -> 0 <= n ->
  (if bool_decide (i = id) then n else 0) + left (<[i := k']> s) id <= left s id.
Proof.
  intros Hk Hn Hp. unfold left. case_bool_decide as E.
  - subst. by rewrite lookup_insert_eq, Hk.
  - by rewrite lookup_insert_ne.
Qed.

Lemma left_delete s i id : tasks_ok s -> left (delete i s) id <= left s id.
Proof.
  intros Hs. pose proof (left_nonneg s id Hs). unfold left in *. destruct (decide (i = id)) as [->|E].
  - by rewrite lookup_delete_eq.
  - by rewrite lookup_delete_ne.
Qed.

Lemma tstep_left s ev s' id : tasks_ok s -> tstep s ev s' -> ~ adds id ev -> delivers id ev + left s' id <= left s id.
Proof.
  intros Hs Hst Ha.
  destruct Hst as [s m1 Hn ? ? ?|s now d1 m1 Hm ?|s now v d1 m1 Hm ? ? ?|s d1 i m1 Hm|s d1 i m1 z Hm ?|s why d1 i m1 z Hm Hl ? ?
    |s why i m1 m2 Hm Hl ?|s why d1 i m1 Hm Hl]; cbn [delivers] in *; try (rewrite Z.add_0_l; by apply left_delete).
  - cbn in Ha. unfold left. by rewrite lookup_insert_ne.
  - rewrite leased_id. destruct (Hs _ _ Hm) as [_ Hok].
    refine (Z.le_trans _ _ _ _ (left_update s (m_ID m1) _ (Build_task d1 true (leased now v m1)) id (match d1 with Main => 1 | Dead => 0 end) Hm _ _)).
    + destruct d1; [done|]. by case_bool_decide.
    + destruct d1; [|done]. destruct (Hok eq_refl) as [? Hr]. destruct m1. unfold left_of. cbn in * |- *. rewrite int64_small; lia.
    + by destruct d1.
  - refine (Z.le_trans _ _ _ _ (left_update s i _ _ id 0 Hm _ _)); [by case_bool_decide|by destruct m1, d1|done].
  - refine (Z.le_trans _ _ _ _ (left_update s i _ _ id 0 Hm _ _)); [by case_bool_decide|by destruct m1, d1|done].
  - refine (Z.le_trans _ _ _ _ (left_update s i _ _ id 0 Hm _ _)); [by case_bool_decide|by eapply left_of_nonneg, Hs|done].
Qed.

Lemma tsteps_left s evs s' id : tasks_ok s -> tsteps s evs s' -> Forall (fun ev => ~ adds id ev) evs -> deliveries id evs + left s' id <= left s id.
Proof.
  intros Hs Hst. induction Hst as [s|s ev s1 evs s2 Hst _ IH]; [simpl; lia|]. intros [He Hf]%Forall_cons. cbn [deliveries foldr].
  pose proof (tstep_left _ _ _ id Hs Hst He). specialize (IH (tstep_ok _ _ _ Hs Hst) Hf). unfold deliveries in IH. lia.
Qed.

(** No more deliveries than are left. *)
Lemma deliveries_left s evs s' id : tasks_ok s -> tsteps s evs s' -> Forall (fun ev => ~ adds id ev) evs -> deliveries id evs <= left s id.
Proof.
  intros Hs Hst Hf. pose proof (tsteps_left _ _ _ _ Hs Hst Hf). pose proof (left_nonneg s' id (tsteps_ok _ _ _ Hs Hst)). lia.
Qed.

(** ** Where tasks come from *)

Lemma tsteps_absent s evs s' id : tasks_ok s -> tsteps s evs s' -> s !! id = None -> Forall (fun ev => ~ adds id ev) evs -> s' !! id = None.
Proof.
  intros Hs Hst. induction Hst as [s|s ev s1 evs s2 Hst _ IH]; [done|]. intros Hn [Ha Hf]%Forall_cons.
  apply IH; [by eapply tstep_ok| |done].
  destruct Hst as [s m Hn' ? ? ?|s now d m Hm He|s now v d m Hm He Hv Hb|s d i m Hm|s d i m z Hm ?|s why d i m z Hm Hl ? ?
    |s why i m m' Hm Hl Hb|s why d i m Hm Hl]; cbn in Ha; try (by apply lookup_delete_None; right); rewrite lookup_insert_ne; congruence.
Qed.

(** Dead letters nobody takes are never held, so none is dropped. *)
Lemma graves_at_rest s evs s' : tsteps s evs s' -> Forall (fun ev => match ev with Taken _ Dead _ => False | _ => True end) evs ->
  (forall id m, s !! id <> Some (Build_task Dead true m)) ->
  (forall id m, s' !! id <> Some (Build_task Dead true m)) /\ forall why id, Dropped why Dead id ∉ evs.
Proof.
  intros Hst. induction Hst as [s|s ev s1 evs s2 Hst _ IH].
  { intros _ Hs. split; [done|by intros ? ? ?%not_elem_of_nil]. }
  intros [Ht Hf]%Forall_cons Hs.
  assert ((forall id m, s1 !! id <> Some (Build_task Dead true m)) /\ forall why id, ev <> Dropped why Dead id) as [Hs1 Hev].
  { destruct Hst as [s m1 Hn ? ? ?|s now d1 m1 Hm He|s now v d1 m1 Hm He Hv Hb|s d1 j m1 Hm|s d1 j m1 z Hm ?|s why d1 j m1 z Hm Hl ? ?
    |s why j m1 m2 Hm Hl Hb|s why d1 j m1 Hm Hl]; (split; [intros i m Hi|intros why' i' E]); try done;
    rewrite ?lookup_insert_Some, ?lookup_delete_Some in *; naive_solver. }
  destruct (IH Hf Hs1) as [Hs2 Hd]. split; [done|]. intros why id [E|Hin]%elem_of_cons; [by eapply Hev|by eapply Hd].
Qed.
