(* ===== verification/QueueRefinement.v ===== *)
(** The engine of [internal/queue] implements the queue of [TaskSpec]: each
    operation on the heap, the map of leases and the dead-letter engine is a
    sequence of events on tasks, and writes to the tree what the events say. *)

From S2P Require Import Prelude JsString JsNumber Go GoHeap QueueMessage QueueEngine TaskSpec.

Open Scope Z_scope.

#[export] Instance before_order : StrictWeak before.
Proof.
  split; intros *; unfold before; repeat (case_match; try done); rewrite ?Z.ltb_lt, ?Z.ltb_ge, ?negb_true_iff, ?negb_false_iff in *;
    rewrite ?Z.eqb_eq, ?Z.eqb_neq in *; lia.
Qed.

(** ** Identifiers are not reused *)

Lemma decimal_no_bar z : Forall (fun c => c <> 95)%N (decimal z).
Proof.
  assert (forall n, Forall (fun c => c <> 95)%N (digits n)) as Hd.
  { intros n. eapply Forall_impl; [apply digits_digit|]. by intros c Hc ->. }
  unfold decimal, Z_str. case_match; [by constructor|done].
Qed.

(** The part behind the first separator. *)
Lemma behind_bar (a a' b b' : bytes) : Forall (fun c => c <> 95)%N a -> Forall (fun c => c <> 95)%N a' ->
  a ++ 95%N :: b = a' ++ 95%N :: b' -> b = b'.
Proof.
  revert a'. induction a as [|x a IH]; intros [|y a'] Ha Ha'; simpl; try rewrite Forall_cons in Ha; try rewrite Forall_cons in Ha'; intros [=]; subst; try tauto.
  apply (IH a'); tauto.
Qed.

Lemma message_id_seq now k now' k' : 0 <= k -> 0 <= k' -> message_id now k = message_id now' k' -> k = k'.
Proof.
  intros Hk Hk' E. unfold message_id in E. apply app_inv_head in E. change (gs "_" ++ ?l) with (95%N :: l) in E.
  apply behind_bar in E; [|apply decimal_no_bar..]. unfold decimal, Z_str in E.
  rewrite !(proj2 (Z.ltb_ge _ _)) in E by lia. apply (f_equal (digits_value 0)) in E. rewrite !digits_roundtrip in E. lia.
Qed.

Definition numbered (n : Z) (id : bytes) : Prop := exists now k, id = message_id now k /\ 0 < k <= n.

Lemma numbered_mono n n' id : n <= n' -> numbered n id -> numbered n' id.
Proof. intros Hn (now & k & -> & Hk). exists now, k. split; [done|lia]. Qed.

Lemma numbered_fresh n now id : 0 <= n -> numbered n id -> message_id now (n + 1) <> id.
Proof. intros Hn (now' & k & -> & Hk) E. apply message_id_seq in E; lia. Qed.

(** ** The heap and the map of an engine *)

(** The waiting and the held tasks of one side. *)
Record holds (d : side) (ready : list Message) (held : gmap bytes Message) (s : tasks) : Prop := {
  h_heap : heap before ready;
  h_nodup : NoDup (m_ID <$> ready);
  h_ready : forall m, m ∈ ready <-> s !! m_ID m = Some (Build_task d false m);
  h_held : forall id m, held !! id = Some m <-> s !! id = Some (Build_task d true m);
}.

Section Holds.
Context (d : side).
Implicit Types (ready : list Message) (held : gmap bytes Message) (s : tasks).

(** What happens to the other side does not matter. *)
Lemma holds_frame ready held s s' : holds d ready held s ->
  (forall id h m, s' !! id = Some (Build_task d h m) <-> s !! id = Some (Build_task d h m)) -> holds d ready held s'.
Proof.
  intros [Hh Hn Hr Hl] Hs. split; [done..| |].
  - intros m. by rewrite Hs.
  - intros id m. by rewrite Hs.
Qed.

Lemma ready_id ready held s m m' : holds d ready held s -> m ∈ ready -> m' ∈ ready -> m_ID m = m_ID m' -> m = m'.
Proof. intros Hh Hm Hm' E. apply (h_ready _ _ _ _ Hh) in Hm, Hm'. congruence. Qed.

(** A new waiting task. *)
Lemma holds_push ready held s m : holds d ready held s -> s !! m_ID m = None ->
  holds d (Push before ready m) held (<[m_ID m := Build_task d false m]> s).
Proof.
  intros [Hh Hn Hr Hl] Hnew. split.
  - by apply Push_heap; [apply _|].
  - rewrite Push_Permutation. apply NoDup_cons. split; [|done]. intros (m' & E & Hm')%list_elem_of_fmap. apply Hr in Hm'. congruence.
  - intros m'. rewrite Push_Permutation, elem_of_cons, Hr. destruct (decide (m_ID m = m_ID m')) as [E|E].
    + rewrite <- E, Hnew, lookup_insert_eq. naive_solver.
    + rewrite lookup_insert_ne by done. naive_solver.
  - intros id m'. rewrite Hl. destruct (decide (m_ID m = id)) as [<-|E]; [rewrite lookup_insert_eq, Hnew|rewrite lookup_insert_ne by done]; naive_solver.
Qed.

(** The first waiting task taken out. *)
Lemma holds_pop m r held s : holds d (m :: r) held s -> holds d (Pop before (m :: r)) held (delete (m_ID m) s).
Proof.
  intros [Hh Hn Hr Hl]. assert (m_ID <$> (m :: Pop before (m :: r)) ≡ₚ m_ID <$> m :: r) as Hp by (by rewrite Pop_Permutation).
  rewrite <- Hp in Hn. apply NoDup_cons in Hn as [Hm Hn].
  assert (s !! m_ID m = Some (Build_task d false m)) as Hs by (apply Hr, elem_of_cons; by left). split.
  - by apply Pop_heap; [apply _|].
  - done.
  - intros m'. destruct (decide (m_ID m = m_ID m')) as [E|E].
    + rewrite E, lookup_delete_eq. split; [|done]. intros Hm'. destruct Hm. rewrite E. by apply list_elem_of_fmap_2.
    + rewrite lookup_delete_ne, <- Hr by done.
      transitivity (m' ∈ m :: Pop before (m :: r)); [|by rewrite (Pop_Permutation before m r)].
      rewrite elem_of_cons. split; [by right|]. by intros [-> |].
  - intros id m'. rewrite Hl. destruct (decide (m_ID m = id)) as [<-|E]; [rewrite lookup_delete_eq, Hs|rewrite lookup_delete_ne by done]; naive_solver.
Qed.

(** A lease given and taken back. *)
Lemma holds_lease ready held s m : holds d ready held s -> s !! m_ID m = None ->
  holds d ready (<[m_ID m := m]> held) (<[m_ID m := Build_task d true m]> s).
Proof.
  intros [Hh Hn Hr Hl] Hnew. split; [done..| |].
  - intros m'. rewrite Hr. destruct (decide (m_ID m = m_ID m')) as [E|E]; [rewrite <- E, lookup_insert_eq, Hnew|rewrite lookup_insert_ne by done]; naive_solver.
  - intros id m'. destruct (decide (m_ID m = id)) as [<-|E]; [rewrite !lookup_insert_eq|rewrite !lookup_insert_ne by done]; naive_solver.
Qed.

Lemma holds_release ready held s id m : holds d ready held s -> held !! id = Some m -> holds d ready (delete id held) (delete id s).
Proof.
  intros [Hh Hn Hr Hl] Hm. apply Hl in Hm as Hs. split; [done..| |].
  - intros m'. rewrite Hr. destruct (decide (id = m_ID m')) as [->|E]; [rewrite lookup_delete_eq, Hs|rewrite lookup_delete_ne by done]; naive_solver.
  - intros id' m'. destruct (decide (id = id')) as [<-|E]; [by rewrite !lookup_delete_eq|by rewrite !lookup_delete_ne].
Qed.
End Holds.

(** ** Operations *)

(** What a consumer or the worker of an engine does. *)
Inductive action :=
| ADequeue (now visibility : Z)
| AReceive
| AAck (id : bytes)
| ANack (now dnow : Z) (id : bytes) (requeue : bool)
| AExtend (now : Z) (id : bytes) (d : Z)
| ATick (now : Z) (ids : list (bytes * Z)).

(** What happens to a queue: a new task, an action on the queue or on its
    dead-letter queue, its closing. *)
Inductive op :=
| OEnqueue (now0 now nowd : Z) (payload : bytes) (o : Options)
| OMain (a : action)
| ODead (a : action)
| OClose.

Inductive answer :=
| Nothing
| Accepted (r : queue_error + Message)
| Delivered (r : queue_error + option Message)
| Settled (r : option queue_error).

Section Operations.
Context {T : Type} `{BTree T}.

Definition act (a : action) (e : QueueEngine) (t : T) : QueueEngine * T * answer :=
  match a with
  | ADequeue now visibility => let r := dequeue_round now visibility e t in (r.1, Delivered r.2)
  | AReceive => (receive e, t, Nothing)
  | AAck id => let r := Ack id e t in (r.1, Settled r.2)
  | ANack now dnow id requeue => let r := Nack now dnow id requeue e t in (r.1, Settled r.2)
  | AExtend now id d => let r := Extend now id d e t in (r.1, Settled r.2)
  | ATick now ids => (checkInFlightAndDelayed now ids e t, Nothing)
  end.

Definition apply (o : op) (e : QueueEngine) (t : T) : QueueEngine * T * answer :=
  match o with
  | OEnqueue now0 now nowd payload o => let r := Queue_Enqueue now0 now nowd payload o e t in (r.1, Accepted r.2)
  | OMain a => act a e t
  | ODead a =>
      match q_dlq e with
      | Some d => let r := act a d t in (e <| q_dlq := Some r.1.1 |>, r.1.2, r.2)
      | None => (e, t, Nothing)
      end
  | OClose => (Close e, t, Nothing)
  end.

Fixpoint run (os : list op) (e : QueueEngine) (t : T) : QueueEngine * T * list answer :=
  match os with
  | [] => (e, t, [])
  | o :: r => let x := apply o e t in let y := run r x.1.1 x.1.2 in (y.1, x.2 :: y.2)
  end.

(** ** Events and the tree *)

(** What the event writes to the tree of the queue, when there is one ([b]);
    dead letters are not kept in it. *)
Definition effect (b : bool) (ev : event) (s' : tasks) (t : T) : T :=
  let write id := match s' !! id with Some k => bt_Insert id (Encode (t_msg k)) t | None => t end in
  if b then
    match ev with
    | Added m => write (m_ID m)
    | Expired _ Main m => bt_Delete (m_ID m) t
    | Taken _ Main m => write (m_ID m)
    | Acked Main id => bt_Delete id t
    | Extended Main id => write id
    | Requeued _ Main id => write id
    | Buried _ id => bt_Delete id t
    | Dropped _ Main id => bt_Delete id t
    | _ => t
    end
  else t.

Inductive psteps (b : bool) : tasks -> T -> list event -> tasks -> T -> Prop :=
| ps_nil s t : psteps b s t [] s t
| ps_cons s t ev s' evs s'' t'' : tstep s ev s' -> psteps b s' (effect b ev s' t) evs s'' t'' -> psteps b s t (ev :: evs) s'' t''.

Lemma psteps_one b s t ev s' t' : tstep s ev s' -> t' = effect b ev s' t -> psteps b s t [ev] s' t'.
Proof. intros Hst ->. eapply ps_cons; [done|constructor]. Qed.

Lemma psteps_app b s t evs s' t' evs' s'' t'' : psteps b s t evs s' t' -> psteps b s' t' evs' s'' t'' -> psteps b s t (evs ++ evs') s'' t''.
Proof. induction 1; simpl; [done|]. intros. eapply ps_cons; eauto. Qed.

Lemma psteps_tsteps b s t evs s' t' : psteps b s t evs s' t' -> tsteps s evs s'.
Proof. induction 1; eauto. Qed.

(** ** One engine, on either side *)

(** The dead-letter engine of the queue, when there is one, holds the dead
    letters. *)
Definition linked (d : side) (e : QueueEngine) (s : tasks) : Prop :=
  match q_dlq e with
  | Some dl => d = Main /\ holds Dead (q_ready dl) (q_inFlight dl) s /\ q_dlq dl = None /\ q_tree dl = false
  | None => True
  end.

Definition at_side (d : side) (e : QueueEngine) (s : tasks) : Prop :=
  holds d (q_ready e) (q_inFlight e) s /\ linked d e s.

(** Whether the engine writes to the tree. *)
Definition writes (d : side) (b : bool) (e : QueueEngine) : Prop := q_tree e = match d with Main => b | Dead => false end.

(** Dead letters have a place to go. *)
Definition grave_open (e : QueueEngine) : Prop := exists dl, q_dlq e = Some dl /\ q_closed dl = false.

(** What actions leave as it is. *)
Record same_engine (e e' : QueueEngine) : Prop := {
  se_name : q_name e' = q_name e; se_cfg : q_cfg e' = q_cfg e; se_tree : q_tree e' = q_tree e; se_seq : q_seq e' = q_seq e;
  se_closed : q_closed e' = q_closed e; se_dedup : q_dedup e' = q_dedup e; se_grave : grave_open e -> grave_open e';
}.

#[export] Instance same_engine_preorder : PreOrder same_engine.
Proof. split; [by intros e|]. intros a b c [] []. split; try congruence. auto. Qed.

(** The operation is explained by events of which [P] holds. *)
Definition simulated (d : side) (b : bool) (e : QueueEngine) (t : T) (s : tasks) (e' : QueueEngine) (t' : T) (P : list event -> Prop) : Prop :=
  exists evs s', psteps b s t evs s' t' /\ at_side d e' s' /\ same_engine e e' /\ P evs.

Lemma simulated_one d b e t s e' t' ev s' (P : list event -> Prop) :
  tstep s ev s' -> t' = effect b ev s' t -> at_side d e' s' -> same_engine e e' -> P [ev] -> simulated d b e t s e' t' P.
Proof. intros. exists [ev], s'. split; [by apply psteps_one|done]. Qed.

Lemma simulated_none d b e t s e' (P : list event -> Prop) : at_side d e' s -> same_engine e e' -> P [] -> simulated d b e t s e' t P.
Proof. intros. exists [], s. split; [constructor|done]. Qed.

(** ** Frames *)

Definition not_on (d : side) (s : tasks) (id : bytes) : Prop := forall h m, s !! id <> Some (Build_task d h m).

Lemma delete_other d s id : not_on d s id ->
  forall i h m, delete id s !! i = Some (Build_task d h m) <-> s !! i = Some (Build_task d h m).
Proof.
  intros Hn i h m. destruct (decide (id = i)) as [->|E]; [|by rewrite lookup_delete_ne].
  rewrite lookup_delete_eq. split; [done|]. intros Hs. by destruct (Hn h m).
Qed.

Lemma insert_other d s id k : not_on d s id -> t_side k <> d ->
  forall i h m, <[id := k]> s !! i = Some (Build_task d h m) <-> s !! i = Some (Build_task d h m).
Proof.
  intros Hn Hk i h m. destruct (decide (id = i)) as [->|E]; [|by rewrite lookup_insert_ne].
  rewrite lookup_insert_eq. split; [by intros [= ->]|]. intros Hs. by destruct (Hn h m).
Qed.

Lemma linked_frame d e s s' : linked d e s ->
  (forall i h m, d = Main -> s' !! i = Some (Build_task Dead h m) <-> s !! i = Some (Build_task Dead h m)) -> linked d e s'.
Proof.
  unfold linked. destruct (q_dlq e) as [dl|]; [|done]. intros (-> & Hh & ? & ?) Hs. split_and!; try done.
  eapply holds_frame; [done|]. intros. by apply Hs.
Qed.

Lemma linked_delete d e s id h m : linked d e s -> s !! id = Some (Build_task d h m) -> linked d e (delete id s).
Proof. intros Hl Hs. eapply linked_frame; [done|]. intros i h' m' ->. apply delete_other. intros ? ?. by rewrite Hs. Qed.

Lemma linked_insert d e s id k : linked d e s -> not_on Dead s id \/ d = Dead -> t_side k = d -> linked d e (<[id := k]> s).
Proof. intros Hl Hs Hk. eapply linked_frame; [done|]. intros i h' m' ->. apply insert_other; [by destruct Hs|]. by rewrite Hk. Qed.

(** Only what the two engines hold and where they are matters. *)
Lemma linked_same d e e' s : q_dlq e' = q_dlq e -> linked d e s -> linked d e' s.
Proof. unfold linked. by intros ->. Qed.

(** ** The parts of the operations *)

Definition ended (d : side) (why : reason) (id : bytes) (ev : event) : Prop :=
  ev = Requeued why d id \/ (d = Main /\ ev = Buried why id) \/ ev = Dropped why d id.

(** Dead letters are dropped only for want of an open dead-letter queue. *)
Definition keeps_graves (e : QueueEngine) (d : side) (evs : list event) : Prop :=
  d = Main -> grave_open e -> forall why id, Dropped why Main id ∉ evs.

Lemma keeps_graves_nil e d : keeps_graves e d [].
Proof. by intros _ _ why id ?%not_elem_of_nil. Qed.

(** The message a dead letter becomes. *)
Definition buried (dl : QueueEngine) (now dnow : Z) (msg : Message) : Message :=
  stamped dl dnow (m_ID msg) (msg <| m_State := StateDeadLetter |> <| m_VisibleAt := now |> <| m_DedupID := [] |>).

Lemma buried_fields dl now dnow msg : buried_as msg (buried dl now dnow msg).
Proof. by destruct msg. Qed.

Definition pushed (m : Message) (e : QueueEngine) : QueueEngine := notify (e <| q_ready := Push before (q_ready e) m |>).

Lemma dead_letter_eq now dnow msg e t : m_ID msg <> [] ->
  dead_letter now dnow msg e t =
    let t1 := forget e (m_ID msg) t in
    match q_dlq e with
    | None => (e, t1)
    | Some dl =>
        if q_closed dl then (e, t1)
        else (e <| q_dlq := Some (pushed (buried dl now dnow msg) dl) |>, persist dl (buried dl now dnow msg) t1)
    end.
Proof.
  intros Hne. unfold dead_letter, Enqueue. destruct e as [? ? ? ? [[? ? ? ? ? ? ? ? [] ?]|] ? ? ? ? ?], msg; cbn in *; try done.
  by rewrite !bool_decide_eq_false_2 by done.
Qed.

Lemma dead_letter_simulated d b e t s now dnow why id msg :
  at_side d e s -> writes d b e -> q_inFlight e !! id = Some msg -> m_ID msg = id -> id <> [] -> lease_over why msg ->
  let r := dead_letter now dnow msg (e <| q_inFlight := delete id (q_inFlight e) |>) t in
  simulated d b e t s r.1 r.2 (fun evs => (exists ev, evs = [ev] /\ ended d why id ev) /\ keeps_graves e d evs).
Proof.
  intros [Hh Hl] Hw Hm Hid Hne Hover. rewrite dead_letter_eq by congruence. rewrite Hid. unfold forget.
  pose proof (holds_release d _ _ _ _ _ Hh Hm) as Hh1. apply (h_held _ _ _ _ Hh) in Hm as Hs.
  pose proof (linked_delete _ _ _ _ _ _ Hl Hs) as Hl1. unfold writes in Hw.
  set (e1 := e <| q_inFlight := delete id (q_inFlight e) |>).
  assert (q_dlq e1 = q_dlq e) as Edl by (by destruct e). assert (q_tree e1 = q_tree e) as Etr by (by destruct e).
  assert (same_engine e e1) as Hse by (by destruct e).
  assert (q_ready e1 = q_ready e /\ q_inFlight e1 = delete id (q_inFlight e)) as [Erd Efl] by (by destruct e).
  clearbody e1. rewrite Edl, Etr.
  assert (~ grave_open e \/ d = Dead -> let t' := if q_tree e then bt_Delete id t else t in
    simulated d b e t s e1 t' (fun evs => (exists ev, evs = [ev] /\ ended d why id ev) /\ keeps_graves e d evs)) as Hdrop.
  { intros Hg t'. eapply (simulated_one _ _ _ _ _ _ _ (Dropped why d id)); [by eapply t_drop| | |done|].
    - unfold t', effect. rewrite Hw. by destruct b, d.
    - split; [by rewrite Erd, Efl|by eapply linked_same].
    - split; [exists (Dropped why d id); split; [done|by right; right]|]. intros -> Ho. by destruct Hg. }
  destruct (q_dlq e) as [dl|] eqn:Ed; cbn [fst snd].
  - unfold linked in Hl1. rewrite Ed in Hl1. destruct Hl1 as (-> & Hdl & Hnone & Htr). destruct (q_closed dl) eqn:Ec.
    { apply Hdrop. left. intros (dl' & Hd' & Ho). congruence. }
    cbn [fst snd]. set (m' := buried dl now dnow msg). assert (m_ID m' = id) as Hm' by (unfold m'; rewrite (b_id _ _ (buried_fields _ _ _ _)); done).
    assert (delete id s !! m_ID m' = None) as Hfree by (rewrite Hm'; apply lookup_delete_eq).
    eapply (simulated_one _ _ _ _ _ _ _ (Buried why id) (<[id := Build_task Dead false m']> s)).
    + eapply t_bury; [done..|apply buried_fields].
    + unfold persist, effect. rewrite Htr, Hw. by destruct b.
    + pose proof (holds_push Dead _ _ _ _ Hdl Hfree) as Hp. rewrite Hm', insert_delete_eq in Hp. split.
      * replace (q_ready _) with (q_ready e) by (by destruct e1). replace (q_inFlight _) with (delete id (q_inFlight e)) by (by destruct e1).
        eapply holds_frame; [exact Hh1|]. intros i h m. rewrite <- (insert_delete_eq s id). apply insert_other; [|done].
        intros ? ?. by rewrite lookup_delete_eq.
      * replace (linked _ _ _) with (linked Main (e1 <| q_dlq := Some (pushed m' dl) |>) (<[id := Build_task Dead false m']> s)) by done.
        unfold linked. replace (q_dlq _) with (Some (pushed m' dl)) by (by destruct e1).
        split; [done|]. by destruct dl.
    + transitivity e1; [done|]. destruct e1, dl. cbn in *. split; try done. intros _. by eexists.
    + split; [exists (Buried why id); split; [done|by right; left]|]. intros _ _ why' id' Hin. by apply list_elem_of_singleton in Hin.
  - apply Hdrop. left. intros (dl' & Hd' & Ho). congruence.
Qed.

(** The held task [id] replaced, waiting or held. *)
Lemma replaced_side d e s id h m k : linked d e s -> s !! id = Some (Build_task d h m) -> t_side k = d -> linked d e (<[id := k]> s).
Proof. intros Hl Hs Hk. eapply linked_insert; [done| |done]. destruct d; [left|by right]. intros ? ?. by rewrite Hs. Qed.

Lemma requeued_simulated d b e t s now why id msg :
  at_side d e s -> writes d b e -> q_inFlight e !! id = Some msg -> m_ID msg = id -> lease_over why msg ->
  m_RetryCount msg < m_MaxRetries msg -> in_int64 now ->
  let r := requeued now msg (e <| q_inFlight := delete id (q_inFlight e) |>) t in
  simulated d b e t s r.1 r.2 (fun evs => evs = [Requeued why d id]).
Proof.
  intros [Hh Hl] Hw Hm Hid Hover Hret Hint. set (m' := msg <| m_State := StateReady |> <| m_VisibleAt := now |>).
  assert (m_ID m' = id) as Hm' by (by destruct msg). apply (h_held _ _ _ _ Hh) in Hm as Hs.
  pose proof (holds_release d _ _ _ _ _ Hh Hm) as Hh1. unfold writes in Hw.
  assert (delete id s !! m_ID m' = None) as Hfree by (rewrite Hm'; apply lookup_delete_eq).
  pose proof (holds_push d _ _ _ _ Hh1 Hfree) as Hp. rewrite Hm', insert_delete_eq in Hp.
  eapply (simulated_one _ _ _ _ _ _ _ (Requeued why d id)); [by eapply t_requeue| | |by destruct e|done].
  - unfold requeued, persist, effect. fold m'. rewrite lookup_insert_eq. destruct e; cbn in *. fold m'. rewrite Hw, Hm'. by destruct b, d.
  - split; [by destruct e|]. eapply (linked_same d e); [by destruct e|]. by eapply replaced_side.
Qed.

Lemma Ack_simulated d b e t s id : at_side d e s -> writes d b e ->
  let r := Ack id e t in simulated d b e t s r.1.1 r.1.2 (fun evs => evs = match r.2 with None => [Acked d id] | Some _ => [] end).
Proof.
  intros [Hh Hl] Hw. unfold Ack. destruct (q_inFlight e !! id) as [msg|] eqn:Hm; cbn [fst snd]; [|by apply simulated_none].
  apply (h_held _ _ _ _ Hh) in Hm as Hs. unfold writes in Hw.
  eapply (simulated_one _ _ _ _ _ _ _ (Acked d id)); [by eapply t_ack| | |by destruct e|done].
  - unfold forget, effect. rewrite Hw. by destruct b, d.
  - split; [destruct e; by eapply holds_release|]. eapply (linked_same d e); [by destruct e|]. by eapply linked_delete.
Qed.

Lemma Extend_simulated d b e t s now id z : at_side d e s -> writes d b e -> tasks_ok s ->
  let r := Extend now id z e t in simulated d b e t s r.1.1 r.1.2 (fun evs => evs = match r.2 with None => [Extended d id] | Some _ => [] end).
Proof.
  intros [Hh Hl] Hw Hok. unfold Extend. destruct (q_inFlight e !! id) as [msg|] eqn:Hm; cbn [fst snd]; [|by apply simulated_none].
  apply (h_held _ _ _ _ Hh) in Hm as Hs. unfold writes in Hw. set (m' := msg <| m_VisibleAt := int64 (now + z) |>).
  assert (m_ID m' = id) as Hm' by (destruct (Hok _ _ Hs) as [Hid _]; by destruct msg).
  pose proof (holds_release d _ _ _ _ _ Hh Hm) as Hh1.
  assert (delete id s !! m_ID m' = None) as Hfree by (rewrite Hm'; apply lookup_delete_eq).
  pose proof (holds_lease d _ _ _ _ Hh1 Hfree) as Hp. rewrite Hm', !insert_delete_eq in Hp.
  eapply (simulated_one _ _ _ _ _ _ _ (Extended d id)); [by eapply t_extend; [|apply int64_range]| | |by destruct e|done].
  - unfold persist, effect. rewrite lookup_insert_eq. cbn [t_msg]. fold m'. rewrite Hw, Hm'. by destruct b, d.
  - split; [by destruct e|]. eapply (linked_same d e); [by destruct e|]. by eapply replaced_side.
Qed.

Lemma Nack_simulated d b e t s now dnow id requeue : at_side d e s -> writes d b e -> tasks_ok s -> s !! [] = None -> in_int64 now ->
  let r := Nack now dnow id requeue e t in
  simulated d b e t s r.1.1 r.1.2 (fun evs => (evs = [] \/ exists ev, evs = [ev] /\ ended d Rejected id ev) /\ keeps_graves e d evs).
Proof.
  intros Hat Hw Hok Hnil Hint. unfold Nack.
  destruct (q_inFlight e !! id) as [msg|] eqn:Hm; cbn [fst snd]; [|apply simulated_none; [done|done|split; [by left|apply keeps_graves_nil]]].
  apply (h_held _ _ _ _ (proj1 Hat)) in Hm as Hs. destruct (Hok _ _ Hs) as [Hid _]. cbn in Hid.
  destruct (negb requeue || (m_MaxRetries msg <=? m_RetryCount msg)) eqn:E; cbn [fst snd].
  - assert (id <> []) as Hne by (intros E0; rewrite E0 in Hs; by pose proof (eq_trans (eq_sym Hs) Hnil)).
    destruct (dead_letter_simulated d b e t s now dnow Rejected id msg) as (evs & s' & Hp & Ha & Hse & Hev & Hg); [done..|].
    exists evs, s'. split_and!; try done. by right.
  - apply orb_false_iff in E as [_ E]. apply Z.leb_gt in E.
    destruct (requeued_simulated d b e t s now Rejected id msg) as (evs & s' & Hp & [Ha Hl] & Hse & ->); [done..|].
    exists [Requeued Rejected d id], s'. split_and!; [done| | |right; by eexists; split; [|left]|].
    + set (r := requeued _ _ _ _) in *. destruct r as [e' t']. split; [by destruct e'|]. eapply (linked_same d e'); [by destruct e'|done].
    + etransitivity; [done|]. set (r := requeued _ _ _ _) in *. destruct r as [e' t']. by destruct e'.
    + intros _ _ why i Hin. by apply list_elem_of_singleton in Hin.
Qed.

(** *** Taking a task *)

Lemma next_visible_simulated d b e held fuel now ready t s :
  holds d ready held s -> writes d b e -> tasks_ok s -> (length ready <= fuel)%nat ->
  let r := next_visible fuel now e ready t in
  exists ms s', psteps b s t (Expired now d <$> ms) s' r.1.2 /\ (linked d e s -> linked d e s') /\
    match r.2 with
    | None => holds d r.1.1 held s' /\ forall m q, r.1.1 = m :: q -> expired now m = false /\ now < m_VisibleAt m
    | Some m =>
        s' !! m_ID m = Some (Build_task d false m) /\ expired now m = false /\ m_VisibleAt m <= now /\
        (forall id m', s' !! id = Some (Build_task d false m') -> before m' m = false) /\
        holds d r.1.1 held (delete (m_ID m) s')
    end.
Proof.
  revert ready t s. induction fuel as [|f IH]; intros ready t s Hh Hw Hok Hf.
  { destruct ready; [|simpl in Hf; lia]. exists [], s. cbn. by split_and!; [apply ps_nil|..]. }
  destruct ready as [|m q]; [exists [], s; cbn; by split_and!; [apply ps_nil|..]|]. cbn [next_visible]. fold (expired now m).
  assert (s !! m_ID m = Some (Build_task d false m)) as Hs by (apply (h_ready _ _ _ _ Hh), elem_of_cons; by left).
  destruct (expired now m) eqn:He; [|destruct (Z.ltb_spec now (m_VisibleAt m)) as [Hv|Hv]].
  - destruct (IH (Pop before (m :: q)) (forget e (m_ID m) t) (delete (m_ID m) s)) as (ms & s' & Hp & Hl & Hr); [by apply holds_pop|done|by apply map_Forall_delete| |].
    { pose proof (Permutation_length (Pop_Permutation before m q)) as Hlen. simpl in Hlen, Hf. lia. }
    exists (m :: ms), s'. split_and!; [|intros Hlk; by eapply Hl, linked_delete|done].
    eapply ps_cons; [by apply t_expire|].
    replace (effect _ _ _ _) with (forget e (m_ID m) t); [done|]. unfold writes in Hw. unfold forget, effect. rewrite Hw. by destruct b, d.
  - exists [], s. cbn. split_and!; [apply ps_nil|done|done|]. by intros ? ? [= <- <-].
  - exists [], s. cbn. split_and!; [apply ps_nil|done|done|done|done| |by apply holds_pop].
    intros id m' Hm'. eapply heap_root; [apply _|apply (h_heap _ _ _ _ Hh)|done|].
    apply (h_ready _ _ _ _ Hh). destruct (Hok _ _ Hm') as [Hid _]. by rewrite <- Hid in Hm'.
Qed.

(** Dropped from the top: expired tasks; then the first one, when it is visible. *)
Definition taken (d : side) (now : Z) (r : queue_error + option Message) (evs : list event) : Prop :=
  exists ms, evs = (Expired now d <$> ms) ++ match r with inr (Some m) => [Taken now d m] | _ => [] end.

Lemma dequeue_simulated d b e t s now visibility : at_side d e s -> writes d b e -> tasks_ok s ->
  let r := dequeue_round now visibility e t in simulated d b e t s r.1.1 r.1.2 (taken d now r.2).
Proof.
  intros [Hh Hl] Hw Hok. unfold dequeue_round. destruct (q_closed e) eqn:Ec; cbn [fst snd].
  { apply simulated_none; [done|done|by exists []]. }
  set (v := if visibility <=? 0 then _ else _).
  destruct (next_visible_simulated d b e (q_inFlight e) (length (q_ready e)) now (q_ready e) t s) as (ms & s' & Hp & Hl' & Hr); [done..|].
  specialize (Hl' Hl). destruct (next_visible _ _ _ _ _) as [[ready t'] [m|]] eqn:En; cbn [fst snd] in *.
  - destruct Hr as (Hs & He & Hv & Hb & Hh'). set (m' := leased now v m). assert (m_ID m' = m_ID m) as Hm' by apply leased_id.
    exists ((Expired now d <$> ms) ++ [Taken now d m']), (<[m_ID m := Build_task d true m']> s'). split_and!.
    + eapply psteps_app; [done|]. eapply psteps_one; [by apply t_take|]. unfold persist, effect. rewrite Hm', lookup_insert_eq. cbn [t_msg].
      replace (q_tree _) with (q_tree e) by (by destruct e). unfold writes in Hw. rewrite Hw. by destruct b, d.
    + assert (delete (m_ID m) s' !! m_ID m' = None) as Hfree by (rewrite Hm'; apply lookup_delete_eq).
      pose proof (holds_lease d _ _ _ _ Hh' Hfree) as Hlease. rewrite Hm', insert_delete_eq in Hlease. split.
      * destruct e; cbn in *. by rewrite Hm'.
      * eapply (linked_same d e); [by destruct e|]. by eapply replaced_side.
    + by destruct e.
    + by exists ms.
  - exists (Expired now d <$> ms), s'. split_and!; [done| |by destruct e|].
    + split; [destruct e; apply Hr|]. eapply (linked_same d e); [by destruct e|done].
    + exists ms. by rewrite app_nil_r.
Qed.

(** *** The worker *)

Lemma expire_lease_simulated d b e t s now dnow id : at_side d e s -> writes d b e -> tasks_ok s -> s !! [] = None -> in_int64 now ->
  let r := expire_lease now dnow id e t in
  simulated d b e t s r.1.1 r.1.2 (fun evs => Forall (fun ev => exists i, ended d (TimedOut now) i ev) evs /\ keeps_graves e d evs).
Proof.
  intros Hat Hw Hok Hnil Hint. unfold expire_lease.
  assert (forall e', e' = e -> simulated d b e t s e' t (fun evs => Forall (fun ev => exists i, ended d (TimedOut now) i ev) evs /\ keeps_graves e d evs)) as Hnone.
  { intros e' ->. apply simulated_none; [done|done|split; [done|apply keeps_graves_nil]]. }
  destruct (q_inFlight e !! id) as [msg|] eqn:Hm; [|by apply Hnone].
  apply (h_held _ _ _ _ (proj1 Hat)) in Hm as Hs. destruct (Hok _ _ Hs) as [Hid _]. cbn in Hid.
  destruct (Z.leb_spec (m_VisibleAt msg) now) as [Hv|]; [|by apply Hnone].
  assert (id <> []) as Hne by (intros E0; rewrite E0 in Hs; by pose proof (eq_trans (eq_sym Hs) Hnil)).
  destruct (Z.leb_spec (m_MaxRetries msg) (m_RetryCount msg)) as [Hr|Hr]; cbn [fst snd].
  - destruct (dead_letter_simulated d b e t s now dnow (TimedOut now) id msg) as (evs & s' & Hp & Ha & Hse & (ev & -> & He) & Hg); [done..|].
    exists [ev], s'. split_and!; try done. apply Forall_singleton. by exists id.
  - destruct (requeued_simulated d b e t s now (TimedOut now) id msg) as (evs & s' & Hp & Ha & Hse & ->); [done..|].
    exists [Requeued (TimedOut now) d id], s'. split_and!; try done; [apply Forall_singleton; exists id; by left|].
    intros _ _ why i Hin. by apply list_elem_of_singleton in Hin.
Qed.

Lemma ended_adds d why i id ev : ended d why i ev -> ~ adds id ev.
Proof. intros [-> | [[_ ->] | ->]] Hf; exact Hf. Qed.

Lemma expire_leases_simulated d b now ids : in_int64 now -> forall e t s c, at_side d e s -> writes d b e -> tasks_ok s -> s !! [] = None ->
  let r := expire_leases now ids e t c in
  simulated d b e t s r.1.1 r.1.2 (fun evs => Forall (fun ev => exists i, ended d (TimedOut now) i ev) evs /\ keeps_graves e d evs).
Proof.
  intros Hint. induction ids as [|[id dnow] ids IH]; intros e t s c Hat Hw Hok Hnil; cbn [expire_leases].
  { apply simulated_none; [done|done|split; [done|apply keeps_graves_nil]]. }
  destruct (expire_lease_simulated d b e t s now dnow id) as (evs & s1 & Hp & Ha & Hse & He & Hg); [done..|].
  destruct (expire_lease now dnow id e t) as [[e1 t1] c1]. cbn [fst snd] in *. pose proof (psteps_tsteps _ _ _ _ _ _ Hp) as Hts.
  destruct (IH e1 t1 s1 (c || c1)) as (evs' & s2 & Hp' & Ha' & Hse' & He' & Hg').
  { done. } { unfold writes in *. by rewrite (se_tree _ _ Hse). } { by eapply tsteps_ok. }
  { eapply tsteps_absent; [done..|]. eapply Forall_impl; [exact He|]. intros ev [i Hi]. by eapply ended_adds. }
  exists (evs ++ evs'), s2. split_and!; [by eapply psteps_app|done|by transitivity e1|by apply Forall_app|].
  intros -> Ho why i [Hin|Hin]%elem_of_app; [by apply (Hg eq_refl Ho why i)|]. by apply (Hg' eq_refl (se_grave _ _ Hse Ho) why i).
Qed.

(** *** Actions *)

(** The clock reads machine integers. *)
Definition int_action (a : action) : Prop := match a with ANack now _ _ _ | ATick now _ => in_int64 now | _ => True end.

(** The events that explain an action and its answer. *)
Definition explains (d : side) (a : action) (r : answer) (evs : list event) : Prop :=
  match a, r with
  | ADequeue now _, Delivered x => taken d now x evs
  | AReceive, Nothing => evs = []
  | AAck id, Settled x => evs = match x with None => [Acked d id] | Some _ => [] end
  | ANack _ _ id _, Settled _ => evs = [] \/ exists ev, evs = [ev] /\ ended d Rejected id ev
  | AExtend _ id _, Settled x => evs = match x with None => [Extended d id] | Some _ => [] end
  | ATick now _, Nothing => Forall (fun ev => exists i, ended d (TimedOut now) i ev) evs
  | _, _ => False
  end.

(** The same, event by event. *)
Definition causes (d : side) (a : action) (r : answer) (ev : event) : Prop :=
  match a with
  | ADequeue now _ => (exists m, ev = Expired now d m) \/ (exists m, r = Delivered (inr (Some m)) /\ ev = Taken now d m)
  | AReceive => False
  | AAck id => ev = Acked d id
  | ANack _ _ id _ => ended d Rejected id ev
  | AExtend _ id _ => ev = Extended d id
  | ATick now _ => exists i, ended d (TimedOut now) i ev
  end.

Lemma explains_causes d a r evs ev : explains d a r evs -> ev ∈ evs -> causes d a r ev.
Proof.
  destruct a, r; try done; cbn [explains causes].
  - intros [ms ->] [(m & -> & _)%list_elem_of_fmap|Hin]%elem_of_app; [left; by exists m|right].
    destruct r as [|[m|]]; [by apply not_elem_of_nil in Hin| |by apply not_elem_of_nil in Hin].
    apply list_elem_of_singleton in Hin. by exists m.
  - intros ->. apply not_elem_of_nil.
  - intros ->. case_match; [by intros ?%not_elem_of_nil|by intros ?%list_elem_of_singleton].
  - intros [-> |(ev' & -> & He)]; [by intros ?%not_elem_of_nil|]. by intros ->%list_elem_of_singleton.
  - intros ->. case_match; [by intros ?%not_elem_of_nil|by intros ?%list_elem_of_singleton].
  - rewrite Forall_forall. auto.
Qed.

Lemma at_side_same d e e' s : q_ready e' = q_ready e -> q_inFlight e' = q_inFlight e -> q_dlq e' = q_dlq e -> at_side d e s -> at_side d e' s.
Proof. unfold at_side, linked. by intros -> -> ->. Qed.

Lemma simulated_impl d b e t s e' t' e'' (P Q : list event -> Prop) :
  simulated d b e t s e' t' P -> q_ready e'' = q_ready e' -> q_inFlight e'' = q_inFlight e' -> q_dlq e'' = q_dlq e' -> same_engine e' e'' ->
  (forall evs, P evs -> Q evs) -> simulated d b e t s e'' t' Q.
Proof.
  intros (evs & s' & Hp & Ha & Hse & HP) ? ? ? ? HQ. exists evs, s'. split_and!; [done|by eapply at_side_same|by transitivity e'|auto].
Qed.

Lemma keeps_graves_taken e d now r evs : taken d now r evs -> keeps_graves e d evs.
Proof.
  intros [ms ->] _ _ why id [(m & ? & _)%list_elem_of_fmap|Hin]%elem_of_app; [done|].
  destruct r as [|[m|]]; [by apply not_elem_of_nil in Hin|by apply list_elem_of_singleton in Hin|by apply not_elem_of_nil in Hin].
Qed.

Lemma act_simulated d b a e t s : at_side d e s -> writes d b e -> tasks_ok s -> s !! [] = None -> int_action a ->
  let r := act a e t in simulated d b e t s r.1.1 r.1.2 (fun evs => explains d a r.2 evs /\ keeps_graves e d evs).
Proof.
  intros Hat Hw Hok Hnil Hint. destruct a as [now v| |id|now dnow id rq|now id z|now ids]; cbn [act fst snd].
  - eapply simulated_impl; [by apply dequeue_simulated|done..|]. intros evs Hev. split; [done|by eapply keeps_graves_taken].
  - apply simulated_none; [by eapply at_side_same; [..|exact Hat]; destruct e|by destruct e|split; [done|apply keeps_graves_nil]].
  - eapply simulated_impl; [by apply Ack_simulated|done..|]. intros evs ->. split; [done|].
    intros ? ? ? ?. case_match; [by intros ?%not_elem_of_nil|by intros ?%list_elem_of_singleton].
  - eapply simulated_impl; [by apply Nack_simulated|done..|]. intros evs [Hev Hg]. by split.
  - eapply simulated_impl; [by apply Extend_simulated|done..|]. intros evs ->. split; [done|].
    intros ? ? ? ?. case_match; [by intros ?%not_elem_of_nil|by intros ?%list_elem_of_singleton].
  - unfold checkInFlightAndDelayed. destruct (q_closed e); cbn [fst snd].
    { apply simulated_none; [done|done|split; [by apply Forall_nil|apply keeps_graves_nil]]. }
    pose proof (expire_leases_simulated d b now ids Hint e t s false Hat Hw Hok Hnil) as Hs. destruct (expire_leases _ _ _ _ _) as [[e1 t1] c]. cbn [fst snd] in *.
    eapply simulated_impl; [done|..|done]; by destruct e1, c.
Qed.

(** ** The queue and its dead letters *)

Definition on_side (d : side) (ev : event) : Prop :=
  match ev with
  | Added _ => d = Main
  | Expired _ d' _ | Taken _ d' _ | Acked d' _ | Extended d' _ | Requeued _ d' _ | Dropped _ d' _ => d' = d
  | Buried _ _ => False
  end.

Lemma tsteps_other d d' s evs s' : d <> d' -> tsteps s evs s' -> Forall (on_side d) evs ->
  forall i h m, s' !! i = Some (Build_task d' h m) <-> s !! i = Some (Build_task d' h m).
Proof.
  intros Hd Hst. induction Hst as [s|s ev s1 evs s2 Hst _ IH]; [done|]. intros [Ho Hf]%Forall_cons i h m. rewrite IH by done. clear IH.
  destruct Hst as [s m1 Hn ? ? ?|s now d1 m1 Hm He|s now v d1 m1 Hm He Hv Hb|s d1 j m1 Hm|s d1 j m1 z Hm ?|s why d1 j m1 z Hm Hl ? ?
    |s why j m1 m2 Hm Hl Hb|s why d1 j m1 Hm Hl]; cbn in Ho; subst; try done;
    first [apply delete_other|apply insert_other; [|done]]; intros h' m'; congruence.
Qed.

Lemma explained_dead a r evs : explains Dead a r evs -> Forall (on_side Dead) evs.
Proof.
  intros He. apply Forall_forall. intros ev Hin. pose proof (explains_causes _ _ _ _ _ He Hin) as Hc.
  destruct a; cbn in Hc; try done; unfold ended in Hc; naive_solver.
Qed.

Record refines (e : QueueEngine) (s : tasks) : Prop := {
  r_side : at_side Main e s;
  r_ok : tasks_ok s;
  r_numbered : forall id k, s !! id = Some k -> numbered (q_seq e) id;
  r_seq : 0 <= q_seq e;
  r_retries : 0 < DefaultMaxRetries (q_cfg e) < 2 ^ 63;
}.

Lemma refines_nil e s : refines e s -> s !! [] = None.
Proof.
  intros Hr. destruct (s !! []) as [k|] eqn:E; [|done]. by destruct (r_numbered e s Hr _ _ E) as (? & ? & ? & _).
Qed.

Definition explains_op (o : op) (r : answer) (evs : list event) : Prop :=
  match o with
  | OEnqueue _ _ _ _ _ => exists x, r = Accepted x /\ evs = match x with inr m => [Added m] | inl _ => [] end
  | OMain a => explains Main a r evs
  | ODead a => explains Dead a r evs \/ (evs = [] /\ r = Nothing)
  | OClose => evs = [] /\ r = Nothing
  end.

(** The options and the clock hold machine integers. *)
Definition int_op (o : op) : Prop :=
  match o with OEnqueue _ _ _ _ o => o_MaxRetries o < 2 ^ 63 | OMain a | ODead a => int_action a | OClose => True end.

(** What one operation does, in events. *)
Record outcome (o : op) (e : QueueEngine) (t : T) (s : tasks) (e' : QueueEngine) (t' : T) (r : answer) (evs : list event) (s' : tasks) : Prop := {
  oc_steps : psteps (q_tree e) s t evs s' t';
  oc_refines : refines e' s';
  oc_tree : q_tree e' = q_tree e;
  oc_explains : explains_op o r evs;
  oc_graves : grave_open e -> forall why id, Dropped why Main id ∉ evs;
  oc_open : o <> OClose -> grave_open e -> grave_open e';
  oc_seq : q_seq e <= q_seq e' <= q_seq e + 1;
  oc_added : forall m, Added m ∈ evs -> exists now, m_ID m = message_id now (q_seq e + 1);
}.

Lemma explained_adds d a r evs id : explains d a r evs -> Forall (fun ev => ~ adds id ev) evs.
Proof.
  intros He. apply Forall_forall. intros ev Hin. pose proof (explains_causes _ _ _ _ _ He Hin) as Hc.
  destruct a; cbn in Hc; try done; unfold ended in Hc; naive_solver.
Qed.

(** Actions give no new identifiers. *)
Lemma explained_numbered d a r evs s s' n : tasks_ok s -> tsteps s evs s' -> explains d a r evs ->
  (forall id k, s !! id = Some k -> numbered n id) -> forall id k, s' !! id = Some k -> numbered n id.
Proof.
  intros Hok Hst He Hn id k Hk. destruct (s !! id) as [k0|] eqn:Hs; [by eapply Hn|].
  pose proof (tsteps_absent _ _ _ id Hok Hst Hs (explained_adds _ _ _ _ _ He)). congruence.
Qed.

Lemma no_added d a r evs m : explains d a r evs -> Added m ∉ evs.
Proof. intros He Hin. pose proof (explained_adds _ _ _ _ (m_ID m) He) as Hf. rewrite Forall_forall in Hf. by apply (Hf _ Hin). Qed.

Lemma main_outcome a e t s : refines e s -> int_action a ->
  let r := act a e t in exists evs s', outcome (OMain a) e t s r.1.1 r.1.2 r.2 evs s'.
Proof.
  intros [Hside Hok Hnum Hseq Hret] Hint r.
  destruct (act_simulated Main (q_tree e) a e t s) as (evs & s' & Hp & Ha & Hse & Hex & Hg); [done|done|done|by eapply refines_nil|done|]. fold r in Hp, Ha, Hse, Hex.
  pose proof (psteps_tsteps _ _ _ _ _ _ Hp) as Hts. exists evs, s'. split.
  - done.
  - split; [done|by eapply tsteps_ok| |by rewrite (se_seq _ _ Hse)|by rewrite (se_cfg _ _ Hse)].
    rewrite (se_seq _ _ Hse). by eapply explained_numbered.
  - apply Hse.
  - done.
  - by apply Hg.
  - intros _. apply Hse.
  - rewrite (se_seq _ _ Hse). lia.
  - intros m Hm. by eapply no_added in Hm.
Qed.

Lemma dead_outcome a e t s : refines e s -> int_action a ->
  let r := apply (ODead a) e t in exists evs s', outcome (ODead a) e t s r.1.1 r.1.2 r.2 evs s'.
Proof.
  intros Hr Hint r. pose proof Hr as [[Hh Hl] Hok Hnum Hseq Hret]. unfold r, apply. destruct (q_dlq e) as [dl|] eqn:Ed; cbn [fst snd].
  - unfold linked in Hl. rewrite Ed in Hl. destruct Hl as (_ & Hdl & Hnone & Htr).
    destruct (act_simulated Dead (q_tree e) a dl t s) as (evs & s' & Hp & [Ha Hl'] & Hse & Hex & _);
      [split; [done|]; unfold linked; by rewrite Hnone|done|done|by eapply refines_nil|done|].
    pose proof (psteps_tsteps _ _ _ _ _ _ Hp) as Hts. set (dl' := (act a dl t).1.1) in *. exists evs, s'.
    assert (q_dlq dl' = None) as Hnone' by (unfold linked in Hl'; destruct (q_dlq dl'); [by destruct Hl'|done]).
    assert (q_dlq (e <| q_dlq := Some dl' |>) = Some dl') as Edl by (by destruct e). split.
    + done.
    + replace (q_seq (e <| q_dlq := Some dl' |>)) with (q_seq e) by (by destruct e). split.
      * split.
        -- replace (q_ready _) with (q_ready e) by (by destruct e). replace (q_inFlight _) with (q_inFlight e) by (by destruct e).
           eapply holds_frame; [done|]. eapply tsteps_other; [|done|by eapply explained_dead]. done.
        -- unfold linked. rewrite Edl. split_and!; [done|done|done|]. by rewrite (se_tree _ _ Hse).
      * by eapply tsteps_ok.
      * replace (q_seq (e <| q_dlq := Some dl' |>)) with (q_seq e) by (by destruct e). by eapply explained_numbered.
      * by destruct e.
      * by destruct e.
    + by destruct e.
    + by left.
    + intros _ why id Hin. pose proof (explained_dead _ _ _ Hex) as Hf. rewrite Forall_forall in Hf. by apply Hf in Hin.
    + intros _ (dl0 & Ho & Hc). exists dl'. split; [done|]. rewrite (se_closed _ _ Hse). congruence.
    + destruct e; cbn; lia.
    + intros m Hm. by eapply no_added in Hm.
  - exists [], s. split; try done; [apply ps_nil|by right|by intros _ ? ? ?%not_elem_of_nil|lia|by intros ? ?%not_elem_of_nil].
Qed.

(** A new task. *)
Lemma enqueue_outcome now0 now nowd payload opt e t s : refines e s -> o_MaxRetries opt < 2 ^ 63 -> q_seq e + 1 < 2 ^ 64 ->
  let o := OEnqueue now0 now nowd payload opt in
  let r := apply o e t in exists evs s', outcome o e t s r.1.1 r.1.2 r.2 evs s'.
Proof.
  intros Hr Hmax Hbound o r. pose proof Hr as [[Hh Hl] Hok Hnum Hseq Hret]. unfold r, o, apply, Queue_Enqueue, Enqueue. cbn [fst snd].
  set (check := if bool_decide _ then _ else _). set (e1 := e <| q_dedup := check.1 |>).
  assert (refines e1 s /\ same_engine e1 (e <| q_dedup := check.1 |>)) as [Hr1 _] by (by destruct e).
  assert (q_tree e1 = q_tree e /\ q_dlq e1 = q_dlq e /\ q_seq e1 = q_seq e /\ q_closed e1 = q_closed e) as (Et & Ed & Es & Ec) by (by destruct e).
  assert (forall x, exists evs s', outcome o e t s e1 t (Accepted (inl x)) evs s') as Hnone.
  { intros x. exists [], s. split; try done; [apply ps_nil|by eexists|by intros _ ? ? ?%not_elem_of_nil|rewrite Es; lia|by intros ? ?%not_elem_of_nil]. }
  destruct (negb check.2); [apply Hnone|]. rewrite Ec. destruct (q_closed e) eqn:Eclosed; [apply Hnone|]. cbn [fst snd].
  rewrite bool_decide_eq_true_2 by done. rewrite Es, Z.mod_small by lia. clearbody e1. clear Hnone check.
  set (m := stamped e1 now (message_id now (q_seq e + 1)) (built now0 payload opt)).
  assert (m_ID m = message_id now (q_seq e + 1)) as Hid by done.
  assert (s !! m_ID m = None) as Hfree.
  { destruct (s !! m_ID m) as [k|] eqn:E; [|done]. destruct (numbered_fresh (q_seq e) now (m_ID m)); [done|by eapply Hnum|done]. }
  destruct Hr1 as [[Hh1 Hl1] _ _ _ Hret1]. exists [Added m], (<[m_ID m := Build_task Main false m]> s).
  assert (tstep s (Added m) (<[m_ID m := Build_task Main false m]> s)) as Hst.
  { apply t_add; [done|done|done|]. unfold m, stamped. cbn. destruct (Z.leb_spec (o_MaxRetries opt) 0); lia. }
  split.
  - eapply psteps_one; [done|]. unfold persist, effect. rewrite lookup_insert_eq. cbn [t_msg].
    replace (q_tree _) with (q_tree e) by (rewrite <- Et; by destruct e1). by destruct (q_tree e).
  - assert (holds Main (q_ready (pushed m (e1 <| q_seq := q_seq e + 1 |>))) (q_inFlight (pushed m (e1 <| q_seq := q_seq e + 1 |>))) (<[m_ID m := Build_task Main false m]> s))
      as Hpush by (destruct e1; by apply holds_push).
    split; [split; [exact Hpush|]| | | |].
    + eapply (linked_same Main e1); [by destruct e1|]. eapply linked_insert; [done| |done]. left. intros ? ?. by rewrite Hfree.
    + by eapply tstep_ok.
    + replace (q_seq _) with (q_seq e + 1) by (by destruct e1). intros id k. destruct (decide (m_ID m = id)) as [<-|E].
      * intros _. exists now, (q_seq e + 1). split; [done|lia].
      * rewrite lookup_insert_ne by done. intros Hk. eapply numbered_mono; [|by eapply Hnum]. lia.
    + replace (q_seq _) with (q_seq e + 1) by (by destruct e1). lia.
    + by destruct e1.
  - rewrite <- Et. by destruct e1.
  - by eexists.
  - intros _ why id Hin. by apply list_elem_of_singleton in Hin.
  - intros _ (dl & ? & ?). exists dl. split; [|done]. transitivity (q_dlq e1); [by destruct e1|congruence].
  - replace (q_seq (notify _)) with (q_seq e + 1) by (by destruct e1). lia.
  - intros m0 Hin. apply list_elem_of_singleton in Hin as [= ->]. by exists now.
Qed.

Lemma Close_fields e : q_ready (Close e) = q_ready e /\ q_inFlight (Close e) = q_inFlight e /\ q_tree (Close e) = q_tree e
  /\ q_seq (Close e) = q_seq e /\ q_cfg (Close e) = q_cfg e.
Proof. by destruct e as [? ? ? ? ? ? ? ? [] ?]. Qed.

Lemma linked_Close e s : linked Main e s -> linked Main (Close e) s.
Proof.
  destruct e as [? ? ? ? [dl|] ? ? ? [] ?]; unfold linked; cbn; try done. intros (_ & Hh & Hn & Ht).
  destruct (Close_fields dl) as (Er & Ef & Et & _). fold (Close dl). rewrite Er, Ef, Et. split_and!; try done.
  destruct dl as [? ? ? ? ? ? ? ? [] ?]; cbn in *; by subst.
Qed.

Lemma close_outcome e t s : refines e s -> exists evs s', outcome OClose e t s (Close e) t Nothing evs s'.
Proof.
  intros [[Hh Hl] Hok Hnum Hseq Hret]. destruct (Close_fields e) as (Er & Ef & Et & Es & Ec). exists [], s. split; try done.
  - apply ps_nil.
  - split; [split; [by rewrite Er, Ef|by apply linked_Close]|done|by rewrite Es|by rewrite Es|by rewrite Ec].
  - by intros _ ? ? ?%not_elem_of_nil.
  - rewrite Es. lia.
  - by intros ? ?%not_elem_of_nil.
Qed.

Lemma apply_outcome o e t s : refines e s -> int_op o -> q_seq e + 1 < 2 ^ 64 ->
  let r := apply o e t in exists evs s', outcome o e t s r.1.1 r.1.2 r.2 evs s'.
Proof.
  intros Hr Hi Hb. destruct o as [now0 now nowd payload opt|a|a|].
  - by apply enqueue_outcome.
  - by apply main_outcome.
  - by apply dead_outcome.
  - by apply close_outcome.
Qed.

(** ** Runs *)

Record run_outcome (os : list op) (e : QueueEngine) (t : T) (s : tasks) (e' : QueueEngine) (t' : T) (rs : list answer)
    (evss : list (list event)) (s' : tasks) : Prop := {
  ro_steps : psteps (q_tree e) s t (mjoin evss) s' t';
  ro_refines : refines e' s';
  ro_explains : Forall3 explains_op os rs evss;
  ro_open : grave_open e -> OClose ∉ os -> grave_open e' /\ forall why id, Dropped why Main id ∉ mjoin evss;
  ro_added : forall m, Added m ∈ mjoin evss -> exists now k, m_ID m = message_id now k /\ q_seq e < k;
  ro_seq : q_seq e' <= q_seq e + Z.of_nat (length os);
  ro_tree : q_tree e' = q_tree e;
}.

(** Every run of operations is a sequence of events. *)
Lemma run_simulated os e t s : refines e s -> Forall int_op os -> q_seq e + Z.of_nat (length os) < 2 ^ 64 ->
  let r := run os e t in exists evss s', run_outcome os e t s r.1.1 r.1.2 r.2 evss s'.
Proof.
  revert e t s. induction os as [|o os IH]; intros e t s Hr Hi Hb; cbn [run].
  { exists [], s. split; try done; [apply ps_nil|constructor|by split; [|intros ? ? ?%not_elem_of_nil]|by intros ? ?%not_elem_of_nil|simpl; lia]. }
  apply Forall_cons in Hi as [Hio Hi]. cbn [length] in Hb. rewrite Nat2Z.inj_succ in Hb.
  destruct (apply_outcome o e t s) as (evs & s1 & [Hp1 Hr1 Ht1 He1 Hg1 Ho1 Hs1 Ha1]); [done|done|lia|]. set (x := apply o e t) in *.
  destruct (IH x.1.1 x.1.2 s1) as (evss & s2 & [Hp2 Hr2 He2 Ho2 Ha2 Hs2 Ht2]); [done|done|lia|]. set (y := run os x.1.1 x.1.2) in *.
  exists (evs :: evss), s2. split; cbn [fst snd mjoin list_join length]; try done.
  - eapply psteps_app; [done|]. by rewrite <- Ht1.
  - by constructor.
  - intros Hopen [Hne Hnin]%not_elem_of_cons. destruct Ho2 as [Hopen2 Hd2]; [apply Ho1; congruence|done|]. split; [done|].
    intros why id [Hin|Hin]%elem_of_app; [by eapply Hg1|by eapply Hd2].
  - intros m [Hin|Hin]%elem_of_app.
    + destruct (Ha1 m Hin) as [now Hm]. exists now, (q_seq e + 1). split; [done|lia].
    + destruct (Ha2 m Hin) as (now & k & Hm & Hk). exists now, k. split; [done|lia].
  - lia.
  - congruence.
Qed.

Definition op_causes (o : op) (r : answer) (ev : event) : Prop :=
  match o with
  | OEnqueue _ _ _ _ _ => exists m, r = Accepted (inr m) /\ ev = Added m
  | OMain a => causes Main a r ev
  | ODead a => causes Dead a r ev
  | OClose => False
  end.

Lemma explains_op_causes o r evs ev : explains_op o r evs -> ev ∈ evs -> op_causes o r ev.
Proof.
  destruct o as [ | a|a| ]; cbn [explains_op op_causes].
  - intros (x & -> & ->). destruct x as [x|m]; [by intros ?%not_elem_of_nil|]. intros ->%list_elem_of_singleton. by exists m.
  - apply explains_causes.
  - intros [He|[-> _]]; [by apply explains_causes|by intros ?%not_elem_of_nil].
  - intros [-> _]. apply not_elem_of_nil.
Qed.

(** Each event of a run has an operation behind it. *)
Lemma run_causes os rs evss ev : Forall3 explains_op os rs evss -> ev ∈ mjoin evss ->
  exists o r, o ∈ os /\ r ∈ rs /\ op_causes o r ev.
Proof.
  induction 1 as [|o r evs os rs evss He _ IH]; [by intros ?%not_elem_of_nil|]. cbn [mjoin list_join].
  intros [Hin|Hin]%elem_of_app.
  - exists o, r. split_and!; [by left|by left|by eapply explains_op_causes].
  - destruct (IH Hin) as (o' & r' & ? & ? & ?). exists o', r'. split_and!; [by right|by right|done].
Qed.
End Operations.
