(* ===== verification/QueueSafety.v ===== *)
(** What holds of a task queue in every run of its operations: tasks are not
    lost, are held by one consumer at a time, are delivered no more often than
    allowed, best first, and duplicates are refused. *)

From S2P Require Import Prelude JsString JsNumber Go GoHeap QueueMessage QueueEngine TaskSpec QueueRefinement.

Open Scope Z_scope.

Section Queue.
Context {T : Type} `{BTree T} (start : Z) (name : bytes) (cfg : Config) (t0 : T).
Hypothesis empty_tree : bt_Values t0 = [].
Hypothesis int_retries : DefaultMaxRetries cfg < 2 ^ 63.

(** The queue as it is opened on an empty tree. *)
Definition opened : QueueEngine := NewQueueEngine start name cfg t0.

Lemma opened_refines : refines opened ∅.
Proof using empty_tree int_retries.
  assert (forall d, holds d [] ∅ ∅) as Hh.
  { intros d. split; [apply heap_nil|constructor| |].
    - intros m. rewrite lookup_empty. split; [by intros ?%not_elem_of_nil|done].
    - intros id m. by rewrite !lookup_empty. }
  unfold opened, NewQueueEngine, restoreFromTree. rewrite empty_tree. cbn [foldl]. split.
  - split; [done|]. unfold linked. cbn. destruct (EnableDLQ cfg); [|done]. by split_and!.
  - apply map_Forall_empty.
  - intros id k. by rewrite lookup_empty.
  - done.
  - cbn. destruct (Z.leb_spec (DefaultMaxRetries cfg) 0); lia.
Qed.

(** Few enough operations for the 64-bit sequence number, with options and clocks
    that are machine integers. *)
Definition ordinary (os : list op) : Prop := Forall int_op os /\ Z.of_nat (length os) < 2 ^ 64.

Lemma opened_run os : ordinary os -> let r := run os opened t0 in exists evss s', run_outcome os opened t0 ∅ r.1.1 r.1.2 r.2 evss s'.
Proof using empty_tree int_retries. intros [Hi Hl]. apply run_simulated; [by apply opened_refines|done|]. cbn. lia. Qed.

Lemma run_app os os' e (t : T) :
  run (os ++ os') e t = let r := run os e t in let r' := run os' r.1.1 r.1.2 in (r'.1, r.2 ++ r'.2).
Proof.
  revert e t. induction os as [|o os IH]; intros e t; cbn -[apply]; [by destruct (run os' e t)|]. by rewrite IH.
Qed.

(** ** Every task is in one place *)

(** The identifiers of the tasks of a queue, its dead letters included. *)
Definition engine_ids (e : QueueEngine) : list bytes := (m_ID <$> q_ready e) ++ (map_to_list (q_inFlight e)).*1.

Definition task_ids (e : QueueEngine) : list bytes :=
  engine_ids e ++ match q_dlq e with Some dl => engine_ids dl | None => [] end.

Lemma held_ids (held : gmap bytes Message) id : id ∈ (map_to_list held).*1 <-> exists m, held !! id = Some m.
Proof.
  rewrite list_elem_of_fmap. split.
  - intros ([i m] & -> & Hin%elem_of_map_to_list). by exists m.
  - intros [m Hm]. exists (id, m). split; [done|]. by apply elem_of_map_to_list.
Qed.

Lemma holds_ids d e s : holds d (q_ready e) (q_inFlight e) s ->
  NoDup (engine_ids e) /\ forall id, id ∈ engine_ids e -> exists h m, s !! id = Some (Build_task d h m).
Proof.
  intros [Hh Hn Hr Hl]. split.
  - apply NoDup_app. split_and!; [done| |apply NoDup_fst_map_to_list].
    intros id (m & -> & Hm%Hr)%list_elem_of_fmap [m' Hm'%Hl]%held_ids. congruence.
  - intros id [(m & -> & Hm%Hr)%list_elem_of_fmap|[m Hm%Hl]%held_ids]%elem_of_app; eauto.
Qed.

Lemma refines_nodup e s : refines e s -> NoDup (task_ids e).
Proof.
  intros [[Hh Hl] _ _ _ _]. unfold task_ids. destruct (holds_ids _ _ _ Hh) as [Hn Hin]. unfold linked in Hl.
  destruct (q_dlq e) as [dl|]; [|by rewrite app_nil_r]. destruct Hl as (_ & Hd & _). destruct (holds_ids _ _ _ Hd) as [Hn' Hin'].
  apply NoDup_app. split_and!; [done| |done]. intros id (h & m & H1)%Hin (h' & m' & H2)%Hin'. congruence.
Qed.

(** Where a task can be. *)
Inductive located (e : QueueEngine) (m : Message) : Prop :=
| Waiting : m ∈ q_ready e -> located e m
| Held : q_inFlight e !! m_ID m = Some m -> located e m
| DeadLetter dl : q_dlq e = Some dl -> m ∈ q_ready dl \/ q_inFlight dl !! m_ID m = Some m -> located e m.

Lemma refines_located e s id k : refines e s -> grave_open e -> s !! id = Some k -> located e (t_msg k).
Proof.
  intros [[[_ _ Hr Hl] Hlk] Hok _ _ _] (dl & Ed & _) Hk. destruct (Hok _ _ Hk) as [Hid _].
  unfold linked in Hlk. rewrite Ed in Hlk. destruct Hlk as (_ & [_ _ Hr' Hl'] & _).
  destruct k as [[] [] m]; cbn in *; subst id.
  - apply Held. by apply Hl.
  - apply Waiting. by apply Hr.
  - eapply DeadLetter; [done|]. right. by apply Hl'.
  - eapply DeadLetter; [done|]. left. by apply Hr'.
Qed.

(** ** Tasks are not lost *)

(** Nobody takes dead letters out, and the queue is not closed. *)
Definition undisturbed (o : op) : Prop := match o with ODead (ADequeue _ _) | OClose => False | _ => True end.

Definition acks (id : bytes) (o : op) : Prop :=
  match o with OMain (AAck i) | ODead (AAck i) => i = id | _ => False end.

Lemma undisturbed_open os : Forall undisturbed os -> OClose ∉ os.
Proof. intros Hf Hin. rewrite Forall_forall in Hf. by apply Hf in Hin. Qed.

Lemma undisturbed_events os rs evss : Forall3 explains_op os rs evss -> Forall undisturbed os ->
  Forall (fun ev => match ev with Taken _ Dead _ => False | _ => True end) (mjoin evss).
Proof.
  intros He Hu. apply Forall_forall. intros ev Hin. destruct (run_causes _ _ _ _ He Hin) as (o & r & Ho & _ & Hc).
  rewrite Forall_forall in Hu. apply Hu in Ho. destruct o as [ | a|a| ]; cbn in Hc; [|destruct a..|]; cbn in *; try done; unfold ended in Hc; naive_solver.
Qed.

Lemma acked_op os rs evss d id : Forall3 explains_op os rs evss -> Acked d id ∈ mjoin evss -> exists o, o ∈ os /\ acks id o.
Proof.
  intros He Hin. destruct (run_causes _ _ _ _ He Hin) as (o & r & Ho & _ & Hc). exists o. split; [done|].
  destruct o as [ | a|a| ]; cbn in Hc; [|destruct a..|]; cbn in *; try done; unfold ended in Hc; naive_solver.
Qed.

(** Continuing a run from a state that refines some tasks. *)
Lemma kept_located e t s os id k : refines e s -> grave_open e -> Forall int_op os -> q_seq e + Z.of_nat (length os) < 2 ^ 64 ->
  Forall undisturbed os -> (forall o, o ∈ os -> ~ acks id o) -> (forall i m, s !! i <> Some (Build_task Dead true m)) ->
  s !! id = Some k -> m_ExpireAt (t_msg k) <= 0 ->
  let e' := (run os e t).1.1 in exists m, located e' m /\ same_task (t_msg k) m /\ NoDup (task_ids e').
Proof.
  intros Hr Hg Hi Hb Hu Ha Hd Hk Hx e'. destruct (run_simulated os e t s) as (evss & s' & [Hp Hr' He Ho _ _ _]); [done..|].
  pose proof (psteps_tsteps _ _ _ _ _ _ Hp) as Hts. destruct Ho as [Hg' Hdrop]; [done|by apply undisturbed_open|].
  destruct (graves_at_rest _ _ _ Hts (undisturbed_events _ _ _ He Hu) Hd) as [_ Hdrop'].
  destruct (tsteps_keep s (mjoin evss) s' id k) as (k' & Hk' & Hsame); [apply Hr|done|done|done| |].
  { apply Forall_forall. intros ev Hin Hrem. destruct ev as [| | |d i| | | |why d i]; try done; cbn in Hrem; subst i.
    - destruct (acked_op _ _ _ _ _ He Hin) as (o & Hin' & Hack). by apply (Ha o).
    - destruct d; [by eapply Hdrop|by eapply Hdrop']. }
  exists (t_msg k'). split_and!; [by eapply refines_located|done|by eapply refines_nodup].
Qed.

(** An accepted task is among the tasks. *)
Lemma accepted_outcome now0 now nowd payload opt e t s m :
  let o := OEnqueue now0 now nowd payload opt in
  refines e s -> int_op o -> q_seq e + 1 < 2 ^ 64 -> (apply o e t).2 = Accepted (inr m) ->
  exists s', refines (apply o e t).1.1 s' /\ s' = <[m_ID m := Build_task Main false m]> s
    /\ s !! m_ID m = None /\ m_RetryCount m = 0 /\ (grave_open e -> grave_open (apply o e t).1.1) /\ q_seq (apply o e t).1.1 <= q_seq e + 1
    /\ exists now k, m_ID m = message_id now k /\ 0 < k <= q_seq (apply o e t).1.1.
Proof.
  intros o Hr Hi Hb Hacc. destruct (apply_outcome o e t s Hr Hi Hb) as (evs & s' & [Hp Hr' _ He _ Ho Hs _]). rewrite Hacc in He. destruct He as (x & [= <-] & ->).
  exists s'. apply psteps_tsteps in Hp. inversion Hp as [|? ? s1 ? ? Hst Hrest]; subst. inversion Hrest; subst. inversion Hst; subst.
  split_and!; try done; [by apply Ho|lia|].
  eapply (r_numbered _ _ Hr'). apply lookup_insert_eq.
Qed.

(** An accepted message carries what it was built from. *)
Lemma accepted_message now nowd msg e (t : T) m : (Enqueue now nowd msg e t).2 = inr m ->
  exists id, q_closed e = false /\ m = stamped e now id msg /\
    (m_DedupID msg <> [] -> (CheckOrSet nowd (m_DedupID msg) (DedupWindow (q_cfg e)) (q_dedup e)).2 = true).
Proof.
  unfold Enqueue. set (check := if bool_decide _ then _ else _). destruct (negb check.2) eqn:Ec; [done|].
  destruct (q_closed (e <| q_dedup := check.1 |>)) eqn:Eq; [done|]. cbn [snd]. set (id := if bool_decide _ then message_id _ _ else _). intros [= <-]. exists id.
  split_and!; [by destruct e|by destruct e|]. intros Hne. unfold check in Ec. rewrite bool_decide_eq_false_2 in Ec by done. by apply negb_false_iff.
Qed.

Lemma opened_grave : EnableDLQ cfg = true -> grave_open opened.
Proof using. intros E. exists (dlq_engine name (configured cfg)). unfold opened, NewQueueEngine. cbn. by rewrite E. Qed.

(** C9: a task is not lost: after any operations on a fresh queue with a
    dead-letter queue, let a task without expiry be accepted, and let any further
    operations follow (deliveries, rejections, expired leases, other tasks, the
    workers of both engines) that neither acknowledge it nor take dead letters out
    nor close the queue; then the task is in the queue, held by a consumer or among
    the dead letters, with its payload and priority, and no identifier is in two
    places. *)
Theorem tasks_not_lost os1 os2 now0 now nowd payload opt m :
  EnableDLQ cfg = true -> o_TTL opt <= 0 -> ordinary (os1 ++ OEnqueue now0 now nowd payload opt :: os2) ->
  Forall undisturbed (os1 ++ os2) ->
  let r1 := run os1 opened t0 in let r2 := apply (OEnqueue now0 now nowd payload opt) r1.1.1 r1.1.2 in
  r2.2 = Accepted (inr m) -> (forall o, o ∈ os2 -> ~ acks (m_ID m) o) ->
  let e' := (run os2 r2.1.1 r2.1.2).1.1 in exists m', located e' m' /\ same_task m m' /\ NoDup (task_ids e').
Proof using empty_tree int_retries.
  intros Hdlq Httl [Hi Hlen] Hu r1 r2 Hacc Ha e'. rewrite length_app in Hlen. cbn [length] in Hlen.
  apply Forall_app in Hi as [Hi1 [Hi0 Hi2]%Forall_cons]. apply Forall_app in Hu as [Hu1 Hu2].
  destruct (opened_run os1) as (evss & s1 & [Hp Hr1 He Ho _ Hs _]); [split; [done|lia]|]. fold r1 in Hp, Hr1, He, Ho, Hs. cbn in Hs.
  destruct Ho as [Hg1 _]; [by apply opened_grave|by apply undisturbed_open|].
  destruct (accepted_outcome _ _ _ _ _ _ r1.1.2 _ _ Hr1 Hi0 ltac:(lia) Hacc) as (s2 & Hr2 & -> & Hnew & _ & Hg2 & Hs2 & _). fold r2 in Hr2, Hg2, Hs2.
  eapply (kept_located r2.1.1 r2.1.2 _ os2 (m_ID m) (Build_task Main false m)); [exact Hr2|auto|done|lia|done|done| |apply lookup_insert_eq|].
  - destruct (graves_at_rest _ _ _ (psteps_tsteps _ _ _ _ _ _ Hp) (undisturbed_events _ _ _ He Hu1)) as [Hrest _]; [by intros ? ?; rewrite lookup_empty|].
    intros i m' [[_ [=]]|[_ Hi]]%lookup_insert_Some. by eapply Hrest.
  - unfold r2, apply in Hacc. cbn [snd] in Hacc. injection Hacc as Hacc. apply accepted_message in Hacc as (id & _ & -> & _).
    cbn. destruct (Z.ltb_spec 0 (o_TTL opt)); lia.
Qed.

(** ** One consumer at a time *)

(** Neither settles nor extends the lease on [id], nor does the worker find it
    over before [until]. *)
Definition respects (id : bytes) (until : Z) (o : op) : Prop :=
  match o with
  | OMain (AAck i) | OMain (ANack _ _ i _) | OMain (AExtend _ i _) => i <> id
  | OMain (ATick now _) => now < until
  | _ => True
  end.

(** A delivery is an event. *)
Lemma taken_event o r evs m : explains_op o r evs -> r = Delivered (inr (Some m)) -> exists now d, Taken now d m ∈ evs.
Proof.
  intros He ->. assert (forall d a, explains d a (Delivered (inr (Some m))) evs -> exists now d, Taken now d m ∈ evs) as Hact.
  { intros d a Hex. destruct a; try done. destruct Hex as [ms ->]. exists now, d. apply elem_of_app. right. by apply list_elem_of_singleton. }
  destruct o as [ | a|a| ]; cbn in He; [by destruct He as (? & ? & _)|by eapply Hact| |by destruct He].
  destruct He as [He|[_ [=]]]. by eapply Hact.
Qed.

Lemma run_taken os rs evss m : Forall3 explains_op os rs evss -> Delivered (inr (Some m)) ∈ rs -> exists now d, Taken now d m ∈ mjoin evss.
Proof.
  induction 1 as [|o r evs os rs evss He _ IH]; [by intros ?%not_elem_of_nil|]. cbn [mjoin list_join].
  intros [E|Hin]%elem_of_cons.
  - destruct (taken_event _ _ _ m He) as (now & d & Hin); [done|]. exists now, d. apply elem_of_app. by left.
  - destruct (IH Hin) as (now & d & Hin'). exists now, d. apply elem_of_app. by right.
Qed.

(** A delivered task is held as it was delivered. *)
Lemma delivered_outcome now v e t s m :
  let o := OMain (ADequeue now v) in
  refines e s -> q_seq e + 1 < 2 ^ 64 -> (apply o e t).2 = Delivered (inr (Some m)) ->
  exists s', refines (apply o e t).1.1 s' /\ s' !! m_ID m = Some (Build_task Main true m) /\ q_seq (apply o e t).1.1 <= q_seq e + 1.
Proof.
  intros o Hr Hb Hd. destruct (apply_outcome o e t s Hr I Hb) as (evs & s' & [Hp Hr' _ He _ _ Hs _]). rewrite Hd in He. destruct He as [ms ->].
  exists s'. split_and!; [done| |lia]. apply psteps_tsteps in Hp.
  assert (forall s0 l, tsteps s0 (l ++ [Taken now Main m]) s' -> s' !! m_ID m = Some (Build_task Main true m)) as Hlast; [|by eapply Hlast].
  clear. intros s0 l. revert s0. induction l as [|ev l IH]; intros s0 Hts.
  - inversion Hts as [|? ? s1 ? ? Hst Hrest]; subst. inversion Hrest; subst. inversion Hst; subst. rewrite leased_id. apply lookup_insert_eq.
  - inversion Hts as [|? ? s1 ? ? Hst Hrest]; subst. by eapply IH.
Qed.

Lemma respected os rs evss id until : Forall3 explains_op os rs evss -> Forall (respects id until) os ->
  Forall (fun ev => ~ ends_lease Main id until ev) (mjoin evss).
Proof.
  intros He Hf. apply Forall_forall. intros ev Hin Hend. destruct (run_causes _ _ _ _ He Hin) as (o & r & Ho & _ & Hc).
  rewrite Forall_forall in Hf. apply Hf in Ho. destruct o as [ | a|a| ]; cbn in Hc; [|destruct a..|]; cbn in *; try done; unfold ended in Hc; naive_solver lia.
Qed.

(** C10: a task is held by one consumer at a time: from the moment a task is
    delivered, as long as its lease is neither settled nor extended and the worker
    has not seen its end, the task stays held as it was delivered and no other
    delivery, of the queue or of its dead letters, hands it out again, whatever
    else happens. *)
Theorem lease_exclusive os1 os2 now v m :
  ordinary (os1 ++ OMain (ADequeue now v) :: os2) ->
  let r1 := run os1 opened t0 in let r2 := apply (OMain (ADequeue now v)) r1.1.1 r1.1.2 in
  r2.2 = Delivered (inr (Some m)) -> Forall (respects (m_ID m) (m_VisibleAt m)) os2 ->
  let r3 := run os2 r2.1.1 r2.1.2 in
  q_inFlight r3.1.1 !! m_ID m = Some m /\ forall m', Delivered (inr (Some m')) ∈ r3.2 -> m_ID m' <> m_ID m.
Proof using empty_tree int_retries.
  intros [Hi Hlen] r1 r2 Hd Hresp r3. rewrite length_app in Hlen. cbn [length] in Hlen. apply Forall_app in Hi as [Hi1 [_ Hi2]%Forall_cons].
  destruct (opened_run os1) as (evss & s1 & [_ Hr1 _ _ _ Hs _]); [split; [done|lia]|]. fold r1 in Hr1, Hs. cbn in Hs.
  destruct (delivered_outcome now v r1.1.1 r1.1.2 s1 m) as (s2 & Hr2 & Hk & Hs2); [done|lia|done|]. fold r2 in Hr2, Hs2.
  destruct (run_simulated os2 r2.1.1 r2.1.2 s2) as (evss2 & s3 & [Hp3 Hr3 He3 _ _ _ _]); [done|done|lia|]. fold r3 in Hp3, Hr3, He3.
  destruct (tsteps_held s2 (mjoin evss2) s3 (m_ID m) Main m) as [Hk3 Hout]; [apply Hr2|by eapply psteps_tsteps|done|by eapply respected|].
  split; [by apply (h_held _ _ _ _ (proj1 (r_side _ _ Hr3)))|]. intros m' Hin E.
  destruct (run_taken _ _ _ _ He3 Hin) as (n & d & Ht). rewrite Forall_forall in Hout. by apply (Hout _ Ht).
Qed.

(** ** Deliveries are bounded *)

(** How often the queue itself delivers [id] in a run. *)
Definition handed1 (id : bytes) (o : op) (r : answer) : Z :=
  match o, r with OMain (ADequeue _ _), Delivered (inr (Some m)) => if bool_decide (m_ID m = id) then 1 else 0 | _, _ => 0 end.

Fixpoint handed (id : bytes) (os : list op) (rs : list answer) : Z :=
  match os, rs with o :: os, r :: rs => handed1 id o r + handed id os rs | _, _ => 0 end.

Lemma deliveries_none id evs : Forall (fun ev => delivers id ev = 0) evs -> deliveries id evs = 0.
Proof. induction 1 as [|ev evs He _ IH]; [done|]. cbn [deliveries foldr]. unfold deliveries in IH. lia. Qed.

Lemma handed1_deliveries id o r evs : explains_op o r evs -> deliveries id evs = handed1 id o r.
Proof.
  intros He. destruct o as [ | [now v| | | | |]|a| ]; try (rewrite deliveries_none; [done|]; apply Forall_forall; intros ev Hin;
    pose proof (explains_op_causes _ _ _ _ He Hin) as Hc; cbn in Hc; try (by destruct a; cbn in Hc; unfold ended in Hc; naive_solver); unfold ended in Hc; naive_solver).
  cbn in He. destruct r as [| |x|]; try done. destruct He as [ms ->]. rewrite deliveries_app, (deliveries_none id (Expired now Main <$> ms)) by (by apply Forall_fmap, Forall_true).
  destruct x as [|[m|]]; cbn; [done| |done]. destruct (bool_decide (m_ID m = id)); lia.
Qed.

Lemma handed_deliveries id os rs evss : Forall3 explains_op os rs evss -> deliveries id (mjoin evss) = handed id os rs.
Proof.
  induction 1 as [|o r evs os rs evss He _ IH]; [done|]. change (mjoin (evs :: evss)) with (evs ++ mjoin evss).
  cbn [handed]. by rewrite deliveries_app, IH, (handed1_deliveries id o r).
Qed.

(** C24: a task is delivered at most as often as its retries allow: in every run
    after a task is accepted, with any interleaving of deliveries, rejections,
    expired leases and closings, the queue hands it out no more than [MaxRetries]
    times before it is left to the dead letters. *)
Theorem deliveries_bounded os1 os2 now0 now nowd payload opt m :
  ordinary (os1 ++ OEnqueue now0 now nowd payload opt :: os2) ->
  let r1 := run os1 opened t0 in let r2 := apply (OEnqueue now0 now nowd payload opt) r1.1.1 r1.1.2 in
  r2.2 = Accepted (inr m) ->
  let r3 := run os2 r2.1.1 r2.1.2 in handed (m_ID m) os2 r3.2 <= m_MaxRetries m.
Proof using empty_tree int_retries.
  intros [Hi Hlen] r1 r2 Hacc r3. rewrite length_app in Hlen. cbn [length] in Hlen. apply Forall_app in Hi as [Hi1 [Hi0 Hi2]%Forall_cons].
  destruct (opened_run os1) as (evss & s1 & [_ Hr1 _ _ _ Hs _]); [split; [done|lia]|]. fold r1 in Hr1, Hs. cbn in Hs.
  destruct (accepted_outcome _ _ _ _ _ _ r1.1.2 _ _ Hr1 Hi0 ltac:(lia) Hacc) as (s2 & Hr2 & -> & Hnew & Hzero & _ & Hs2 & (n & k & Hid & Hk)). fold r2 in Hr2, Hs2, Hk.
  destruct (run_simulated os2 r2.1.1 r2.1.2 _ Hr2) as (evss2 & s3 & [Hp3 Hr3 He3 _ Ha3 _ _]); [done|lia|]. fold r3 in Hp3, Hr3, He3.
  rewrite <- (handed_deliveries (m_ID m) os2 r3.2 evss2 He3).
  etransitivity; [eapply deliveries_left; [apply Hr2|by eapply psteps_tsteps|]|].
  - apply Forall_forall. intros ev Hin Hadd. destruct ev as [m'| | | | | | |]; try done. cbn in Hadd.
    destruct (Ha3 m' Hin) as (n' & k' & Hid' & Hk'). rewrite Hadd, Hid in Hid'. apply message_id_seq in Hid'; lia.
  - unfold left. rewrite lookup_insert_eq. unfold left_of. cbn. lia.
Qed.

(** ** The best task first *)

(** [m] goes before [x] or is as good. *)
Definition precedes (m x : Message) : Prop :=
  m_Priority x < m_Priority m \/ (m_Priority x = m_Priority m /\ m_VisibleAt m <= m_VisibleAt x).

Lemma not_before m x : before x m = false -> precedes m x.
Proof.
  unfold before, precedes. destruct (Z.eqb_spec (m_Priority x) (m_Priority m)) as [E|E]; cbn [negb].
  - intros Hv%Z.ltb_ge. right. lia.
  - intros Hp%Z.ltb_ge. left. lia.
Qed.

(** What a round of [Dequeue] finds in the waiting tasks: dropped ones have
    expired. *)
Inductive found (now : Z) (ready : list Message) : list Message -> option Message -> Prop :=
| Found ms m rest : ready ≡ₚ ms ++ m :: rest -> Forall (fun x => expired now x = true) ms ->
    expired now m = false -> m_VisibleAt m <= now -> Forall (precedes m) rest -> found now ready rest (Some m)
| NoneFound ms rest : ready ≡ₚ ms ++ rest -> Forall (fun x => expired now x = true) ms ->
    (forall m q, rest = m :: q -> expired now m = false /\ now < m_VisibleAt m /\ Forall (precedes m) rest) -> found now ready rest None.

Lemma next_visible_found fuel now e ready (t : T) : heap before ready -> (length ready <= fuel)%nat ->
  let r := next_visible fuel now e ready t in found now ready r.1.1 r.2.
Proof.
  revert ready t. induction fuel as [|f IH]; intros ready t Hh Hf.
  { destruct ready; [|simpl in Hf; lia]. by apply (NoneFound _ _ []). }
  destruct ready as [|m q]; [by apply (NoneFound _ _ [])|]. cbn [next_visible]. fold (expired now m).
  assert (Forall (precedes m) (m :: q)) as Hbest.
  { apply Forall_forall. intros x Hx. by apply not_before, (heap_root before (m :: q)). }
  pose proof (Pop_Permutation before m q) as Hpop.
  destruct (expired now m) eqn:He; [|destruct (Z.ltb_spec now (m_VisibleAt m)) as [Hv|Hv]].
  - assert (found now (Pop before (m :: q)) (next_visible f now e (Pop before (m :: q)) (forget e (m_ID m) t)).1.1
      (next_visible f now e (Pop before (m :: q)) (forget e (m_ID m) t)).2) as Hrec.
    { apply IH; [by apply Pop_heap; [apply _|]|]. apply Permutation_length in Hpop. simpl in Hpop, Hf. lia. }
    destruct Hrec as [ms m' rest Hp Hx He' Hv' Hb|ms rest Hp Hx Hd].
    + apply (Found _ _ (m :: ms)); try done; [|by constructor]. etransitivity; [symmetry; exact Hpop|]. by apply perm_skip.
    + apply (NoneFound _ _ (m :: ms)); try done; [|by constructor]. etransitivity; [symmetry; exact Hpop|]. by apply perm_skip.
  - apply (NoneFound _ _ []); try done. by intros ? ? [= <- <-].
  - apply (Found _ _ []); try done. assert (Forall (precedes m) (m :: Pop before (m :: q))) as Hb by (by rewrite Hpop). by apply Forall_cons in Hb as [_ Hb].
Qed.

Definition lease_time (v : Z) (e : QueueEngine) : Z := if v <=? 0 then DefaultVisibilityTimeout (q_cfg e) else v.

(** What a round of [Dequeue] on an open queue does. *)
Inductive round (now v : Z) (e e' : QueueEngine) : queue_error + option Message -> Prop :=
| Handed m : found now (q_ready e) (q_ready e') (Some m) ->
    q_inFlight e' = <[m_ID m := leased now (lease_time v e) m]> (q_inFlight e) -> round now v e e' (inr (Some (leased now (lease_time v e) m)))
| Waits : found now (q_ready e) (q_ready e') None -> q_inFlight e' = q_inFlight e -> round now v e e' (inr None).

Lemma dequeue_round_spec now v e (t : T) : heap before (q_ready e) -> q_closed e = false ->
  let r := dequeue_round now v e t in round now v e r.1.1 r.2.
Proof.
  intros Hh Hc. unfold dequeue_round. rewrite Hc. fold (lease_time v e).
  pose proof (next_visible_found (length (q_ready e)) now e (q_ready e) t Hh (le_n _)) as Hf.
  destruct (next_visible _ _ _ _ _) as [[ready t'] [m|]]; cbn [fst snd] in *.
  - apply Handed; [by destruct e|]. rewrite leased_id. by destruct e.
  - apply Waits; by destruct e.
Qed.

Lemma run_heap os : ordinary os -> heap before (q_ready (run os opened t0).1.1).
Proof using empty_tree int_retries. intros Ho. destruct (opened_run os Ho) as (evss & s & Hr). apply (r_side _ _ (ro_refines _ _ _ _ _ _ _ _ _ Hr)). Qed.

(** C25: the best visible task is delivered: in every state of an open queue, a
    round of [Dequeue] drops tasks only when they have expired, and hands out
    nothing only when the task that is first in the order is delayed (or there is
    none); what it hands out is visible and not expired, no task left goes before
    it by priority and then by the instant it became visible, and it is held from
    then on, for the lease asked. *)
Theorem best_task_first os now v : ordinary os ->
  let e := (run os opened t0).1.1 in q_closed e = false ->
  let r := dequeue_round now v e (run os opened t0).1.2 in round now v e r.1.1 r.2.
Proof using empty_tree int_retries. intros Ho e Hc r. by apply dequeue_round_spec; [apply run_heap|]. Qed.

(** A delayed task of high priority hides the visible ones: when a task that
    is not yet visible has a higher priority than every other task of the queue,
    [Dequeue] finds nothing to hand out, however many visible tasks are waiting. *)
Theorem delayed_task_blocks os now v d : ordinary os ->
  let e := (run os opened t0).1.1 in q_closed e = false ->
  d ∈ q_ready e -> expired now d = false -> now < m_VisibleAt d -> (forall x, x ∈ q_ready e -> x <> d -> m_Priority x < m_Priority d) ->
  (dequeue_round now v e (run os opened t0).1.2).2 = inr None.
Proof using empty_tree int_retries.
  intros Ho e Hc Hd He Hv Hmax. pose proof (dequeue_round_spec now v e (run os opened t0).1.2 (run_heap os Ho) Hc) as Hr. cbv zeta in Hr.
  destruct Hr as [m Hf _|]; [|done]. exfalso. inversion Hf as [ms m' rest Hp Hx He' Hv' Hb|]; subst.
  assert (m <> d) as Hne by (intros ->; lia). assert (m ∈ q_ready e) as Hm by (rewrite Hp; set_solver). specialize (Hmax m Hm Hne).
  rewrite Hp in Hd. apply elem_of_app in Hd as [Hd|[E|Hd]%elem_of_cons].
  - rewrite Forall_forall in Hx. apply Hx in Hd. congruence.
  - congruence.
  - rewrite Forall_forall in Hb. destruct (Hb _ Hd); lia.
Qed.

(** ** Duplicates *)

(** The dedup readings of an operation are before [until]. *)
Definition within (until : Z) (o : op) : Prop := match o with OEnqueue _ _ nowd _ _ => nowd < until | _ => True end.

Lemma Enqueue_dedup now nowd msg e (t : T) : m_DedupID msg <> [] ->
  q_dedup (Enqueue now nowd msg e t).1.1 = (CheckOrSet nowd (m_DedupID msg) (DedupWindow (q_cfg e)) (q_dedup e)).1.
Proof. intros Hne. unfold Enqueue. rewrite bool_decide_eq_false_2 by done. repeat case_match; by destruct e. Qed.

Lemma Enqueue_cfg now nowd msg e (t : T) : q_cfg (Enqueue now nowd msg e t).1.1 = q_cfg e.
Proof. unfold Enqueue. repeat case_match; by destruct e. Qed.

Lemma apply_dedup o e t s id until : refines e s -> int_op o -> within until o -> q_dedup e !! id = Some until -> q_dedup (apply o e t).1.1 !! id = Some until.
Proof.
  intros Hr Hi Hw Hd. destruct o as [now0 now nowd payload opt|a|a| ]; cbn [apply].
  - cbn [fst]. unfold Queue_Enqueue. destruct (decide (o_DedupID opt = [])) as [E|E].
    + unfold Enqueue. cbn [m_DedupID built]. rewrite bool_decide_eq_true_2 by done. repeat case_match; by destruct e.
    + rewrite Enqueue_dedup by done. by apply CheckOrSet_keeps.
  - destruct (act_simulated Main (q_tree e) a e t s) as (evs & s' & _ & _ & Hse & _); [apply Hr|done|apply Hr|by eapply refines_nil|done|]. by rewrite (se_dedup _ _ Hse).
  - destruct (q_dlq e); [|done]. by destruct e.
  - by destruct e as [? ? ? ? ? ? ? ? [] ?].
Qed.

Lemma run_dedup os e t s id until : refines e s -> Forall int_op os -> q_seq e + Z.of_nat (length os) < 2 ^ 64 ->
  Forall (within until) os -> q_dedup e !! id = Some until -> q_dedup (run os e t).1.1 !! id = Some until.
Proof.
  revert e t s. induction os as [|o os IH]; intros e t s Hr Hi Hb Hw Hd; [done|]. apply Forall_cons in Hi as [Hio Hi], Hw as [Hwo Hw].
  cbn [length] in Hb. rewrite Nat2Z.inj_succ in Hb. destruct (apply_outcome o e t s) as (evs & s1 & Hout); [done|done|lia|].
  cbn [run fst]. pose proof (oc_seq _ _ _ _ _ _ _ _ _ Hout). eapply (IH _ _ s1); [apply Hout|done|lia|done|by eapply apply_dedup].
Qed.

Lemma apply_cfg o e t s : refines e s -> int_op o -> q_cfg (apply o e t).1.1 = q_cfg e.
Proof.
  intros Hr Hi. destruct o as [now0 now nowd payload opt|a|a| ]; cbn [apply].
  - apply Enqueue_cfg.
  - destruct (act_simulated Main (q_tree e) a e t s) as (evs & s' & _ & _ & Hse & _); [apply Hr|done|apply Hr|by eapply refines_nil|done|]. apply Hse.
  - destruct (q_dlq e); [|done]. by destruct e.
  - apply Close_fields.
Qed.

Lemma run_cfg os : ordinary os -> q_cfg (run os opened t0).1.1 = configured cfg.
Proof using empty_tree int_retries.
  revert os. apply (rev_ind (fun os => ordinary os -> q_cfg (run os opened t0).1.1 = configured cfg)); [done|].
  intros o os IH [Hi Hl]. rewrite length_app in Hl. apply Forall_app in Hi as [Hi [Hio _]%Forall_cons]. cbn [length] in Hl.
  assert (ordinary os) as Ho by (split; [done|lia]). destruct (opened_run os Ho) as (evss & s & Hr). rewrite run_app. cbn [run fst].
  rewrite (apply_cfg _ _ _ s (ro_refines _ _ _ _ _ _ _ _ _ Hr) Hio). by apply IH.
Qed.

(** C26: duplicates are refused: once a task with a deduplication identifier is
    accepted, another with the same identifier is answered with
    [ErrDuplicateMessage], and changes nothing, whatever happened in between, as
    long as the clock has not passed the end of the window of the queue. *)
Theorem duplicates_refused os1 os2 now0 now nowd payload opt m now0' now' nowd' payload' opt' :
  ordinary (os1 ++ OEnqueue now0 now nowd payload opt :: os2) ->
  let until := nowd + DedupWindow (configured cfg) in
  0 <= nowd -> until < 2 ^ 63 -> o_DedupID opt <> [] -> o_DedupID opt' = o_DedupID opt ->
  let r1 := run os1 opened t0 in let r2 := apply (OEnqueue now0 now nowd payload opt) r1.1.1 r1.1.2 in
  r2.2 = Accepted (inr m) -> Forall (within until) os2 -> nowd' < until ->
  let r3 := run os2 r2.1.1 r2.1.2 in
  apply (OEnqueue now0' now' nowd' payload' opt') r3.1.1 r3.1.2 = (r3.1, Accepted (inl ErrDuplicateMessage)).
Proof using empty_tree int_retries.
  intros [Hi Hlen] until Hnow Huntil Hid Hid' r1 r2 Hacc Hw Hn' r3. rewrite length_app in Hlen. cbn [length] in Hlen.
  apply Forall_app in Hi as [Hi1 [Hi0 Hi2]%Forall_cons].
  destruct (opened_run os1) as (evss & s1 & [_ Hr1 _ _ _ Hs _]); [split; [done|lia]|]. fold r1 in Hr1, Hs. cbn in Hs.
  destruct (accepted_outcome _ _ _ _ _ _ r1.1.2 _ _ Hr1 Hi0 ltac:(lia) Hacc) as (s2 & Hr2 & _ & _ & _ & _ & Hs2 & _). fold r2 in Hr2, Hs2.
  assert (q_cfg r1.1.1 = configured cfg) as Hcfg by (apply run_cfg; split; [done|lia]).
  assert (0 < DedupWindow (configured cfg)) as Hpos by (cbn; destruct (Z.leb_spec (DedupWindow cfg) 0); unfold minute, second in *; lia).
  assert (q_dedup r3.1.1 !! o_DedupID opt = Some until) as Hd.
  { apply (run_dedup os2 r2.1.1 r2.1.2 s2); [done|done|lia|done|]. unfold r2, apply in Hacc |- *. cbn [fst snd] in Hacc |- *. injection Hacc as Hacc.
    apply accepted_message in Hacc as (_ & _ & _ & Hcheck). unfold Queue_Enqueue. rewrite Enqueue_dedup by done. cbn [m_DedupID built] in *.
    rewrite Hcfg in *. unfold until in *.
    rewrite CheckOrSet_records; [by rewrite int64_small by lia|done|auto|rewrite int64_small; lia]. }
  unfold apply, Queue_Enqueue, Enqueue. cbn [m_DedupID built]. rewrite Hid', !bool_decide_eq_false_2 by done.
  unfold CheckOrSet. rewrite bool_decide_eq_false_2 by done. rewrite Hd, (proj2 (Z.ltb_lt _ _)) by done. cbn. by destruct r3 as [[[] ?] ?].
Qed.
End Queue.

(** ** Waiting consumers *)

(** The worker does not look at delayed tasks: as long as no lease is over, a
    tick of the worker changes nothing and puts no token into the channel, although
    delayed tasks may have become visible; a consumer that waits is not told. *)
Theorem delayed_tasks_unnoticed {T} `{BTree T} now ids e (t : T) :
  (forall id m, q_inFlight e !! id = Some m -> now < m_VisibleAt m) -> checkInFlightAndDelayed now ids e t = (e, t).
Proof.
  intros Hl. unfold checkInFlightAndDelayed. destruct (q_closed e); [done|].
  enough (expire_leases now ids e t false = (e, t, false)) as -> by done.
  induction ids as [|[id dnow] ids IH]; [done|]. cbn [expire_leases]. unfold expire_lease at 1.
  destruct (q_inFlight e !! id) as [m|] eqn:Hm; [|exact IH]. rewrite (proj2 (Z.leb_gt _ _)) by (by eapply Hl). exact IH.
Qed.

(** ** Queues in motion *)

Module Examples.
Import Sorted.

Definition noon : Z := 1700000000000000000.

Definition at_ms (ms : Z) : Z := noon + ms * 10 ^ 6.

(** A queue on an empty tree. *)
Definition emails : QueueEngine := opened (T := tree) (H := sorted_tree) noon (gs "emails") DefaultConfig [].

(** A task put in, and one taken for a second, some milliseconds after noon. *)
Definition put_at (ms : Z) (payload : string) (o : Options) : op :=
  OEnqueue (at_ms ms) (at_ms ms + 1) (at_ms ms + 2) (gs payload) o.

Definition take_at (ms : Z) : op := OMain (ADequeue (at_ms ms) second).

Definition payloads (rs : list answer) : list bytes :=
  omap (fun r => match r with Delivered (inr (Some m)) => Some (m_Payload m) | _ => None end) rs.

Definition accepted (r : answer) : Message :=
  match r with Accepted (inr m) => m | Delivered (inr (Some m)) => m | _ => built 0 [] DefaultOptions end.

Definition morning : list op :=
  [put_at 0 "low" (WithPriority 10 DefaultOptions); put_at 1 "first" DefaultOptions; put_at 2 "second" DefaultOptions;
   put_at 3 "urgent" (WithPriority 200 DefaultOptions)].

(** Priorities first, then the order of arrival. *)
Example taken_in_order :
  payloads (run (morning ++ [take_at 10; take_at 11; take_at 12; take_at 13; take_at 14]) emails []).2
  = [gs "urgent"; gs "first"; gs "second"; gs "low"].
Proof. vm_compute. reflexivity. Qed.

Ltac ordinary_run :=
  split; [cbn [app]; repeat (apply List.Forall_cons || apply List.Forall_nil); vm_compute; try exact I; try reflexivity; (split; [congruence|reflexivity])
         |vm_compute; reflexivity].

(** A task is taken, its lease ends, it is taken again and rejected for good. *)
Definition report : op := put_at 4 "report" DefaultOptions.
Definition report_task : Message := accepted (apply report (run morning emails []).1.1 (run morning emails []).1.2).2.
Definition trouble : list op :=
  [take_at 10; take_at 11; take_at 12; take_at 13; OMain (ATick (at_ms 2000) [(m_ID report_task, at_ms 2000 + 1)]); take_at 2001;
   OMain (ANack (at_ms 2002) (at_ms 2003) (m_ID report_task) false); OMain (AAck (gs "nonsense"))].

Lemma tasks_not_lost_witness :
  let r := run morning emails [] in let r2 := apply report r.1.1 r.1.2 in
  let e' := (run trouble r2.1.1 r2.1.2).1.1 in
  exists m', located e' m' /\ same_task report_task m' /\ NoDup (task_ids e').
Proof.
  intros r r2 e'. refine (tasks_not_lost (T := tree) (H := sorted_tree) noon (gs "emails") DefaultConfig [] eq_refl eq_refl morning trouble
    (at_ms 4) (at_ms 4 + 1) (at_ms 4 + 2) (gs "report") DefaultOptions report_task eq_refl _ _ _ _ _).
  - vm_compute. congruence.
  - ordinary_run.
  - repeat constructor.
  - vm_compute. reflexivity.
  - intros o Hin. repeat (apply elem_of_cons in Hin as [-> |Hin]; [intros Ha; vm_compute in Ha; congruence|]). by apply not_elem_of_nil in Hin.
Defined.

Definition taken_task : Message := accepted (apply (take_at 10) (run (morning ++ [report]) emails []).1.1 (run (morning ++ [report]) emails []).1.2).2.

Lemma lease_exclusive_witness :
  let r := run (morning ++ [report]) emails [] in let r2 := apply (take_at 10) r.1.1 r.1.2 in
  let r3 := run [take_at 11; take_at 12; OMain (ATick (at_ms 900) [(m_ID taken_task, 0)]); take_at 901] r2.1.1 r2.1.2 in
  q_inFlight r3.1.1 !! m_ID taken_task = Some taken_task.
Proof.
  refine (proj1 (lease_exclusive (T := tree) (H := sorted_tree) noon (gs "emails") DefaultConfig [] eq_refl eq_refl (morning ++ [report])
    [take_at 11; take_at 12; OMain (ATick (at_ms 900) [(m_ID taken_task, 0)]); take_at 901] (at_ms 10) second taken_task _ _ _)).
  - ordinary_run.
  - vm_compute. reflexivity.
  - repeat constructor.
Defined.

Lemma deliveries_bounded_witness :
  let r := run morning emails [] in let r2 := apply report r.1.1 r.1.2 in
  handed (m_ID report_task) trouble (run trouble r2.1.1 r2.1.2).2 <= 5.
Proof.
  apply (deliveries_bounded (T := tree) (H := sorted_tree) noon (gs "emails") DefaultConfig [] eq_refl eq_refl morning trouble
    (at_ms 4) (at_ms 4 + 1) (at_ms 4 + 2) (gs "report") DefaultOptions report_task); [ordinary_run|vm_compute; reflexivity].
Defined.

Lemma best_task_first_witness :
  let e := (run morning emails []).1.1 in let r := dequeue_round (at_ms 10) second e (run morning emails []).1.2 in
  round (at_ms 10) second e r.1.1 r.2.
Proof.
  apply (best_task_first (T := tree) (H := sorted_tree) noon (gs "emails") DefaultConfig [] eq_refl eq_refl morning (at_ms 10) second); [ordinary_run|vm_compute; reflexivity].
Defined.

(** An urgent task for the evening hides the one that is due. *)
Definition planned : list op := [put_at 0 "now" DefaultOptions; put_at 1 "tonight" (WithPriority 200 (WithDelay (6 * 3600 * second) DefaultOptions))].
Definition tonight : Message := accepted (nth 1 (run planned emails []).2 Nothing).

Lemma delayed_task_blocks_witness :
  (dequeue_round (at_ms 10) second (run planned emails []).1.1 (run planned emails []).1.2).2 = inr None.
Proof.
  apply (delayed_task_blocks (T := tree) (H := sorted_tree) noon (gs "emails") DefaultConfig [] eq_refl eq_refl planned (at_ms 10) second tonight);
    [ordinary_run|vm_compute; reflexivity|vm_compute; left|vm_compute; reflexivity|vm_compute; reflexivity|].
  intros x Hx Hne. vm_compute in Hx. apply elem_of_cons in Hx as [-> |Hx]; [by exfalso; apply Hne; vm_compute|].
  apply list_elem_of_singleton in Hx as ->. vm_compute. reflexivity.
Defined.

Lemma duplicates_refused_witness :
  let o := WithDedupID (gs "order-7") None DefaultOptions in
  let r := apply (put_at 4 "report" o) (run morning emails []).1.1 (run morning emails []).1.2 in
  let r3 := run trouble r.1.1 r.1.2 in
  apply (put_at 500000 "report again" o) r3.1.1 r3.1.2 = (r3.1, Accepted (inl ErrDuplicateMessage)).
Proof.
  intros o r r3. refine (duplicates_refused (T := tree) (H := sorted_tree) noon (gs "emails") DefaultConfig [] eq_refl eq_refl morning trouble
    (at_ms 4) (at_ms 4 + 1) (at_ms 4 + 2) (gs "report") o (accepted r.2) (at_ms 500000) (at_ms 500000 + 1) (at_ms 500000 + 2) (gs "report again") o _ _ _ _ _ _ _ _);
    [ordinary_run|vm_compute; congruence|vm_compute; reflexivity|vm_compute; congruence|reflexivity|vm_compute; reflexivity|repeat constructor|vm_compute; reflexivity].
Defined.

Lemma delayed_tasks_unnoticed_witness :
  let later := run [put_at 0 "later" (WithDelay second DefaultOptions); OMain AReceive] emails [] in
  checkInFlightAndDelayed (at_ms 5000) [] later.1.1 later.1.2 = later.1 /\ q_notified later.1.1 = false.
Proof.
  intros later. split; [|by vm_compute]. refine (eq_trans (delayed_tasks_unnoticed (at_ms 5000) [] later.1.1 later.1.2 _) _); [|by destruct later as [[? ?] ?]].
  intros id m. replace (q_inFlight later.1.1) with (∅ : gmap bytes Message) by (by vm_compute). by rewrite lookup_empty.
Defined.

(** The channel holds one token: of two consumers that found nothing and have not
    yet begun to wait, one is woken for two tasks, and the other task stays. *)
Example wakeup_lost :
  let r := run [take_at 0; take_at 0; put_at 1 "a" DefaultOptions; put_at 1 "b" DefaultOptions; OMain AReceive; take_at 2] emails [] in
  payloads r.2 = [gs "a"] /\ m_Payload <$> q_ready r.1.1 = [gs "b"] /\ q_notified r.1.1 = false.
Proof. vm_compute. by split_and?. Qed.

(** A task that used up its retries and is then taken out of the dead-letter
    queue is gone when it is not settled in time. *)
Example dead_letter_lost :
  let r := run [put_at 0 "a" (WithMaxRetries 1 DefaultOptions); take_at 1] emails [] in
  let id := m_ID (accepted (nth 1 r.2 Nothing)) in
  let r2 := run [OMain (ANack (at_ms 2) (at_ms 2) id true); ODead (ADequeue (at_ms 3) second); ODead (ATick (at_ms 2000) [(id, at_ms 2000)])] r.1.1 r.1.2 in
  payloads r2.2 = [gs "a"] /\ task_ids r2.1.1 = [].
Proof. vm_compute. by split_and?. Qed.
End Examples.
