(* ===== verification/QueueDurability.v ===== *)
(** Restarts: the tree of a queue holds exactly its tasks, encoded, and a queue
    opened on it again has them back. *)

From S2P Require Import Prelude JsString JsNumber Go GoHeap QueueMessage QueueEngine TaskSpec QueueRefinement QueueSafety.

Open Scope Z_scope.

(** What the tree promises: it is a map for the keys and sizes of values it
    takes. *)
Class BTreeLaws (T : Type) `{BTree T} := {
  bt_takes : bytes -> nat -> Prop;
  bt_holds : T -> gmap bytes bytes -> Prop;
  bt_holds_Insert k v t m : bt_holds t m -> bt_takes k (length v) -> bt_holds (bt_Insert k v t) (<[k := v]> m);
  bt_holds_Delete k t m : bt_holds t m -> bt_holds (bt_Delete k t) (delete k m);
}.

Lemma Encode_length m :
  length (Encode m) = (46 + length (m_ID m) + length (m_Queue m) + length (m_DedupID m) + length (m_Payload m))%nat.
Proof. unfold Encode, chunk. rewrite !length_app, !length_big_endian. cbn. lia. Qed.

Section Durability.
Context {T : Type} `{BTreeLaws T}.

(** A message that can be written and read back. *)
Definition storable (m : Message) : Prop := encodable_message m /\ bt_takes (m_ID m) (length (Encode m)).

(** Leases and delays do not make a message larger. *)
Lemma storable_retimed m st rc v : storable m -> (st < 256)%N -> 0 <= rc < 2 ^ 32 -> in_int64 v ->
  storable (m <| m_State := st |> <| m_RetryCount := rc |> <| m_VisibleAt := v |>).
Proof.
  intros [[] Hf] Hst Hrc Hv. split; [by destruct m; split|]. rewrite Encode_length in *. by destruct m.
Qed.

(** The tree holds the tasks of the queue itself, encoded. *)
Definition stored_as (c : gmap bytes bytes) (s : tasks) : Prop :=
  forall id, c !! id = match s !! id with Some (Build_task Main _ m) => Some (Encode m) | _ => None end.

Definition mirror (t : T) (s : tasks) : Prop := exists c, bt_holds t c /\ stored_as c s.

Lemma mirror_delete t s id : mirror t s -> mirror (bt_Delete id t) (delete id s).
Proof.
  intros (c & Hc & Hm). exists (delete id c). split; [by apply bt_holds_Delete|]. intros i.
  destruct (decide (id = i)) as [->|E]; [by rewrite !lookup_delete_eq|by rewrite !lookup_delete_ne].
Qed.

Lemma mirror_write t s id h m : mirror t s -> bt_takes id (length (Encode m)) ->
  mirror (bt_Insert id (Encode m) t) (<[id := Build_task Main h m]> s).
Proof.
  intros (c & Hc & Hm) Hf. exists (<[id := Encode m]> c). split; [by apply bt_holds_Insert|]. intros i.
  destruct (decide (id = i)) as [->|E]; [by rewrite !lookup_insert_eq|by rewrite !lookup_insert_ne].
Qed.

Lemma mirror_bury t s id h m : mirror t s -> mirror (bt_Delete id t) (<[id := Build_task Dead h m]> s).
Proof.
  intros (c & Hc & Hm). exists (delete id c). split; [by apply bt_holds_Delete|]. intros i. destruct (decide (id = i)) as [->|E].
  - by rewrite lookup_delete_eq, lookup_insert_eq.
  - by rewrite lookup_delete_ne, lookup_insert_ne.
Qed.

(** What happens to dead letters does not show. *)
Lemma mirror_dead t s s' : mirror t s -> (forall i h m, s' !! i = Some (Build_task Main h m) <-> s !! i = Some (Build_task Main h m)) -> mirror t s'.
Proof.
  intros (c & Hc & Hm) Hs. exists c. split; [done|]. intros i. rewrite Hm. destruct (s !! i) as [[[] h m]|] eqn:E.
  - apply Hs in E. by rewrite E.
  - destruct (s' !! i) as [[[] h' m']|] eqn:E'; try done. apply Hs in E'. congruence.
  - destruct (s' !! i) as [[[] h' m']|] eqn:E'; try done. apply Hs in E'. congruence.
Qed.

(** The tasks of the queue can be stored, in the state they are in. *)
Definition kept (s : tasks) : Prop :=
  map_Forall (fun _ k => t_side k = Main -> storable (t_msg k) /\ m_State (t_msg k) = if t_held k then StateInvisible else StateReady) s.

Lemma tstep_kept s ev s' : tasks_ok s -> kept s -> tstep s ev s' -> (forall m, ev = Added m -> storable m) -> kept s'.
Proof.
  intros Hok Hk Hst Ha. destruct Hst as [s m Hn ? Hr Hm|s now d m Hm He|s now v d m Hm He Hv Hb|s d id m Hm|s d id m z Hm ?|s why d id m z Hm Hl Hr ?
    |s why id m m' Hm Hl Hb|s why d id m Hm Hl]; try (by apply map_Forall_delete); apply map_Forall_insert_2; try done.
  - intros _. cbn. auto.
  - intros Hd. destruct (Hk _ _ Hm Hd) as [Hs _]. destruct (Hok _ _ Hm) as [_ Hr]. destruct (Hr Hd) as [_ Hrange]. cbn in Hs, Hrange.
    split; [|by destruct m]. apply storable_retimed; [done|done| |apply int64_range]. destruct Hs as [[] _]. rewrite int64_small; lia.
  - intros Hd. destruct (Hk _ _ Hm Hd) as [Hs Hst]. cbn in Hs, Hst. split; [|by destruct m].
    replace (m <| m_VisibleAt := z |>) with (m <| m_State := m_State m |> <| m_RetryCount := m_RetryCount m |> <| m_VisibleAt := z |>) by (by destruct m).
    destruct Hs as [[] ?]. by apply storable_retimed; [split; [split|]|..].
  - intros Hd. destruct (Hk _ _ Hm Hd) as [Hs _]. cbn in Hs. split; [|by destruct m].
    replace (m <| m_State := StateReady |> <| m_VisibleAt := z |>) with (m <| m_State := StateReady |> <| m_RetryCount := m_RetryCount m |> <| m_VisibleAt := z |>) by (by destruct m).
    destruct Hs as [[] ?]. by apply storable_retimed; [split; [split|]|..].
Qed.

Lemma tstep_mirror s ev s' t : kept s' -> tasks_ok s' -> tstep s ev s' -> mirror t s -> mirror (effect true ev s' t) s'.
Proof.
  intros Hk Hok Hst Hm.
  assert (forall id k, s' !! id = Some k -> t_side k = Main -> bt_takes id (length (Encode (t_msg k)))) as Hfits.
  { intros id k Hid Hd. destruct (Hk _ _ Hid Hd) as [[_ Hf] _]. destruct (Hok _ _ Hid) as [<- _]. done. }
  destruct Hst as [s m Hn ? Hr Hx|s now d m Hx He|s now v d m Hx He Hv Hb|s d id m Hx|s d id m z Hx ?|s why d id m z Hx Hl Hr ?
    |s why id m m' Hx Hl Hb|s why d id m Hx Hl]; cbn [effect]; try destruct d;
    rewrite ?leased_id, ?lookup_insert_eq; cbn [t_msg];
    try (by apply mirror_delete); try (by apply mirror_bury);
    try (apply mirror_write; [done|]; eapply (Hfits _ (Build_task Main _ _)); [apply lookup_insert_eq|done]).
  all: eapply mirror_dead; [done|]; first [apply delete_other|apply insert_other; [|done]]; intros ? ?; by rewrite Hx.
Qed.

Lemma psteps_mirror s t evs s' t' : psteps true s t evs s' t' -> tasks_ok s -> kept s -> mirror t s ->
  (forall m, Added m ∈ evs -> storable m) -> kept s' /\ mirror t' s'.
Proof.
  induction 1 as [|s t ev s1 evs s2 t2 Hst _ IH]; [done|]. intros Hok Hk Hm Ha. pose proof (tstep_ok _ _ _ Hok Hst) as Hok1.
  assert (kept s1) as Hk1 by (apply (tstep_kept s ev); [done..|]; intros m ->; apply Ha; by left).
  apply IH; [done|done|by apply (tstep_mirror s)|]. intros m Hin. apply Ha. by right.
Qed.

(** ** Opening a queue again *)

(** The messages of a queue: those that wait and those that are held. *)
Definition messages (e : QueueEngine) : list Message := q_ready e ++ (map_to_list (q_inFlight e)).*2.

(** The cursor visits every entry. *)
Definition scanned (t : T) : Prop := forall c, bt_holds t c -> bt_Values t ≡ₚ (map_to_list c).*2.

(** Loading is the insertion of what decodes. *)
Lemma restore_pushes now (t : T) :
  restoreFromTree now t = foldl (Push before) [] (restored now <$> omap (fun v => match DecodeMessage v with inr m => Some m | inl _ => None end) (bt_Values t)).
Proof.
  unfold restoreFromTree. generalize (@nil Message). induction (bt_Values t) as [|v vs IH]; intros l; [done|]. cbn.
  destruct (DecodeMessage v); [apply IH|]. apply IH.
Qed.

Lemma message_ids e s : holds Main (q_ready e) (q_inFlight e) s -> tasks_ok s -> m_ID <$> messages e = engine_ids e.
Proof.
  intros [_ _ _ Hl] Hok. unfold messages, engine_ids. rewrite fmap_app. f_equal. rewrite <- list_fmap_compose.
  apply list_fmap_ext. intros i [id m] Hi. cbn. apply list_elem_of_lookup_2, elem_of_map_to_list, Hl in Hi. by destruct (Hok _ _ Hi).
Qed.

Lemma held_messages e s m : holds Main (q_ready e) (q_inFlight e) s -> tasks_ok s ->
  m ∈ (map_to_list (q_inFlight e)).*2 <-> s !! m_ID m = Some (Build_task Main true m).
Proof.
  intros [_ _ _ Hl] Hok. rewrite list_elem_of_fmap. split.
  - intros ([i m'] & -> & Hin%elem_of_map_to_list%Hl). cbn. destruct (Hok _ _ Hin) as [Hid _]. cbn in Hid. by rewrite Hid.
  - intros Hs%Hl. exists (m_ID m, m). split; [done|]. by apply elem_of_map_to_list.
Qed.

Lemma messages_tasks e s m : holds Main (q_ready e) (q_inFlight e) s -> tasks_ok s ->
  m ∈ messages e <-> exists h, s !! m_ID m = Some (Build_task Main h m).
Proof.
  intros Hh Hok. unfold messages. rewrite elem_of_app, (held_messages e s), (h_ready _ _ _ _ Hh) by done.
  split; [intros [?|?]; eauto|]. intros [[] ?]; eauto.
Qed.

(** The values of the tree are the messages, encoded. *)
Lemma mirror_values e s c : holds Main (q_ready e) (q_inFlight e) s -> tasks_ok s -> stored_as c s ->
  (map_to_list c).*2 ≡ₚ Encode <$> messages e.
Proof.
  intros Hh Hok Hm. assert (map_to_list c ≡ₚ (fun m => (m_ID m, Encode m)) <$> messages e) as ->.
  - apply NoDup_Permutation; [apply NoDup_map_to_list| |].
    + apply (NoDup_fmap_1 fst). rewrite <- list_fmap_compose. change (NoDup (m_ID <$> messages e)).
      rewrite (message_ids e s) by done. by eapply holds_ids.
    + intros [id v]. rewrite elem_of_map_to_list, Hm, list_elem_of_fmap. split.
      * destruct (s !! id) as [[[] h m]|] eqn:E; try done. intros [= <-]. destruct (Hok _ _ E) as [Hid _]. cbn in Hid. exists m.
        split; [by rewrite Hid|]. apply (messages_tasks e s); [done..|]. exists h. by rewrite Hid.
      * intros (m & [= -> ->] & [h Hs]%(messages_tasks e s)); [|done..]. by rewrite Hs.
  - by rewrite <- list_fmap_compose.
Qed.

Definition decoded_message (v : bytes) : option Message := match DecodeMessage v with inr m => Some m | inl _ => None end.

Lemma decode_all ms : Forall encodable_message ms -> omap decoded_message (Encode <$> ms) = ms.
Proof.
  induction 1 as [|m ms Hm _ IH]; [done|].
  assert (decoded_message (Encode m) = Some m) as E by (unfold decoded_message; by rewrite <- (app_nil_r (Encode m)), decode_encode).
  rewrite fmap_cons. cbn [omap list_omap]. rewrite E. by f_equal.
Qed.

(** A held message after a restart. *)
Definition released (now : Z) (m : Message) : Message := m <| m_State := StateReady |> <| m_VisibleAt := now |>.

Lemma restart_simulated now e s t : holds Main (q_ready e) (q_inFlight e) s -> tasks_ok s -> kept s -> mirror t s -> scanned t ->
  restoreFromTree now t ≡ₚ q_ready e ++ (released now <$> (map_to_list (q_inFlight e)).*2) /\ heap before (restoreFromTree now t).
Proof.
  intros Hh Hok Hk (c & Hc & Hm) Hs. rewrite restore_pushes. fold decoded_message. destruct (pushes before [] (restored now <$> omap decoded_message (bt_Values t)) (heap_nil before)) as [Hheap Hp].
  split; [|done]. rewrite Hp, app_nil_r, (Hs c Hc), (mirror_values e s c) by done. rewrite decode_all.
  - unfold messages. rewrite fmap_app. f_equiv.
    + rewrite (list_fmap_ext _ id); [by rewrite list_fmap_id|]. intros i m Hi%list_elem_of_lookup_2%(h_ready _ _ _ _ Hh). unfold restored.
      destruct (Hk _ _ Hi eq_refl) as [_ Hst]. cbn in Hst. by rewrite Hst.
    + rewrite (list_fmap_ext _ (released now)); [done|]. intros i m Hi%list_elem_of_lookup_2%(held_messages e s); [|done..]. unfold restored.
      destruct (Hk _ _ Hi eq_refl) as [_ Hst]. cbn in Hst. by rewrite Hst.
  - apply Forall_forall. intros m [h Hin]%(messages_tasks e s); [|done..]. by destruct (Hk _ _ Hin eq_refl) as [[? _] _].
Qed.

Section Restart.
Context (start : Z) (name : bytes) (cfg : Config) (t0 : T).
Hypothesis empty_values : bt_Values t0 = [].
Hypothesis empty_map : bt_holds t0 ∅.
Hypothesis int_retries : DefaultMaxRetries cfg < 2 ^ 63.

(** The tree mirrors the tasks after every run whose tasks can be stored. *)
Lemma run_mirror os : ordinary os -> let r := run os (opened start name cfg t0) t0 in
  (forall m, Accepted (inr m) ∈ r.2 -> storable m) ->
  exists s, holds Main (q_ready r.1.1) (q_inFlight r.1.1) s /\ tasks_ok s /\ kept s /\ mirror r.1.2 s.
Proof using empty_values empty_map int_retries.
  intros Ho r Hst. destruct (opened_run start name cfg t0 empty_values int_retries os Ho) as (evss & s & [Hp Hr He _ _ _ _]). fold r in Hp, Hr, He.
  exists s. split; [apply Hr|]. split; [apply Hr|]. eapply (psteps_mirror ∅ t0 (mjoin evss) s r.1.2); [exact Hp|apply map_Forall_empty|apply map_Forall_empty| |].
  - exists ∅. split; [done|]. intros id. by rewrite !lookup_empty.
  - intros m Hin. destruct (run_causes _ _ _ _ He Hin) as (o & x & _ & Hx & Hc).
    destruct o as [ | a|a| ]; cbn in Hc; [|destruct a; cbn in Hc; unfold ended in Hc; naive_solver..|done].
    destruct Hc as (m' & -> & [= <-]). auto.
Qed.

(** Tasks survive a restart: after any run of a queue whose tasks its tree
    takes, when the cursor visits every entry, a queue opened again has, in heap order,
    every task that was waiting, exactly as it was, and every task that was held,
    visible again at once, and no others. *)
Lemma restart_restores os now : ordinary os ->
  let r := run os (opened start name cfg t0) t0 in
  (forall m, Accepted (inr m) ∈ r.2 -> storable m) -> scanned r.1.2 ->
  let e' := NewQueueEngine now name cfg r.1.2 in
  q_ready e' ≡ₚ q_ready r.1.1 ++ (released now <$> (map_to_list (q_inFlight r.1.1)).*2) /\ heap before (q_ready e').
Proof using empty_values empty_map int_retries.
  intros Ho r Hst Hs e'. destruct (run_mirror os Ho Hst) as (s & Hh & Hok & Hk & Hm). by apply (restart_simulated now r.1.1 s r.1.2).
Qed.
End Restart.
End Durability.

(** ** The tree of the examples *)

Module SortedLaws.
Import Sorted.

Lemma put_map k v t : (list_to_map (put k v t) : gmap bytes bytes) = <[k := v]> (list_to_map t).
Proof.
  induction t as [|[k' v'] t IH]; [done|]. cbn [put]. case_bool_decide as E; [subst; cbn; by rewrite insert_insert_eq|].
  case_match; [done|]. cbn. rewrite IH. by apply insert_insert_ne.
Qed.

Lemma delete_map k (t : tree) : (list_to_map (filter (fun p => p.1 <> k) t) : gmap bytes bytes) = delete k (list_to_map t).
Proof.
  induction t as [|[k' v'] t IH]; [symmetry; apply delete_empty|]. rewrite filter_cons. case_decide as E; cbn in *.
  - rewrite IH. by rewrite delete_insert_ne.
  - subst. by rewrite IH, delete_insert_eq.
Qed.

#[global] Instance sorted_laws : BTreeLaws tree.
Proof.
  exists (fun k v => (length k <= 2048)%nat /\ (v <= 4096)%nat) (fun t m => m = list_to_map t).
  - intros k v t m -> [Hk Hv]. cbn. unfold fits. rewrite (proj2 (Nat.leb_le _ _) Hk), (proj2 (Nat.leb_le _ _) Hv). symmetry. apply put_map.
  - intros k t m ->. symmetry. apply delete_map.
Defined.

Lemma sorted_scanned (t : tree) : NoDup t.*1 -> scanned t.
Proof. intros Hn c ->. cbn. by rewrite map_to_list_to_map. Qed.
End SortedLaws.

Module Examples.
Import Sorted SortedLaws QueueSafety.Examples.

(** Tasks wait and are held when the process ends. *)
Definition day : list op := morning ++ [report; take_at 10; take_at 11].

Lemma restart_restores_witness :
  let r := run day emails [] in let e' := NewQueueEngine (at_ms 9000) (gs "emails") DefaultConfig r.1.2 in
  q_ready e' ≡ₚ q_ready r.1.1 ++ (released (at_ms 9000) <$> (map_to_list (q_inFlight r.1.1)).*2).
Proof.
  intros r e'. refine (proj1 (restart_restores (T := tree) (H := sorted_tree) (H0 := sorted_laws) noon (gs "emails") DefaultConfig [] eq_refl eq_refl eq_refl
    day (at_ms 9000) _ _ _)).
  - ordinary_run.
  - intros m Hin. vm_compute in Hin.
    repeat (apply elem_of_cons in Hin as [Hin|Hin]; [first [discriminate Hin|injection Hin as ->; split; [by split|split; apply Nat.leb_le; reflexivity]]|]). by apply not_elem_of_nil in Hin.
  - apply sorted_scanned. vm_compute. repeat (apply NoDup_cons; split; [intros Hin; repeat (apply elem_of_cons in Hin as [Hin|Hin]; [discriminate Hin|]); by apply not_elem_of_nil in Hin|]).
    apply NoDup_nil_2.
Defined.

(** The tasks that were held are delivered once more than their retries allow. *)
Example retries_after_restart :
  let r := run [put_at 0 "a" (WithMaxRetries 1 DefaultOptions); take_at 1] emails [] in
  let e' := NewQueueEngine (at_ms 9000) (gs "emails") DefaultConfig r.1.2 in
  (fun m => (m_RetryCount m, m_MaxRetries m)) <$> omap (fun x => match x with Delivered (inr (Some m)) => Some m | _ => None end)
    (run [take_at 9001] e' r.1.2).2 = [(2, 1)].
Proof. vm_compute. reflexivity. Qed.

(** Dead letters do not survive. *)
Example dead_letters_forgotten :
  let r := run [put_at 0 "a" (WithMaxRetries 1 DefaultOptions); take_at 1] emails [] in
  let id := m_ID (accepted (nth 1 r.2 Nothing)) in
  let r2 := run [OMain (ANack (at_ms 2) (at_ms 2) id true)] r.1.1 r.1.2 in
  DLQCount (engine_Stats r2.1.1) = 1 /\ engine_Stats (NewQueueEngine (at_ms 9000) (gs "emails") DefaultConfig r2.1.2) = Build_Stats 0 0 0.
Proof. vm_compute. by split. Qed.
End Examples.
