(* ===== verification/QueueOnTree.v ===== *)
(** The task queue on the B+tree it is kept in: what a restart brings back, and
    what it does not. *)

From S2P Require Import Prelude JsString JsNumber Go GoHeap Btree BtreeSearch BtreeInvariant BtreeRoom BtreeCursor BtreeMap BtreeSpec QueueMessage QueueEngine TaskSpec QueueRefinement QueueSafety QueueDurability.

Open Scope Z_scope.

Abbreviation store := (gmap N Btree.page * N)%type.

(** The tree of a queue: its pages and its root. Errors are ignored; the values
    are read with a cursor from the first entry on. *)
Definition paged_tree `{Btree.Allocator} : BTree store := {|
  bt_Insert k v t := (Btree.Insert k v t.2 t.1).1;
  bt_Delete k t := ((Btree.Delete k t.2 t.1).1, t.2);
  bt_Values t := (BtreeCursor.RangeScan (BtreeCursor.scan_fuel t.1) None None (fun _ => true) t.2 t.1).*2;
|}.

#[export] Existing Instance paged_tree.

Definition empty_store : store := BtreeSpec.empty_tree.

Section Store.
Context `{Btree.Allocator}.

(** The values are those up to the first empty leaf. *)
Lemma store_values P root ls : BtreeMap.tree P root ls -> bt_Values (P, root) = (BtreeCursor.leading ls).*2.
Proof. intros Ht. cbn [bt_Values paged_tree fst snd]. by rewrite (BtreeCursor.whole_scan P root ls Ht). Qed.

Lemma empty_values : bt_Values empty_store = [].
Proof. apply (store_values ∅ Btree.InvalidPage []). split; [done|by left]. Qed.

(** ** Trees of one leaf *)

(** A store for at most 64 keys, with at most 247 bytes of key and value: its
    tree never has more than one leaf. *)
Section Single.
Context (K : gset bytes) (few : (size K <= 64)%nat).

Definition single (t : store) (m : gmap bytes bytes) : Prop := dom m ⊆ K
  /\ exists ls, BtreeSpec.holds t m ls /\ (ls = [] \/ exists i items, ls = [(i, items)]).

(** The items of the leaf fit on its page. *)
Lemma keys_fit items : BtreeSearch.ordered fst items -> Forall BtreeRoom.slim_item items -> (forall x, x ∈ items -> x.1 ∈ K) -> BtreeInvariant.fits items.
Proof using few.
  intros Ho Hs Hk. apply BtreeRoom.fits_total. pose proof (BtreeRoom.total_most _ _ _ Hs) as Ht. assert (length items <= 64)%nat; [|unfold Btree.page_room; lia].
  assert (length items.*1 <= size K)%nat as Hl; [|rewrite length_fmap in Hl; lia]. rewrite <- (size_list_to_set (C := gset bytes)) by by apply BtreeSearch.ordered_keys.
  apply subseteq_size. intros k Hin. apply elem_of_list_to_set, list_elem_of_fmap in Hin as (x & -> & Hx). by apply Hk.
Qed.

Lemma single_insert k v t m : single t m -> k ∈ K -> (length k + length v <= 247)%nat -> single (bt_Insert k v t) (<[k := v]> m).
Proof using few.
  intros [Hd (ls & Hh & Hls)] Hk Hkv. assert (BtreeRoom.slim_item (k, v)) as Hsl by (unfold BtreeRoom.slim_item, Btree.leaf_cost; cbn [fst snd]; lia).
  split; [rewrite dom_insert; set_solver|]. destruct t as [P root]. pose proof Hh as (Ht & Hp & Hm). cbn [fst snd] in Ht, Hp.
  destruct Hls as [->|(i & items & ->)].
  - assert (root = Btree.InvalidPage) as ->. { destruct Ht as [_ [[? _]|(h & ids & Ht & _)]]; [done|]. by apply BtreeMap.subtree_leaves in Ht as (_ & _ & ?). }
    destruct (BtreeSpec.exec_holds (BtreeSpec.OInsert k v) (P, Btree.InvalidPage) m [] Hh Hsl) as ([P' root'] & _ & E & _). cbn in E.
    destruct (BtreeMap.insert_root k v P [] P' root' (BtreeRoom.slim_small _ _ Hsl) Ht E) as [Ht' He]. destruct (BtreeMap.Insert_slim k v P Btree.InvalidPage [] Ht Hp Hsl) as (P2 & r2 & E2 & Hp').
    rewrite E in E2. injection E2 as <- <-. cbn [bt_Insert paged_tree fst snd]. rewrite E. exists [(root', [(k, v)])]. split; [|by eauto]. split_and!; [done|done|]. intros k'.
    etransitivity; [apply (f_equal (BtreeSearch.get k') He)|]. rewrite BtreeSpec.get_put.
    case_decide; [subst; by rewrite lookup_insert_eq|by rewrite lookup_insert_ne, <- Hm].
  - change (BtreeInvariant.entries [(i, items)]) with (items ++ []) in Hm. rewrite app_nil_r in Hm.
    assert (BtreeSearch.ordered fst items) as Ho by (pose proof (BtreeSpec.tree_ordered P root _ Ht) as Ho; change (BtreeInvariant.entries [(i, items)]) with (items ++ []) in Ho; by rewrite app_nil_r in Ho).
    destruct (BtreeCursor.tree_behind P root [] i items [] Ht) as [_ (p & n & Hleaf)]. pose proof (Hp _ _ Hleaf) as [_ Hall].
    assert (Forall BtreeRoom.slim_item (BtreeSearch.put k v items)) as Hall' by (apply Forall_forall; intros x [->|Hx]%BtreeSearch.put_elem; [done|]; rewrite Forall_forall in Hall; by apply Hall).
    assert (BtreeInvariant.fits (BtreeSearch.put k v items)) as Hfit.
    { apply keys_fit; [by apply BtreeSearch.put_ordered|done|]. intros x [->|Hx]%BtreeSearch.put_elem; [done|]. apply Hd, elem_of_dom. exists x.2. rewrite <- Hm. apply BtreeSearch.get_elem; [done|]. by destruct x. }
    destruct (BtreeMap.Insert_single k v P root i items Ht (BtreeRoom.slim_small _ _ Hsl) Hfit) as (pg & E & Ht' & prev & next & ->).
    cbn [bt_Insert paged_tree fst snd]. rewrite E. exists [(i, BtreeSearch.put k v items)]. split; [|by eauto]. split_and!; [done| |].
    + by apply BtreeRoom.slims_insert.
    + intros k'. change (BtreeInvariant.entries [(i, BtreeSearch.put k v items)]) with (BtreeSearch.put k v items ++ []). rewrite app_nil_r, BtreeSpec.get_put.
      case_decide; [subst; by rewrite lookup_insert_eq|by rewrite lookup_insert_ne, <- Hm].
Qed.

Lemma single_delete k t m : single t m -> single (bt_Delete k t) (delete k m).
Proof.
  intros [Hd (ls & (Ht & Hp & Hm) & Hls)]. split; [rewrite dom_delete; set_solver|]. destruct t as [P root]. cbn [fst snd] in Ht, Hp.
  destruct (BtreeMap.Delete_remove k P root ls Ht) as (P' & ls' & E & Ht' & He & -> & Hp'). cbn [bt_Delete paged_tree fst snd]. rewrite E. eexists. split.
  - split_and!; [exact Ht'|by apply Hp'|]. intros k'. rewrite He, BtreeSpec.get_remove. case_decide; [subst; by rewrite lookup_delete_eq|by rewrite lookup_delete_ne, <- Hm].
  - destruct Hls as [->|(i & items & ->)]; [by left|right]. by eexists _, _.
Qed.

(** The promise of a tree, kept for these keys. *)
Definition single_laws : BTreeLaws store := {|
  bt_takes k n := k ∈ K /\ (length k + n <= 247)%nat;
  bt_holds := single;
  bt_holds_Insert k v t m Hs Hk := single_insert k v t m Hs (proj1 Hk) (proj2 Hk);
  bt_holds_Delete := single_delete;
|}.

Lemma single_scanned t : scanned (H0 := single_laws) t.
Proof.
  intros m [_ (ls & (Ht & _ & Hm) & Hls)]. destruct t as [P root]. cbn [fst snd] in Ht. rewrite (store_values P root ls Ht). apply fmap_Permutation.
  assert (BtreeCursor.leading ls = BtreeInvariant.entries ls) as ->. { destruct Hls as [->|(i & [|x items] & ->)]; done. }
  pose proof (BtreeSpec.tree_ordered P root ls Ht) as Ho. apply NoDup_Permutation; [by apply BtreeSpec.ordered_NoDup|apply NoDup_map_to_list|].
  intros [k v]. by rewrite elem_of_map_to_list, <- Hm, BtreeSearch.get_elem.
Qed.
End Single.

Lemma size_of_list (l : list bytes) : (size (list_to_set l : gset bytes) <= length l)%nat.
Proof.
  induction l as [|x l IH]; [done|]. cbn [list_to_set length]. rewrite size_union_alt, size_singleton. pose proof (subseteq_size (list_to_set l ∖ {[x]} : gset bytes) (list_to_set l)). set_solver by lia.
Qed.

Definition accepted_messages (rs : list answer) : list Message := omap (fun r => match r with Accepted (inr m) => Some m | _ => None end) rs.

(** C13: Tasks survive a restart: after any run of a queue, on the pages of the
    B+tree of [internal/btree], that accepts at most 64 tasks, each of sizes that
    can be encoded and of at most 247 bytes with its identifier, a queue opened
    again on those pages has, in heap order, every task that was waiting, exactly
    as it was, and every task that was held, visible again at once, and no
    others. Fewer than [2 ^ 64] operations are made, with options and clock
    readings that are machine integers. *)
Theorem tasks_survive_restart start name cfg os now : DefaultMaxRetries cfg < 2 ^ 63 -> ordinary os ->
  let r := run os (opened start name cfg empty_store) empty_store in
  (length (accepted_messages r.2) <= 64)%nat ->
  (forall m, Accepted (inr m) ∈ r.2 -> encodable_message m /\ (length (m_ID m) + length (Encode m) <= 247)%nat) ->
  let e' := NewQueueEngine now name cfg r.1.2 in
  q_ready e' ≡ₚ q_ready r.1.1 ++ (released now <$> (map_to_list (q_inFlight r.1.1)).*2) /\ heap before (q_ready e').
Proof.
  intros Hr Ho r Hn Hs. set (K := list_to_set (m_ID <$> accepted_messages r.2) : gset bytes).
  assert (size K <= 64)%nat as few. { etransitivity; [|exact Hn]. rewrite <- (length_fmap m_ID). apply size_of_list. }
  apply (restart_restores (H0 := single_laws K few) start name cfg empty_store empty_values); [|done|done| |apply single_scanned].
  - split; [set_solver|]. exists []. split; [apply BtreeSpec.empty_holds|by left].
  - intros m Hin. destruct (Hs m Hin) as [H1 H2]. split; [done|]. split; [|done]. apply elem_of_list_to_set, list_elem_of_fmap. exists m. split; [done|].
    apply list_elem_of_omap. by exists (Accepted (inr m)).
Qed.

(** ** Tasks behind an emptied leaf *)

Definition acknowledge (id : bytes) : op := OMain (AAck id).

(** Acknowledging held tasks deletes their entries, and changes nothing about
    the tasks that wait. *)
Lemma run_acknowledge ids : NoDup ids -> forall e (t : store), q_tree e = true -> (forall id, id ∈ ids -> is_Some (q_inFlight e !! id)) ->
  let r := run (acknowledge <$> ids) e t in r.1.2 = foldl (fun t id => bt_Delete id t) t ids /\ q_ready r.1.1 = q_ready e.
Proof.
  induction 1 as [|id ids Hid _ IH]; intros e t He Hin; [done|]. rewrite fmap_cons. cbn [run foldl]. cbn [apply acknowledge act]. unfold Ack.
  destruct (Hin id ltac:(by left)) as [m Hm]. rewrite Hm. cbn [fst snd]. unfold forget. rewrite He. destruct e. cbn in *.
  apply (IH (Build_QueueEngine _ _ _ _ _ _ _ _ _ _)); cbn; [done|]. intros i Hi. rewrite lookup_delete_ne by (intros ->; done). apply Hin. by right.
Qed.

(** Deletions leave every leaf where it is. *)
Lemma run_delete ids : forall P root ls, BtreeMap.tree P root ls ->
  let t := foldl (fun t id => bt_Delete id t) (P, root) ids in
  BtreeMap.tree t.1 t.2 ((fun l => (l.1, filter (fun x => x.1 ∉ ids) l.2)) <$> ls)
  /\ forall k, k ∉ ids -> Btree.Search k t.2 t.1 = Btree.Search k root P.
Proof.
  induction ids as [|id ids IH]; intros P root ls Ht.
  - cbn. split; [|done]. rewrite (list_fmap_ext _ (fun l => l)); [by rewrite list_fmap_id|]. intros i [j its] _. cbn. by rewrite BtreeSearch.filter_keeps by set_solver.
  - cbn [foldl]. destruct (BtreeMap.Delete_remove id P root ls Ht) as (P' & ls' & E & Ht' & He & -> & _). cbn [bt_Delete paged_tree fst snd]. rewrite E. cbn [fst].
    destruct (IH P' root _ Ht') as [H1 H2]. split.
    + rewrite <- list_fmap_compose in H1. rewrite (list_fmap_ext _ ((fun l => (l.1, filter (fun x => x.1 ∉ ids) l.2)) ∘ (fun l => (l.1, BtreeSearch.remove id l.2)))); [exact H1|].
      intros i [j its] _. cbn. f_equal. unfold BtreeSearch.remove. rewrite list_filter_filter. apply list_filter_iff. intros x. set_solver.
    + intros k Hk. rewrite H2 by set_solver. rewrite (BtreeMap.Search_get k P' root _ Ht'), (BtreeMap.Search_get k P root ls Ht), He, BtreeSpec.get_remove. by rewrite decide_False by set_solver.
Qed.

(** C16: Acknowledging tasks can lose others: for every queue and every B+tree it
    is kept in, once all tasks of the first leaf, held by consumers, have been
    acknowledged, an engine opened again on the tree has no task at all, although
    the tasks that waited still wait and every entry of the other leaves is still
    found by a search. *)
Theorem acknowledged_tasks_hide_waiting e P root i items ls now name cfg : BtreeMap.tree P root ((i, items) :: ls) -> q_tree e = true ->
  (forall id, id ∈ items.*1 -> is_Some (q_inFlight e !! id)) ->
  let r := run (acknowledge <$> items.*1) e (P, root) in
  q_ready r.1.1 = q_ready e /\ (forall x, x ∈ BtreeInvariant.entries ls -> Btree.Search x.1 r.1.2.2 r.1.2.1 = Some x.2)
  /\ q_ready (NewQueueEngine now name cfg r.1.2) = [].
Proof.
  intros Ht He Hin r. pose proof (BtreeSpec.tree_ordered P root _ Ht) as Ho. change (BtreeInvariant.entries ((i, items) :: ls)) with (items ++ BtreeInvariant.entries ls) in Ho.
  pose proof Ho as (Ho1 & Ho2 & H12)%BtreeSearch.ordered_app. destruct (run_acknowledge items.*1 (BtreeSearch.ordered_keys items Ho1) e (P, root) He Hin) as [Et Er]. fold r in Et, Er.
  destruct (run_delete items.*1 P root _ Ht) as [Ht' Hs]. rewrite <- Et in Ht', Hs. split_and!; [done| |].
  - intros x Hx. rewrite Hs.
    + rewrite (BtreeMap.Search_get _ P root _ Ht). apply BtreeSearch.get_elem; [done|]. destruct x. apply elem_of_app. by right.
    + intros (y & E & Hy)%list_elem_of_fmap. specialize (H12 y x Hy Hx). rewrite E in H12. by eapply BtreeSearch.klt_irrefl.
  - unfold NewQueueEngine, blank_engine. cbn [q_ready]. unfold restoreFromTree. destruct r.1.2 as [P' root'] eqn:E2. cbn [fst snd] in Ht'. rewrite (store_values P' root' _ Ht').
    cbn [fmap list_fmap fst snd BtreeCursor.leading]. rewrite BtreeSearch.filter_drops; [done|]. intros x Hx Hn. apply Hn, list_elem_of_fmap. eauto.
Qed.
End Store.

Module Examples.
Import QueueSafety.Examples QueueDurability.Examples.

(** Tasks wait and are held when the process ends. *)
Lemma tasks_survive_restart_witness :
  let r := run day (opened (T := store) noon (gs "emails") DefaultConfig empty_store) empty_store in
  q_ready (NewQueueEngine (at_ms 9000) (gs "emails") DefaultConfig r.1.2) ≡ₚ q_ready r.1.1 ++ (released (at_ms 9000) <$> (map_to_list (q_inFlight r.1.1)).*2).
Proof.
  intros r. refine (proj1 (tasks_survive_restart (H := BtreeSpec.extension) noon (gs "emails") DefaultConfig day (at_ms 9000) eq_refl _ _ _)).
  - ordinary_run.
  - apply Nat.leb_le. vm_compute. reflexivity.
  - intros m Hin. vm_compute in Hin.
    repeat (apply elem_of_cons in Hin as [Hin|Hin]; [first [discriminate Hin|injection Hin as ->; split; [by split|apply Nat.leb_le; reflexivity]]|]). by apply not_elem_of_nil in Hin.
Defined.

(** A tree of two leaves, and a consumer that holds the task of the first. *)
Definition two_leaves : gmap N Btree.page :=
  {[1%N := Btree.Leaf Btree.InvalidPage 2 [([1%N], [10%N])]; 2%N := Btree.Leaf 1 Btree.InvalidPage [([2%N], [20%N])]; 3%N := Btree.Internal [(1%N, [2%N])] 2]}.

Definition consumer : QueueEngine := emails <| q_inFlight := {[ [1%N] := built 0 [] DefaultOptions ]} |>.

Lemma two_leaves_tree : BtreeMap.tree two_leaves 3 [(1%N, [([1%N], [10%N])]); (2%N, [([2%N], [20%N])])].
Proof.
  split; [done|]. right. exists 1%nat, [3%N; 1%N; 2%N]. split_and!; [| |by vm_compute].
  - exists [(1%N, [2%N])], 2%N, [1%N; 2%N]. split_and!; [done|done|]. exists [1%N], [2%N], [(1%N, [([1%N], [10%N])])], [(2%N, [([2%N], [20%N])])]. split_and!; try done.
    + exists Btree.InvalidPage, 2%N, [([1%N], [10%N])]. split_and!; try done. split; [repeat constructor|]. by intros x ->%list_elem_of_singleton.
    + exists 1%N, Btree.InvalidPage, [([2%N], [20%N])]. split_and!; try done. split; [repeat constructor|]. intros x ->%list_elem_of_singleton. split; [by right|done].
  - repeat (apply NoDup_cons; split; [set_solver|]). apply NoDup_nil_2.
Qed.

Lemma acknowledged_tasks_hide_waiting_witness :
  let r := run [acknowledge [1%N]] consumer (two_leaves, 3%N) in
  Btree.Search [2%N] r.1.2.2 r.1.2.1 = Some [20%N] /\ q_ready (NewQueueEngine (at_ms 9000) (gs "emails") DefaultConfig r.1.2) = [].
Proof.
  destruct (acknowledged_tasks_hide_waiting (H := BtreeSpec.extension) consumer two_leaves 3 1 [([1%N], [10%N])] [(2%N, [([2%N], [20%N])])] (at_ms 9000) (gs "emails") DefaultConfig) as (_ & H1 & H2).
  - apply two_leaves_tree.
  - reflexivity.
  - intros id ->%list_elem_of_singleton. eexists. vm_compute. reflexivity.
  - split; [apply (H1 ([2%N], [20%N])); by left|exact H2].
Defined.

(** A queue that comes to that: four large tasks are accepted, which split the
    leaf; two are taken and acknowledged; two wait and are lost. *)
Definition put_large (ms : Z) : op := OEnqueue (at_ms ms) (at_ms ms + 1) (at_ms ms + 2) (BtreeSpec.zeros 4000) DefaultOptions.

Definition taken : QueueEngine * store * list answer :=
  run [put_large 0; put_large 1; put_large 2; put_large 3; take_at 10; take_at 11] (opened (T := store) noon (gs "reports") DefaultConfig empty_store) empty_store.

Example large_tasks_lost :
  let r := run (acknowledge <$> omap (fun x => match x with Delivered (inr (Some m)) => Some (m_ID m) | _ => None end) taken.2) taken.1.1 taken.1.2 in
  length (q_ready r.1.1) = 2%nat /\ q_ready (NewQueueEngine (at_ms 9000) (gs "reports") DefaultConfig r.1.2) = [].
Proof. split; vm_compute; reflexivity. Qed.
End Examples.
