(* ===== verification/Handles.v ===== *)
(** The handles of the database: how [db.go] and [tx.go] find the tree of a
    bucket or of a queue from the catalog, the operations of [kv/bucket.go] on it,
    and what becomes of trees when the database is closed and opened again.

    A tree object is the root it has reached, over the pages of the database;
    objects are shared through the map from the root they were opened with. The
    operations on it are those of the B+tree model, errors included; the model is
    of a database without separate storage per model. *)

From S2P Require Import Prelude JsString JsNumber Go GoHeap Btree BtreeSearch BtreeInvariant BtreeRoom BtreeCursor BtreeMap BtreeSpec QueueMessage QueueEngine TaskSpec QueueRefinement QueueSafety QueueDurability QueueOnTree.

Open Scope N_scope.

(** The types of catalog objects that own a tree handle here. *)
Definition ObjectBucket : N := 1.
Definition ObjectQueue : N := 6.

Section Handles.
Context `{Allocator}.

(** [h_objects]: the root of each catalog object; [h_trees]: the tree object
    opened for a root; [h_roots]: the root each tree object has reached;
    [h_queues]: the engines with their tree objects. *)
Record handles := {
  h_readOnly : bool; h_objects : gmap (N * bytes) N; h_trees : gmap N nat; h_roots : list N; h_pages : pages;
  h_queues : gmap bytes (QueueEngine * nat);
}.

Definition root_of (h : handles) (i : nat) : N := default InvalidPage (h_roots h !! i).

(** [getOrOpenTree] *)
Definition getOrOpenTree (root : N) (h : handles) : handles * nat :=
  match h_trees h !! root with
  | Some i => (h, i)
  | None =>
      let i := length (h_roots h) in
      (h <| h_trees := <[root := i]> (h_trees h) |> <| h_roots := h_roots h ++ [root] |>, i)
  end.

(** The root of an object; one that is missing is created unless that is not
    allowed. *)
Definition object_root (creating : bool) (kind : N) (name : bytes) (h : handles) : handles * N :=
  match h_objects h !! (kind, name) with
  | Some root => (h, root)
  | None =>
      if creating then (h <| h_objects := <[(kind, name) := InvalidPage]> (h_objects h) |>, InvalidPage)
      else (h, InvalidPage)
  end.

(** [tx.Bucket] in a read-only or a writing transaction. *)
Definition tx_Bucket (readOnly : bool) (name : bytes) (h : handles) : handles * nat :=
  let '(h, root) := object_root (negb readOnly) ObjectBucket name h in getOrOpenTree root h.

(** [db.Bucket] *)
Definition db_Bucket (name : bytes) (h : handles) : handles * nat :=
  let '(h, root) := object_root (negb (h_readOnly h)) ObjectBucket name h in getOrOpenTree root h.

(** [Bucket.Put] and [Bucket.Get] on a tree object, and whether the put returned
    no error; the time to live only goes into an index of its own. *)
Definition Bucket_Put (i : nat) (k v : bytes) (h : handles) : handles * bool :=
  let '(p, root, ok) := Insert k v (root_of h i) (h_pages h) in
  (h <| h_pages := p |> <| h_roots := <[i := root]> (h_roots h) |>, ok).

Definition Bucket_Get (i : nat) (k : bytes) (h : handles) : option bytes := Search k (root_of h i) (h_pages h).

(** [Commit]: the root the bucket has reached goes into the catalog. *)
Definition sync_root (name : bytes) (i : nat) (h : handles) : handles :=
  match h_objects h !! (ObjectBucket, name) with
  | Some _ => h <| h_objects := <[(ObjectBucket, name) := root_of h i]> (h_objects h) |>
  | None => h
  end.

(** [db.Update] with one put inside, whose error ends it without a commit and
    does not take the pages back, and [db.View] with one get. *)
Definition put_key (name k v : bytes) (h : handles) : handles * bool :=
  let '(h, i) := tx_Bucket false name h in
  let '(h, ok) := Bucket_Put i k v h in
  (if ok then sync_root name i h else h, ok).

Definition get_key (name k : bytes) (h : handles) : handles * option bytes :=
  let '(h, i) := tx_Bucket true name h in (h, Bucket_Get i k h).

(** [db.Queue]: the engine is made at the first call. *)
Definition db_Queue (now : Z) (name : bytes) (h : handles) : handles * (QueueEngine * nat) :=
  match h_queues h !! name with
  | Some q => (h, q)
  | None =>
      let '(h, root) := object_root (negb (h_readOnly h)) ObjectQueue name h in
      let '(h, i) := getOrOpenTree root h in
      let q := (NewQueueEngine now name DefaultConfig (h_pages h, root_of h i), i) in
      (h <| h_queues := <[name := q]> (h_queues h) |>, q)
  end.

(** An operation on the queue [name], opened first when it is not. *)
Definition on_queue (now : Z) (name : bytes) (o : op) (h : handles) : handles * answer :=
  let '(h, (e, i)) := db_Queue now name h in
  let r := apply o e (h_pages h, root_of h i) in
  (h <| h_pages := r.1.2.1 |> <| h_roots := <[i := r.1.2.2]> (h_roots h) |> <| h_queues := <[name := (r.1.1, i)]> (h_queues h) |>, r.2).

(** [Close] and [Open]: the pages and the catalog stay. *)
Definition reopen (h : handles) : handles := {|
  h_readOnly := h_readOnly h; h_objects := h_objects h; h_trees := ∅; h_roots := []; h_pages := h_pages h; h_queues := ∅ |}.

(** [ListQueues] and [ListBuckets], without their order. *)
Definition list_objects (kind : N) (h : handles) : gset bytes :=
  set_map snd (filter (fun p => p.1 = kind) (dom (h_objects h))).

(** ** Steps *)

Inductive step : handles -> handles -> Prop :=
| s_put h name k v : h_readOnly h = false -> step h (put_key name k v h).1
| s_get h name k : step h (get_key name k h).1
| s_bucket h name : step h (db_Bucket name h).1
| s_queue h now name : step h (db_Queue now name h).1
| s_on_queue h now name o : step h (on_queue now name o h).1
| s_reopen h : step h (reopen h).

(** A database file as it is first opened. *)
Definition opening (readOnly : bool) (p : pages) : handles := {|
  h_readOnly := readOnly; h_objects := ∅; h_trees := ∅; h_roots := []; h_pages := p; h_queues := ∅ |}.

Definition reachable_handles (h : handles) : Prop := exists ro p, rtc step (opening ro p) h.

(** Tree objects exist; no queue has a root in the catalog. *)
Record handles_ok (h : handles) : Prop := {
  ok_trees : map_Forall (fun _ i => (i < length (h_roots h))%nat) (h_trees h);
  ok_queues : forall name r, h_objects h !! (ObjectQueue, name) = Some r -> r = InvalidPage;
}.

Lemma getOrOpenTree_ok root h : handles_ok h -> let r := getOrOpenTree root h in
  handles_ok r.1 /\ (r.2 < length (h_roots r.1))%nat /\ h_objects r.1 = h_objects h /\ h_pages r.1 = h_pages h
  /\ h_trees r.1 !! root = Some r.2 /\ h_readOnly r.1 = h_readOnly h.
Proof.
  intros [Ht Hq]. unfold getOrOpenTree. destruct (h_trees h !! root) as [i|] eqn:E; cbn [fst snd].
  - split; [done|]. split; [by apply (Ht root)|done].
  - destruct h as [ro objs trees roots pages qs]. cbn in *. rewrite length_app. cbn [length].
    split_and!; [|lia|done|done|apply lookup_insert_eq|done]. split; cbn; [|done].
    apply map_Forall_insert_2; [rewrite length_app; cbn [length]; lia|].
    intros r i Hi%Ht. rewrite length_app. lia.
Qed.

Lemma object_root_ok c kind name h : handles_ok h -> let r := object_root c kind name h in
  handles_ok r.1 /\ h_trees r.1 = h_trees h /\ h_roots r.1 = h_roots h /\ h_pages r.1 = h_pages h /\ h_readOnly r.1 = h_readOnly h
  /\ r.2 = default InvalidPage (h_objects h !! (kind, name)).
Proof.
  intros [Ht Hq]. unfold object_root. destruct (h_objects h !! (kind, name)) as [root|]; [done|].
  destruct c; [|done]. destruct h as [ro objs trees roots pages qs]. cbn in *. split_and!; try done. split; [done|].
  cbn. intros n r [[_ <-]|[_ Hn]]%lookup_insert_Some; [done|by eapply Hq].
Qed.

(** New roots and pages keep the invariant. *)
Lemma update_ok h i r p : handles_ok h -> handles_ok (h <| h_pages := p |> <| h_roots := <[i := r]> (h_roots h) |>).
Proof.
  intros [Ht Hq]. destruct h as [ro objs trees roots pages qs]. split; cbn in *; [|done].
  intros x j Hj. rewrite length_insert. by apply (Ht x).
Qed.

Lemma queues_ok h q : handles_ok h -> handles_ok (h <| h_queues := q |>).
Proof. intros [Ht Hq]. by destruct h. Qed.

Lemma sync_root_ok name i h : handles_ok h -> handles_ok (sync_root name i h).
Proof.
  intros [Ht Hq]. unfold sync_root. case_match; [|done]. destruct h as [ro objs trees roots pages qs]. split; [done|]. cbn in *.
  intros nm rt [[E _]|[_ Hn]]%lookup_insert_Some; [done|by eapply Hq].
Qed.

Lemma opened_tree_ok c kind name h : handles_ok h ->
  let r := getOrOpenTree (object_root c kind name h).2 (object_root c kind name h).1 in handles_ok r.1 /\ (r.2 < length (h_roots r.1))%nat.
Proof. intros Hok. destruct (object_root_ok c kind name h Hok) as [Ho _]. by destruct (getOrOpenTree_ok (object_root c kind name h).2 _ Ho) as (? & ? & _). Qed.

Lemma db_Queue_ok now name h : handles_ok h -> handles_ok (db_Queue now name h).1.
Proof.
  intros Hok. unfold db_Queue. case_match; [done|]. pose proof (opened_tree_ok (negb (h_readOnly h)) ObjectQueue name h Hok) as [Ht _].
  destruct (object_root _ _ _ _) as [h1 r]. cbn [fst snd] in *. destruct (getOrOpenTree _ _) as [h2 i]. by apply queues_ok.
Qed.

Lemma step_ok h h' : handles_ok h -> step h h' -> handles_ok h'.
Proof.
  intros Hok Hst. revert Hok. destruct Hst as [h0 name k v Hro|h0 name k|h0 name|h0 now name|h0 now name o|h0]; intros Hok.
  - unfold put_key, tx_Bucket. pose proof (opened_tree_ok (negb false) ObjectBucket name h0 Hok) as [Ht _].
    destruct (object_root _ _ _ _) as [h1 r]. cbn [fst snd] in *. destruct (getOrOpenTree _ _) as [h2 i]. cbn [fst] in *.
    unfold Bucket_Put. destruct (Insert _ _ _ _) as [[p root] ok]. cbn [fst snd]. destruct ok; [by apply sync_root_ok, update_ok|by apply update_ok].
  - unfold get_key, tx_Bucket. pose proof (opened_tree_ok (negb true) ObjectBucket name h0 Hok) as [Ht _].
    destruct (object_root _ _ _ _) as [h1 r]. cbn [fst snd] in *. by destruct (getOrOpenTree _ _) as [h2 i].
  - unfold db_Bucket. pose proof (opened_tree_ok (negb (h_readOnly h0)) ObjectBucket name h0 Hok) as [Ht _].
    by destruct (object_root _ _ _ _) as [h1 r].
  - by apply db_Queue_ok.
  - unfold on_queue. pose proof (db_Queue_ok now name h0 Hok) as Hq. destruct (db_Queue _ _ _) as [h1 [e i]]. by apply queues_ok, update_ok.
  - split; [apply map_Forall_empty|apply Hok].
Qed.

Lemma reachable_ok h : reachable_handles h -> handles_ok h.
Proof.
  intros (ro & p & Hst).
  assert (handles_ok (opening ro p)) as Hok by (split; [apply map_Forall_empty|]; intros name r; cbn; by rewrite lookup_empty).
  induction Hst as [h|h h1 h2 Hst _ IH]; [done|]. apply IH. by eapply step_ok.
Qed.

(** ** What is shared and what is forgotten *)

(** The tree object of an object new to the catalog. *)
Lemma getOrOpenTree_invalid h : (forall i, h_trees h !! InvalidPage = Some i -> root_of h i = InvalidPage) ->
  root_of (getOrOpenTree InvalidPage h).1 (getOrOpenTree InvalidPage h).2 = InvalidPage.
Proof.
  intros Hu. unfold getOrOpenTree. destruct (h_trees h !! InvalidPage) as [i|] eqn:E; [by apply Hu|]. unfold root_of. destruct h. cbn. by rewrite lookup_app_r, Nat.sub_diag by done.
Qed.

Lemma object_root_trees c kind name h : h_trees (object_root c kind name h).1 = h_trees h /\ h_roots (object_root c kind name h).1 = h_roots h.
Proof. unfold object_root. case_match; [done|]. destruct c, h; done. Qed.

Lemma fresh_unwritten ro name h : h_objects h !! (ObjectBucket, name) = None -> (forall i, h_trees h !! InvalidPage = Some i -> root_of h i = InvalidPage) ->
  root_of (tx_Bucket ro name h).1 (tx_Bucket ro name h).2 = InvalidPage.
Proof.
  intros Hn Hu. unfold tx_Bucket. assert ((object_root (negb ro) ObjectBucket name h).2 = InvalidPage) as E by (unfold object_root; rewrite Hn; by destruct ro).
  pose proof (object_root_trees (negb ro) ObjectBucket name h) as [H1 H2]. destruct (object_root _ _ _ _) as [h1 r]. cbn [fst snd] in *. subst r.
  apply getOrOpenTree_invalid. unfold root_of. by rewrite H1, H2.
Qed.

Lemma queue_unwritten name h : handles_ok h -> (forall i, h_trees h !! InvalidPage = Some i -> root_of h i = InvalidPage) ->
  let r := object_root (negb (h_readOnly h)) ObjectQueue name h in root_of (getOrOpenTree r.2 r.1).1 (getOrOpenTree r.2 r.1).2 = InvalidPage.
Proof.
  intros Hok Hu. destruct (object_root_ok (negb (h_readOnly h)) ObjectQueue name h Hok) as (_ & H1 & H2 & _ & _ & Hroot).
  assert ((object_root (negb (h_readOnly h)) ObjectQueue name h).2 = InvalidPage) as E.
  { rewrite Hroot. destruct (h_objects h !! (ObjectQueue, name)) as [r|] eqn:E; [|done]. by apply (ok_queues _ Hok name r). }
  cbv zeta. rewrite E. apply getOrOpenTree_invalid. unfold root_of. by rewrite H1, H2.
Qed.

(** The tree object for a bucket that is not in the catalog. *)
Lemma fresh_bucket ro name h : handles_ok h -> h_objects h !! (ObjectBucket, name) = None ->
  let r := tx_Bucket ro name h in
  handles_ok r.1 /\ h_trees r.1 !! InvalidPage = Some r.2 /\ h_pages r.1 = h_pages h
  /\ h_objects r.1 = (if ro then h_objects h else <[(ObjectBucket, name) := InvalidPage]> (h_objects h)).
Proof.
  intros Hok Hn. unfold tx_Bucket, object_root. rewrite Hn. destruct ro; cbn [negb].
  - destruct (getOrOpenTree_ok InvalidPage h Hok) as (H1 & _ & H3 & H4 & H5 & _). done.
  - destruct (object_root_ok true ObjectBucket name h Hok) as (Ho & _ & _ & Hp & _). unfold object_root in Ho, Hp. rewrite Hn in Ho, Hp. cbn [fst] in Ho, Hp.
    destruct (getOrOpenTree_ok InvalidPage _ Ho) as (H1 & _ & H3 & H4 & H5 & _). split_and!; [done|done|by rewrite H4|].
    rewrite H3. by destruct h.
Qed.

(** Nothing has been written through the tree object of new objects yet. *)
Definition unwritten (h : handles) : Prop := forall i, h_trees h !! InvalidPage = Some i -> root_of h i = InvalidPage.

(** The first entry of a tree. *)
Lemma Insert_first k v P : small k v -> Insert k v InvalidPage P = (<[Allocate P := Leaf InvalidPage InvalidPage [(k, v)]]> P, Allocate P, true).
Proof.
  intros Hsm. unfold Insert. pose proof Hsm as [Hk Hv]. rewrite (proj2 (Nat.ltb_ge _ _) Hk), (proj2 (Nat.ltb_ge _ _) Hv), bool_decide_eq_true_2 by done. cbn [orb]. by rewrite fill_one.
Qed.

Lemma Search_first k v P : Search k (Allocate P) (<[Allocate P := Leaf InvalidPage InvalidPage [(k, v)]]> P) = Some v.
Proof.
  destruct (Allocate_fresh P) as [_ Hv]. unfold Search. rewrite bool_decide_eq_false_2 by done. unfold findLeaf, path_to. cbn [descend]. rewrite lookup_insert_eq.
  change (default InvalidPage (last [Allocate P])) with (Allocate P). unfold leaf_items. rewrite lookup_insert_eq, found_get by (repeat constructor). apply get_head.
Qed.

(** C39: buckets that are new to the catalog share one tree: in every state of a
    database that can be written, as long as nothing was written to an object new
    to the catalog since it was opened, a key put into a new bucket [a], of sizes
    the tree accepts, is stored without an error and then read back from any other
    bucket [b] that is not in the catalog, although nothing was ever put there. *)
Theorem new_buckets_shared h a b k v : reachable_handles h -> unwritten h -> h_readOnly h = false -> a <> b -> small k v ->
  h_objects h !! (ObjectBucket, a) = None -> h_objects h !! (ObjectBucket, b) = None ->
  (put_key a k v h).2 = true /\ (get_key b k (put_key a k v h).1).2 = Some v.
Proof.
  intros Hr Hu Hro Hab Hf Ha Hb. apply reachable_ok in Hr. unfold put_key.
  destruct (fresh_bucket false a h Hr Ha) as (Hok1 & Ht1 & Hp1 & Ho1). assert (root_of (tx_Bucket false a h).1 (tx_Bucket false a h).2 = InvalidPage) as Hroot by by apply (fresh_unwritten false a h).
  destruct (tx_Bucket false a h) as [h1 i]. cbn [fst snd] in *. assert (i < length (h_roots h1))%nat as Hi by (by apply (ok_trees _ Hok1 InvalidPage)).
  unfold Bucket_Put. rewrite Hroot, Insert_first by done. cbn [fst snd]. split; [done|].
  set (p' := <[_ := _]> (h_pages h1)). set (h3 := sync_root _ _ _).
  assert (h_trees h3 = h_trees h1 /\ h_pages h3 = p' /\ root_of h3 i = Allocate (h_pages h1) /\ h_objects h3 !! (ObjectBucket, b) = None) as (Ht3 & Hp3 & Hr3 & Ho3).
  { unfold h3, sync_root, root_of. destruct h1 as [ro objs trees roots pages qs]. cbn in *. subst objs. rewrite lookup_insert_eq. cbn.
    rewrite list_lookup_insert_eq by done. split_and!; try done. by rewrite !lookup_insert_ne by congruence. }
  unfold get_key, tx_Bucket, object_root. rewrite Ho3. cbn [negb]. unfold getOrOpenTree. rewrite Ht3, Ht1. cbn [snd].
  unfold Bucket_Get. rewrite Hr3, Hp3. apply Search_first.
Qed.

(** C40: queues do not survive a restart: whatever was done before the database
    was closed and opened again, and whatever was done since, as long as nothing
    was written to an object new to the catalog, a queue has no tasks when it is
    opened, since the catalog never learns the root of its tree. *)
Theorem queues_forgotten h h' now name : reachable_handles h -> rtc step (reopen h) h' -> unwritten h' -> h_queues h' !! name = None ->
  engine_Stats (db_Queue now name h').2.1 = Build_Stats 0 0 0.
Proof.
  intros Hr Hst Hu Hq. assert (handles_ok h') as Hok.
  { apply reachable_ok in Hr. pose proof (step_ok _ _ Hr (s_reopen h)) as Hok. clear -Hst Hok. induction Hst as [|x y z Hs _ IH]; [done|]. apply IH. by eapply step_ok. }
  unfold db_Queue. rewrite Hq. pose proof (queue_unwritten name h' Hok Hu) as Hroot. destruct (object_root _ _ _ _) as [h1 r]. cbn [fst snd] in *.
  destruct (getOrOpenTree r h1) as [h2 i]. cbn [fst snd] in *. rewrite Hroot. done.
Qed.

(** The first new queue of a database. *)
Lemma db_Queue_first now a ro objs roots pages : objs !! (ObjectQueue, a) = None -> ro = false ->
  let q := (NewQueueEngine now a DefaultConfig (pages, InvalidPage), length roots) in
  db_Queue now a (Build_handles ro objs ∅ roots pages ∅)
  = (Build_handles ro (<[(ObjectQueue, a) := InvalidPage]> objs) {[InvalidPage := length roots]} (roots ++ [InvalidPage]) pages {[a := q]}, q).
Proof.
  intros Ha -> q. unfold db_Queue, object_root. cbn [h_queues h_objects h_readOnly negb]. rewrite lookup_empty, Ha.
  unfold getOrOpenTree. cbn. rewrite lookup_empty. cbn. unfold root_of. cbn. rewrite lookup_app_r, Nat.sub_diag by done. reflexivity.
Qed.

(** Another one gets the tree object of the first. *)
Lemma db_Queue_next now b h i : h_queues h !! b = None -> h_objects h !! (ObjectQueue, b) = None -> h_readOnly h = false ->
  h_trees h !! InvalidPage = Some i -> (db_Queue now b h).2.1 = NewQueueEngine now b DefaultConfig (h_pages h, root_of h i).
Proof.
  intros Hq Ho Hro Ht. unfold db_Queue, object_root. rewrite Hq, Ho, Hro. cbn [negb]. unfold getOrOpenTree.
  destruct h as [ro objs trees roots pages qs]. cbn in *. by rewrite Ht.
Qed.

Lemma accepted_tree {T} `{BTree T} now nowd msg e (t : T) m : (Enqueue now nowd msg e t).2 = inr m -> (Enqueue now nowd msg e t).1.2 = persist e m t.
Proof. unfold Enqueue. repeat case_match; cbn; try done; intros [= <-]; by destruct e. Qed.

(** The values of a tree with its first entry. *)
Lemma first_tree k v P : small k v -> P !! InvalidPage = None ->
  exists P' root', Insert k v InvalidPage P = (P', root', true) /\ bt_Values (P', root') = [v].
Proof.
  intros Hsm Hinv. pose proof (Insert_first k v P Hsm) as E. do 2 eexists. split; [exact E|].
  destruct (insert_root k v P [] _ _ Hsm (conj Hinv (or_introl (conj eq_refl eq_refl))) E) as [Ht _]. by rewrite (store_values _ _ _ Ht).
Qed.

(** A queue takes over the tasks of another: in a database that has opened no
    new tree yet, a task accepted by a new queue [a] is also waiting in the queue
    [b] that is opened after it, so it can be delivered twice. *)
Theorem queue_inherits h now now0 now1 nowd now' a b payload opt m :
  h_readOnly h = false -> h_trees h = ∅ -> h_queues h = ∅ -> a <> b ->
  h_objects h !! (ObjectQueue, a) = None -> h_objects h !! (ObjectQueue, b) = None ->
  let r := on_queue now a (OEnqueue now0 now1 nowd payload opt) h in
  r.2 = Accepted (inr m) -> encodable_message m -> small (m_ID m) (Encode m) -> h_pages h !! InvalidPage = None ->
  q_ready (db_Queue now' b r.1).2.1 = [m].
Proof.
  intros Hro Ht Hq Hab Ha Hb r Hacc Henc Hf Hinv. destruct h as [ro objs trees roots pages qs]. cbn [h_readOnly h_trees h_queues h_objects h_pages] in *. subst ro trees qs.
  unfold r, on_queue in *. rewrite db_Queue_first in * by done. clear r. set (e := NewQueueEngine _ _ _ _) in *.
  cbn [h_pages] in *. unfold root_of in *. cbn [h_roots] in *.
  assert (default InvalidPage ((roots ++ [InvalidPage]) !! length roots) = InvalidPage) as Hroot
    by (by rewrite lookup_app_r, Nat.sub_diag by done). rewrite Hroot in *.
  set (o := OEnqueue now0 now1 nowd payload opt) in *. set (x := apply o e (pages, InvalidPage)) in *. cbn [fst snd] in Hacc |- *.
  assert (x.1.2 = (Insert (m_ID m) (Encode m) InvalidPage pages).1 /\ m_State m = StateReady) as [Htree Hst].
  { unfold x, o, apply in Hacc |- *. cbn [fst snd] in Hacc |- *. injection Hacc as Hacc. split; [by apply accepted_tree in Hacc|].
    by apply accepted_message in Hacc as (id & _ & -> & _). }
  clearbody x. destruct x as [[e1 t1] x2]. cbn [fst snd] in *. subst t1. clear Hroot.
  rewrite (db_Queue_next now' b _ (length roots)); cycle 1.
  { cbn. rewrite lookup_insert_ne by done. by apply lookup_singleton_ne. } { cbn. by rewrite lookup_insert_ne by congruence. } { done. }
  { apply lookup_singleton_eq. }
  destruct (first_tree (m_ID m) (Encode m) pages Hf Hinv) as (P' & root' & E & Hv). rewrite E.
  match goal with |- context [root_of ?x _] => set (h' := x) end. assert (root_of h' (length roots) = root') as ->
    by (unfold root_of; cbn; by rewrite list_lookup_insert_eq by (rewrite length_app; cbn; lia)).
  unfold NewQueueEngine, blank_engine. cbn [q_ready]. change (h_pages h') with P'.
  unfold restoreFromTree. rewrite Hv. cbn [foldl].
  rewrite <- (app_nil_r (Encode m)), decode_encode by done. unfold restored. by rewrite Hst.
Qed.
End Handles.

Module Examples.
#[local] Existing Instance BtreeSpec.extension.

Definition empty_db : handles := opening false ∅.

Lemma empty_reachable : reachable_handles empty_db.
Proof. exists false, ∅. apply rtc_refl. Qed.

Lemma new_buckets_shared_witness :
  let r := put_key (gs "users") (gs "alice") (gs "secret") empty_db in r.2 = true /\ (get_key (gs "orders") (gs "alice") r.1).2 = Some (gs "secret").
Proof. apply (new_buckets_shared empty_db); [apply empty_reachable|intros i Hi; by vm_compute in Hi|done|done|split; apply Nat.leb_le; reflexivity|done..]. Defined.

Definition noon : Z := QueueSafety.Examples.noon.

Definition sent := on_queue noon (gs "emails") (QueueSafety.Examples.put_at 0 "hello" DefaultOptions) empty_db.

Definition hello : Message := QueueSafety.Examples.accepted sent.2.

Lemma queue_inherits_witness : q_ready (db_Queue noon (gs "orders") sent.1).2.1 = [hello].
Proof.
  apply (queue_inherits empty_db noon noon (noon + 1) (noon + 2) noon (gs "emails") (gs "orders") (gs "hello") DefaultOptions hello);
    try (by vm_compute). split; apply Nat.leb_le; vm_compute; reflexivity.
Defined.

(** A task is sent, the database is opened again and one of its other queues is
    looked at; the queue of the task is empty. *)
Lemma queues_forgotten_witness :
  engine_Stats (db_Queue noon (gs "emails") (db_Queue noon (gs "orders") (reopen sent.1)).1).2.1 = Build_Stats 0 0 0.
Proof.
  apply (queues_forgotten sent.1).
  - exists false, ∅. eapply rtc_l; [apply (s_on_queue empty_db noon (gs "emails") (QueueSafety.Examples.put_at 0 "hello" DefaultOptions))|apply rtc_refl].
  - apply rtc_once, s_queue.
  - intros i Hi. vm_compute in Hi. injection Hi as <-. vm_compute. reflexivity.
  - vm_compute. reflexivity.
Defined.
End Examples.
