(* ===== verification/PubSubEngine.v ===== *)
(** [internal/pubsub/topic.go] with the options of [pubsub/options.go] and the
    handle of [pubsub/pubsub.go]: topics with wildcards, consumer groups,
    backpressure and deduplication.

    Publishers, subscribers and the readers of the channels run concurrently: a
    state holds the publications under way, each with the deliveries it still
    has to make, and a step is one critical section or one channel operation. A
    publication holds the read lock of the engine until its last delivery, so
    subscribing and unsubscribing take place only when none is under way. *)

From coqutil Require Import Datatypes.RecordSetters.
From S2P Require Import Prelude JsString JsNumber Go QueueEngine.

Import TriangleBracketNotations.

Open Scope Z_scope.

(** ** Matching topics *)

Definition dot : N := 46.
Definition star : bytes := gs "*".
Definition rest_of : bytes := gs ">".

(** [strings.Split(s, ".")] *)
Definition parts (s : bytes) : list bytes := split_on (N.eqb dot) s.

(** The loop over the parts of the pattern, and the comparison of the lengths
    after it. *)
Fixpoint match_parts (ps ts : list bytes) : bool :=
  match ps with
  | [] => bool_decide (ts = [])
  | p :: ps =>
      if bool_decide (p = rest_of) then true
      else match ts with
           | [] => false
           | t :: ts => if negb (bool_decide (p = star)) && negb (bool_decide (p = t)) then false else match_parts ps ts
           end
  end.

Definition matchTopic (pattern topic : bytes) : bool :=
  if bool_decide (pattern = topic) || bool_decide (pattern = rest_of) then true
  else match_parts (parts pattern) (parts topic).

(** [strings.ContainsAny(s, "*>")] *)
Definition isPattern (s : bytes) : bool := existsb (fun c => N.eqb c 42 || N.eqb c 62) s.

(** ** Data *)

Inductive BackpressureStrategy := BlockOnFull | DropOldest | DropNewest.

#[global] Instance BackpressureStrategy_eq_dec : EqDecision BackpressureStrategy.
Proof. solve_decision. Defined.

Record Message := { p_ID : bytes; p_Topic : bytes; p_Payload : bytes; p_DedupID : bytes; p_CreatedAt : Z }.

(** [string(rune(seq))]: the conversion keeps the low 32 bits, and what is no
    scalar value becomes U+FFFD. *)
Definition rune_text (seq : Z) : bytes :=
  let r := (seq mod 2 ^ 32)%Z in
  if (r <? 0xD800) || ((0xE000 <=? r) && (r <? 0x110000)) then utf8_of (Z.to_N r) else utf8_of 0xFFFD.

Definition message_ID (topic : bytes) (seq : Z) : bytes := topic ++ gs "_" ++ rune_text seq.

(** What a subscription's closure takes out of the engine. *)
Inductive unsubFn := FromPatterns | FromExact (topic : bytes) | FromGroup (topic group : bytes).

(** [s_ch] is what the channel of capacity [s_cap] holds, the oldest first. *)
Record Subscription := {
  s_topic : bytes; s_group : bytes; s_cap : nat; s_ch : list Message; s_strategy : BackpressureStrategy;
  s_unsubFn : unsubFn; s_closed : bool;
}.

(** [cg_locked]: a publisher is inside [deliver]. *)
Record consumerGroup := { cg_subscribers : list Z; cg_roundRobin : Z; cg_locked : bool }.

(** What is left of a publication: a group to deliver to, or a place inside
    [deliverToSub] for the subscription [id]: at its start, at the first channel
    operation, at the one that takes the oldest message out, at the last. [u] is
    the group whose lock is released at the end. *)
Inductive task :=
| Group (g : bytes)
| Check (u : option bytes) (id : Z)
| Offer (u : option bytes) (id : Z)
| Evict (u : option bytes) (id : Z)
| Retry (u : option bytes) (id : Z).

#[global] Instance task_eq_dec : EqDecision task.
Proof. solve_decision. Defined.

Record publication := { j_msg : Message; j_tasks : list task; j_count : Z }.

(** The engine, the subscriptions its users hold, the publications under way by
    their publishers, and the subscriptions marked closed whose closure has not
    run. *)
Record broker := {
  b_subs : gmap Z Subscription;
  b_exact : gmap bytes (list Z);
  b_groups : gmap bytes (gmap bytes consumerGroup);
  b_patterns : list (bytes * Z);
  b_dedup : Deduplicator;
  b_subSeq : Z; b_msgSeq : Z; b_published : Z; b_delivered : Z; b_bufSize : Z;
  b_jobs : gmap nat publication;
  b_leaving : gset Z;
}.

Definition NewEngine (defaultBufSize : Z) : broker := {|
  b_subs := ∅; b_exact := ∅; b_groups := ∅; b_patterns := []; b_dedup := ∅; b_subSeq := 0; b_msgSeq := 0;
  b_published := 0; b_delivered := 0; b_bufSize := if defaultBufSize <=? 0 then 256 else defaultBufSize;
  b_jobs := ∅; b_leaving := ∅ |}.

Definition uint64 (z : Z) : Z := z mod 2 ^ 64.

Record Stats := { TotalPublished : Z; TotalDelivered : Z; ActiveTopics : Z; ActiveSubs : Z }.

Definition broker_Stats (b : broker) : Stats := {|
  TotalPublished := b_published b; TotalDelivered := b_delivered b;
  ActiveTopics := Z.of_nat (size (b_exact b)) + Z.of_nat (size (b_groups b));
  ActiveSubs := Z.of_nat (length (b_patterns b))
    + foldr Z.add 0 ((fun p => Z.of_nat (length p.2)) <$> map_to_list (b_exact b))
    + foldr Z.add 0 ((fun p => foldr Z.add 0 ((fun q => Z.of_nat (length (cg_subscribers q.2))) <$> map_to_list p.2)) <$> map_to_list (b_groups b)) |}.

(** ** Subscribing *)

Definition capacity (bufSize : Z) (b : broker) : nat := Z.to_nat (if bufSize <=? 0 then b_bufSize b else bufSize).

Definition Subscribe (topicPattern : bytes) (bufSize : Z) (strategy : BackpressureStrategy) (b : broker) : broker * Z :=
  let id := uint64 (b_subSeq b + 1) in
  let sub := Build_Subscription topicPattern [] (capacity bufSize b) [] strategy
               (if isPattern topicPattern then FromPatterns else FromExact topicPattern) false in
  let b := b <| b_subSeq := id |> <| b_subs := <[id := sub]> (b_subs b) |> in
  (if isPattern topicPattern then b <| b_patterns := b_patterns b ++ [(topicPattern, id)] |>
   else b <| b_exact := <[topicPattern := default [] (b_exact b !! topicPattern) ++ [id]]> (b_exact b) |>, id).

Definition no_members : consumerGroup := Build_consumerGroup [] 0 false.

Definition SubscribeGroup (topic groupName : bytes) (bufSize : Z) (strategy : BackpressureStrategy) (b : broker) : broker * Z :=
  let id := uint64 (b_subSeq b + 1) in
  let sub := Build_Subscription topic groupName (capacity bufSize b) [] strategy (FromGroup topic groupName) false in
  let groups := default ∅ (b_groups b !! topic) in
  let cg := default no_members (groups !! groupName) in
  (b <| b_subSeq := id |> <| b_subs := <[id := sub]> (b_subs b) |>
     <| b_groups := <[topic := <[groupName := cg <| cg_subscribers := cg_subscribers cg ++ [id] |>]> groups]> (b_groups b) |>, id).

Definition without (id : Z) (l : list Z) : list Z := filter (fun i => i <> id) l.

(** The closure of a subscription. *)
Definition unregister (id : Z) (fn : unsubFn) (b : broker) : broker :=
  match fn with
  | FromPatterns => b <| b_patterns := filter (fun p => p.2 <> id) (b_patterns b) |>
  | FromExact topic =>
      let filtered := without id (default [] (b_exact b !! topic)) in
      b <| b_exact := if bool_decide (filtered = []) then delete topic (b_exact b) else <[topic := filtered]> (b_exact b) |>
  | FromGroup topic g =>
      match b_groups b !! topic with
      | Some groups =>
          match groups !! g with
          | Some cg => b <| b_groups := <[topic := <[g := cg <| cg_subscribers := without id (cg_subscribers cg) |>]> groups]> (b_groups b) |>
          | None => b
          end
      | None => b
      end
  end.

(** ** Publishing *)

(** The deliveries of a publication: the subscribers of the topic, its groups in
    the order Go takes, and the patterns that match. *)
Definition plan (topic : bytes) (order : list bytes) (b : broker) : list task :=
  (Check None <$> default [] (b_exact b !! topic))
  ++ (Group <$> order)
  ++ ((fun p => Check None p.2) <$> filter (fun p => matchTopic p.1 topic = true) (b_patterns b)).

(** An order in which the groups of a topic may be visited. *)
Definition group_order (topic : bytes) (order : list bytes) (b : broker) : bool :=
  bool_decide (NoDup order) && bool_decide (list_to_set (C := gset bytes) order = dom (default ∅ (b_groups b !! topic))).

(** [Publish] up to its first delivery: the message, when it is not a
    duplicate. *)
Definition Publish (pid : nat) (nowd now : Z) (topic payload dedupID : bytes) (dedupWindow : Z) (order : list bytes) (b : broker) : broker * option Message :=
  let check := if bool_decide (dedupID = []) then (b_dedup b, true) else CheckOrSet nowd dedupID dedupWindow (b_dedup b) in
  let b := b <| b_dedup := check.1 |> in
  if negb check.2 then (b, None)
  else
    let seq := uint64 (b_msgSeq b + 1) in
    let msg := Build_Message (message_ID topic seq) topic payload dedupID now in
    (b <| b_msgSeq := seq |> <| b_published := uint64 (b_published b + 1) |>
       <| b_jobs := <[pid := Build_publication msg (plan topic order b) 0]> (b_jobs b) |>,
     Some msg).

Definition group_of (topic g : bytes) (b : broker) : option consumerGroup := b_groups b !! topic ≫= fun groups => groups !! g.

Definition set_group (topic g : bytes) (cg : consumerGroup) (b : broker) : broker :=
  b <| b_groups := <[topic := <[g := cg]> (default ∅ (b_groups b !! topic))]> (b_groups b) |>.

(** The lock of a group is released. *)
Definition release (topic : bytes) (u : option bytes) (b : broker) : broker :=
  match u with
  | Some g => match group_of topic g b with Some cg => set_group topic g (cg <| cg_locked := false |>) b | None => b end
  | None => b
  end.

Definition set_ch (id : Z) (s : Subscription) (ch : list Message) (b : broker) : broker :=
  b <| b_subs := <[id := s <| s_ch := ch |>]> (b_subs b) |>.

(** A send that does not block. *)
Definition room (s : Subscription) : bool := (length (s_ch s) <? s_cap s)%nat.

(** One move of the publisher whose next delivery is [t]: the state and what is
    left of that delivery, with the count added; [None] when it has to wait. *)
Definition move (msg : Message) (t : task) (b : broker) : option (broker * list task * Z) :=
  let topic := p_Topic msg in
  match t with
  | Group g =>
      match group_of topic g b with
      | Some cg =>
          if cg_locked cg then None
          else if bool_decide (cg_subscribers cg = []) then Some (b, [], 0)
          else
            let rr := uint64 (cg_roundRobin cg + 1) in
            match cg_subscribers cg !! Z.to_nat (rr mod Z.of_nat (length (cg_subscribers cg))) with
            | Some id => Some (set_group topic g (cg <| cg_roundRobin := rr |> <| cg_locked := true |>) b, [Check (Some g) id], 0)
            | None => None
            end
      | None => Some (b, [], 0)
      end
  | Check u id =>
      match b_subs b !! id with
      | Some s => if s_closed s then Some (release topic u b, [], 1) else Some (b, [Offer u id], 1)
      | None => None
      end
  | Offer u id =>
      match b_subs b !! id with
      | Some s =>
          if room s then Some (release topic u (set_ch id s (s_ch s ++ [msg]) b), [], 0)
          else match s_strategy s with
               | BlockOnFull => None
               | DropNewest => Some (release topic u b, [], 0)
               | DropOldest => Some (b, [Evict u id], 0)
               end
      | None => None
      end
  | Evict u id =>
      match b_subs b !! id with
      | Some s => Some (set_ch id s (tail (s_ch s)) b, [Retry u id], 0)
      | None => None
      end
  | Retry u id =>
      match b_subs b !! id with
      | Some s => Some (release topic u (if room s then set_ch id s (s_ch s ++ [msg]) b else b), [], 0)
      | None => None
      end
  end.

(** ** Interleavings *)

Inductive label :=
| LSubscribe (topicPattern : bytes) (bufSize : Z) (strategy : BackpressureStrategy)
| LSubscribeGroup (topic groupName : bytes) (bufSize : Z) (strategy : BackpressureStrategy)
| LPublish (pid : nat) (nowd now : Z) (topic payload dedupID : bytes) (dedupWindow : Z) (order : list bytes)
| LMove (pid : nat)
| LFinish (pid : nat)
| LReceive (id : Z)
| LClose (id : Z)
| LUnregister (id : Z).

#[global] Instance label_eq_dec : EqDecision label.
Proof. solve_decision. Defined.

Inductive output :=
| OSubscribed (id : Z) | OPublished (m : Message) | ODuplicate | ODelivered (count : Z) | OReceived (m : Message) | ONone.

Definition idle_lock (b : broker) : bool := bool_decide (b_jobs b = ∅).

(** One step; [None] when it has to wait. *)
Definition step (l : label) (b : broker) : option (broker * output) :=
  match l with
  | LSubscribe p buf st => if idle_lock b then let r := Subscribe p buf st b in Some (r.1, OSubscribed r.2) else None
  | LSubscribeGroup t g buf st => if idle_lock b then let r := SubscribeGroup t g buf st b in Some (r.1, OSubscribed r.2) else None
  | LPublish pid nowd now topic payload d w order =>
      match b_jobs b !! pid with
      | Some _ => None
      | None =>
          if group_order topic order b then
            let r := Publish pid nowd now topic payload d w order b in
            Some (r.1, match r.2 with Some m => OPublished m | None => ODuplicate end)
          else None
      end
  | LMove pid =>
      match b_jobs b !! pid with
      | Some (Build_publication msg (t :: ts) n) =>
          match move msg t b with
          | Some (b', t', k) => Some (b' <| b_jobs := <[pid := Build_publication msg (t' ++ ts) (n + k)]> (b_jobs b') |>, ONone)
          | None => None
          end
      | _ => None
      end
  | LFinish pid =>
      match b_jobs b !! pid with
      | Some (Build_publication _ [] n) =>
          Some (b <| b_jobs := delete pid (b_jobs b) |> <| b_delivered := uint64 (b_delivered b + n) |>, ODelivered n)
      | _ => None
      end
  | LReceive id =>
      match b_subs b !! id with
      | Some s => match s_ch s with m :: ch => Some (set_ch id s ch b, OReceived m) | [] => None end
      | None => None
      end
  | LClose id =>
      match b_subs b !! id with
      | Some s =>
          Some (if s_closed s then b
                else b <| b_subs := <[id := s <| s_closed := true |>]> (b_subs b) |> <| b_leaving := {[id]} ∪ b_leaving b |>, ONone)
      | None => None
      end
  | LUnregister id =>
      if idle_lock b && bool_decide (id ∈ b_leaving b) then
        match b_subs b !! id with
        | Some s => Some ((unregister id (s_unsubFn s) b) <| b_leaving := b_leaving b ∖ {[id]} |>, ONone)
        | None => None
        end
      else None
  end.

Fixpoint run (ls : list label) (b : broker) : option (broker * list output) :=
  match ls with
  | [] => Some (b, [])
  | l :: ls => match step l b with
               | Some (b, o) => match run ls b with Some (b, os) => Some (b, o :: os) | None => None end
               | None => None
               end
  end.

(** ** The handle of [pubsub/pubsub.go] *)

Record Options := { o_BufferSize : Z; o_Strategy : BackpressureStrategy; o_Dedup : bytes; o_Window : Z; o_ConsumerGroup : bytes }.

Definition DefaultOptions : Options := Build_Options 256 BlockOnFull [] (5 * minute) [].

Definition WithBufferSize (size : Z) (o : Options) : Options := o <| o_BufferSize := size |>.
Definition WithBackpressure (s : BackpressureStrategy) (o : Options) : Options := o <| o_Strategy := s |>.
Definition WithDedupID (id : bytes) (window : option Z) (o : Options) : Options :=
  o <| o_Dedup := id |> <| o_Window := default (o_Window o) window |>.
Definition WithConsumerGroup (g : bytes) (o : Options) : Options := o <| o_ConsumerGroup := g |>.

(** The steps the methods of the handle take. *)
Definition PubSub_Publish (pid : nat) (nowd now : Z) (topic payload : bytes) (o : Options) (order : list bytes) : label :=
  LPublish pid nowd now topic payload (o_Dedup o) (o_Window o) order.

Definition PubSub_Subscribe (topicPattern : bytes) (o : Options) : label :=
  if negb (bool_decide (o_ConsumerGroup o = [])) then LSubscribeGroup topicPattern (o_ConsumerGroup o) (o_BufferSize o) (o_Strategy o)
  else LSubscribe topicPattern (o_BufferSize o) (o_Strategy o).

Definition PubSub_SubscribeGroup (topic groupName : bytes) (o : Options) : label :=
  PubSub_Subscribe topic (WithConsumerGroup groupName o).
