(* ===== verification/PubSubSafety.v ===== *)
(** What the publish/subscribe engine promises: which topics a pattern takes,
    that a subscription gets each message once, how a group shares messages, and
    what a full channel holds up. *)

From coqutil Require Import Datatypes.RecordSetters.
From S2P Require Import Prelude JsString JsNumber Go QueueEngine PubSubEngine.

Import TriangleBracketNotations.

Open Scope Z_scope.

(** ** Matching *)

(** What the package says of a pattern and a topic, by their parts: [*] stands for
    one part, [>] for one or more. *)
Inductive documented : list bytes -> list bytes -> Prop :=
| documented_end : documented [] []
| documented_any ps t ts : documented ps ts -> documented (star :: ps) (t :: ts)
| documented_rest ps t ts us : documented ps us -> documented (rest_of :: ps) ((t :: ts) ++ us)
| documented_same p ps ts : documented ps ts -> documented (p :: ps) (p :: ts).

Lemma documented_refl ps : documented ps ps.
Proof. induction ps; by constructor. Qed.

Lemma documented_alone ts : documented [rest_of] ts <-> ts <> [].
Proof.
  split; [by inversion 1|]. intros Hts. destruct ts as [|t ts]; [done|]. rewrite <- (app_nil_r (t :: ts)). apply documented_rest, documented_end.
Qed.

Lemma documented_cons p ps ts : p <> rest_of -> documented (p :: ps) ts <-> exists t us, ts = t :: us /\ (p = star \/ p = t) /\ documented ps us.
Proof.
  intros Hp. split; [inversion 1; subst; [by eauto 10|done|by eauto 10]|]. intros (t & us & -> & [->| ->] & Hd); by constructor.
Qed.

Lemma match_cons p ps ts : p <> rest_of -> match_parts (p :: ps) ts = true <-> exists t us, ts = t :: us /\ (p = star \/ p = t) /\ match_parts ps us = true.
Proof.
  intros Hp. cbn [match_parts]. rewrite bool_decide_eq_false_2 by done. destruct ts as [|t us]; [split; [done|by intros (? & ? & ? & _)]|].
  split; [|intros (t' & us' & [= <- <-] & [->| ->] & Hm)].
  - case_bool_decide; [by eauto 10|]. case_bool_decide; [by eauto 10|done].
  - by rewrite bool_decide_eq_true_2.
  - by rewrite (bool_decide_eq_true_2 (t = t)), andb_false_r.
Qed.

(** Without [>] the loop decides what is documented. *)
Lemma match_without ps : rest_of ∉ ps -> forall ts, match_parts ps ts = true <-> documented ps ts.
Proof.
  induction ps as [|p ps IH]; intros Hr ts.
  - cbn [match_parts]. rewrite bool_decide_eq_true. split; [intros ->; constructor|by inversion 1].
  - apply not_elem_of_cons in Hr as [Hp Hr]. rewrite match_cons, documented_cons by done. by setoid_rewrite IH.
Qed.

(** At a [>] the loop stops, also when the topic has no part left for it. *)
Lemma match_with ps qs : rest_of ∉ ps -> forall ts, match_parts (ps ++ rest_of :: qs) ts = true <-> documented (ps ++ [rest_of]) ts \/ documented ps ts.
Proof.
  induction ps as [|p ps IH]; intros Hr ts; cbn [app].
  - cbn [match_parts]. rewrite bool_decide_eq_true_2, documented_alone by done. split; [intros _|done]. destruct ts; [right; constructor|by left].
  - apply not_elem_of_cons in Hr as [Hp Hr]. rewrite match_cons, !documented_cons by done. setoid_rewrite IH; [|done]. naive_solver.
Qed.

Lemma parts_elem s w c : w ∈ parts s -> c ∈ w -> c ∈ s.
Proof.
  revert w. unfold parts. induction s as [|d r IH]; intros w; cbn [split_on]; [by intros ->%list_elem_of_singleton|].
  destruct (N.eqb dot d); [intros [->|Hw]%elem_of_cons Hc; [by apply elem_of_nil in Hc|]; apply elem_of_cons; right; by eapply IH|].
  destruct (split_on (N.eqb dot) r) as [|v vs] eqn:E; [by apply split_on_nonempty in E|].
  intros [->|Hw]%elem_of_cons Hc; [apply elem_of_cons in Hc as [->|Hc]|]; apply elem_of_cons; [by left|right..];
    (eapply IH; [|exact Hc]; apply elem_of_cons); [by left|by right].
Qed.

Lemma parts_inj s t : parts s = parts t -> s = t.
Proof. unfold parts. intros H%(f_equal (join [dot])). by rewrite !join_split in H. Qed.

Lemma plain_parts s w : isPattern s = false -> w ∈ parts s -> w <> star /\ w <> rest_of.
Proof.
  intros Hs Hw. assert (forall c, c ∈ w -> (N.eqb c 42 || N.eqb c 62) = false) as Hc.
  { intros c Hin. apply (parts_elem _ _ _ Hw) in Hin. destruct (N.eqb c 42 || N.eqb c 62) eqn:E; [|done].
    assert (isPattern s = true) as Ht; [|congruence]. apply existsb_exists. exists c. split; [by apply list_elem_of_In|done]. }
  split; intros ->; [specialize (Hc 42%N)|specialize (Hc 62%N)]; (discriminate Hc; by left).
Qed.

Lemma plain_documented ps ts : (forall w, w ∈ ps -> w <> star /\ w <> rest_of) -> documented ps ts -> ps = ts.
Proof.
  intros Hp Hm. induction Hm as [|ps t ts _ IH|ps t ts us _ IH|p ps ts _ IH]; [done|by destruct (Hp star); [left|]|by destruct (Hp rest_of); [left|]|].
  f_equal. apply IH. intros w Hw. apply Hp. by right.
Qed.

(** The two shortcuts before the loop agree with it. *)
Lemma matchTopic_parts pattern topic : matchTopic pattern topic = match_parts (parts pattern) (parts topic).
Proof.
  unfold matchTopic. destruct (bool_decide (pattern = topic) || bool_decide (pattern = rest_of)) eqn:E; [|done].
  symmetry. apply orb_true_iff in E as [->%bool_decide_eq_true | ->%bool_decide_eq_true]; [|done].
  destruct (decide (rest_of ∈ parts topic)) as [(ps & qs & E & Hr)%list_elem_of_split_l|Hr]; [|apply match_without, documented_refl; done].
  rewrite E at 1. apply match_with; [done|]. left. rewrite E. clear E Hr. induction ps; cbn [app]; [by apply documented_alone|by constructor].
Qed.

Lemma matchTopic_plain pattern topic : isPattern pattern = false -> matchTopic pattern topic = true <-> pattern = topic.
Proof.
  intros Hp. rewrite matchTopic_parts, match_without; [|intros Hr; by destruct (plain_parts _ _ Hp Hr)]. split; [|intros ->; apply documented_refl].
  intros Hm. apply parts_inj. eapply plain_documented; [|exact Hm]. intros w. by apply plain_parts.
Qed.

(** C35: which topics a pattern takes, against what the package documents ([*]
    stands for one part, [>] for one or more parts, any other part for itself). A
    pattern without [>] takes exactly the documented topics; one without any
    wildcard, its own topic only. A pattern with [>] is read up to its first [>],
    whatever comes after, and takes the topics documented for that and besides
    them, which is not documented, those of what is before the [>], so that [>]
    also stands for no part at all. *)
Theorem topic_matching pattern topic :
  (rest_of ∉ parts pattern -> matchTopic pattern topic = true <-> documented (parts pattern) (parts topic))
  /\ (isPattern pattern = false -> matchTopic pattern topic = true <-> pattern = topic)
  /\ (forall ps qs, parts pattern = ps ++ rest_of :: qs -> rest_of ∉ ps ->
      matchTopic pattern topic = true <-> documented (ps ++ [rest_of]) (parts topic) \/ documented ps (parts topic)).
Proof.
  split_and!; [rewrite matchTopic_parts; intros; by apply match_without|apply matchTopic_plain|].
  intros ps qs E Hr. rewrite matchTopic_parts, E. by apply match_with.
Qed.

(** ** A subscription's stream *)

Definition task_id (t : task) : option Z :=
  match t with Group _ => None | Check _ i | Offer _ i | Evict _ i | Retry _ i => Some i end.

(** The copies of a message still to be delivered to a subscription. *)
Definition copies (id : Z) (msg : Message) (ts : list task) : list Message :=
  replicate (length (filter (fun t => task_id t = Some id) ts)) msg.

Definition due (id : Z) (j : publication) : list Message := copies id (j_msg j) (j_tasks j).

Definition pending (id : Z) (jobs : gmap nat publication) : list Message := mjoin ((fun p => due id p.2) <$> map_to_list jobs).

Lemma copies_app id msg ts us : copies id msg (ts ++ us) = copies id msg ts ++ copies id msg us.
Proof. unfold copies. by rewrite filter_app, length_app, replicate_add. Qed.

Lemma copies_none id msg ts : (forall t, t ∈ ts -> task_id t <> Some id) -> copies id msg ts = [].
Proof.
  intros Hn. unfold copies. induction ts as [|t ts IH]; [done|]. rewrite filter_cons_False by (apply Hn; by left). apply IH. intros t' Ht. apply Hn. by right.
Qed.

Lemma copies_self id msg t : task_id t = Some id -> copies id msg [t] = [msg].
Proof. intros Ht. unfold copies. by rewrite filter_cons_True. Qed.

(** What is promised of a stream: no message twice, none lost, and none out of
    order when one publisher sends them all. *)
Inductive mode := Lossy | Lossless | Ordered (pid : nat).

Definition keeps (m : mode) (l k : list Message) : Prop :=
  match m with Lossy => l ⊆+ k | Lossless => l ≡ₚ k | Ordered _ => l = k end.

Definition alike (m : mode) (l k : list Message) : Prop := match m with Ordered _ => l = k | _ => l ≡ₚ k end.

Definition blocking (m : mode) (st : BackpressureStrategy) : Prop := match m with Lossy => True | _ => st = BlockOnFull end.

(** One publisher at a time. *)
Definition sole (m : mode) (jobs : gmap nat publication) : Prop :=
  match m with Ordered pid => forall k, k ∈ dom jobs -> k = pid | _ => True end.

#[global] Instance keeps_preorder m : PreOrder (keeps m).
Proof. destruct m; split; cbn; intros; intro; (intros; etrans; done) || done. Qed.

Lemma keeps_both m a b c d : keeps m a b -> keeps m c d -> keeps m (a ++ c) (b ++ d).
Proof. destruct m; cbn; [by apply submseteq_app|by intros -> ->|by intros -> ->]. Qed.

Lemma alike_keeps m l k : alike m l k -> keeps m l k.
Proof. destruct m; cbn; [by intros ->|done..]. Qed.

Lemma alike_sym m l k : alike m l k -> alike m k l.
Proof. by destruct m; cbn; intros ->. Qed.

Lemma sole_delete m pid jobs : sole m jobs -> (match m with Ordered p => pid = p | _ => True end) -> match m with Ordered _ => delete pid jobs = ∅ | _ => True end.
Proof.
  destruct m; cbn; [done..|]. intros Hs ->. apply map_eq. intros k. rewrite lookup_empty. destruct (decide (k = pid0)) as [->|Hk]; [apply lookup_delete_eq|].
  rewrite lookup_delete_ne by done. destruct (jobs !! k) eqn:E; [|done]. apply elem_of_dom_2, Hs in E. done.
Qed.

(** The messages due, with one publication taken apart. *)
Lemma pending_insert m id pid j jobs : sole m jobs -> match m with Ordered p => pid = p | _ => True end ->
  alike m (pending id (<[pid := j]> jobs)) (due id j ++ pending id (delete pid jobs)).
Proof.
  intros Hs Hp. pose proof (sole_delete m pid jobs Hs Hp) as Hd. rewrite <- insert_delete_eq. unfold pending.
  assert (map_to_list (<[pid := j]> (delete pid jobs)) ≡ₚ (pid, j) :: map_to_list (delete pid jobs)) as Hl by apply map_to_list_insert, lookup_delete_eq.
  destruct m; [by rewrite Hl..|]. cbn. rewrite Hd in *. rewrite insert_empty, map_to_list_singleton, map_to_list_empty. by cbn; rewrite app_nil_r.
Qed.

Lemma pending_lookup m id pid j jobs : sole m jobs -> jobs !! pid = Some j ->
  alike m (pending id jobs) (due id j ++ pending id (delete pid jobs)).
Proof.
  intros Hs Hj. rewrite <- (insert_id jobs pid j Hj) at 1. apply pending_insert; [done|]. destruct m; [done..|]. apply elem_of_dom_2 in Hj. by apply Hs.
Qed.

(** ** Where subscriptions are registered *)

Definition members (topic g : bytes) (b : broker) : list Z := default [] (cg_subscribers <$> group_of topic g b).

Definition direct (topic : bytes) (b : broker) : list Z := default [] (b_exact b !! topic).

(** Identifiers are given in order. *)
Record numbered (b : broker) : Prop := {
  n_seq : 0 <= b_subSeq b;
  n_direct topic i : i ∈ direct topic b -> i <= b_subSeq b;
  n_members topic g i : i ∈ members topic g b -> i <= b_subSeq b;
  n_patterns p i : (p, i) ∈ b_patterns b -> i <= b_subSeq b;
  n_subs i : i ∈ dom (b_subs b) -> i <= b_subSeq b;
  n_leaving i : i ∈ b_leaving b -> i <= b_subSeq b;
}.

(** A subscription to [p] is registered once, in its place. *)
Record placed (id : Z) (p : bytes) (b : broker) : Prop := {
  pl_direct topic : filter (fun i => i = id) (direct topic b) = if negb (isPattern p) && bool_decide (topic = p) then [id] else [];
  pl_members topic g : id ∉ members topic g b;
  pl_patterns : filter (fun q => q.2 = id) (b_patterns b) = if isPattern p then [(p, id)] else [];
}.

(** What a publisher's moves leave alone. *)
Record same_places (b b' : broker) : Prop := {
  sp_exact : b_exact b' = b_exact b;
  sp_patterns : b_patterns b' = b_patterns b;
  sp_members topic g : members topic g b' = members topic g b;
  sp_seq : b_subSeq b' = b_subSeq b;
  sp_leaving : b_leaving b' = b_leaving b;
  sp_dom : dom (b_subs b') = dom (b_subs b);
}.

#[global] Instance same_places_preorder : PreOrder same_places.
Proof.
  split; [by intros b|]. intros a b c [H1 H2 H3 H4 H5 H6] [K1 K2 K3 K4 K5 K6]. split; congruence.
Qed.

Lemma numbered_same b b' : same_places b b' -> numbered b -> numbered b'.
Proof.
  intros [H1 H2 H3 H4 H5 H6] [K1 K2 K3 K4 K5 K6]. unfold direct in *.
  split; unfold direct; rewrite ?H1, ?H2, ?H4, ?H5, ?H6; eauto. intros topic g i. rewrite H3. eauto.
Qed.

Lemma placed_same id p b b' : same_places b b' -> placed id p b -> placed id p b'.
Proof.
  intros [H1 H2 H3 H4 H5 H6] [K1 K2 K3]. unfold direct in *. split; unfold direct; rewrite ?H1, ?H2; auto. intros. by rewrite H3.
Qed.

Lemma group_of_set topic g cg topic' g' b :
  group_of topic' g' (set_group topic g cg b) = if decide (topic' = topic /\ g' = g) then Some cg else group_of topic' g' b.
Proof.
  unfold group_of, set_group. destruct b. cbn. destruct (decide (topic' = topic)) as [->|Ht].
  - rewrite lookup_insert_eq. cbn. destruct (decide (g' = g)) as [->|Hg].
    + rewrite lookup_insert_eq. by rewrite decide_True.
    + rewrite lookup_insert_ne, decide_False by naive_solver. by destruct (b_groups !! topic); cbn; rewrite ?lookup_empty.
  - rewrite lookup_insert_ne, decide_False by naive_solver. done.
Qed.

Lemma set_group_same topic g cg cg' b : group_of topic g b = Some cg -> cg_subscribers cg' = cg_subscribers cg -> same_places b (set_group topic g cg' b).
Proof.
  intros Hg Hs. split; try by destruct b. intros topic' g'. unfold members. rewrite group_of_set. case_decide as Hd; [|done].
  destruct Hd as [-> ->]. rewrite Hg. cbn. by rewrite Hs.
Qed.

Lemma release_same topic u b : same_places b (release topic u b).
Proof.
  unfold release. destruct u as [g|]; [|done]. destruct (group_of topic g b) as [cg|] eqn:E; [|done].
  eapply set_group_same; [done|by destruct cg].
Qed.

Lemma set_ch_same id s ch b : b_subs b !! id = Some s -> same_places b (set_ch id s ch b).
Proof.
  intros Hs. destruct b. cbn in Hs. split; try done. cbn. rewrite dom_insert_L. apply elem_of_dom_2 in Hs. set_solver.
Qed.

Lemma move_same msg t b b' ts k : move msg t b = Some (b', ts, k) -> same_places b b' /\ b_jobs b' = b_jobs b.
Proof.
  assert (forall topic u b, b_jobs (release topic u b) = b_jobs b) as Hrel.
  { intros topic u b0. unfold release. destruct u as [g|]; [|done]. destruct (group_of topic g b0); [|done]. by destruct b0. }
  assert (forall id s ch b, b_jobs (set_ch id s ch b) = b_jobs b) as Hset by (by intros ? ? ? []).
  destruct t as [g|u id|u id|u id|u id]; cbn [move].
  - destruct (group_of (p_Topic msg) g b) as [cg|] eqn:E; [|by intros [= <- <- <-]]. destruct (cg_locked cg); [done|]. case_bool_decide; [by intros [= <- <- <-]|].
    destruct (_ !! _); [|done]. intros [= <- <- <-]. split; [|by destruct b]. eapply set_group_same; [done|by destruct cg].
  - destruct (b_subs b !! id); [|done]. case_match; intros [= <- <- <-]; split; auto using release_same. done.
  - destruct (b_subs b !! id) as [s|] eqn:E; [|done]. destruct (room s).
    + intros [= <- <- <-]. split; [|by rewrite Hrel]. etrans; [by eapply set_ch_same|apply release_same].
    + destruct (s_strategy s); intros [= <- <- <-]; split; auto using release_same. done.
  - destruct (b_subs b !! id) as [s|] eqn:E; [|done]. intros [= <- <- <-]. split; [by eapply set_ch_same|done].
  - destruct (b_subs b !! id) as [s|] eqn:E; [|done]. intros [= <- <- <-]. rewrite Hrel. destruct (room s); (split; [|done]).
    + etrans; [by eapply set_ch_same|apply release_same].
    + apply release_same.
Qed.

(** Registering a subscription. *)
Lemma Subscribe_places p buf st b : b_subSeq b + 1 < 2 ^ 64 -> 0 <= b_subSeq b ->
  let b' := (Subscribe p buf st b).1 in let id := b_subSeq b + 1 in
  (Subscribe p buf st b).2 = id /\ b_subSeq b' = id /\ b_leaving b' = b_leaving b /\ b_jobs b' = b_jobs b
  /\ b_subs b' = <[id := Build_Subscription p [] (capacity buf b) [] st (if isPattern p then FromPatterns else FromExact p) false]> (b_subs b)
  /\ (forall topic, direct topic b' = direct topic b ++ (if negb (isPattern p) && bool_decide (topic = p) then [id] else []))
  /\ (forall topic g, members topic g b' = members topic g b)
  /\ b_patterns b' = b_patterns b ++ (if isPattern p then [(p, id)] else []).
Proof.
  intros Hb H0. destruct b as [subs exact groups patterns dedup sseq mseq npub ndel buf0 jobs leaving]. unfold Subscribe, uint64, direct. cbn in *.
  rewrite Z.mod_small by lia. destruct (isPattern p); cbn; split_and!; try done; intros.
  - by rewrite app_nil_r.
  - case_bool_decide as Ht; [subst; by rewrite lookup_insert_eq|]. by rewrite lookup_insert_ne, app_nil_r.
  - by rewrite app_nil_r.
Qed.

Lemma SubscribeGroup_places t g buf st b : b_subSeq b + 1 < 2 ^ 64 -> 0 <= b_subSeq b ->
  let b' := (SubscribeGroup t g buf st b).1 in let id := b_subSeq b + 1 in
  b_subSeq b' = id /\ b_leaving b' = b_leaving b /\ b_jobs b' = b_jobs b /\ (exists s, b_subs b' = <[id := s]> (b_subs b))
  /\ (forall topic, direct topic b' = direct topic b)
  /\ (forall topic h, members topic h b' = members topic h b ++ (if bool_decide (topic = t /\ h = g) then [id] else []))
  /\ b_patterns b' = b_patterns b.
Proof.
  intros Hb H0. destruct b as [subs exact groups patterns dedup sseq mseq npub ndel buf0 jobs leaving]. unfold SubscribeGroup, uint64. cbn in *.
  rewrite Z.mod_small by lia. split_and!; try done; [by eexists|]. intros topic h. unfold members, group_of. cbn.
  destruct (decide (topic = t)) as [->|Ht]; [rewrite lookup_insert_eq; cbn|].
  - destruct (decide (h = g)) as [->|Hg].
    + rewrite lookup_insert_eq, bool_decide_eq_true_2 by done. cbn. destruct (groups !! t) as [gs0|]; cbn; [|by rewrite lookup_empty].
      by destruct (gs0 !! g) as [[]|].
    + rewrite lookup_insert_ne, bool_decide_eq_false_2, app_nil_r by naive_solver. by destruct (groups !! t); cbn; rewrite ?lookup_empty.
  - by rewrite lookup_insert_ne, bool_decide_eq_false_2, app_nil_r by naive_solver.
Qed.

(** Taking one out. *)
Definition reduced {A} (P : A -> Prop) `{forall x, Decision (P x)} (l l' : list A) : Prop := l' = l \/ l' = filter P l.

Lemma unregister_places id fn b : let b' := unregister id fn b in
  b_subSeq b' = b_subSeq b /\ b_leaving b' = b_leaving b /\ b_jobs b' = b_jobs b /\ b_subs b' = b_subs b
  /\ (forall topic, reduced (fun i => i <> id) (direct topic b) (direct topic b'))
  /\ (forall topic h, reduced (fun i => i <> id) (members topic h b) (members topic h b'))
  /\ reduced (fun q => q.2 <> id) (b_patterns b) (b_patterns b').
Proof.
  destruct b as [subs exact groups patterns dedup sseq mseq npub ndel buf0 jobs leaving]. unfold reduced. destruct fn as [|t|t g]; cbn.
  - by split_and!; eauto.
  - split_and!; try by eauto. intros topic. unfold direct, without. cbn. destruct (decide (topic = t)) as [->|Ht].
    + right. case_bool_decide as E; [by rewrite lookup_delete_eq, E|by rewrite lookup_insert_eq].
    + left. case_bool_decide; by rewrite ?lookup_delete_ne, ?lookup_insert_ne.
  - destruct (groups !! t) as [gs0|] eqn:Eg; [|by split_and!; eauto]. destruct (gs0 !! g) as [cg|] eqn:Ec; [|by split_and!; eauto].
    cbn. split_and!; try by eauto. intros topic h. unfold members, group_of. cbn. destruct (decide (topic = t)) as [->|Ht]; [|left; by rewrite lookup_insert_ne].
    rewrite lookup_insert_eq, Eg. cbn. destruct (decide (h = g)) as [->|Hh]; [|left; by rewrite lookup_insert_ne].
    rewrite lookup_insert_eq, Ec. right. by destruct cg.
Qed.

(** A step taken, without evaluating it. *)
Lemma some_pair {A B} (a c : A) (b d : B) : Some (a, b) = Some (c, d) -> a = c /\ b = d.
Proof. by intros [= -> ->]. Qed.

(** The steps that register nothing. *)
Definition registers (l : label) : bool :=
  match l with LSubscribe _ _ _ | LSubscribeGroup _ _ _ _ | LUnregister _ | LClose _ => true | _ => false end.

Lemma set_jobs_same jobs b : same_places b (b <| b_jobs := jobs |>).
Proof. by destruct b. Qed.

Lemma Publish_same pid nowd now topic payload d w order b : same_places b (Publish pid nowd now topic payload d w order b).1.
Proof. unfold Publish. destruct b. cbn. by case_match. Qed.

Lemma step_same l b b' o : registers l = false -> step l b = Some (b', o) -> same_places b b'.
Proof.
  destruct l as [| |pid nowd now topic payload d w order|pid|pid|id| |]; try done; intros _; cbn [step].
  - destruct (b_jobs b !! pid); [done|]. destruct (group_order topic order b); [|done]. intros [= <- _]. apply Publish_same.
  - destruct (b_jobs b !! pid) as [[msg [|t ts] n]|]; try done. destruct (move msg t b) as [[[b1 t'] k]|] eqn:E; [|done].
    intros [= <- _]. apply move_same in E as [E _]. etrans; [exact E|apply set_jobs_same].
  - destruct (b_jobs b !! pid) as [[msg [|t ts] n]|]; try done. intros [= <- _]. by destruct b.
  - destruct (b_subs b !! id) as [s|] eqn:E; [|done]. destruct (s_ch s); [done|]. intros [= <- _]. by eapply set_ch_same.
Qed.

Lemma reduced_elem {A} (P : A -> Prop) `{forall x, Decision (P x)} l l' x : reduced P l l' -> x ∈ l' -> x ∈ l.
Proof. by intros [->| ->]; [|intros [_ ?]%list_elem_of_filter]. Qed.

(** Reducing by another identifier keeps the occurrences of this one. *)
Lemma reduced_filter {A} (f : A -> Z) id id' l l' : id' <> id -> reduced (fun x => f x <> id') l l' ->
  filter (fun x => f x = id) l' = filter (fun x => f x = id) l.
Proof.
  intros Hn [->| ->]; [done|]. induction l as [|x l IH]; [done|]. rewrite !filter_cons. destruct (decide (f x <> id')) as [Hx|Hx]; [rewrite filter_cons|].
  - destruct (decide (f x = id)); by rewrite IH.
  - rewrite (decide_False (P := f x = id)) by (intros ?; apply Hx; congruence). exact IH.
Qed.

Lemma leave_places L b : let b' := b <| b_leaving := L |> in
  b_subSeq b' = b_subSeq b /\ b_leaving b' = L /\ b_jobs b' = b_jobs b /\ b_subs b' = b_subs b
  /\ (forall topic, direct topic b' = direct topic b) /\ (forall topic h, members topic h b' = members topic h b) /\ b_patterns b' = b_patterns b.
Proof. by destruct b. Qed.

Lemma step_numbered l b b' o : step l b = Some (b', o) -> numbered b -> b_subSeq b + 1 < 2 ^ 64 -> numbered b' /\ b_subSeq b' <= b_subSeq b + 1.
Proof.
  intros Hs Hn Hb. destruct (registers l) eqn:Er.
  2: { apply (step_same _ _ _ _ Er) in Hs. split; [by eapply numbered_same|]. rewrite (sp_seq _ _ Hs). lia. }
  pose proof Hn as [H1 H2 H3 H4 H5 H6]. destruct l as [p buf st|t g buf st| | | | |id|id]; try done; cbn [step] in Hs.
  - destruct (idle_lock b); [|done]. apply some_pair in Hs as [<- _]. destruct (Subscribe_places p buf st b Hb H1) as (_ & E1 & E2 & _ & E3 & E4 & E5 & E6). cbv zeta in *.
    split; [|lia]. split; rewrite ?E1; [lia|..].
    + intros topic i. rewrite E4. intros [Hi%H2|Hi]%elem_of_app; [lia|]. case_match; [apply list_elem_of_singleton in Hi; lia|by apply elem_of_nil in Hi].
    + intros topic g i. rewrite E5. intros Hi%H3. lia.
    + intros q i. rewrite E6. intros [Hi%H4|Hi]%elem_of_app; [lia|]. case_match; [apply list_elem_of_singleton in Hi as [= _ ->]; lia|by apply elem_of_nil in Hi].
    + intros i. rewrite E3, dom_insert_L. intros [->%elem_of_singleton|Hi%H5]%elem_of_union; lia.
    + rewrite E2. intros i Hi%H6. lia.
  - destruct (idle_lock b); [|done]. apply some_pair in Hs as [<- _]. destruct (SubscribeGroup_places t g buf st b Hb H1) as (E1 & E2 & _ & [s E3] & E4 & E5 & E6). cbv zeta in *.
    split; [|lia]. split; rewrite ?E1; [lia|..].
    + intros topic i. rewrite E4. intros Hi%H2. lia.
    + intros topic h i. rewrite E5. intros [Hi%H3|Hi]%elem_of_app; [lia|]. case_match; [apply list_elem_of_singleton in Hi; lia|by apply elem_of_nil in Hi].
    + intros q i. rewrite E6. intros Hi%H4. lia.
    + intros i. rewrite E3, dom_insert_L. intros [->%elem_of_singleton|Hi%H5]%elem_of_union; lia.
    + rewrite E2. intros i Hi%H6. lia.
  - destruct (b_subs b !! id) as [s|] eqn:E; [|done]. apply some_pair in Hs as [<- _]. apply elem_of_dom_2 in E. destruct (s_closed s); [split; [done|lia]|].
    destruct b. cbn in *. split; [|lia]. split; cbn; eauto.
    + intros i. rewrite dom_insert_L. set_solver.
    + intros i [->%elem_of_singleton|?]%elem_of_union; eauto.
  - destruct (idle_lock b && _); [|done]. destruct (b_subs b !! id) as [s|]; [|done]. apply some_pair in Hs as [<- _].
    destruct (unregister_places id (s_unsubFn s) b) as (E1 & E2 & _ & E3 & E4 & E5 & E6). cbv zeta in *. destruct (leave_places (b_leaving b ∖ {[id]}) (unregister id (s_unsubFn s) b)) as (F1 & F2 & _ & F3 & F4 & F5 & F6). rewrite E1 in F1. rewrite E3 in F3.
    split; [|lia]. split; rewrite ?F1, ?F2, ?F3, ?F6; eauto.
    + intros topic i Hi. rewrite F4 in Hi. eapply H2, reduced_elem; [apply E4|exact Hi].
    + intros topic h i Hi. rewrite F5 in Hi. eapply H3, reduced_elem; [apply E5|exact Hi].
    + intros q i Hi. eapply H4, reduced_elem; [apply E6|exact Hi].
    + intros i Hi. set_solver.
Qed.

Lemma filter_nil_notin {A} (f : A -> Z) id (l : list A) : (forall x, x ∈ l -> f x <> id) -> filter (fun x => f x = id) l = [].
Proof.
  intros Hl. induction l as [|x l IH]; [done|]. rewrite filter_cons_False by (apply Hl; by left). apply IH. intros y Hy. apply Hl. by right.
Qed.

Lemma step_placed id p l b b' o : step l b = Some (b', o) -> numbered b -> b_subSeq b + 1 < 2 ^ 64 ->
  placed id p b -> id <= b_subSeq b -> id ∉ b_leaving b -> placed id p b'.
Proof.
  intros Hs Hn Hb Hp Hid Hl. destruct (registers l) eqn:Er; [|apply (step_same _ _ _ _ Er) in Hs; by eapply placed_same].
  pose proof Hp as [P1 P2 P3]. pose proof (n_seq _ Hn) as H0. destruct l as [q buf st|t g buf st| | | | |i|i]; try done; cbn [step] in Hs.
  - destruct (idle_lock b); [|done]. apply some_pair in Hs as [<- _]. destruct (Subscribe_places q buf st b Hb H0) as (_ & _ & _ & _ & _ & E4 & E5 & E6). cbv zeta in *. split.
    + intros topic. rewrite E4, filter_app, P1. rewrite (filter_nil_notin (fun x => x) id (if negb (isPattern q) && bool_decide (topic = q) then [b_subSeq b + 1] else [])); [apply app_nil_r|].
      intros x. destruct (negb _ && _); [intros ->%list_elem_of_singleton; lia|by intros ?%elem_of_nil].
    + intros topic g. rewrite E5. apply P2.
    + rewrite E6, filter_app, P3. rewrite (filter_nil_notin snd id (if isPattern q then [(q, b_subSeq b + 1)] else [])); [apply app_nil_r|].
      intros x. case_match; [intros ->%list_elem_of_singleton; cbn; lia|by intros ?%elem_of_nil].
  - destruct (idle_lock b); [|done]. apply some_pair in Hs as [<- _]. destruct (SubscribeGroup_places t g buf st b Hb H0) as (_ & _ & _ & _ & E4 & E5 & E6). cbv zeta in *. split.
    + intros topic. by rewrite E4, P1.
    + intros topic h. rewrite E5. intros [Hi|Hi]%elem_of_app; [by eapply P2|]. case_match; [apply list_elem_of_singleton in Hi; lia|by apply elem_of_nil in Hi].
    + by rewrite E6.
  - destruct (b_subs b !! i) as [s|] eqn:E; [|done]. apply some_pair in Hs as [<- _]. destruct (s_closed s); [done|]. by destruct b.
  - destruct (idle_lock b && bool_decide (i ∈ b_leaving b)) eqn:E; [|done]. apply andb_true_iff in E as [_ Hi%bool_decide_eq_true].
    assert (i <> id) as Hne by (intros ->; done). destruct (b_subs b !! i) as [s|]; [|done]. apply some_pair in Hs as [<- _].
    destruct (unregister_places i (s_unsubFn s) b) as (_ & _ & _ & _ & E4 & E5 & E6). cbv zeta in *.
    destruct (leave_places (b_leaving b ∖ {[i]}) (unregister i (s_unsubFn s) b)) as (_ & _ & _ & _ & F4 & F5 & F6). split.
    + intros topic. rewrite F4, <- P1. by apply (reduced_filter (fun x => x) id i).
    + intros topic h. rewrite F5. intros Hin. eapply P2, reduced_elem; [apply E5|exact Hin].
    + rewrite F6, <- P3. by apply (reduced_filter snd id i).
Qed.

(** A publication delivers to a subscription once when its pattern matches, and
    not at all otherwise. *)
Lemma plan_copies id p msg order b : placed id p b ->
  copies id msg (plan (p_Topic msg) order b) = if matchTopic p (p_Topic msg) then [msg] else [].
Proof.
  intros [P1 _ P3]. set (topic := p_Topic msg) in *. unfold plan. rewrite !copies_app.
  rewrite (copies_none _ _ (Group <$> order)) by (by intros t (g & -> & _)%list_elem_of_fmap). cbn [app].
  assert (copies id msg (Check None <$> default [] (b_exact b !! topic)) = (fun _ => msg) <$> filter (fun i => i = id) (direct topic b)) as ->.
  { unfold copies, direct. generalize (default [] (b_exact b !! topic)). intros l. induction l as [|i l IH]; [done|]. rewrite fmap_cons, !filter_cons.
    destruct (decide (i = id)) as [->|Hi]; [rewrite decide_True by done; cbn; by rewrite IH|].
    rewrite decide_False by (cbn; congruence). exact IH. }
  assert (copies id msg ((fun q => Check None q.2) <$> filter (fun q => matchTopic q.1 topic = true) (b_patterns b))
    = (fun _ => msg) <$> filter (fun q => matchTopic q.1 topic = true) (filter (fun q => q.2 = id) (b_patterns b))) as ->.
  { unfold copies. generalize (b_patterns b). intros l. induction l as [|q l IH]; [done|]. rewrite !filter_cons.
    destruct (decide (matchTopic q.1 topic = true)) as [Hm|Hm], (decide (q.2 = id)) as [Hi|Hi]; rewrite ?fmap_cons, ?filter_cons.
    - rewrite (decide_True (P := task_id _ = _)), (decide_True (P := matchTopic _ _ = _)) by (cbn; congruence). cbn. by rewrite IH.
    - rewrite (decide_False (P := task_id _ = _)) by (cbn; congruence). exact IH.
    - rewrite (decide_False (P := matchTopic _ _ = _)) by done. exact IH.
    - exact IH. }
  rewrite P1, P3. destruct (isPattern p) eqn:Ep; cbn [negb andb].
  - rewrite fmap_nil. cbn. unfold filter, list_filter. cbn. destruct (matchTopic p topic) eqn:Em; [by rewrite decide_True|by rewrite decide_False].
  - rewrite app_nil_r. case_bool_decide as Ht.
    + by rewrite (proj2 (matchTopic_plain p topic Ep)).
    + destruct (matchTopic p topic) eqn:Em; [|done]. by apply (matchTopic_plain _ _ Ep) in Em; subst.
Qed.

(** A delivery that waits rather than drops. *)
Definition steady (m : mode) (id : Z) (t : task) : Prop :=
  match m, t with
  | Lossy, _ => True
  | _, (Evict _ i | Retry _ i) => i <> id
  | _, _ => True
  end.

Lemma release_subs topic u b : b_subs (release topic u b) = b_subs b.
Proof. unfold release. destruct u as [g|]; [|done]. destruct (group_of topic g b); [|done]. by destruct b. Qed.

Lemma set_ch_subs i s ch b : b_subs (set_ch i s ch b) = <[i := s <| s_ch := ch |>]> (b_subs b).
Proof. by destruct b. Qed.

(** A move of a delivery to another subscription. *)
Lemma move_other msg t b b' ts k id : move msg t b = Some (b', ts, k) -> task_id t <> Some id -> (forall topic g, id ∉ members topic g b) ->
  b_subs b' !! id = b_subs b !! id /\ forall t', t' ∈ ts -> task_id t' <> Some id.
Proof.
  intros Hm Ht Hg. destruct t as [g|u i|u i|u i|u i]; cbn [move task_id] in *; [|assert (i <> id) as Hi by congruence; destruct (b_subs b !! i) as [s|] eqn:E; [|done]..].
  - destruct (group_of (p_Topic msg) g b) as [cg|] eqn:E; [|injection Hm as <- <- <-; split; [done|by intros ? ?%elem_of_nil]].
    destruct (cg_locked cg); [done|]. case_bool_decide; [injection Hm as <- <- <-; split; [done|by intros ? ?%elem_of_nil]|].
    destruct (_ !! _) as [i|] eqn:Ei; [|done]. injection Hm as <- <- <-. split; [by destruct b|]. intros t' ->%list_elem_of_singleton. cbn.
    intros [= ->]. apply (Hg (p_Topic msg) g). unfold members. rewrite E. cbn. by eapply list_elem_of_lookup_2.
  - destruct (s_closed s); injection Hm as <- <- <-; rewrite ?release_subs; (split; [done|]); [by intros ? ?%elem_of_nil|]. intros t' ->%list_elem_of_singleton. cbn. congruence.
  - destruct (room s); [|destruct (s_strategy s); try done]; injection Hm as <- <- <-; rewrite ?release_subs, ?set_ch_subs, ?lookup_insert_ne by done; (split; [done|]);
      try (by intros ? ?%elem_of_nil). intros t' ->%list_elem_of_singleton. cbn. congruence.
  - injection Hm as <- <- <-. rewrite set_ch_subs, lookup_insert_ne by done. split; [done|]. intros t' ->%list_elem_of_singleton. cbn. congruence.
  - injection Hm as <- <- <-. rewrite release_subs. split; [|by intros ? ?%elem_of_nil]. destruct (room s); [|done]. by rewrite set_ch_subs, lookup_insert_ne.
Qed.

Lemma move_effect m id msg t b b' ts k s : move msg t b = Some (b', ts, k) -> b_subs b !! id = Some s -> s_closed s = false ->
  blocking m (s_strategy s) -> steady m id t -> (forall topic g, id ∉ members topic g b) ->
  exists s', b_subs b' !! id = Some s' /\ s_closed s' = false /\ s_strategy s' = s_strategy s
    /\ keeps m (s_ch s' ++ copies id msg ts) (s_ch s ++ copies id msg [t]) /\ forall t', t' ∈ ts -> steady m id t'.
Proof.
  intros Hm Hs Hc Hb Hst Hg. destruct (decide (task_id t = Some id)) as [Ht|Ht].
  2: { destruct (move_other _ _ _ _ _ _ id Hm Ht Hg) as [He Hn]. exists s. rewrite He. split_and!; try done.
    - rewrite !copies_none; [done| |done]. by intros t' ->%list_elem_of_singleton.
    - intros t' Hin. specialize (Hn _ Hin). destruct m, t'; cbn in *; (done || congruence). }
  rewrite (copies_self id msg t Ht). destruct t as [g|u i|u i|u i|u i]; cbn [task_id] in Ht; [done|injection Ht as ->; cbn [move] in Hm; rewrite Hs in Hm..].
  - rewrite Hc in Hm. injection Hm as <- <- <-. exists s. rewrite copies_self by done. split_and!; try done. intros t' ->%list_elem_of_singleton. by destruct m.
  - destruct (room s).
    + injection Hm as <- <- <-. rewrite release_subs, set_ch_subs, lookup_insert_eq, copies_none by by intros ? ?%elem_of_nil.
      eexists. split; [reflexivity|]. destruct s; cbn in *. split_and!; [done|done|by rewrite app_nil_r|by intros ? ?%elem_of_nil].
    + destruct (s_strategy s) eqn:Es; [done|..]; injection Hm as <- <- <-; rewrite ?release_subs; exists s; (destruct m; [|done..]); rewrite ?Es.
      * rewrite copies_self by done. split_and!; try done.
      * rewrite copies_none by by intros ? ?%elem_of_nil. split_and!; try done. cbn. apply submseteq_app; [done|]. apply submseteq_nil_l.
  - destruct m; [|done..]. injection Hm as <- <- <-. rewrite set_ch_subs, lookup_insert_eq. eexists. split; [reflexivity|]. rewrite copies_self by done.
    destruct s as [? ? ? ch ? ? ?]; cbn in *. split_and!; try done. apply submseteq_app; [|done]. destruct ch; [done|]. by apply submseteq_cons.
  - destruct m; [|done..]. injection Hm as <- <- <-. rewrite release_subs, copies_none by by intros ? ?%elem_of_nil. destruct (room s).
    + rewrite set_ch_subs, lookup_insert_eq. eexists. split; [reflexivity|]. destruct s; cbn in *. split_and!; try done. by rewrite app_nil_r.
    + exists s. split_and!; try done. cbn. rewrite app_nil_r. by apply submseteq_inserts_r.
Qed.

(** ** The stream over a run *)

Definition received (id : Z) (l : label) (o : output) : list Message :=
  match l, o with LReceive i, OReceived x => if bool_decide (i = id) then [x] else [] | _, _ => [] end.

(** The messages published to a subscription with the pattern [p]. *)
Definition addressed (p : bytes) (o : output) : list Message :=
  match o with OPublished x => if matchTopic p (p_Topic x) then [x] else [] | _ => [] end.

Definition by_publisher (m : mode) (l : label) : Prop :=
  match m, l with Ordered pid, LPublish k _ _ _ _ _ _ _ => k = pid | _, _ => True end.

Record fed (m : mode) (id : Z) (p : bytes) (b : broker) (rcv sent : list Message) : Prop := {
  fd_numbered : numbered b;
  fd_placed : placed id p b;
  fd_id : id <= b_subSeq b;
  fd_leaving : id ∉ b_leaving b;
  fd_sole : sole m (b_jobs b);
  fd_steady pid j t : b_jobs b !! pid = Some j -> t ∈ j_tasks j -> steady m id t;
  fd_stream : exists s, b_subs b !! id = Some s /\ s_closed s = false /\ blocking m (s_strategy s)
    /\ keeps m (rcv ++ s_ch s ++ pending id (b_jobs b)) sent;
}.

Lemma step_subs_other id l b b' o : step l b = Some (b', o) -> numbered b -> b_subSeq b + 1 < 2 ^ 64 -> id <= b_subSeq b -> registers l = true -> l <> LClose id ->
  b_subs b' !! id = b_subs b !! id /\ b_jobs b' = b_jobs b /\ (id ∈ b_leaving b' -> id ∈ b_leaving b) /\ forall x, o <> OPublished x.
Proof.
  intros Hs Hn Hb Hid Hr Hl. pose proof (n_seq _ Hn) as H0. destruct l as [q buf st|t g buf st| | | | |i|i]; try done; cbn [step] in Hs.
  - destruct (idle_lock b); [|done]. apply some_pair in Hs as [<- <-]. destruct (Subscribe_places q buf st b Hb H0) as (_ & _ & E2 & E1 & E3 & _). cbv zeta in *.
    rewrite E1, E2, E3, lookup_insert_ne by lia. done.
  - destruct (idle_lock b); [|done]. apply some_pair in Hs as [<- <-]. destruct (SubscribeGroup_places t g buf st b Hb H0) as (_ & E2 & E1 & [s E3] & _). cbv zeta in *.
    rewrite E1, E2, E3, lookup_insert_ne by lia. done.
  - assert (i <> id) as Hi by congruence. destruct (b_subs b !! i) as [s|] eqn:E; [|done]. apply some_pair in Hs as [<- <-]. destruct (s_closed s); [done|].
    destruct b. cbn in *. rewrite lookup_insert_ne by done. split_and!; try done. set_solver.
  - destruct (idle_lock b && _); [|done]. destruct (b_subs b !! i) as [s|]; [|done]. apply some_pair in Hs as [<- <-].
    destruct (unregister_places i (s_unsubFn s) b) as (_ & _ & E1 & E2 & _). cbv zeta in *.
    destruct (leave_places (b_leaving b ∖ {[i]}) (unregister i (s_unsubFn s) b)) as (_ & F1 & F2 & F3 & _). rewrite F1, F2, F3, E1, E2. split_and!; try done. set_solver.
Qed.

Lemma Publish_effect pid nowd now topic payload d w order b : let r := Publish pid nowd now topic payload d w order b in
  b_subs r.1 = b_subs b /\
  match r.2 with
  | None => b_jobs r.1 = b_jobs b
  | Some x => p_Topic x = topic /\ b_jobs r.1 = <[pid := Build_publication x (plan topic order b) 0]> (b_jobs b)
  end.
Proof. unfold Publish. destruct b. cbn. by case_match. Qed.

Lemma plan_steady m id topic order b t : t ∈ plan topic order b -> steady m id t.
Proof.
  intros [(i & -> & _)%list_elem_of_fmap|[(g & -> & _)%list_elem_of_fmap|(q & -> & _)%list_elem_of_fmap]%elem_of_app]%elem_of_app; by destruct m.
Qed.

(** A publication starts. *)
Lemma fed_publish m id p b rcv sent l b' o : fed m id p b rcv sent -> step l b = Some (b', o) -> by_publisher m l ->
  (exists pid nowd now topic payload d w order, l = LPublish pid nowd now topic payload d w order) -> numbered b' -> placed id p b' ->
  fed m id p b' rcv (sent ++ addressed p o).
Proof.
  intros [_ Hp Hid Hl Hsole Hst (s & Hs & Hc & Hb & Hk)] Hstep Hby (pid & nowd & now & topic & payload & d & w & order & ->) Hn' Hp'.
  assert (same_places b b') as Hsame by by eapply step_same; [|exact Hstep]. cbn [step] in Hstep. destruct (b_jobs b !! pid) eqn:Ej; [done|]. destruct (group_order topic order b); [|done].
  apply some_pair in Hstep as [<- <-]. destruct (Publish_effect pid nowd now topic payload d w order b) as [E1 E2].
  set (r := Publish pid nowd now topic payload d w order b) in *. clearbody r.
  destruct r as [b' [x|]]; cbn [fst snd] in *; cbn [addressed].
  2: { rewrite app_nil_r. destruct Hsame. split; rewrite ?E2; try congruence; try done. exists s. rewrite E1. auto. }
  destruct E2 as [Ht E2]. pose proof (sp_seq _ _ Hsame) as F1. pose proof (sp_leaving _ _ Hsame) as F2.
  assert (match m with Ordered q => pid = q | _ => True end) as Hq by by destruct m.
  split; rewrite ?F1, ?F2, ?E2; try done.
  - destruct m as [| |q]; cbn; [done..|]. intros k. rewrite dom_insert_L. intros [->%elem_of_singleton|Hk']%elem_of_union; [done|by apply Hsole].
  - intros pid' j t. destruct (decide (pid' = pid)) as [->|Hne]; [rewrite lookup_insert_eq; intros [= <-]; apply plan_steady|]. rewrite lookup_insert_ne by done. apply Hst.
  - exists s. rewrite E1. split_and!; try done. pose proof (pending_insert m id pid (Build_publication x (plan topic order b) 0) (b_jobs b) Hsole Hq) as Hpend.
    pose proof (sole_delete m pid _ Hsole Hq) as Hdel. rewrite delete_id in Hpend, Hdel by done. unfold due in Hpend. cbn [j_msg j_tasks] in Hpend. rewrite <- Ht in Hpend at 2.
    rewrite (plan_copies id p x order b Hp) in Hpend. set (xs := if matchTopic p (p_Topic x) then [x] else []) in *.
    assert (keeps m (pending id (<[pid := Build_publication x (plan topic order b) 0]> (b_jobs b))) (pending id (b_jobs b) ++ xs)) as Hnew.
    { etrans; [by apply alike_keeps|]. apply alike_keeps. destruct m; cbn; [by rewrite (comm (++))..|]. rewrite Hdel. cbn. by rewrite app_nil_r. }
    etrans; [apply keeps_both; [done|]; apply keeps_both; [done|exact Hnew]|]. rewrite !app_assoc, <- (app_assoc rcv). by apply keeps_both.
Qed.

(** A publisher moves on. *)
Lemma fed_move m id p b rcv sent pid b' o : fed m id p b rcv sent -> step (LMove pid) b = Some (b', o) -> numbered b' -> placed id p b' ->
  fed m id p b' rcv (sent ++ addressed p o).
Proof.
  intros [_ Hp Hid Hl Hsole Hst (s & Hs & Hc & Hb & Hk)] Hstep Hn' Hp'.
  assert (same_places b b') as Hsame by by eapply step_same; [|exact Hstep]. cbn [step] in Hstep.
  destruct (b_jobs b !! pid) as [[msg [|t ts] n]|] eqn:Ej; try done. destruct (move msg t b) as [[[b1 t'] k]|] eqn:E; [|done]. apply some_pair in Hstep as [Hb' <-].
  cbn [addressed]. rewrite app_nil_r. pose proof (move_same _ _ _ _ _ _ E) as [_ Hj1].
  destruct (move_effect m id _ _ _ _ _ _ s E Hs Hc Hb) as (s' & Hs' & Hc' & Hst' & Hkeep & Hsteady); [eapply Hst; [exact Ej|by left]|apply Hp|].
  assert (b_subs b' = b_subs b1 /\ b_jobs b' = <[pid := Build_publication msg (t' ++ ts) (n + k)]> (b_jobs b)) as [F3 F4] by (subst b'; rewrite <- Hj1; by destruct b1).
  pose proof (sp_seq _ _ Hsame) as F1. pose proof (sp_leaving _ _ Hsame) as F2. clear Hb'.
  assert (match m with Ordered q => pid = q | _ => True end) as Hq by (destruct m; [done..|]; by apply Hsole; apply elem_of_dom_2 in Ej).
  split; rewrite ?F1, ?F2, ?F3, ?F4; try done.
  - destruct m as [| |q]; cbn; [done..|]. intros i. rewrite dom_insert_L. intros [->%elem_of_singleton|Hi]%elem_of_union; [done|by apply Hsole].
  - intros pid' j u. destruct (decide (pid' = pid)) as [->|Hne]; [rewrite lookup_insert_eq; intros [= <-]|rewrite lookup_insert_ne by done; apply Hst].
    intros [Hu|Hu]%elem_of_app; [by apply Hsteady|]. eapply Hst; [exact Ej|by right].
  - exists s'. rewrite Hst'. split_and!; try done. etrans; [|exact Hk]. apply keeps_both; [done|].
    pose proof (alike_keeps _ _ _ (pending_insert m id pid (Build_publication msg (t' ++ ts) (n + k)) _ Hsole Hq)) as H1.
    pose proof (alike_keeps _ _ _ (alike_sym _ _ _ (pending_lookup m id pid _ _ Hsole Ej))) as H2. unfold due in H1, H2. cbn [j_msg j_tasks] in H1, H2.
    rewrite (copies_app id msg t' ts) in H1. change (t :: ts) with ([t] ++ ts) in H2. rewrite copies_app in H2.
    etrans; [apply keeps_both; [done|exact H1]|]. etrans; [|apply keeps_both; [done|exact H2]]. rewrite <- !app_assoc, !(app_assoc (s_ch _)). by apply keeps_both.
Qed.

Lemma fed_finish m id p b rcv sent pid b' o : fed m id p b rcv sent -> step (LFinish pid) b = Some (b', o) -> numbered b' -> placed id p b' ->
  fed m id p b' rcv (sent ++ addressed p o).
Proof.
  intros [_ Hp Hid Hl Hsole Hst (s & Hs & Hc & Hb & Hk)] Hstep Hn' Hp'.
  assert (same_places b b') as Hsame by by eapply step_same; [|exact Hstep]. cbn [step] in Hstep.
  destruct (b_jobs b !! pid) as [[msg [|t ts] n]|] eqn:Ej; try done. apply some_pair in Hstep as [Hb' <-]. cbn [addressed]. rewrite app_nil_r.
  assert (b_subs b' = b_subs b /\ b_jobs b' = delete pid (b_jobs b)) as [F3 F4] by (subst b'; by destruct b).
  pose proof (sp_seq _ _ Hsame) as F1. pose proof (sp_leaving _ _ Hsame) as F2. clear Hb'. split; rewrite ?F1, ?F2, ?F3, ?F4; try done.
  - destruct m as [| |q]; cbn; [done..|]. intros i. rewrite dom_delete_L. intros [Hi _]%elem_of_difference. by apply Hsole.
  - intros pid' j u [_ Hj]%lookup_delete_Some. by eapply Hst.
  - exists s. split_and!; try done. etrans; [|exact Hk]. do 2 (apply keeps_both; [done|]).
    pose proof (alike_keeps _ _ _ (alike_sym _ _ _ (pending_lookup m id pid _ _ Hsole Ej))) as H2. exact H2.
Qed.

Lemma fed_receive m id p b rcv sent i b' o : fed m id p b rcv sent -> step (LReceive i) b = Some (b', o) -> numbered b' -> placed id p b' ->
  fed m id p b' (rcv ++ received id (LReceive i) o) (sent ++ addressed p o).
Proof.
  intros [_ Hp Hid Hl Hsole Hst (s & Hs & Hc & Hb & Hk)] Hstep Hn' Hp'.
  assert (same_places b b') as Hsame by by eapply step_same; [|exact Hstep]. cbn [step] in Hstep.
  destruct (b_subs b !! i) as [s1|] eqn:E; [|done]. destruct (s_ch s1) as [|x ch] eqn:Ech; [done|]. apply some_pair in Hstep as [<- <-]. cbn [addressed received]. rewrite app_nil_r.
  pose proof (sp_seq _ _ Hsame) as F1. pose proof (sp_leaving _ _ Hsame) as F2. assert (b_jobs (set_ch i s1 ch b) = b_jobs b) as F4 by by destruct b.
  split; rewrite ?F1, ?F2, ?F4; try done. rewrite set_ch_subs. case_bool_decide as Hi.
  - subst i. rewrite lookup_insert_eq. eexists. split; [reflexivity|]. assert (s1 = s) as -> by congruence. destruct s; cbn in *. subst. split_and!; try done. by rewrite <- app_assoc.
  - rewrite lookup_insert_ne, app_nil_r by done. by exists s.
Qed.

Lemma fed_step m id p l b rcv sent b' o : fed m id p b rcv sent -> step l b = Some (b', o) -> by_publisher m l -> l <> LClose id -> b_subSeq b + 1 < 2 ^ 64 ->
  fed m id p b' (rcv ++ received id l o) (sent ++ addressed p o) /\ b_subSeq b' <= b_subSeq b + 1.
Proof.
  intros Hf Hs Hby Hcl Hb. pose proof (step_numbered _ _ _ _ Hs (fd_numbered _ _ _ _ _ _ Hf) Hb) as [Hn Hle]. split; [|done].
  assert (placed id p b') as Hp' by (destruct Hf; by eapply step_placed).
  destruct (registers l) eqn:Er.
  - destruct Hf as [Hn0 Hp Hid Hl Hsole Hst (s & Hs' & Hk)]. destruct (step_subs_other id _ _ _ _ Hs Hn0 Hb Hid Er Hcl) as (E1 & E2 & E3 & E4).
    replace (received id l o) with (@nil Message) by by destruct l. replace (addressed p o) with (@nil Message) by (destruct o; try done; by destruct (E4 m0)).
    rewrite !app_nil_r. split; rewrite ?E2; auto; [|exists s; by rewrite E1]. apply (n_subs _ Hn), elem_of_dom. rewrite E1. by rewrite Hs'.
  - destruct l; try done; cbn [received]; rewrite ?app_nil_r.
    + eapply fed_publish; eauto 10.
    + by eapply fed_move.
    + by eapply fed_finish.
    + by eapply fed_receive.
Qed.

(** What a reader of the channel has got, and what was published for it. *)
Definition got (id : Z) (ls : list label) (os : list output) : list Message := mjoin (zip_with (received id) ls os).

Definition sent_to (p : bytes) (os : list output) : list Message := mjoin (addressed p <$> os).

Lemma fed_run m id p ls b rcv sent b' os : fed m id p b rcv sent -> run ls b = Some (b', os) -> Forall (by_publisher m) ls -> LClose id ∉ ls ->
  b_subSeq b + Z.of_nat (length ls) < 2 ^ 64 -> fed m id p b' (rcv ++ got id ls os) (sent ++ sent_to p os).
Proof.
  revert b rcv sent os. induction ls as [|l ls IH]; intros b rcv sent os Hf Hr Hby Hcl Hb; cbn [run] in Hr.
  - injection Hr as <- <-. unfold got, sent_to. cbn. by rewrite !app_nil_r.
  - destruct (step l b) as [[b1 o]|] eqn:Es; [|done]. destruct (run ls b1) as [[b2 os']|] eqn:Er; [|done]. injection Hr as <- <-.
    apply Forall_cons in Hby as [Hby1 Hby2]. apply not_elem_of_cons in Hcl as [Hc1 Hc2]. cbn [length] in Hb.
    destruct (fed_step m id p l b rcv sent b1 o Hf Es Hby1) as [Hf1 Hle]; [congruence|lia|].
    specialize (IH _ _ _ _ Hf1 Er Hby2 Hc2). unfold got, sent_to in *. cbn. rewrite !(app_assoc _ _ (mjoin _)). apply IH. lia.
Qed.

Lemma numbered_new size : numbered (NewEngine size).
Proof. split; cbn; [done|by intros ? ? ?%elem_of_nil|by intros ? ? ? ?%elem_of_nil|by intros ? ? ?%elem_of_nil|set_solver|set_solver]. Qed.

Lemma run_numbered ls b b' os : run ls b = Some (b', os) -> numbered b -> b_subSeq b + Z.of_nat (length ls) < 2 ^ 64 ->
  numbered b' /\ b_subSeq b' <= b_subSeq b + Z.of_nat (length ls).
Proof.
  revert b os. induction ls as [|l ls IH]; intros b os Hr Hn Hb; cbn [run] in Hr; [injection Hr as <- <-; split; [done|cbn; lia]|].
  destruct (step l b) as [[b1 o]|] eqn:Es; [|done]. destruct (run ls b1) as [[b2 os']|] eqn:Er; [|done]. injection Hr as <- <-. cbn [length] in *.
  destruct (step_numbered _ _ _ _ Es Hn) as [Hn1 Hle]; [lia|]. destruct (IH _ _ Er Hn1); [lia|]. split; [done|lia].
Qed.

(** A new subscription starts with nothing. *)
Lemma fed_subscribe m b p buf st b1 id : step (LSubscribe p buf st) b = Some (b1, OSubscribed id) -> numbered b -> b_subSeq b + 1 < 2 ^ 64 -> blocking m st ->
  fed m id p b1 [] [] /\ b_subSeq b1 = b_subSeq b + 1.
Proof.
  intros Hs Hn Hb Hst. pose proof (step_numbered _ _ _ _ Hs Hn Hb) as [Hn1 _]. pose proof Hn as [H0 H1 H2 H3 H4 H5]. cbn [step] in Hs.
  destruct (idle_lock b) eqn:Ei; [|done]. apply bool_decide_eq_true in Ei. apply some_pair in Hs as [<- Hid].
  destruct (Subscribe_places p buf st b Hb H0) as (E0 & E1 & E2 & E3 & E4 & E5 & E6 & E7). cbv zeta in *. assert (id = b_subSeq b + 1) as -> by congruence. clear Hid. split; [|done]. split.
  - done.
  - split.
    + intros topic. rewrite E5, filter_app, (filter_nil_notin (fun x => x)) by (intros i Hi%H1; lia). cbn [app]. destruct (negb _ && _); [|done]. by rewrite filter_cons_True.
    + intros topic g. rewrite E6. intros Hi%H2. lia.
    + rewrite E7, filter_app, (filter_nil_notin snd) by (intros [q i] Hi%H3; cbn; lia). cbn [app]. destruct (isPattern p); [|done]. by rewrite filter_cons_True.
  - lia.
  - rewrite E2. intros Hi%H5. lia.
  - rewrite E3, Ei. destruct m; cbn; [done..|]. intros k. by rewrite dom_empty_L.
  - intros pid j t. rewrite E3, Ei. by rewrite lookup_empty.
  - rewrite E4, lookup_insert_eq, E3, Ei. eexists. split; [reflexivity|]. unfold pending. rewrite map_to_list_empty. by cbn.
Qed.

(** C12: whatever the publishers, readers and other subscribers do at the same
    time, a subscription that is not closed gets each message published to its
    pattern at most once, in its channel or already read; with the blocking
    strategy it gets every one of them, and in the order of their publication
    when one publisher sends them. *)
Theorem stream_delivered size before b0 os0 p buf st b1 id after b os :
  run before (NewEngine size) = Some (b0, os0) -> step (LSubscribe p buf st) b0 = Some (b1, OSubscribed id) ->
  run after b1 = Some (b, os) -> LClose id ∉ after -> Z.of_nat (length before + length after) + 1 < 2 ^ 64 -> b_jobs b = ∅ ->
  exists s, b_subs b !! id = Some s /\ got id after os ++ s_ch s ⊆+ sent_to p os
    /\ (st = BlockOnFull -> got id after os ++ s_ch s ≡ₚ sent_to p os)
    /\ (st = BlockOnFull -> forall pid, Forall (by_publisher (Ordered pid)) after -> got id after os ++ s_ch s = sent_to p os).
Proof.
  intros Hr0 Hs Hr Hcl Hb Hj. destruct (run_numbered _ _ _ _ Hr0 (numbered_new size)) as [Hn Hle]; [cbn; lia|]. cbn in Hle.
  assert (forall m, blocking m st -> Forall (by_publisher m) after ->
    exists s, b_subs b !! id = Some s /\ keeps m (got id after os ++ s_ch s) (sent_to p os)) as Hall.
  { intros m Hm Hby. destruct (fed_subscribe m _ _ _ _ _ _ Hs Hn) as [Hf Hseq]; [lia|done|].
    destruct (fd_stream _ _ _ _ _ _ (fed_run m id p after _ _ _ _ _ Hf Hr Hby Hcl ltac:(lia))) as (s & E & _ & _ & Hk).
    exists s. split; [done|]. rewrite Hj in Hk. unfold pending in Hk. rewrite map_to_list_empty in Hk. cbn in Hk. by rewrite app_nil_r in Hk. }
  destruct (Hall Lossy) as (s & E & Hk); [done|apply Forall_forall; by intros [] _|]. exists s. split_and!; [done|done|intros Hst|intros Hst pid Hby].
  - destruct (Hall Lossless) as (s' & E' & Hk'); [done|apply Forall_forall; by intros [] _|]. by assert (s' = s) as <- by congruence.
  - destruct (Hall (Ordered pid)) as (s' & E' & Hk'); [done..|]. by assert (s' = s) as <- by congruence.
Qed.

(** ** A full channel *)

Definition strategy_of (id : Z) (b : broker) : option BackpressureStrategy := s_strategy <$> b_subs b !! id.

Definition subscribes (l : label) : bool := match l with LSubscribe _ _ _ | LSubscribeGroup _ _ _ _ => true | _ => false end.

Lemma set_ch_strategy id i s ch b : b_subs b !! i = Some s -> strategy_of id (set_ch i s ch b) = strategy_of id b.
Proof.
  intros Hs. unfold strategy_of. rewrite set_ch_subs. destruct (decide (id = i)) as [->|Hi]; [rewrite lookup_insert_eq, Hs; by destruct s|by rewrite lookup_insert_ne].
Qed.

Lemma release_strategy id topic u b : strategy_of id (release topic u b) = strategy_of id b.
Proof. unfold strategy_of. by rewrite release_subs. Qed.

Lemma move_strategy id msg t b b' ts k : move msg t b = Some (b', ts, k) -> strategy_of id b' = strategy_of id b.
Proof.
  destruct t as [g|u i|u i|u i|u i]; cbn [move]; [|destruct (b_subs b !! i) as [s|] eqn:E; [|done]..].
  - destruct (group_of (p_Topic msg) g b) as [cg|]; [|by intros [= <- _ _]]. destruct (cg_locked cg); [done|]. case_bool_decide; [by intros [= <- _ _]|].
    destruct (_ !! _); [|done]. intros [= <- _ _]. by destruct b.
  - destruct (s_closed s); intros [= <- _ _]; by rewrite ?release_strategy.
  - destruct (room s); [|destruct (s_strategy s); [done|..]]; intros [= <- _ _]; by rewrite ?release_strategy, ?(set_ch_strategy id i s _ b E).
  - intros [= <- _ _]. by rewrite (set_ch_strategy id i s _ b E).
  - intros [= <- _ _]. rewrite release_strategy. destruct (room s); [by rewrite (set_ch_strategy id i s _ b E)|done].
Qed.

Lemma step_strategy id l b b' o : step l b = Some (b', o) -> subscribes l = false -> strategy_of id b' = strategy_of id b.
Proof.
  destruct l as [| |pid nowd now topic payload d w order|pid|pid|i|i|i]; try done; cbn [step]; intros Hs _.
  - destruct (b_jobs b !! pid); [done|]. destruct (group_order topic order b); [|done]. apply some_pair in Hs as [<- _]. unfold strategy_of. by rewrite (proj1 (Publish_effect _ _ _ _ _ _ _ _ _)).
  - destruct (b_jobs b !! pid) as [[msg [|t ts] n]|]; try done. destruct (move msg t b) as [[[b1 t'] k]|] eqn:E; [|done].
    apply some_pair in Hs as [<- _]. rewrite <- (move_strategy id _ _ _ _ _ _ E). by destruct b1.
  - destruct (b_jobs b !! pid) as [[msg [|t ts] n]|]; try done. apply some_pair in Hs as [<- _]. by destruct b.
  - destruct (b_subs b !! i) as [s|] eqn:E; [|done]. destruct (s_ch s); [done|]. apply some_pair in Hs as [<- _]. by apply set_ch_strategy.
  - destruct (b_subs b !! i) as [s|] eqn:E; [|done]. apply some_pair in Hs as [<- _]. destruct (s_closed s); [done|]. destruct b. unfold strategy_of. cbn in *.
    destruct (decide (id = i)) as [->|Hi]; [rewrite lookup_insert_eq, E; by destruct s|by rewrite lookup_insert_ne].
  - destruct (idle_lock b && _); [|done]. destruct (b_subs b !! i) as [s|]; [|done]. apply some_pair in Hs as [<- _]. unfold strategy_of.
    destruct (unregister_places i (s_unsubFn s) b) as (_ & _ & _ & E & _). cbv zeta in E. rewrite <- E. by destruct (unregister _ _ b).
Qed.

(** Only subscriptions that drop their oldest message are emptied by publishers. *)
Definition evicts (b : broker) (t : task) : Prop :=
  match t with Evict _ i | Retry _ i => strategy_of i b = Some DropOldest | _ => True end.

Definition evictions_asked (b : broker) : Prop := forall pid j t, b_jobs b !! pid = Some j -> t ∈ j_tasks j -> evicts b t.

Lemma evicts_same b b' t : (forall id, strategy_of id b' = strategy_of id b) -> evicts b t -> evicts b' t.
Proof. intros Hs. destruct t; cbn; by rewrite ?Hs. Qed.

Lemma move_evicts msg t b b' ts k : move msg t b = Some (b', ts, k) -> evicts b t -> forall t', t' ∈ ts -> evicts b t'.
Proof.
  intros Hm He t' Hin. destruct t as [g|u i|u i|u i|u i]; cbn [move] in Hm; [|destruct (b_subs b !! i) as [s|] eqn:E; [|done]..].
  - destruct (group_of (p_Topic msg) g b) as [cg|]; [|injection Hm as _ <- _; by apply elem_of_nil in Hin]. destruct (cg_locked cg); [done|].
    case_bool_decide; [injection Hm as _ <- _; by apply elem_of_nil in Hin|]. destruct (_ !! _); [|done]. injection Hm as _ <- _. by apply list_elem_of_singleton in Hin as ->.
  - destruct (s_closed s); injection Hm as _ <- _; [by apply elem_of_nil in Hin|by apply list_elem_of_singleton in Hin as ->].
  - destruct (room s); [injection Hm as _ <- _; by apply elem_of_nil in Hin|]. destruct (s_strategy s) eqn:Es; [done|..]; injection Hm as _ <- _; [|by apply elem_of_nil in Hin].
    apply list_elem_of_singleton in Hin as ->. cbn. unfold strategy_of. rewrite E. cbn. by rewrite Es.
  - injection Hm as _ <- _. by apply list_elem_of_singleton in Hin as ->.
  - injection Hm as _ <- _. by apply elem_of_nil in Hin.
Qed.

(** What a step does to the publications under way. *)
Lemma step_jobs l b b' o : step l b = Some (b', o) ->
  match l with
  | LSubscribe _ _ _ | LSubscribeGroup _ _ _ _ | LUnregister _ => b_jobs b = ∅ /\ b_jobs b' = ∅
  | LReceive _ | LClose _ => b_jobs b' = b_jobs b
  | LPublish pid _ _ topic _ _ _ order =>
      b_jobs b !! pid = None /\ (b_jobs b' = b_jobs b \/ exists x, b_jobs b' = <[pid := Build_publication x (plan topic order b) 0]> (b_jobs b))
  | LMove pid => exists msg t ts n b1 t' k, b_jobs b !! pid = Some (Build_publication msg (t :: ts) n) /\ move msg t b = Some (b1, t', k)
      /\ b_subs b' = b_subs b1 /\ b_jobs b' = <[pid := Build_publication msg (t' ++ ts) (n + k)]> (b_jobs b)
  | LFinish pid => exists msg n, b_jobs b !! pid = Some (Build_publication msg [] n) /\ b_jobs b' = delete pid (b_jobs b)
  end.
Proof.
  destruct l as [q buf st|t g buf st|pid nowd now topic payload d w order|pid|pid|i|i|i]; cbn [step]; intros Hs.
  - destruct (idle_lock b) eqn:Ei; [|done]. apply bool_decide_eq_true in Ei. apply some_pair in Hs as [<- _]. split; [done|]. unfold Subscribe. cbn [fst]. destruct (isPattern q); by destruct b.
  - destruct (idle_lock b) eqn:Ei; [|done]. apply bool_decide_eq_true in Ei. apply some_pair in Hs as [<- _]. split; [done|]. by destruct b.
  - destruct (b_jobs b !! pid); [done|]. destruct (group_order topic order b); [|done]. apply some_pair in Hs as [<- _]. split; [done|].
    destruct (Publish_effect pid nowd now topic payload d w order b) as [_ E]. destruct (Publish _ _ _ _ _ _ _ _ b) as [b' [x|]]; cbn in *; [right; exists x; apply E|by left].
  - destruct (b_jobs b !! pid) as [[msg [|t ts] n]|] eqn:Ej; try done. destruct (move msg t b) as [[[b1 t'] k]|] eqn:E; [|done]. apply some_pair in Hs as [<- _].
    pose proof (move_same _ _ _ _ _ _ E) as [_ Hj1]. exists msg, t, ts, n, b1, t', k. rewrite <- Hj1. split_and!; try done; by destruct b1.
  - destruct (b_jobs b !! pid) as [[msg [|t ts] n]|] eqn:Ej; try done. apply some_pair in Hs as [<- _]. exists msg, n. split; [done|]. by destruct b.
  - destruct (b_subs b !! i) as [s|] eqn:E; [|done]. destruct (s_ch s); [done|]. apply some_pair in Hs as [<- _]. by destruct b.
  - destruct (b_subs b !! i) as [s|] eqn:E; [|done]. apply some_pair in Hs as [<- _]. destruct (s_closed s); [done|]. by destruct b.
  - destruct (idle_lock b) eqn:Ei; [|done]. apply bool_decide_eq_true in Ei. cbn [andb] in Hs. case_bool_decide; [|done]. destruct (b_subs b !! i) as [s|]; [|done]. apply some_pair in Hs as [<- _].
    destruct (unregister_places i (s_unsubFn s) b) as (_ & _ & E & _). cbv zeta in E. rewrite Ei in *. split; [done|]. rewrite <- E. by destruct (unregister _ _ b).
Qed.

Lemma step_evictions l b b' o : step l b = Some (b', o) -> evictions_asked b -> evictions_asked b'.
Proof.
  intros Hs He. pose proof (step_jobs _ _ _ _ Hs) as Hj. intros pid j t Hl Ht. destruct (subscribes l) eqn:El.
  { destruct l; try done; destruct Hj as [_ Hj]; by rewrite Hj, lookup_empty in Hl. }
  apply (evicts_same b); [intros id; by eapply step_strategy|].
  destruct l as [q buf st|t0 g buf st|q nowd now topic payload d w order|q|q|i|i|i]; try done.
  - destruct Hj as [Hn [Hj|[x Hj]]]; rewrite Hj in Hl; [by eapply He|]. destruct (decide (pid = q)) as [->|Hne]; [|rewrite lookup_insert_ne in Hl by done; by eapply He].
    rewrite lookup_insert_eq in Hl. injection Hl as <-. cbn in Ht.
    apply elem_of_app in Ht as [(i & -> & _)%list_elem_of_fmap|[(g & -> & _)%list_elem_of_fmap|(r & -> & _)%list_elem_of_fmap]%elem_of_app]; done.
  - destruct Hj as (msg & t1 & ts & n & b1 & t' & k & Hq & Hm & _ & Hj). rewrite Hj in Hl. destruct (decide (pid = q)) as [->|Hne]; [|rewrite lookup_insert_ne in Hl by done; by eapply He].
    rewrite lookup_insert_eq in Hl. injection Hl as <-. cbn in Ht. apply elem_of_app in Ht as [Ht|Ht]; [eapply move_evicts; [exact Hm| |done]|]; (eapply He; [exact Hq|]); [by left|by right].
  - destruct Hj as (msg & n & _ & Hj). rewrite Hj in Hl. apply lookup_delete_Some in Hl as [_ Hl]. by eapply He.
  - rewrite Hj in Hl. by eapply He.
  - rewrite Hj in Hl. by eapply He.
  - destruct Hj as [_ Hj]. by rewrite Hj, lookup_empty in Hl.
Qed.

Lemma run_evictions ls b b' os : run ls b = Some (b', os) -> evictions_asked b -> evictions_asked b'.
Proof.
  revert b os. induction ls as [|l ls IH]; intros b os Hr He; cbn [run] in Hr; [by injection Hr as <- <-|].
  destruct (step l b) as [[b1 o]|] eqn:Es; [|done]. destruct (run ls b1) as [[b2 os']|] eqn:Er; [|done]. injection Hr as <- <-. eapply IH; [exact Er|]. by eapply step_evictions.
Qed.

(** Publishers leave a full blocking channel as it is. *)
Lemma move_full msg t b b' ts k id s : move msg t b = Some (b', ts, k) -> evicts b t ->
  b_subs b !! id = Some s -> s_strategy s = BlockOnFull -> room s = false -> b_subs b' !! id = Some s.
Proof.
  intros Hm He Hs Hst Hr. destruct t as [g|u i|u i|u i|u i]; cbn [move] in Hm; [|destruct (decide (i = id)) as [->|Hi]; [rewrite Hs in Hm|destruct (b_subs b !! i) as [si|]; [|done]]..].
  - destruct (group_of (p_Topic msg) g b) as [cg|]; [|by injection Hm as <- _ _]. destruct (cg_locked cg); [done|]. case_bool_decide; [by injection Hm as <- _ _|].
    destruct (_ !! _); [|done]. injection Hm as <- _ _. by destruct b.
  - destruct (s_closed s); injection Hm as <- _ _; by rewrite ?release_subs.
  - destruct (s_closed si); injection Hm as <- _ _; by rewrite ?release_subs.
  - by rewrite Hr, Hst in Hm.
  - destruct (room si); [|destruct (s_strategy si); [done|..]]; injection Hm as <- _ _; by rewrite ?release_subs, ?set_ch_subs, ?lookup_insert_ne.
  - cbn in He. unfold strategy_of in He. rewrite Hs in He. cbn in He. congruence.
  - injection Hm as <- _ _. by rewrite set_ch_subs, lookup_insert_ne.
  - rewrite Hr in Hm. injection Hm as <- _ _. by rewrite release_subs.
  - injection Hm as <- _ _. rewrite release_subs. destruct (room si); [by rewrite set_ch_subs, lookup_insert_ne|done].
Qed.

(** A publisher waits to send to the subscription [id]. *)
Record waiting (pid : nat) (id : Z) (b : broker) : Prop := {
  wt_job : exists msg u ts n, b_jobs b !! pid = Some (Build_publication msg (Offer u id :: ts) n);
  wt_full : exists s, b_subs b !! id = Some s /\ s_strategy s = BlockOnFull /\ room s = false;
}.

(** The steps that need the engine's lock for themselves. *)
Definition exclusive (l : label) : bool := match l with LSubscribe _ _ _ | LSubscribeGroup _ _ _ _ | LUnregister _ => true | _ => false end.

Lemma waiting_step pid id l b b' o : waiting pid id b -> evictions_asked b -> step l b = Some (b', o) -> l <> LReceive id -> waiting pid id b' /\ exclusive l = false.
Proof.
  intros [(msg & u & ts & n & Hj) (s & Hs & Hst & Hr)] He Hstep Hl. pose proof (step_jobs _ _ _ _ Hstep) as Hjobs.
  destruct l as [q buf st|t0 g buf st|q nowd now topic payload d w order|q|q|i|i|i]; try (by rewrite (proj1 Hjobs), lookup_empty in Hj); (split; [|done]); cbn [step] in Hstep.
  - destruct Hjobs as [Hq Hjobs]. assert (q <> pid) by congruence. destruct (b_jobs b !! q); [done|]. destruct (group_order topic order b); [|done]. apply some_pair in Hstep as [<- _].
    split; [|exists s; by rewrite (proj1 (Publish_effect _ _ _ _ _ _ _ _ _))]. exists msg, u, ts, n. destruct Hjobs as [Hjobs|[x Hjobs]]; rewrite Hjobs; [done|by rewrite lookup_insert_ne].
  - destruct Hjobs as (msg' & t & ts' & n' & b1 & t' & k & Hq & Hm & E1 & E2). destruct (decide (q = pid)) as [->|Hne].
    + rewrite Hj in Hq. injection Hq as <- <- <- <-. cbn [move] in Hm. by rewrite Hs, Hr, Hst in Hm.
    + split; [exists msg, u, ts, n; by rewrite E2, lookup_insert_ne|]. exists s. split_and!; [|done..]. rewrite E1. eapply move_full; try done. eapply He; [exact Hq|by left].
  - destruct Hjobs as (msg' & n' & Hq & E). assert (q <> pid) by congruence. split; [exists msg, u, ts, n; by rewrite E, lookup_delete_ne|].
    destruct (b_jobs b !! q) as [[? [|? ?] ?]|]; try done. apply some_pair in Hstep as [<- _]. exists s. by destruct b.
  - assert (i <> id) by congruence. split; [exists msg, u, ts, n; by rewrite Hjobs|]. destruct (b_subs b !! i) as [si|]; [|done]. destruct (s_ch si); [done|].
    apply some_pair in Hstep as [<- _]. exists s. by rewrite set_ch_subs, lookup_insert_ne.
  - split; [exists msg, u, ts, n; by rewrite Hjobs|]. destruct (b_subs b !! i) as [si|] eqn:Ei; [|done]. apply some_pair in Hstep as [<- _]. destruct (s_closed si); [by exists s|].
    destruct (decide (i = id)) as [->|Hi].
    + assert (si = s) as -> by congruence. exists (s <| s_closed := true |>). destruct b, s. cbn in *. by rewrite lookup_insert_eq.
    + exists s. destruct b. cbn in *. by rewrite lookup_insert_ne.
Qed.

Lemma waiting_run pid id ls b b' os : waiting pid id b -> evictions_asked b -> run ls b = Some (b', os) -> LReceive id ∉ ls ->
  waiting pid id b' /\ Forall (fun l => exclusive l = false) ls.
Proof.
  revert b os. induction ls as [|l ls IH]; intros b os Hw He Hr Hn; cbn [run] in Hr; [by injection Hr as <- <-|].
  destruct (step l b) as [[b1 o]|] eqn:Es; [|done]. destruct (run ls b1) as [[b2 os']|] eqn:Er; [|done]. injection Hr as <- <-. apply not_elem_of_cons in Hn as [Hn1 Hn2].
  destruct (waiting_step _ _ _ _ _ _ Hw He Es) as [Hw1 Hx]; [congruence|]. destruct (IH _ _ Hw1 (step_evictions _ _ _ _ Es He) Er Hn2) as [Hw2 Hf].
  split; [done|by constructor].
Qed.

(** C38: a publisher that waits for room in the full channel of a blocking
    subscription keeps the engine locked: until somebody reads from that very
    channel it goes on waiting, and nobody can subscribe or leave, the
    subscriber itself included, even after it has marked its subscription
    closed. *)
Theorem full_channel_locks size before b0 os0 pid id after b os :
  run before (NewEngine size) = Some (b0, os0) -> waiting pid id b0 -> run after b0 = Some (b, os) -> LReceive id ∉ after ->
  waiting pid id b /\ Forall (fun l => exclusive l = false) after /\ forall l, exclusive l = true -> step l b = None.
Proof.
  intros Hr0 Hw Hr Hn. assert (evictions_asked b0) as He by (eapply run_evictions; [exact Hr0|by intros ? ? ? ?]).
  destruct (waiting_run _ _ _ _ _ _ Hw He Hr Hn) as [Hw' Hf]. split_and!; [done|done|]. intros l Hl. destruct (step l b) as [[b' o]|] eqn:E; [|done].
  pose proof (run_evictions _ _ _ _ Hr He) as He'. destruct (waiting_step _ _ _ _ _ _ Hw' He' E) as [_ Hx]; [by intros ->|congruence].
Qed.

(** ** Consumer groups *)

(** The member of the group that a step chooses. *)
Definition choice (topic g : bytes) (l : label) (b : broker) : list Z :=
  match l with
  | LMove pid =>
      match b_jobs b !! pid with
      | Some (Build_publication msg (Group g' :: _) _) =>
          if bool_decide (p_Topic msg = topic /\ g' = g) then
            match move msg (Group g) b with Some (_, [Check _ id], _) => [id] | _ => [] end
          else []
      | _ => []
      end
  | _ => []
  end.

Fixpoint choices (topic g : bytes) (ls : list label) (b : broker) : list Z :=
  match ls with
  | [] => []
  | l :: ls => choice topic g l b ++ match step l b with Some (b', _) => choices topic g ls b' | None => [] end
  end.

(** What a step does to a group. *)
Definition group_kept (cg cg' : consumerGroup) : Prop := cg_subscribers cg' = cg_subscribers cg /\ cg_roundRobin cg' = cg_roundRobin cg.

Lemma release_group topic g t u b cg : group_of topic g b = Some cg -> exists cg', group_of topic g (release t u b) = Some cg' /\ group_kept cg cg'.
Proof.
  intros Hg. unfold release. destruct u as [h|]; [|by exists cg]. destruct (group_of t h b) as [ch|] eqn:E; [|by exists cg].
  rewrite group_of_set. case_decide as Hd; [|by exists cg]. destruct Hd as [<- <-]. eexists. split; [reflexivity|]. assert (ch = cg) as -> by congruence. by destruct cg.
Qed.

Lemma set_ch_group topic g i s ch b : group_of topic g (set_ch i s ch b) = group_of topic g b.
Proof. by destruct b. Qed.

Lemma move_group topic g msg t b b' ts k cg : move msg t b = Some (b', ts, k) -> t <> Group g \/ p_Topic msg <> topic -> group_of topic g b = Some cg ->
  exists cg', group_of topic g b' = Some cg' /\ group_kept cg cg'.
Proof.
  intros Hm Ht Hg. destruct t as [h|u i|u i|u i|u i]; cbn [move] in Hm; [|destruct (b_subs b !! i) as [s|] eqn:E; [|done]..].
  - destruct (group_of (p_Topic msg) h b) as [ch|] eqn:Eh; [|injection Hm as <- _ _; by exists cg]. destruct (cg_locked ch); [done|]. case_bool_decide; [injection Hm as <- _ _; by exists cg|].
    destruct (_ !! _); [|done]. injection Hm as <- _ _. rewrite group_of_set, decide_False by naive_solver. by exists cg.
  - destruct (s_closed s); injection Hm as <- _ _; [by apply release_group|by exists cg].
  - destruct (room s); [|destruct (s_strategy s); [done|..]]; injection Hm as <- _ _; try by apply release_group. by exists cg.
  - injection Hm as <- _ _. rewrite set_ch_group. by exists cg.
  - injection Hm as <- _ _. apply release_group. by destruct (room s); rewrite ?set_ch_group.
Qed.

(** The members stay; the turn passes when one of them is chosen. *)
Definition turned (chosen : list Z) (cg cg' : consumerGroup) : Prop :=
  cg_subscribers cg' = cg_subscribers cg /\
  ((chosen = [] /\ cg_roundRobin cg' = cg_roundRobin cg)
   \/ exists id, chosen = [id] /\ cg_roundRobin cg' = uint64 (cg_roundRobin cg + 1)
      /\ cg_subscribers cg !! Z.to_nat (cg_roundRobin cg' mod Z.of_nat (length (cg_subscribers cg))) = Some id).

Lemma step_group topic g l b b' o cg : step l b = Some (b', o) -> exclusive l = false -> group_of topic g b = Some cg ->
  exists cg', group_of topic g b' = Some cg' /\ turned (choice topic g l b) cg cg'.
Proof.
  intros Hs Hx Hg. assert (forall b1, b_groups b1 = b_groups b -> exists cg', group_of topic g b1 = Some cg' /\ turned [] cg cg') as Hsame.
  { intros b1 E. exists cg. unfold group_of in *. rewrite E. split; [done|]. split; [done|by left]. }
  destruct l as [| |pid nowd now t payload d w order|pid|pid|i|i|]; try done; cbn [step] in Hs.
  - destruct (b_jobs b !! pid); [done|]. destruct (group_order t order b); [|done]. apply some_pair in Hs as [<- _]. apply Hsame.
    unfold Publish. destruct b. cbn. by case_match.
  - clear Hsame. cbn [choice]. destruct (b_jobs b !! pid) as [[msg [|t ts] n]|] eqn:Ej; try done. destruct (move msg t b) as [[[b1 t'] k]|] eqn:E; [|done]. apply some_pair in Hs as [<- _].
    assert (forall b2 j, group_of topic g (b2 <| b_jobs := j |>) = group_of topic g b2) as Hj by (by intros []). rewrite Hj.
    destruct (decide (t = Group g /\ p_Topic msg = topic)) as [[-> Ht]|Hne].
    + rewrite bool_decide_eq_true_2 by done. rewrite E. cbn [move] in E. rewrite Ht, Hg in E. destruct (cg_locked cg); [done|].
      case_bool_decide as Hem. { injection E as <- <- <-. exists cg. split; [done|]. split; [done|by left]. }
      destruct (cg_subscribers cg !! _) as [id|] eqn:Ei in E; [|done]. injection E as <- <- <-. rewrite group_of_set, decide_True by done. eexists. split; [reflexivity|].
      destruct cg; cbn in *. split; [done|]. right. exists id. done.
    + destruct (move_group topic g _ _ _ _ _ _ _ E ltac:(by destruct (decide (t = Group g)); naive_solver) Hg) as (cg' & Hg' & Hk1 & Hk2).
      exists cg'. split; [done|]. split; [done|]. left. split; [|done]. destruct t; [|done..]. rewrite bool_decide_eq_false_2; [done|]. naive_solver.
  - destruct (b_jobs b !! pid) as [[msg [|t ts] n]|] eqn:Ej; try done. apply some_pair in Hs as [<- _]. apply Hsame. by destruct b.
  - destruct (b_subs b !! i) as [s|]; [|done]. destruct (s_ch s); [done|]. apply some_pair in Hs as [<- _]. apply Hsame. by destruct b.
  - destruct (b_subs b !! i) as [s|]; [|done]. apply some_pair in Hs as [<- _]. apply Hsame. destruct (s_closed s); [done|]. by destruct b.
Qed.

Lemma choices_turn topic g ls b b' os cg : run ls b = Some (b', os) -> Forall (fun l => exclusive l = false) ls -> group_of topic g b = Some cg ->
  0 <= cg_roundRobin cg -> cg_roundRobin cg + Z.of_nat (length (choices topic g ls b)) < 2 ^ 64 ->
  forall k id, choices topic g ls b !! k = Some id ->
    cg_subscribers cg !! Z.to_nat ((cg_roundRobin cg + 1 + Z.of_nat k) mod Z.of_nat (length (cg_subscribers cg))) = Some id.
Proof.
  revert b os cg. induction ls as [|l ls IH]; intros b os cg Hr Hx Hg H0 Hb k id Hk; cbn [run choices] in *; [done|].
  destruct (step l b) as [[b1 o]|] eqn:Es; [|done]. destruct (run ls b1) as [[b2 os']|] eqn:Er; [|done]. injection Hr as -> _. apply Forall_cons in Hx as [Hx1 Hx2].
  destruct (step_group topic g _ _ _ _ _ Es Hx1 Hg) as (cg' & Hg' & Hm & [[Hc Hrr]|(i & Hc & Hrr & Hi)]); rewrite Hc in Hk, Hb; cbn [app] in Hk, Hb.
  - rewrite <- Hm, <- Hrr. apply (IH b1 os' cg'); (done || lia).
  - cbn [length] in Hb. assert (cg_roundRobin cg' = cg_roundRobin cg + 1) as Hrr' by (rewrite Hrr; unfold uint64; apply Z.mod_small; lia). destruct k as [|k].
    + injection Hk as <-. rewrite <- Hi, Hrr'. do 2 f_equal. f_equal. lia.
    + cbn in Hk. rewrite <- Hm. rewrite <- (IH b1 os' cg' Er Hx2 Hg' ltac:(lia) ltac:(lia) k id Hk). do 2 f_equal. f_equal. lia.
Qed.

Lemma rotate_perm {A} n (l : list A) : rotate n l ≡ₚ l.
Proof. unfold rotate. rewrite (comm (++)). by rewrite take_drop. Qed.

(** A consumer group shares the messages evenly: while nobody joins or
    leaves, any [n] consecutive deliveries to a group of [n] members, by
    whichever publishers, go to each member exactly once. *)
Theorem group_shares topic g ls b b' os cg : run ls b = Some (b', os) -> Forall (fun l => exclusive l = false) ls -> group_of topic g b = Some cg ->
  0 <= cg_roundRobin cg -> cg_roundRobin cg + Z.of_nat (length (cg_subscribers cg)) < 2 ^ 64 ->
  length (choices topic g ls b) = length (cg_subscribers cg) -> choices topic g ls b ≡ₚ cg_subscribers cg.
Proof.
  intros Hr Hx Hg H0 Hb Hl. enough (choices topic g ls b = rotate (Z.to_nat (cg_roundRobin cg + 1)) (cg_subscribers cg)) as -> by apply rotate_perm.
  apply list_eq. intros k. destruct (decide (k < length (cg_subscribers cg))%nat) as [Hk|Hk].
  - rewrite lookup_rotate_r by done. destruct (choices topic g ls b !! k) as [id|] eqn:E; [|apply lookup_ge_None in E; lia].
    rewrite <- (choices_turn _ _ _ _ _ _ _ Hr Hx Hg H0 ltac:(by rewrite Hl) k id E). unfold rotate_nat_add. do 2 f_equal. f_equal. lia.
  - rewrite !lookup_ge_None_2; rewrite ?length_rotate, ?Hl; (done || lia).
Qed.

(** ** Message identifiers *)

(** Identifiers of messages stop being unique: on a topic, the publications
    with the sequence numbers from 0xD800 to 0xDFFF all get the same one. *)
Theorem message_ids_collide topic seq seq' : 0xD800 <= seq < 0xE000 -> 0xD800 <= seq' < 0xE000 -> message_ID topic seq = message_ID topic seq'.
Proof.
  intros H1 H2. unfold message_ID, rune_text. rewrite !Z.mod_small by lia.
  rewrite (proj2 (Z.ltb_ge seq _)), (proj2 (Z.leb_gt 0xE000 seq)), (proj2 (Z.ltb_ge seq' _)), (proj2 (Z.leb_gt 0xE000 seq')) by lia. done.
Qed.

(** ** Deduplication *)

(** The checks of a step are before [until]. *)
Definition checks_before (until : Z) (l : label) : Prop := match l with LPublish _ nowd _ _ _ _ _ _ => nowd < until | _ => True end.

Lemma Publish_dedup pid nowd now topic payload d w order b : d <> [] ->
  b_dedup (Publish pid nowd now topic payload d w order b).1 = (CheckOrSet nowd d w (b_dedup b)).1
  /\ ((Publish pid nowd now topic payload d w order b).2 <> None -> (CheckOrSet nowd d w (b_dedup b)).2 = true).
Proof. intros Hd. unfold Publish. rewrite bool_decide_eq_false_2 by done. destruct (CheckOrSet nowd d w (b_dedup b)) as [d' []]; by destruct b. Qed.

Lemma move_dedup msg t b b' ts k : move msg t b = Some (b', ts, k) -> b_dedup b' = b_dedup b.
Proof.
  assert (forall topic u b, b_dedup (release topic u b) = b_dedup b) as Hrel.
  { intros topic u b0. unfold release. destruct u as [g|]; [|done]. destruct (group_of topic g b0); [|done]. by destruct b0. }
  assert (forall id s ch b, b_dedup (set_ch id s ch b) = b_dedup b) as Hset by (by intros ? ? ? []).
  destruct t as [g|u i|u i|u i|u i]; cbn [move]; [|destruct (b_subs b !! i) as [s|]; [|done]..].
  - destruct (group_of (p_Topic msg) g b) as [cg|]; [|by intros [= <- _ _]]. destruct (cg_locked cg); [done|]. case_bool_decide; [by intros [= <- _ _]|].
    destruct (_ !! _); [|done]. intros [= <- _ _]. by destruct b.
  - destruct (s_closed s); intros [= <- _ _]; by rewrite ?Hrel.
  - destruct (room s); [|destruct (s_strategy s); [done|..]]; intros [= <- _ _]; by rewrite ?Hrel, ?Hset.
  - intros [= <- _ _]. by rewrite Hset.
  - intros [= <- _ _]. rewrite Hrel. by destruct (room s); rewrite ?Hset.
Qed.

Lemma step_dedup l b b' o d until : step l b = Some (b', o) -> checks_before until l -> b_dedup b !! d = Some until -> b_dedup b' !! d = Some until.
Proof.
  intros Hs Hw Hd. destruct l as [q buf st|t g buf st|pid nowd now topic payload d' w order|pid|pid|i|i|i]; cbn [step] in Hs.
  - destruct (idle_lock b); [|done]. apply some_pair in Hs as [<- _]. unfold Subscribe. cbn [fst]. by destruct (isPattern q), b.
  - destruct (idle_lock b); [|done]. apply some_pair in Hs as [<- _]. by destruct b.
  - destruct (b_jobs b !! pid); [done|]. destruct (group_order topic order b); [|done]. apply some_pair in Hs as [<- _]. destruct (decide (d' = [])) as [->|Hne].
    + by destruct b.
    + rewrite (proj1 (Publish_dedup _ _ _ _ _ _ _ _ _ Hne)). by apply CheckOrSet_keeps.
  - destruct (b_jobs b !! pid) as [[msg [|t ts] n]|]; try done. destruct (move msg t b) as [[[b1 t'] k]|] eqn:E; [|done]. apply some_pair in Hs as [<- _].
    apply move_dedup in E. rewrite <- E in Hd. by destruct b1.
  - destruct (b_jobs b !! pid) as [[msg [|t ts] n]|]; try done. apply some_pair in Hs as [<- _]. by destruct b.
  - destruct (b_subs b !! i) as [s|]; [|done]. destruct (s_ch s); [done|]. apply some_pair in Hs as [<- _]. by destruct b.
  - destruct (b_subs b !! i) as [s|]; [|done]. apply some_pair in Hs as [<- _]. destruct (s_closed s); [done|]. by destruct b.
  - destruct (idle_lock b && _); [|done]. destruct (b_subs b !! i) as [s|]; [|done]. apply some_pair in Hs as [<- _].
    destruct (s_unsubFn s) as [|t|t g]; cbn [unregister]; [by destruct b..|]. destruct (b_groups b !! t) as [gs0|]; [destruct (gs0 !! g)|]; by destruct b.
Qed.

Lemma run_checks ls b b' os d until : run ls b = Some (b', os) -> Forall (checks_before until) ls -> b_dedup b !! d = Some until -> b_dedup b' !! d = Some until.
Proof.
  revert b os. induction ls as [|l ls IH]; intros b os Hr Hw Hd; cbn [run] in Hr; [by injection Hr as <- <-|].
  destruct (step l b) as [[b1 o]|] eqn:Es; [|done]. destruct (run ls b1) as [[b2 os']|] eqn:Er; [|done]. injection Hr as <- <-. apply Forall_cons in Hw as [Hw1 Hw2].
  eapply IH; [exact Er|done|]. by eapply step_dedup.
Qed.

(** C37: an event is published once: after a publication with a deduplication
    identifier, another with the same one, on whatever topic, is refused as a
    duplicate and changes nothing, whatever publishers, readers and subscribers did
    in between, until the window given with the first is over. The window is
    positive and ends within the range of 64-bit times, and all publications in
    between read a clock before its end. *)
Theorem events_published_once pid nowd now topic payload d w order b b1 m ls b2 os pid' nowd' now' topic' payload' w' order' b3 o :
  step (LPublish pid nowd now topic payload d w order) b = Some (b1, OPublished m) -> d <> [] -> 0 <= nowd -> 0 < w -> nowd + w < 2 ^ 63 ->
  run ls b1 = Some (b2, os) -> Forall (checks_before (nowd + w)) ls -> nowd' < nowd + w ->
  step (LPublish pid' nowd' now' topic' payload' d w' order') b2 = Some (b3, o) -> o = ODuplicate /\ b3 = b2.
Proof.
  intros Hs Hd H0 Hw Hb Hr Hc Hn Hs'. assert (b_dedup b2 !! d = Some (nowd + w)) as Hrec.
  { eapply run_checks; [exact Hr|done|]. cbn [step] in Hs. destruct (b_jobs b !! pid); [done|]. destruct (group_order topic order b); [|done]. apply some_pair in Hs as [<- Ho].
    destruct (Publish_dedup pid nowd now topic payload d w order b Hd) as [E1 E2]. rewrite E1, <- (int64_small (nowd + w)) by lia.
    apply CheckOrSet_records; [done| |rewrite int64_small; lia]. apply E2. by destruct (Publish _ _ _ _ _ _ _ _ b).2. }
  cbn [step] in Hs'. destruct (b_jobs b2 !! pid'); [done|]. destruct (group_order topic' order' b2); [|done].
  assert (Publish pid' nowd' now' topic' payload' d w' order' b2 = (b2, None)) as E.
  { unfold Publish, CheckOrSet. rewrite !bool_decide_eq_false_2 by done. rewrite Hrec, (proj2 (Z.ltb_lt _ _)) by done. cbn. by destruct b2. }
  rewrite E in Hs'. by apply some_pair in Hs' as [<- <-].
Qed.

(** ** On concrete runs *)

Module Examples.

(** Patterns as the package documents them, and one it does not: [>] also stands
    for nothing. *)
Example patterns_taken :
  (fun pt => matchTopic (gs pt.1) (gs pt.2)) <$> [("orders.*", "orders.new"); ("orders.*", "orders.new.eu"); ("events.>", "events.a.b"); ("events.>", "events"); (">", "x"); ("*", "a.b")]%string
  = [true; false; true; true; true; false].
Proof. vm_compute. reflexivity. Qed.

Lemma topic_matching_witness :
  (matchTopic (gs "orders.new") (gs "orders.new.eu") = true <-> gs "orders.new" = gs "orders.new.eu") /\
  (matchTopic (gs "events.>") (gs "events") = true <-> documented [gs "events"; rest_of] [gs "events"] \/ documented [gs "events"] [gs "events"]).
Proof.
  split; [apply topic_matching; vm_compute; reflexivity|].
  apply (proj2 (proj2 (topic_matching (gs "events.>") (gs "events"))) [gs "events"] []); [vm_compute; reflexivity|]. by intros [= E]%list_elem_of_singleton.
Defined.

Definition publish_at (pid : nat) (at_ : Z) (topic payload dedup : bytes) : label := LPublish pid at_ at_ topic payload dedup (5 * minute) [].

(** Two publishers interleave on a channel of one place; a reader drains it. *)
Definition busy : list label :=
  [publish_at 1 10 (gs "a.b") (gs "x") []; LMove 1; publish_at 2 11 (gs "a.c") (gs "y") []; LMove 2; LMove 2; LFinish 2;
   LReceive 1; LMove 1; LFinish 1; publish_at 1 12 (gs "b") (gs "z") []; LFinish 1].

Definition final (ls : list label) (b : broker) : broker := match run ls b with Some (b', _) => b' | None => b end.
Definition outputs (ls : list label) (b : broker) : list output := match run ls b with Some (_, os) => os | None => [] end.

Definition listening : broker := final [LSubscribe (gs "a.*") 1 BlockOnFull] (NewEngine 0).

Lemma stream_delivered_witness :
  exists s, b_subs (final busy listening) !! 1 = Some s /\ got 1 busy (outputs busy listening) ++ s_ch s ≡ₚ sent_to (gs "a.*") (outputs busy listening).
Proof.
  destruct (stream_delivered 0 [] (NewEngine 0) [] (gs "a.*") 1 BlockOnFull listening 1 busy (final busy listening) (outputs busy listening)) as (s & Hs & _ & Hk & _);
    [reflexivity|vm_compute; reflexivity|vm_compute; reflexivity|apply (bool_decide_unpack _); vm_compute; exact I|vm_compute; reflexivity|vm_compute; reflexivity|].
  exists s. split; [exact Hs|exact (Hk eq_refl)].
Defined.

(** The second publication finds the channel full; then the subscriber gives up. *)
Definition filled : list label :=
  [LSubscribe (gs "a") 1 BlockOnFull; publish_at 1 10 (gs "a") (gs "x") []; LMove 1; LMove 1; LFinish 1; publish_at 1 11 (gs "a") (gs "y") []; LMove 1].

Lemma full_channel_locks_witness :
  Forall (fun l => step l (final [LClose 1] (final filled (NewEngine 0))) = None) [LUnregister 1; LMove 1; LSubscribe (gs "b") 1 BlockOnFull].
Proof.
  destruct (full_channel_locks 0 filled (final filled (NewEngine 0)) (outputs filled (NewEngine 0)) 1 1 [LClose 1]
    (final [LClose 1] (final filled (NewEngine 0))) (outputs [LClose 1] (final filled (NewEngine 0)))) as (_ & _ & Hx).
  - vm_compute. reflexivity.
  - split; [|eexists; split_and!; vm_compute; reflexivity]. do 4 eexists. vm_compute. reflexivity.
  - vm_compute. reflexivity.
  - apply (bool_decide_unpack _). vm_compute. exact I.
  - do 3 (apply Forall_cons; split; [first [apply Hx; reflexivity | vm_compute; reflexivity]|]); constructor.
Defined.

(** Three workers and three publications. *)
Definition workers : broker := final (replicate 3 (LSubscribeGroup (gs "jobs") (gs "w") 8 BlockOnFull)) (NewEngine 0).
Definition one_job (at_ : Z) : list label := [LPublish 1 at_ at_ (gs "jobs") (gs "j") [] 0 [gs "w"]; LMove 1; LMove 1; LMove 1; LFinish 1].
Definition three_jobs : list label := one_job 1 ++ one_job 2 ++ one_job 3.

Lemma group_shares_witness : choices (gs "jobs") (gs "w") three_jobs workers ≡ₚ [1; 2; 3].
Proof.
  refine (group_shares (gs "jobs") (gs "w") three_jobs workers (final three_jobs workers) (outputs three_jobs workers) (Build_consumerGroup [1; 2; 3] 0 false) _ _ _ _ _ _);
    [vm_compute; reflexivity|repeat constructor|vm_compute; reflexivity|vm_compute; discriminate|vm_compute; reflexivity|vm_compute; reflexivity].
Defined.

Lemma message_ids_collide_witness : message_ID (gs "t") 0xD800 = message_ID (gs "t") 0xD801.
Proof. apply (message_ids_collide (gs "t") 0xD800 0xD801); lia. Defined.

Lemma events_published_once_witness :
  step (publish_at 2 (4 * minute) (gs "b") (gs "y") (gs "k")) (final [LFinish 1] (final [publish_at 1 0 (gs "a") (gs "x") (gs "k")] (NewEngine 0)))
  = Some (final [LFinish 1] (final [publish_at 1 0 (gs "a") (gs "x") (gs "k")] (NewEngine 0)), ODuplicate).
Proof.
  destruct (step (publish_at 2 _ _ _ _) _) as [[b3 o]|] eqn:E; [|vm_compute in E; discriminate E].
  destruct (events_published_once 1 0 0 (gs "a") (gs "x") (gs "k") (5 * minute) [] (NewEngine 0) (final [publish_at 1 0 (gs "a") (gs "x") (gs "k")] (NewEngine 0))
    (Build_Message (message_ID (gs "a") 1) (gs "a") (gs "x") (gs "k") 0) [LFinish 1]
    (final [LFinish 1] (final [publish_at 1 0 (gs "a") (gs "x") (gs "k")] (NewEngine 0))) (outputs [LFinish 1] (final [publish_at 1 0 (gs "a") (gs "x") (gs "k")] (NewEngine 0)))
    2 (4 * minute) (4 * minute) (gs "b") (gs "y") (5 * minute) [] b3 o) as [-> ->];
    [vm_compute; reflexivity|discriminate|lia|done|done|vm_compute; reflexivity|by repeat constructor|done|exact E|]. reflexivity.
Defined.

End Examples.
