(* ===== verification/Server.v ===== *)
(** [studio/handlers.go], [studio/timeseries.go] and [studio/server.go]: the
    handlers of the studio server. A handler is a program over the operations
    it asks of the database and of the server's event history; the database is
    a parameter. A reply is a status and the JSON value written with it. *)

From S2P Require Import Prelude JsString JsNumber JsDate Json Api Types Routes Go.
From Stdlib Require Import SpecFloat.

Open Scope Z_scope.

(** ** What the database answers *)

Record db_stats := {
  st_PageCount : Z; st_CacheHits : Z; st_CacheMisses : Z; st_CacheHitRate : num;
  st_LastLSN : Z; st_LastTxnID : Z; st_ReadOnly : bool;
}.

Record queue_stats := { qs_ReadyCount : Z; qs_InFlightCount : Z; qs_DLQCount : Z }.

Record pubsub_stats := { ps_TotalPublished : Z; ps_TotalDelivered : Z; ps_ActiveTopics : Z; ps_ActiveSubs : Z }.

Record peer_status := { pe_Addr : bytes; pe_Status : bytes; pe_LatencyUs : Z; pe_IsLocal : bool }.

(** Slices are [None] when they are nil. *)
Record cluster_status := {
  cs_Enabled : bool; cs_NodeID : bytes; cs_Addr : bytes; cs_TLSEnabled : bool; cs_AuthEnforced : bool;
  cs_TotalNodes : Z; cs_VirtualNodes : Z; cs_ActiveConns : Z; cs_Peers : option (list peer_status);
}.

Record report := {
  rp_Valid : bool; rp_PagesChecked : Z; rp_Errors : option (list bytes); rp_Warnings : option (list bytes);
}.

Record queue_message := {
  msg_ID : bytes; msg_Queue : bytes; msg_Payload : bytes; msg_Priority : Z; msg_RetryCount : Z; msg_State : bytes;
}.

Record ts_point := { pt_Timestamp : Z; pt_Tags : list (jstr * jstr); pt_Fields : jsobj }.

(** The errors the handlers tell apart. *)
Inductive queue_error := ErrDuplicateMessage | ErrQueueEmpty | DeadlineExceeded | OtherError (text : bytes).

(** ** What the handlers ask *)

Inductive comparison_op := OpEq | OpNe | OpGt | OpGte | OpLt | OpLte.

(** Predicates of a query: a comparison with a JSON value, or a substring. *)
Inductive predicate :=
| Compare (field : bytes) (op : comparison_op) (v : val)
| Contains (field : bytes) (substr : jstr).

(** A query as its builder leaves it. *)
Record query := {
  q_predicates : list predicate; q_sort : option (bytes * bool); q_limit : Z; q_offset : Z;
}.

(** The options an enqueueing or a publication is called with. *)
Record queue_options := { qo_dedup : bytes; qo_window : Z; qo_priority : Z; qo_delay : Z }.

Record pubsub_options := { po_dedup : bytes; po_window : Z }.

Record time_query := {
  tq_start : Z; tq_end : Z; tq_limit : Z; tq_tags : list (jstr * jstr); tq_descending : bool;
}.

Inductive metric := Cosine | L2 | DotProduct.

(** An event of the live stream. *)
Record event := {
  e_ID : bytes; e_Topic : bytes; e_Payload : bytes; e_DedupID : bytes; e_CreatedAt : Z;
}.

(** The operations, by the type of their answers. [Update] with a single
    operation inside is that operation, run as one transaction; [Commit] is the
    empty one. [Ack] answers the message as it is afterwards: the engine changes
    the state of the object the handler holds. [RangeMap] is the order in which
    Go ranges over a map. *)
Inductive dbop : Type -> Type :=
| Now : dbop Z
| Stats : dbop db_stats
| PubSubStats : dbop pubsub_stats
| ClusterStatus : dbop (option cluster_status)
| ListBuckets : dbop (list bytes)
| ListCollections : dbop (list bytes)
| ListQueues : dbop (list bytes)
| ListTimeSeries : dbop (list bytes)
| OpenBucket (bucket : bytes) : dbop unit
| OpenCollection (coll : bytes) : dbop unit
| OpenQueue (queue : bytes) : dbop unit
| Iterate (bucket : bytes) (prefix : option bytes) : dbop (list (bytes * bytes))
| Get (bucket key : bytes) : dbop (option bytes)
| Put (bucket key value : bytes) (ttl : option Z) : dbop (option bytes)
| Delete (bucket key : bytes) : dbop (option bytes)
| Increment (bucket key : bytes) (delta : Z) : dbop (bytes + Z)
| Explain (coll : bytes) (q : query) : dbop bytes
| All (coll : bytes) (q : query) : dbop (bytes + option (list jsobj))
| GetDoc (coll id : bytes) : dbop (option jsobj)
| Insert (coll : bytes) (doc : option jsobj) : dbop (bytes + bytes)
| Replace (coll id : bytes) (doc : option jsobj) : dbop (option bytes)
| DeleteDoc (coll id : bytes) : dbop (option bytes)
| Commit : dbop (option bytes)
| Check : dbop (bytes + report)
| Backup (path : bytes) : dbop (option bytes)
| QueueStats (queue : bytes) : dbop queue_stats
| HasDLQ (queue : bytes) : dbop bool
| DLQStats (queue : bytes) : dbop queue_stats
| Enqueue (queue payload : bytes) (opts : queue_options) : dbop (queue_error + queue_message)
| Dequeue (queue : bytes) (timeout visibility : Z) : dbop (queue_error + queue_message)
| Ack (m : queue_message) : dbop queue_message
| Publish (topic payload : bytes) (opts : pubsub_options) : dbop (queue_error + Z)
| TsAll (series : bytes) (q : time_query) : dbop (bytes + list ts_point)
| TsWrite (series : bytes) (p : ts_point) : dbop (bytes + bytes)
| TsPruneBefore (series : bytes) (cutoff : Z) : dbop (bytes + Z)
| Distance (a b : list f32) (m : metric) : dbop f32
| TextSearch (docs : list (Z * jstr)) (query : bytes) (k : Z) : dbop (list (Z * num))
| RangeMap (o : jsobj) : dbop jsobj.

(** The operations a handler performs: on the database, or on the server's
    event history under its lock. *)
Inductive op : Type -> Type :=
| DB {A} (d : dbop A) : op A
| Push (e : event) : op unit
| History : op (list event).

(** A program over them. *)
Inductive io (R : Type) :=
| Done (r : R)
| Ask {A : Type} (o : op A) (k : A -> io R).

Arguments Done {R} r.
Arguments Ask {R A} o k.

Fixpoint io_bind {R S} (m : io R) (f : R -> io S) : io S :=
  match m with
  | Done r => f r
  | Ask o k => Ask o (fun a => io_bind (k a) f)
  end.

Notation "'let?' x := d 'in' k" := (Ask (DB d) (fun x => k)) (at level 10, x name, d at level 100, k at level 200).
Notation "'let*' x := m 'in' k" := (io_bind m (fun x => k)) (at level 10, x name, m at level 100, k at level 200).

(** ** Replies *)

Inductive body := Json (v : val) | Plain (t : jstr) | NoBody.

(** A reply of a handler; a redirection to a cleaned path, or a file of the
    front end, are not followed further. *)
Inductive reply := Reply (status : N) (b : body) | Redirect | Asset.

Definition writeJSON (status : N) (v : val) : reply := Reply status (Json v).

Definition writeError (status : N) (message : bytes) : reply := writeJSON status (error_body (text_of message)).

Definition vstr (b : bytes) : val := VStr (text_of b).
Definition vint (z : Z) : val := VNum (num_of_Z z).

(** A nil slice is [null]. *)
Definition vslice {A} (f : A -> val) (l : option (list A)) : val :=
  match l with Some l => VArr (f <$> l) | None => VNull end.

(** A slice grown by [append] from nil. *)
Definition grown {A} (l : list A) : option (list A) := match l with [] => None | _ => Some l end.

Definition obj (ps : list (string * val)) : val := VObj ((fun p => (js p.1, p.2)) <$> ps).

(** The encoder refuses a NaN or an infinite number anywhere in a value. *)
Fixpoint encodable (v : val) : bool :=
  match v with
  | VNum n => is_finite n
  | VArr vs => forallb encodable vs
  | VObj ps => forallb (fun p => encodable p.2) ps
  | _ => true
  end.

(** The responses a reply may be received as: a JSON text of the value, or no
    text when the encoder fails after the status was written. *)
Definition received (r : reply) (res : response) : Prop :=
  match r with
  | Reply status b =>
      res_status res = status /\
      match b with
      | Json v => if encodable v then parse (res_text res) = Some v else res_text res = []
      | Plain t => res_text res = t
      | NoBody => res_text res = []
      end
  | _ => True
  end.

(** ** Statistics and catalog *)

Definition peer_json (p : peer_status) : val :=
  obj [("addr", vstr (pe_Addr p)); ("status", vstr (pe_Status p)); ("latency_us", vint (pe_LatencyUs p));
       ("is_local", VBool (pe_IsLocal p))].

Definition cluster_json (c : cluster_status) : val :=
  obj [("enabled", VBool (cs_Enabled c)); ("node_id", vstr (cs_NodeID c)); ("addr", vstr (cs_Addr c));
       ("tls_enabled", VBool (cs_TLSEnabled c)); ("auth_enforced", VBool (cs_AuthEnforced c));
       ("total_nodes", vint (cs_TotalNodes c)); ("virtual_nodes", vint (cs_VirtualNodes c));
       ("active_conns", vint (cs_ActiveConns c)); ("peers", vslice peer_json (cs_Peers c))].

(** The loop that sums the counts of the queues. *)
Fixpoint queue_totals (names : list bytes) (ready inflight dlq : Z) : io (Z * Z * Z) :=
  match names with
  | [] => Done (ready, inflight, dlq)
  | name :: r =>
      let? _ := OpenQueue name in
      let? qs := QueueStats name in
      queue_totals r (int64 (ready + qs_ReadyCount qs)) (int64 (inflight + qs_InFlightCount qs))
        (int64 (dlq + qs_DLQCount qs))
  end.

Definition handleStats : io reply :=
  let? stats := Stats in
  let? queueNames := ListQueues in
  let* t := queue_totals queueNames 0 0 0 in
  let? ps := PubSubStats in
  let? cluster := ClusterStatus in
  Done (writeJSON 200 (obj
    [("cache_hit_rate", VNum (st_CacheHitRate stats)); ("cache_hits", vint (st_CacheHits stats));
     ("cache_misses", vint (st_CacheMisses stats));
     ("cluster", match cluster with Some c => cluster_json c | None => VNull end);
     ("last_lsn", vint (st_LastLSN stats)); ("last_txn_id", vint (st_LastTxnID stats));
     ("page_count", vint (st_PageCount stats)); ("pubsub_events_count", vint (ps_TotalPublished ps));
     ("queue_count", vint (Z.of_nat (length queueNames))); ("queue_dlq_tasks", vint t.2);
     ("queue_inflight_tasks", vint t.1.2); ("queue_ready_tasks", vint t.1.1);
     ("read_only", VBool (st_ReadOnly stats))])).

Definition handleClusterStatus : io reply :=
  let? status := ClusterStatus in
  match status with
  | None => Done (writeJSON 200 (obj [("enabled", VBool false);
                                      ("message", VStr (js "Cluster mode not active (standalone node)"))]))
  | Some c => Done (writeJSON 200 (cluster_json c))
  end.

Definition item_json (type : string) (name : bytes) : val := obj [("name", vstr name); ("type", VStr (js type))].

(** [strings.HasPrefix(c, "_ts:")] *)
Definition is_series (name : bytes) : bool := starts_with (gs "_ts:") name.

Definition handleCatalog : io reply :=
  let? bucketNames := ListBuckets in
  let? collNames := ListCollections in
  let? queueNames := ListQueues in
  Done (writeJSON 200 (obj
    [("buckets", VArr (item_json "Bucket" <$> bucketNames));
     ("collections", VArr (item_json "Collection" <$> List.filter (fun c => negb (is_series c)) collNames));
     ("queues", VArr (item_json "Queue" <$> queueNames))])).

(** ** Key-value routes *)

Definition read_only_error : reply := writeError 403 (gs "Database is in read-only mode").
Definition studio_read_only : reply := writeError 403 (gs "Studio is in read-only mode").

(** [{"success": true}], or the error of the transaction. *)
Definition committed (err : option bytes) : reply :=
  match err with Some e => writeError 500 e | None => writeJSON 200 (obj [("success", VBool true)]) end.

(** Decode a body and go on with the request, or refuse it. *)
Definition decoding {A} (f : jsobj -> decoded A) (b : option jstr) (message : bytes) (k : A -> io reply) : io reply :=
  let '(req, ok) := Decode (go_struct f) b in if ok then k req else Done (writeError 400 message).

Record put_req := { put_Key : bytes; put_Value : bytes; put_TTL : Z }.

Definition put_req_of (o : jsobj) : decoded put_req :=
  let k := go_str (fld o "key") in let v := go_str (fld o "value") in let t := go_int (fld o "ttl") in
  (Build_put_req k.1 v.1 t.1, k.2 && v.2 && t.2).

Record incr_req := { incr_Key : bytes; incr_Delta : Z }.

Definition incr_req_of (o : jsobj) : decoded incr_req :=
  let k := go_str (fld o "key") in let d := go_int (fld o "delta") in (Build_incr_req k.1 d.1, k.2 && d.2).

Definition entry_json (e : bytes * bytes) : val :=
  obj [("key", vstr e.1); ("value", vstr e.2); ("size", vint (Z.of_nat (length e.2)))].

Definition handleKVScan (bucket prefix : bytes) : io reply :=
  let? _ := OpenBucket bucket in
  let? it := Iterate bucket (if bool_decide (prefix = []) then None else Some prefix) in
  let entries := take 100 it in
  Done (writeJSON 200 (obj [("entries", vslice entry_json (grown entries)); ("total", vint (Z.of_nat (length entries)))])).

Definition handleKVGet (bucket key : bytes) : io reply :=
  let? _ := OpenBucket bucket in
  let? val := Get bucket key in
  match val with
  | None => Done (writeError 404 (gs "Key not found"))
  | Some v => Done (writeJSON 200 (obj [("key", vstr key); ("value", vstr v)]))
  end.

Definition put (bucket : bytes) (req : put_req) : io reply :=
  let? err := Put bucket (put_Key req) (put_Value req)
    (if 0 <? put_TTL req then Some (int64 (put_TTL req * 10 ^ 9)) else None) in
  Done (committed err).

Definition handleKVPut (bucket : bytes) (b : option jstr) : io reply :=
  decoding put_req_of b (gs "Invalid JSON payload") (put bucket).

Definition handleKVDelete (bucket key : bytes) : io reply :=
  let? err := Delete bucket key in Done (committed err).

(** A step of zero counts as one. *)
Definition incr (bucket : bytes) (req : incr_req) : io reply :=
  let? r := Increment bucket (incr_Key req) (if incr_Delta req =? 0 then 1 else incr_Delta req) in
  match r with
  | inl e => Done (writeError 500 e)
  | inr newVal => Done (writeJSON 200 (obj [("new_value", vint newVal)]))
  end.

(** A body that does not decode is not refused. *)
Definition handleKVIncr (bucket : bytes) (b : option jstr) : io reply :=
  incr bucket (Decode (go_struct incr_req_of) b).1.

(** The parts of the decoded path after the prefix of a router. *)
Definition parts (prefix : jstr) (url : jstr) : list bytes :=
  split_on (N.eqb 47) (trim_prefix prefix (default [] (unescape false (cut 63 url).1))).

Definition guarded (readOnly : bool) (h : io reply) : io reply := if readOnly then Done read_only_error else h.

Definition handleKVRoute (readOnly : bool) (r : http_request) : io reply :=
  match parts (js "/api/kv/") (req_url r) with
  | bucket :: action :: _ =>
      if bool_decide (action = gs "scan") then handleKVScan bucket (query_get (js "prefix") (req_url r))
      else if bool_decide (action = gs "get") then handleKVGet bucket (query_get (js "key") (req_url r))
      else if bool_decide (action = gs "put") then guarded readOnly (handleKVPut bucket (req_body r))
      else if bool_decide (action = gs "delete") then
        guarded readOnly (handleKVDelete bucket (query_get (js "key") (req_url r)))
      else if bool_decide (action = gs "incr") then guarded readOnly (handleKVIncr bucket (req_body r))
      else Done (writeError 404 (gs "Unknown KV action"))
  | _ => Done (writeError 400 (gs "Invalid KV endpoint format"))
  end.

(** ** Document routes *)

Record filter_req := { fl_Field : bytes; fl_Op : bytes; fl_Value : val }.

Definition filter_req_of (o : jsobj) : decoded filter_req :=
  let f := go_str (fld o "field") in let p := go_str (fld o "op") in
  (Build_filter_req f.1 p.1 (go_any (fld o "value")), f.2 && p.2).

Record order_req := { or_Field : bytes; or_Desc : bool }.

Definition order_req_of (o : jsobj) : decoded order_req :=
  let f := go_str (fld o "field") in let d := go_bool (fld o "desc") in (Build_order_req f.1 d.1, f.2 && d.2).

Record query_req := {
  qr_Filters : list filter_req; qr_OrderBy : order_req; qr_Limit : Z; qr_Offset : Z; qr_Explain : bool;
}.

(** An absent [order_by] is read as one without a field. *)
Definition query_req_of (o : jsobj) : decoded query_req :=
  let f := go_slice (go_struct filter_req_of) (fld o "filters") in
  let b := go_struct order_req_of (fld o "order_by") in
  let l := go_int (fld o "limit") in let s := go_int (fld o "offset") in let e := go_bool (fld o "explain") in
  (Build_query_req f.1 b.1 l.1 s.1 e.1, f.2 && b.2 && l.2 && s.2 && e.2).

(** The predicate a filter adds to the query, if its operator is known. *)
Definition predicate_of (f : filter_req) : option predicate :=
  let compare op := Some (Compare (fl_Field f) op (fl_Value f)) in
  if bool_decide (fl_Op f = gs "eq") then compare OpEq
  else if bool_decide (fl_Op f = gs "ne") then compare OpNe
  else if bool_decide (fl_Op f = gs "gt") then compare OpGt
  else if bool_decide (fl_Op f = gs "gte") then compare OpGte
  else if bool_decide (fl_Op f = gs "lt") then compare OpLt
  else if bool_decide (fl_Op f = gs "lte") then compare OpLte
  else if bool_decide (fl_Op f = gs "contains") then Some (Contains (fl_Field f) (sprint (fl_Value f)))
  else None.

Definition query_of (req : query_req) : query := {|
  q_predicates := omap predicate_of (qr_Filters req);
  q_sort := if bool_decide (or_Field (qr_OrderBy req) = []) then None
            else Some (or_Field (qr_OrderBy req), or_Desc (qr_OrderBy req));
  q_limit := if 0 <? qr_Limit req then qr_Limit req else 0;
  q_offset := if 0 <? qr_Offset req then qr_Offset req else 0;
|}.

(** [float64(d.Microseconds()) / 1000.0] *)
Definition millis (ns : Z) : num := ndiv (num_of_Z (Z.quot ns 1000)) (num_of_Z 1000).

Definition doc_query (coll : bytes) (req : query_req) : io reply :=
  let q := query_of req in
  let? _ := OpenCollection coll in
  let? planDesc := Explain coll q in
  if qr_Explain req then
    Done (writeJSON 200 (obj [("documents", VArr []); ("duration_ms", VNum (Number (js "0.1")));
                              ("execution_plan", vstr planDesc)]))
  else
    let? start := Now in
    let? docs := All coll q in
    let? stop := Now in
    match docs with
    | inl e => Done (writeError 500 e)
    | inr docs =>
        Done (writeJSON 200 (obj [("count", vint (Z.of_nat (length (default [] docs)))); ("documents", vslice VObj docs);
                                  ("duration_ms", VNum (millis (stop - start))); ("execution_plan", vstr planDesc)]))
    end.

(** A body that does not decode is not refused. *)
Definition handleDocQuery (coll : bytes) (b : option jstr) : io reply :=
  doc_query coll (Decode (go_struct query_req_of) b).1.

Definition handleDocGet (coll id : bytes) : io reply :=
  let? _ := OpenCollection coll in
  let? doc := GetDoc coll id in
  match doc with
  | None => Done (writeError 404 (gs "Document not found"))
  | Some d => Done (writeJSON 200 (VObj d))
  end.

Definition insert_doc (coll : bytes) (doc : option jsobj) : io reply :=
  let? r := Insert coll doc in
  match r with
  | inl e => Done (writeError 500 e)
  | inr id => Done (writeJSON 200 (obj [("id", vstr id)]))
  end.

Definition handleDocInsert (coll : bytes) (b : option jstr) : io reply :=
  let '(doc, ok) := Decode go_map b in
  if ok then insert_doc coll doc else Done (writeError 400 (gs "Invalid JSON document")).

Definition replace_doc (coll id : bytes) (doc : option jsobj) : io reply :=
  let? err := Replace coll id doc in Done (committed err).

Definition handleDocUpdate (coll id : bytes) (b : option jstr) : io reply :=
  let '(doc, ok) := Decode go_map b in
  if ok then replace_doc coll id doc else Done (writeError 400 (gs "Invalid JSON document")).

Definition handleDocDelete (coll id : bytes) : io reply :=
  let? err := DeleteDoc coll id in Done (committed err).

Definition handleDocRoute (readOnly : bool) (r : http_request) : io reply :=
  match parts (js "/api/doc/") (req_url r) with
  | coll :: action :: _ =>
      if bool_decide (action = gs "query") then handleDocQuery coll (req_body r)
      else if bool_decide (action = gs "get") then handleDocGet coll (query_get (js "id") (req_url r))
      else if bool_decide (action = gs "insert") then guarded readOnly (handleDocInsert coll (req_body r))
      else if bool_decide (action = gs "update") then
        guarded readOnly (handleDocUpdate coll (query_get (js "id") (req_url r)) (req_body r))
      else if bool_decide (action = gs "delete") then
        guarded readOnly (handleDocDelete coll (query_get (js "id") (req_url r)))
      else Done (writeError 404 (gs "Unknown document action"))
  | _ => Done (writeError 400 (gs "Invalid document endpoint format"))
  end.

(** ** Searches *)

Record vector_req := { vr_Collection : bytes; vr_Field : bytes; vr_Vector : list f32; vr_K : Z; vr_Metric : bytes }.

Definition vector_req_of (o : jsobj) : decoded vector_req :=
  let c := go_str (fld o "collection") in let f := go_str (fld o "field") in
  let v := go_slice go_f32 (fld o "vector") in let k := go_int (fld o "k") in let m := go_str (fld o "metric") in
  (Build_vector_req c.1 f.1 v.1 k.1 m.1, c.2 && f.2 && v.2 && k.2 && m.2).

Definition metric_of (m : bytes) : metric :=
  if bool_decide (m = gs "l2") then L2 else if bool_decide (m = gs "dot") then DotProduct else Cosine.

(** The vector of a document: the numbers of an array. *)
Definition doc_vector (v : val) : list f32 :=
  match v with
  | VArr vs => omap (fun x => match x with VNum n => Some (to_f32 n) | _ => None end) vs
  | _ => []
  end.

(** The similarity shown for a distance, in percent. *)
Definition similarity (dist : f32) : f32 :=
  if SFltb (S754_zero false) dist && SFleb dist (f32_of_Z 1) then mul32 (sub32 (f32_of_Z 1) dist) (f32_of_Z 100)
  else if SFltb (f32_of_Z 1) dist then div32 (f32_of_Z 100) (add32 (f32_of_Z 1) dist)
  else f32_of_Z 100.

Definition match_json (i : Z) (dist : f32) (doc : jsobj) : val :=
  obj [("id", vint i); ("doc_id", VStr (sprint (fld doc "_id"))); ("distance", VNum (json_f32 dist));
       ("similarity_pct", VNum (json_f32 (similarity dist))); ("document", VObj doc)].

(** The loop over the documents; the text of a field is the key [field]. *)
Fixpoint vector_matches (field : bytes) (query : list f32) (m : metric) (i : Z) (docs : list jsobj) : io (list val) :=
  match docs with
  | [] => Done []
  | doc :: r =>
      match obj_get (text_of field) doc with
      | None => vector_matches field query m (i + 1) r
      | Some raw =>
          let vec := doc_vector raw in
          if bool_decide (length vec = length query) then
            let? dist := Distance query vec m in
            let* rest := vector_matches field query m (i + 1) r in
            Done (match_json i dist doc :: rest)
          else vector_matches field query m (i + 1) r
      end
  end.

Definition all_docs : query := Build_query [] None 0 0.

(** The number of neighbours asked for, [vr_K], is not used. *)
Definition vector_search (req : vector_req) : io reply :=
  let? _ := OpenCollection (vr_Collection req) in
  let? docs := All (vr_Collection req) all_docs in
  match docs with
  | inl e => Done (writeError 500 e)
  | inr docs =>
      let* matches := vector_matches (vr_Field req) (vr_Vector req) (metric_of (vr_Metric req)) 1 (default [] docs) in
      Done (writeJSON 200 (obj [("matches", vslice id (grown matches))]))
  end.

Definition handleVectorSearch (b : option jstr) : io reply :=
  decoding vector_req_of b (gs "Invalid vector query payload") vector_search.

Record text_req := { tr_Collection : bytes; tr_Field : bytes; tr_Query : bytes; tr_K : Z }.

Definition text_req_of (o : jsobj) : decoded text_req :=
  let c := go_str (fld o "collection") in let f := go_str (fld o "field") in
  let q := go_str (fld o "query") in let k := go_int (fld o "k") in
  (Build_text_req c.1 f.1 q.1 k.1, c.2 && f.2 && q.2 && k.2).

(** The string fields of a document, in the order they are ranged over. *)
Definition string_fields (o : jsobj) : list jstr :=
  omap (fun p => match p.2 with VStr s => Some s | _ => None end) o.

(** A space is written between the fields once some text was written. *)
Definition joined_text (l : list jstr) : jstr :=
  foldl (fun t s => t ++ (if bool_decide (t = []) then [] else [32%N]) ++ s) [] l.

(** The texts that are indexed, by record number. *)
Fixpoint index_texts (field : bytes) (i : Z) (docs : list jsobj) : io (list (Z * jstr)) :=
  match docs with
  | [] => Done []
  | doc :: r =>
      if bool_decide (field = []) then
        let? ranged := RangeMap doc in
        let* rest := index_texts field (i + 1) r in
        let text := joined_text (string_fields ranged) in
        Done (if bool_decide (text = []) then rest else (i, text) :: rest)
      else
        let* rest := index_texts field (i + 1) r in
        Done (match obj_get (text_of field) doc with Some v => (i, sprint v) :: rest | None => rest end)
  end.

(** A document of the map by record number; an unknown number gives the nil map. *)
Definition doc_at (docs : list jsobj) (i : Z) : option jsobj := if 1 <=? i then docs !! Z.to_nat (i - 1) else None.

Definition text_json (docs : list jsobj) (res : Z * num) : val :=
  let d := doc_at docs res.1 in
  obj [("record_id", vint res.1); ("doc_id", VStr (sprint (fld (default [] d) "_id"))); ("score", VNum res.2);
       ("document", match d with Some d => VObj d | None => VNull end)].

Definition text_search (req : text_req) : io reply :=
  let k := if tr_K req <=? 0 then 10 else tr_K req in
  let field := trim_space (tr_Field req) in
  if blank (tr_Collection req) then Done (writeError 400 (gs "Collection is required"))
  else if blank (tr_Query req) then Done (writeError 400 (gs "Search query is required"))
  else
    let? _ := OpenCollection (tr_Collection req) in
    let? docs := All (tr_Collection req) all_docs in
    match docs with
    | inl e => Done (writeError 500 e)
    | inr docs =>
        let* texts := index_texts field 1 (default [] docs) in
        let? results := TextSearch texts (tr_Query req) k in
        Done (writeJSON 200 (obj [("results", vslice (text_json (default [] docs)) (grown results))]))
    end.

Definition handleTextSearch (b : option jstr) : io reply :=
  decoding text_req_of b (gs "Invalid search payload") text_search.

(** ** Maintenance *)

Definition handleIntegrityCheck : io reply :=
  let? r := Check in
  match r with
  | inl e => Done (writeError 500 e)
  | inr rep =>
      Done (writeJSON 200 (obj
        [("errors", VArr (vstr <$> default [] (rp_Errors rep))); ("pages_checked", vint (rp_PagesChecked rep));
         ("valid", VBool (rp_Valid rep)); ("warnings", VArr (vstr <$> default [] (rp_Warnings rep)))]))
  end.

Definition handleCheckpoint : io reply :=
  let? err := Commit in
  match err with
  | Some e => Done (writeError 500 e)
  | None =>
      let? stats := Stats in
      Done (writeJSON 200 (obj [("last_lsn", vint (st_LastLSN stats)); ("success", VBool true)]))
  end.

(** [filepath.Clean] on a relative path: the segments left after [.] and [..]
    are resolved, the last one first. *)
Definition clean_step (stack : list bytes) (seg : bytes) : list bytes :=
  if bool_decide (seg = []) || bool_decide (seg = gs ".") then stack
  else if bool_decide (seg = gs "..") then
    match stack with
    | top :: r => if bool_decide (top = gs "..") then seg :: stack else r
    | [] => [seg]
    end
  else seg :: stack.

(** [filepath.Join(".", name)] *)
Definition join_dot (name : bytes) : bytes :=
  match foldl clean_step [] (split_on (N.eqb 47) name) with
  | [] => gs "."
  | stack => join [47%N] (reverse stack)
  end.

Definition backup_req_of (o : jsobj) : decoded bytes := go_str (fld o "filename").

(** A path is written to, and told. *)
Definition backup_to (dst : bytes) : io reply :=
  let? err := Backup dst in
  match err with
  | Some e => Done (writeError 500 e)
  | None => Done (writeJSON 200 (obj [("backup_path", vstr dst); ("success", VBool true)]))
  end.

(** A body that does not decode names no file. *)
Definition handleBackup (b : option jstr) : io reply :=
  let name := (Decode (go_struct backup_req_of) b).1 in
  if bool_decide (name = []) then
    let? now := Now in backup_to (join_dot (gs "backup-" ++ Z_str (now / 10 ^ 9) ++ gs ".coco"))
  else backup_to (join_dot name).

(** ** Queues *)

Definition queue_stats_json (s : queue_stats) : val :=
  obj [("ReadyCount", vint (qs_ReadyCount s)); ("InFlightCount", vint (qs_InFlightCount s));
       ("DLQCount", vint (qs_DLQCount s))].

Definition queue_item_json (name : bytes) (s : queue_stats) (dlq : option queue_stats) : val :=
  obj [("name", vstr name); ("stats", queue_stats_json s);
       ("has_dlq", VBool (match dlq with Some _ => true | None => false end));
       ("dlq_stats", queue_stats_json (default (Build_queue_stats 0 0 0) dlq))].

Fixpoint queue_items (names : list bytes) : io (list val) :=
  match names with
  | [] => Done []
  | name :: r =>
      let? _ := OpenQueue name in
      let? s := QueueStats name in
      let? has := HasDLQ name in
      if has then
        let? d := DLQStats name in
        let* rest := queue_items r in
        Done (queue_item_json name s (Some d) :: rest)
      else
        let* rest := queue_items r in
        Done (queue_item_json name s None :: rest)
  end.

Definition handleQueueList : io reply :=
  let? queueNames := ListQueues in
  let* res := queue_items queueNames in
  Done (writeJSON 200 (obj [("queues", VArr res)])).

Definition handleQueueStats (name : bytes) : io reply :=
  if bool_decide (name = []) then Done (writeError 400 (gs "Missing queue name"))
  else
    let? _ := OpenQueue name in
    let? s := QueueStats name in
    Done (writeJSON 200 (obj [("dlq_count", vint (qs_DLQCount s)); ("in_flight_count", vint (qs_InFlightCount s));
                              ("name", vstr name); ("ready_count", vint (qs_ReadyCount s))])).

Record enqueue_req := {
  en_Queue : bytes; en_Payload : bytes; en_DedupID : bytes; en_Priority : Z; en_DelayMs : Z;
}.

Definition enqueue_req_of (o : jsobj) : decoded enqueue_req :=
  let q := go_str (fld o "queue") in let p := go_str (fld o "payload") in let d := go_str (fld o "dedup_id") in
  let r := go_int (fld o "priority") in let m := go_int (fld o "delay_ms") in
  (Build_enqueue_req q.1 p.1 d.1 r.1 m.1, q.2 && p.2 && d.2 && r.2 && m.2).

Definition second : Z := 10 ^ 9.
Definition minute : Z := 60 * second.

(** [queue.DefaultOptions] *)
Definition default_queue_options : queue_options := Build_queue_options [] (10 * minute) 128 0.

(** The options a request asks for, over the defaults. *)
Definition enqueue_options (req : enqueue_req) : queue_options :=
  let d := default_queue_options in
  let has_dedup := negb (bool_decide (en_DedupID req = [])) in
  {| qo_dedup := if has_dedup then en_DedupID req else qo_dedup d;
     qo_window := if has_dedup then 5 * minute else qo_window d;
     qo_priority := if 0 <? en_Priority req then uint8 (en_Priority req) else qo_priority d;
     qo_delay := if 0 <? en_DelayMs req then int64 (en_DelayMs req * 10 ^ 6) else qo_delay d |}.

(** The handler after its body was decoded; likewise for the handlers below. *)
Definition enqueue (req : enqueue_req) : io reply :=
  if bool_decide (en_Queue req = []) then Done (writeError 400 (gs "Missing queue name"))
  else
    let? _ := OpenQueue (en_Queue req) in
    let? r := Enqueue (en_Queue req) (en_Payload req) (enqueue_options req) in
    match r with
    | inl ErrDuplicateMessage =>
        Done (writeError 409 (gs "Duplicate message rejected within active deduplication window"))
    | inl ErrQueueEmpty => Done (writeError 500 (gs "coco/queue: queue is empty"))
    | inl DeadlineExceeded => Done (writeError 500 (gs "context deadline exceeded"))
    | inl (OtherError e) => Done (writeError 500 e)
    | inr msg =>
        Done (writeJSON 200 (obj [("message_id", vstr (msg_ID msg)); ("queue", vstr (msg_Queue msg));
                                  ("state", vstr (msg_State msg)); ("success", VBool true)]))
    end.

Definition handleQueueEnqueue (readOnly : bool) (b : option jstr) : io reply :=
  if readOnly then Done studio_read_only else decoding enqueue_req_of b (gs "Invalid JSON body") enqueue.

Record dequeue_req := { de_Queue : bytes; de_AutoAck : bool }.

Definition dequeue_req_of (o : jsobj) : decoded dequeue_req :=
  let q := go_str (fld o "queue") in let a := go_bool (fld o "auto_ack") in
  (Build_dequeue_req q.1 a.1, q.2 && a.2).

Definition message_json (m : queue_message) : val :=
  obj [("found", VBool true); ("message_id", vstr (msg_ID m)); ("payload", vstr (msg_Payload m));
       ("priority", vint (msg_Priority m)); ("queue", vstr (msg_Queue m)); ("retry_count", vint (msg_RetryCount m));
       ("state", vstr (msg_State m))].

Definition dequeue (req : dequeue_req) : io reply :=
  if bool_decide (de_Queue req = []) then Done (writeError 400 (gs "Missing queue name"))
  else
    let? _ := OpenQueue (de_Queue req) in
    let? r := Dequeue (de_Queue req) (2 * second) (10 * second) in
    match r with
    | inl (DeadlineExceeded | ErrQueueEmpty) => Done (writeJSON 200 (obj [("found", VBool false)]))
    | inl ErrDuplicateMessage =>
        Done (writeError 500 (gs "coco/queue: duplicate message detected within deduplication window"))
    | inl (OtherError e) => Done (writeError 500 e)
    | inr msg =>
        if de_AutoAck req then let? msg := Ack msg in Done (writeJSON 200 (message_json msg))
        else Done (writeJSON 200 (message_json msg))
    end.

Definition handleQueueDequeue (b : option jstr) : io reply :=
  decoding dequeue_req_of b (gs "Invalid JSON body") dequeue.

(** ** Publications *)

Record publish_req := { pu_Topic : bytes; pu_Payload : bytes; pu_DedupID : bytes }.

Definition publish_req_of (o : jsobj) : decoded publish_req :=
  let t := go_str (fld o "topic") in let p := go_str (fld o "payload") in let d := go_str (fld o "dedup_id") in
  (Build_publish_req t.1 p.1 d.1, t.2 && p.2 && d.2).

(** The deduplication window is five minutes, asked for or by default. *)
Definition publish_options (req : publish_req) : pubsub_options := Build_pubsub_options (pu_DedupID req) (5 * minute).

Definition publish (req : publish_req) : io reply :=
  if bool_decide (pu_Topic req = []) then Done (writeError 400 (gs "Missing topic"))
  else
    let? r := Publish (pu_Topic req) (pu_Payload req) (publish_options req) in
    match r with
    | inl ErrDuplicateMessage =>
        Done (writeError 409 (gs "Duplicate publication rejected within active deduplication window"))
    | inl ErrQueueEmpty => Done (writeError 500 (gs "coco/queue: queue is empty"))
    | inl DeadlineExceeded => Done (writeError 500 (gs "context deadline exceeded"))
    | inl (OtherError e) => Done (writeError 500 e)
    | inr count =>
        let? now := Now in
        let? created := Now in
        let e := Build_event (gs "evt_" ++ Z_str now) (pu_Topic req) (pu_Payload req) (pu_DedupID req) created in
        Ask (Push e) (fun _ =>
          Done (writeJSON 200 (obj [("event_id", vstr (e_ID e)); ("subscribers_hit", vint count);
                                    ("success", VBool true); ("topic", vstr (pu_Topic req))])))
    end.

Definition handlePubSubPublish (readOnly : bool) (b : option jstr) : io reply :=
  if readOnly then Done studio_read_only else decoding publish_req_of b (gs "Invalid JSON body") publish.

(** A time that has no JSON text stands as a value the encoder refuses. *)
Definition vtime (t : Z) : val := match rfc3339_nano t with Some s => VStr s | None => VNum NaN end.

(** [dedup_id] is omitted when empty. *)
Definition event_json (e : event) : val :=
  obj ([("id", vstr (e_ID e)); ("topic", vstr (e_Topic e)); ("payload", vstr (e_Payload e))]
       ++ (if bool_decide (e_DedupID e = []) then [] else [("dedup_id", vstr (e_DedupID e))])
       ++ [("created_at", vtime (e_CreatedAt e))]).

Definition handlePubSubHistory : io reply :=
  Ask History (fun events => Done (writeJSON 200 (obj [("events", VArr (event_json <$> events))]))).

(** The history a push leaves: newest first, at most fifty. *)
Definition record_event (e : event) (h : list event) : list event :=
  let h := e :: h in if (50 <? length h)%nat then take 50 h else h.

(** ** Metrics *)

(** [fmt.Sprintf("%.4f", x)]: the nearest multiple, ties to even. *)
Definition fixed4 (x : num) : jstr :=
  match x with
  | S754_nan => js "NaN"
  | S754_infinity s => if s then js "-Inf" else js "+Inf"
  | S754_zero s => (if s then [c_minus] else []) ++ fixed_digits 0 4
  | S754_finite s m e =>
      let '(q, r, d) := scaled m e (-4) in
      let n := if 2 * r <? d then q else if d <? 2 * r then q + 1 else if Z.even q then q else q + 1 in
      (if s then [c_minus] else []) ++ fixed_digits n 4
  end.

(** One metric of the exposition format. *)
Definition metric_lines (name help type : string) (value : jstr) : jstr :=
  js "# HELP " ++ js name ++ js " " ++ js help ++ [10%N] ++ js "# TYPE " ++ js name ++ js " " ++ js type ++ [10%N]
  ++ js name ++ js " " ++ value ++ [10%N].

Definition handleMetrics : io reply :=
  let? stats := Stats in
  let? queueNames := ListQueues in
  let* t := queue_totals queueNames 0 0 0 in
  let? ps := PubSubStats in
  Done (Reply 200 (Plain (join [10%N] [
    metric_lines "cocodb_storage_allocated_bytes" "Total allocated storage in bytes" "gauge"
      (Z_str (int64 (st_PageCount stats * 16384)));
    metric_lines "cocodb_page_count" "Total 16KiB pages allocated" "gauge" (Z_str (st_PageCount stats));
    metric_lines "cocodb_cache_hits_total" "Total page cache hits" "counter" (Z_str (st_CacheHits stats));
    metric_lines "cocodb_cache_misses_total" "Total page cache misses" "counter" (Z_str (st_CacheMisses stats));
    metric_lines "cocodb_cache_hit_rate_ratio" "Cache hit rate ratio (0.0 to 1.0)" "gauge" (fixed4 (st_CacheHitRate stats));
    metric_lines "cocodb_wal_last_lsn" "Current WAL Log Sequence Number" "counter" (Z_str (st_LastLSN stats));
    metric_lines "cocodb_last_txn_id" "Current transaction ID" "counter" (Z_str (st_LastTxnID stats));
    metric_lines "cocodb_queues_total" "Total registered queues" "gauge" (Z_str (Z.of_nat (length queueNames)));
    metric_lines "cocodb_queue_ready_tasks" "Total tasks ready for workers" "gauge" (Z_str t.1.1);
    metric_lines "cocodb_queue_inflight_tasks" "Total tasks in-flight under lease" "gauge" (Z_str t.1.2);
    metric_lines "cocodb_queue_dlq_tasks" "Total tasks in Dead-Letter Queue" "gauge" (Z_str t.2);
    metric_lines "cocodb_pubsub_events_total" "Total published events in session" "counter" (Z_str (ps_TotalPublished ps));
    metric_lines "cocodb_pubsub_delivered_total" "Total delivered subscriber events" "counter" (Z_str (ps_TotalDelivered ps))]))).

(** ** Time series *)

Definition not_allowed : reply := writeError 405 (gs "Method not allowed").

Definition handleTimeSeriesList (r : http_request) : io reply :=
  if bool_decide (req_method r = js "GET") then
    let? series := ListTimeSeries in Done (writeJSON 200 (obj [("series", VArr (vstr <$> series))]))
  else Done not_allowed.

(** [map[string]string] *)
Definition go_str_map (v : val) : decoded (list (jstr * jstr)) :=
  match v with
  | VUndef | VNull => ([], true)
  | VObj ps => ((fun p => (sanitize p.1, text_of (go_str p.2).1)) <$> ps, forallb (fun p => (go_str p.2).2) ps)
  | _ => ([], false)
  end.

Definition parseStudioTime (value : bytes) : option Z :=
  if bool_decide (value = []) then Some zero_time else parse_rfc3339 false value.

Record ts_query_req := {
  tq_Series : bytes; tq_Start : bytes; tq_End : bytes; tq_Tags : list (jstr * jstr); tq_Limit : Z; tq_Descending : bool;
}.

Definition ts_query_req_of (o : jsobj) : decoded ts_query_req :=
  let s := go_str (fld o "series") in let a := go_str (fld o "start") in let b := go_str (fld o "end") in
  let t := go_str_map (fld o "tags") in let l := go_int (fld o "limit") in let d := go_bool (fld o "descending") in
  (Build_ts_query_req s.1 a.1 b.1 t.1 l.1 d.1, s.2 && a.2 && b.2 && t.2 && l.2 && d.2).

Definition point_json (p : ts_point) : val :=
  obj [("Timestamp", vtime (pt_Timestamp p)); ("Tags", VObj (prod_map id VStr <$> pt_Tags p));
       ("Fields", VObj (pt_Fields p))].

Definition ts_query (req : ts_query_req) : io reply :=
  if blank (tq_Series req) then Done (writeError 400 (gs "Series name is required"))
  else
    match parseStudioTime (tq_Start req) with
    | None => Done (writeError 400 (gs "Invalid start time; use RFC3339"))
    | Some start =>
        match parseStudioTime (tq_End req) with
        | None => Done (writeError 400 (gs "Invalid end time; use RFC3339"))
        | Some stop =>
            let? points := TsAll (tq_Series req)
              (Build_time_query start stop (tq_Limit req) (tq_Tags req) (tq_Descending req)) in
            match points with
            | inl e => Done (writeError 500 e)
            | inr points =>
                Done (writeJSON 200 (obj [("count", vint (Z.of_nat (length points)));
                                          ("points", VArr (point_json <$> points))]))
            end
        end
    end.

Definition handleTimeSeriesQuery (r : http_request) : io reply :=
  if negb (bool_decide (req_method r = js "POST")) then Done not_allowed
  else decoding ts_query_req_of (req_body r) (gs "Invalid JSON payload") ts_query.

Record ts_write_req := { tw_Series : bytes; tw_Point : ts_point }.

(** A [cocodb.Point]; nil maps are empty. *)
Definition point_of (o : jsobj) : decoded ts_point :=
  let t := go_time (fld o "Timestamp") in let g := go_str_map (fld o "Tags") in let f := go_map (fld o "Fields") in
  (Build_ts_point t.1 g.1 (default [] f.1), t.2 && g.2 && f.2).

Definition ts_write_req_of (o : jsobj) : decoded ts_write_req :=
  let s := go_str (fld o "series") in let p := go_struct point_of (fld o "point") in
  (Build_ts_write_req s.1 p.1, s.2 && p.2).

Definition ts_write (req : ts_write_req) : io reply :=
  if blank (tw_Series req) then Done (writeError 400 (gs "Series name is required"))
  else
    let? id := TsWrite (tw_Series req) (tw_Point req) in
    match id with
    | inl e => Done (writeError 500 e)
    | inr id => Done (writeJSON 200 (obj [("id", vstr id)]))
    end.

Definition handleTimeSeriesWrite (readOnly : bool) (r : http_request) : io reply :=
  if negb (bool_decide (req_method r = js "POST")) then Done not_allowed
  else guarded readOnly (decoding ts_write_req_of (req_body r) (gs "Invalid JSON payload") ts_write).

Record ts_prune_req := { tp_Series : bytes; tp_Before : bytes }.

Definition ts_prune_req_of (o : jsobj) : decoded ts_prune_req :=
  let s := go_str (fld o "series") in let b := go_str (fld o "before") in (Build_ts_prune_req s.1 b.1, s.2 && b.2).

Definition ts_prune (req : ts_prune_req) : io reply :=
  if blank (tp_Series req) then Done (writeError 400 (gs "Series name is required"))
  else
    match parseStudioTime (tp_Before req) with
    | None => Done (writeError 400 (gs "A valid RFC3339 retention cutoff is required"))
    | Some before =>
        if IsZero before then Done (writeError 400 (gs "A valid RFC3339 retention cutoff is required"))
        else
          let? removed := TsPruneBefore (tp_Series req) before in
          match removed with
          | inl e => Done (writeError 500 e)
          | inr n => Done (writeJSON 200 (obj [("removed", vint n)]))
          end
    end.

Definition handleTimeSeriesPrune (readOnly : bool) (r : http_request) : io reply :=
  if negb (bool_decide (req_method r = js "POST")) then Done not_allowed
  else guarded readOnly (decoding ts_prune_req_of (req_body r) (gs "Invalid JSON payload") ts_prune).

(** ** Routing *)

(** The multiplexer matches the decoded segments of a clean path; a path may
    end in a slash. *)
Definition segments (raw : jstr) : option (list bytes) := mapM (unescape false) (tail (split_on (N.eqb 47) raw)).

Fixpoint clean_segments (segs : list jstr) : bool :=
  match segs with
  | [] => true
  | [s] => bool_decide (s = []) || clean_segment s
  | s :: r => clean_segment s && clean_segments r
  end.

Definition mux_clean (raw : jstr) : bool := clean_segments (tail (split_on (N.eqb 47) raw)).

(** [registerRoutes]: the patterns without a trailing slash. *)
Definition exact_routes (readOnly : bool) : list (list string * (http_request -> io reply)) := [
  (["api"; "stats"], fun _ => handleStats);
  (["api"; "catalog"], fun _ => handleCatalog);
  (["api"; "timeseries"; "list"], handleTimeSeriesList);
  (["api"; "timeseries"; "query"], handleTimeSeriesQuery);
  (["api"; "timeseries"; "write"], handleTimeSeriesWrite readOnly);
  (["api"; "timeseries"; "prune"], handleTimeSeriesPrune readOnly);
  (["api"; "vector"; "search"], fun r => handleVectorSearch (req_body r));
  (["api"; "text"; "search"], fun r => handleTextSearch (req_body r));
  (["api"; "integrity"; "check"], fun _ => handleIntegrityCheck);
  (["api"; "maintenance"; "checkpoint"], fun _ => handleCheckpoint);
  (["api"; "maintenance"; "backup"], fun r => handleBackup (req_body r));
  (["api"; "queue"; "list"], fun _ => handleQueueList);
  (["api"; "queue"; "stats"], fun r => handleQueueStats (query_get (js "name") (req_url r)));
  (["api"; "queue"; "enqueue"], fun r => handleQueueEnqueue readOnly (req_body r));
  (["api"; "queue"; "dequeue"], fun r => handleQueueDequeue (req_body r));
  (["api"; "pubsub"; "publish"], fun r => handlePubSubPublish readOnly (req_body r));
  (["api"; "pubsub"; "history"], fun _ => handlePubSubHistory);
  (["api"; "metrics"], fun _ => handleMetrics);
  (["metrics"], fun _ => handleMetrics);
  (["api"; "cluster"; "status"], fun _ => handleClusterStatus)
]%string.

(** The subtrees of the two routers, and of the static files. *)
Definition subtree (readOnly : bool) (segs : list bytes) (r : http_request) : io reply :=
  match segs with
  | a :: b :: rest =>
      if bool_decide (a = gs "api") && bool_decide (b = gs "kv") then
        match rest with [] => Done Redirect | _ => handleKVRoute readOnly r end
      else if bool_decide (a = gs "api") && bool_decide (b = gs "doc") then
        match rest with [] => Done Redirect | _ => handleDocRoute readOnly r end
      else if starts_with (gs "api") a then Done (Reply 404 (Plain (js "404 page not found" ++ [10%N]))) else Done Asset
  | [a] => if starts_with (gs "api") a then Done (Reply 404 (Plain (js "404 page not found" ++ [10%N]))) else Done Asset
  | [] => Done Asset
  end.

(** [Server.ServeHTTP]: the CORS middleware, then the multiplexer. *)
Definition serve (readOnly : bool) (r : http_request) : io reply :=
  let raw := (cut 63 (req_url r)).1 in
  match segments raw with
  | None => Done (Reply 400 (Plain (js "400 Bad Request")))
  | Some segs =>
      if bool_decide (req_method r = js "OPTIONS") then Done (Reply 200 NoBody)
      else if negb (mux_clean raw) then Done Redirect
      else
        match List.find (fun p => bool_decide (gs <$> p.1 = segs)) (exact_routes readOnly) with
        | Some (_, h) => h r
        | None => subtree readOnly segs r
        end
  end.

(** ** Running *)

(** A database: what it answers to an operation, and the state it is left in. *)
Class Database (D : Type) := perform : forall A, D -> dbop A -> D * A.

(** The state behind the handlers. *)
Record world (D : Type) := mk_world { w_db : D; w_history : list event }.
Arguments mk_world {D} _ _.
Arguments w_db {D} _.
Arguments w_history {D} _.

Section Run.
Context {D : Type} `{Database D}.

Definition exec_op {A} (w : world D) (o : op A) : world D * A :=
  match o in op A return world D * A with
  | DB d => let '(db, a) := perform _ (w_db w) d in (mk_world db (w_history w), a)
  | Push e => (mk_world (w_db w) (record_event e (w_history w)), tt)
  | History => (w, w_history w)
  end.

Fixpoint exec {R} (w : world D) (m : io R) : world D * R :=
  match m with
  | Done r => (w, r)
  | Ask o k => let '(w, a) := exec_op w o in exec w (k a)
  end.
End Run.

(** ** Reasoning about programs *)

(** Every operation a program may perform, whatever is answered. *)
Fixpoint asks {R} (P : forall A, op A -> Prop) (m : io R) : Prop :=
  match m with
  | Done _ => True
  | Ask o k => P _ o /\ forall a, asks P (k a)
  end.

(** Every result it may have. *)
Fixpoint ends {R} (Q : R -> Prop) (m : io R) : Prop :=
  match m with
  | Done r => Q r
  | Ask o k => forall a, ends Q (k a)
  end.

Lemma asks_bind {R S} P (m : io R) (f : R -> io S) :
  asks P m -> (forall r, asks P (f r)) -> asks P (io_bind m f).
Proof. induction m as [r|A o k IH]; simpl; [by auto|]. intros [Ho Hk] Hf. split; [done|]. eauto. Qed.

Lemma ends_bind {R S} Q Q' (m : io R) (f : R -> io S) :
  ends Q' m -> (forall r, Q' r -> ends Q (f r)) -> ends Q (io_bind m f).
Proof. induction m as [r|A o k IH]; simpl; [by auto|]. intros Hm Hf a. eauto. Qed.

Lemma ends_true {R} (m : io R) : ends (fun _ => True) m.
Proof. induction m; simpl; auto. Qed.

Lemma ends_bind_any {R S} Q (m : io R) (f : R -> io S) : (forall r, ends Q (f r)) -> ends Q (io_bind m f).
Proof. intros Hf. eapply ends_bind; [apply ends_true | auto]. Qed.

(** ** A small database, for evaluating the server

    Keys with their values in one list, and a clock that advances at each
    reading; collections, queues and series are empty, and publications reach
    one subscriber. *)

Module Shelf.

Record shelf := mk_shelf { sh_keys : list (bytes * bytes * bytes); sh_clock : Z }.

Definition find_key (l : list (bytes * bytes * bytes)) (b k : bytes) : option bytes :=
  snd <$> List.find (fun p => bool_decide (p.1 = (b, k))) l.

Definition no_stats : db_stats := Build_db_stats 4 3 1 (Number (js "0.75")) 7 2 false.

Definition perform_shelf (A : Type) (db : shelf) (d : dbop A) : shelf * A :=
  match d in dbop A return shelf * A with
  | Now => (mk_shelf (sh_keys db) (sh_clock db + 1), sh_clock db)
  | Stats => (db, no_stats)
  | PubSubStats => (db, Build_pubsub_stats 0 0 0 0)
  | ClusterStatus => (db, None)
  | ListBuckets => (db, (fun p => p.1.1) <$> sh_keys db)
  | ListCollections | ListQueues | ListTimeSeries => (db, [])
  | OpenBucket _ | OpenCollection _ | OpenQueue _ => (db, tt)
  | Iterate b _ => (db, (fun p => (p.1.2, p.2)) <$> List.filter (fun p => bool_decide (p.1.1 = b)) (sh_keys db))
  | Get b k => (db, find_key (sh_keys db) b k)
  | Put b k v _ => (mk_shelf ((b, k, v) :: sh_keys db) (sh_clock db), None)
  | Delete b k => (mk_shelf (List.filter (fun p => negb (bool_decide (p.1 = (b, k)))) (sh_keys db)) (sh_clock db), None)
  | Increment _ _ n => (db, inr n)
  | Explain _ _ => (db, gs "CollectionScan")
  | All _ _ => (db, inr None)
  | GetDoc _ _ => (db, None)
  | Insert _ _ => (db, inr (gs "1"))
  | Replace _ _ _ | DeleteDoc _ _ | Commit | Backup _ => (db, None)
  | Check => (db, inr (Build_report true 4 None None))
  | QueueStats _ | DLQStats _ => (db, Build_queue_stats 0 0 0)
  | HasDLQ _ => (db, false)
  | Enqueue q p o => (db, inr (Build_queue_message (gs "m1") q p (qo_priority o) 0 (gs "ready")))
  | Dequeue _ _ _ => (db, inl ErrQueueEmpty)
  | Ack m => (db, m)
  | Publish _ _ _ => (db, inr 1)
  | TsAll _ _ => (db, inr [])
  | TsWrite _ _ => (db, inr (gs "p1"))
  | TsPruneBefore _ _ => (db, inr 0)
  | Distance _ _ _ => (db, f32_of_Z 0)
  | TextSearch _ _ _ => (db, [])
  | RangeMap o => (db, o)
  end.

#[global] Instance shelf_database : Database shelf := perform_shelf.

Definition empty : world shelf := mk_world (mk_shelf [] 1700000000000000000) [].

End Shelf.
