(* ===== verification/ServerSafety.v ===== *)
(** What the studio server does whatever it is asked and whatever the database
    answers: the operations a read-only server performs, the form of its
    failures, and its event history under any interleaving of requests. *)

From S2P Require Import Prelude JsString JsNumber JsDate Json Api Types Routes Go Server.

Open Scope Z_scope.

(** ** Every request *)

(** The decoded segments of the path of a request. *)
Definition routed (r : http_request) : option (list bytes) := segments (cut 63 (req_url r)).1.

(** A property of programs that the immediate replies have, and every handler for
    the requests that reach it, [serve] has. *)
Lemma serve_routed (Q : io reply -> Prop) ro r :
  Q (Done (Reply 400 (Plain (js "400 Bad Request")))) -> Q (Done (Reply 200 NoBody)) -> Q (Done Redirect) ->
  Q (Done Asset) -> Q (Done (Reply 404 (Plain (js "404 page not found" ++ [10%N])))) ->
  Forall (fun p => routed r = Some (gs <$> p.1) -> Q (p.2 r)) (exact_routes ro) -> Q (handleKVRoute ro r) -> Q (handleDocRoute ro r) ->
  Q (serve ro r).
Proof.
  intros H400 H200 Hred Has H404 Hex Hkv Hdoc. unfold serve. unfold routed in Hex. destruct (segments _) as [segs|]; [|exact H400].
  case_bool_decide; [exact H200|]. destruct (mux_clean _); [|exact Hred]. cbn [negb].
  destruct (List.find _ (exact_routes ro)) as [[path h]|] eqn:E.
  - apply List.find_some in E as [Hin Hp%bool_decide_eq_true]. rewrite Forall_forall in Hex. apply (Hex (path, h)); [by apply list_elem_of_In|by rewrite <- Hp].
  - unfold subtree. destruct segs as [|a [|b rest]]; [exact Has|destruct (starts_with _ a); [exact H404|exact Has]|].
    destruct (_ && _); [destruct rest; [exact Hred|exact Hkv]|]. destruct (_ && _); [destruct rest; [exact Hred|exact Hdoc]|].
    destruct (starts_with _ a); [exact H404|exact Has].
Qed.

Lemma serve_all (Q : io reply -> Prop) ro r :
  Q (Done (Reply 400 (Plain (js "400 Bad Request")))) -> Q (Done (Reply 200 NoBody)) -> Q (Done Redirect) ->
  Q (Done Asset) -> Q (Done (Reply 404 (Plain (js "404 page not found" ++ [10%N])))) ->
  Forall (fun p => Q (p.2 r)) (exact_routes ro) -> Q (handleKVRoute ro r) -> Q (handleDocRoute ro r) ->
  Q (serve ro r).
Proof. intros ? ? ? ? ? Hex ? ?. apply serve_routed; try assumption. eapply Forall_impl; [exact Hex|]. intros p Hp _. exact Hp. Qed.

(** Walk through a handler: its cases, its operations, its loops. *)
Create HintDb asks.
Create HintDb ends.
Create HintDb pushes.

Ltac walk :=
  repeat first
    [ progress cbn [asks ends io_bind negb]
    | match goal with
      | |- _ /\ _ => split
      | |- forall _, _ => intros
      | |- True => exact I
      | |- asks _ (io_bind _ _) => apply asks_bind
      | |- ends _ (io_bind _ _) => apply ends_bind_any
      | |- context [match ?x with _ => _ end] => destruct x
      end ].

Lemma asks_mono {R} (P P' : forall A, op A -> Prop) (m : io R) :
  (forall A (o : op A), P A o -> P' A o) -> asks P m -> asks P' m.
Proof. intros HP. induction m as [r|A o k IH]; [done|]. intros [Ho Hk]. split; [by apply HP|]. auto. Qed.

(** ** Reading only *)

(** What an operation does to the data: it reads; it opens a bucket, collection
    or queue, which creates an empty one in the catalog when there is none and the
    database can be written; it stores, replaces or removes keys, documents, tasks,
    events or points; it takes a task, under a lease or for good; or it writes the
    file of the database or of a backup. *)
Inductive access := Reading | Opening | Storing | Taking | Exporting.

Definition access_of {A} (o : op A) : access :=
  match o with
  | DB d =>
      match d with
      | Now | Stats | PubSubStats | ClusterStatus | ListBuckets | ListCollections | ListQueues | ListTimeSeries | Iterate _ _ | Get _ _
      | Explain _ _ | All _ _ | GetDoc _ _ | Check | QueueStats _ | HasDLQ _ | DLQStats _ | TsAll _ _ | Distance _ _ _ | TextSearch _ _ _
      | RangeMap _ => Reading
      | OpenBucket _ | OpenCollection _ | OpenQueue _ => Opening
      | Put _ _ _ _ | Delete _ _ | Increment _ _ _ | Insert _ _ | Replace _ _ _ | DeleteDoc _ _
      | Enqueue _ _ _ | Publish _ _ _ | TsWrite _ _ | TsPruneBefore _ _ => Storing
      | Dequeue _ _ _ | Ack _ => Taking
      | Commit | Backup _ => Exporting
      end
  | Push _ => Storing
  | History => Reading
  end.

(** Reading, or opening. *)
Definition looks (a : access) : bool := match a with Reading | Opening => true | _ => false end.

Definition reads_only {R} (m : io R) : Prop := asks (fun A o => looks (access_of o) = true) m.

(** What a read-only server may do for a request to a path. *)
Definition read_only_may (path : option (list bytes)) (a : access) : Prop :=
  match a with
  | Reading | Opening => True
  | Storing => False
  | Taking => path = Some [gs "api"; gs "queue"; gs "dequeue"]
  | Exporting => path = Some [gs "api"; gs "maintenance"; gs "checkpoint"] \/ path = Some [gs "api"; gs "maintenance"; gs "backup"]
  end.

Lemma queue_totals_reads names a b c : reads_only (queue_totals names a b c).
Proof. revert a b c. induction names as [|n r IH]; intros a b c; [done|]. do 2 (split; [done|]; intros). apply IH. Qed.

Lemma queue_items_reads names : reads_only (queue_items names).
Proof.
  induction names as [|n r IH]; [done|]. do 3 (split; [done|]; intros).
  match goal with |- context [if ?b then _ else _] => destruct b end; [split; [done|]; intros|]; by apply asks_bind.
Qed.

Lemma vector_matches_reads f q m i docs : reads_only (vector_matches f q m i docs).
Proof.
  revert i. induction docs as [|d r IH]; intros i; [done|]. simpl. destruct (obj_get _ d); [|apply IH].
  case_bool_decide; [|apply IH]. split; [done|]. intros. apply asks_bind; [apply IH|done].
Qed.

Lemma index_texts_reads f i docs : reads_only (index_texts f i docs).
Proof.
  revert i. induction docs as [|d r IH]; intros i; [done|]. simpl.
  case_bool_decide; [split; [done|]; intros|]; (apply asks_bind; [apply IH|done]).
Qed.

Hint Extern 1 (asks _ _) =>
  first [apply queue_totals_reads | apply queue_items_reads | apply vector_matches_reads | apply index_texts_reads] : asks.

(** The handlers of the exact routes, unfolded. *)
Ltac unfold_handlers :=
  unfold handleStats, handleCatalog, handleTimeSeriesList, handleTimeSeriesQuery, handleTimeSeriesWrite,
    handleTimeSeriesPrune, handleVectorSearch, handleTextSearch, handleIntegrityCheck, handleCheckpoint, handleBackup,
    handleQueueList, handleQueueStats, handleQueueEnqueue, handleQueueDequeue, handlePubSubPublish, handlePubSubHistory,
    handleMetrics, handleClusterStatus, handleKVRoute, handleKVScan, handleKVGet, handleKVPut, handleKVDelete, handleKVIncr,
    handleDocRoute, handleDocQuery, handleDocGet, handleDocInsert, handleDocUpdate, handleDocDelete;
  unfold guarded, decoding, put, incr, doc_query, insert_doc, replace_doc, vector_search, text_search, backup_to, enqueue,
    dequeue, publish, ts_query, ts_write, ts_prune.

(** One goal per handler. *)
Ltac each_handler :=
  [> unfold exact_routes; repeat (apply Forall_cons; split; [cbn [snd]|]); [..|constructor] | | ]; unfold_handlers.

(** The loops of the handlers only look. *)
Lemma reads_may {R} path (m : io R) : reads_only m -> asks (fun A o => read_only_may path (access_of o)) m.
Proof. apply asks_mono. intros A o. by destruct (access_of o). Qed.

(** Being read-only makes no other difference than the refusals. *)
Definition differs (a b : io reply) : Prop := a = b \/ a = Done read_only_error \/ a = Done studio_read_only.

Lemma differs_same a : differs a a.
Proof. by left. Qed.

Lemma guarded_differs h : differs (guarded true h) (guarded false h).
Proof. right. by left. Qed.

Lemma if_differs (c : bool) a b a' b' : differs a a' -> differs b b' -> differs (if c then a else b) (if c then a' else b').
Proof. by destruct c. Qed.

Create HintDb differs.
Hint Resolve differs_same guarded_differs if_differs : differs.

Lemma routers_differ r : differs (handleKVRoute true r) (handleKVRoute false r) /\ differs (handleDocRoute true r) (handleDocRoute false r).
Proof.
  unfold handleKVRoute, handleDocRoute. split.
  - destruct (parts _ _) as [|? [|? ?]]; auto 9 with differs.
  - destruct (parts _ _) as [|? [|? ?]]; auto 9 with differs.
Qed.

Lemma posts_differ r : differs (handleTimeSeriesWrite true r) (handleTimeSeriesWrite false r) /\ differs (handleTimeSeriesPrune true r) (handleTimeSeriesPrune false r).
Proof. unfold handleTimeSeriesWrite, handleTimeSeriesPrune. split; auto with differs. Qed.

Lemma queues_differ b : differs (handleQueueEnqueue true b) (handleQueueEnqueue false b) /\ differs (handlePubSubPublish true b) (handlePubSubPublish false b).
Proof. split; right; right; unfold handleQueueEnqueue, handlePubSubPublish; reflexivity. Qed.

Lemma exact_differ r : Forall2 (fun p q => p.1 = q.1 /\ differs (p.2 r) (q.2 r)) (exact_routes true) (exact_routes false).
Proof.
  unfold exact_routes. destruct (posts_differ r) as [H1 H2]. destruct (queues_differ (req_body r)) as [H3 H4].
  repeat (apply Forall2_cons; split; [split; [reflexivity|cbn [snd]; match goal with |- differs ?x ?x => apply differs_same | |- _ => assumption end]|]). constructor.
Qed.

Lemma find_differs {A} (f : list string -> bool) (l k : list (list string * A)) (Q : A -> A -> Prop) : Forall2 (fun p q => p.1 = q.1 /\ Q p.2 q.2) l k ->
  match List.find (fun p => f p.1) l, List.find (fun p => f p.1) k with Some p, Some q => Q p.2 q.2 | None, None => True | _, _ => False end.
Proof. induction 1 as [|[a x] [b y] l k [E Hq] _ IH]; [done|]. cbn in *. subst b. by destruct (f a). Qed.

Lemma read_only_differs r : differs (serve true r) (serve false r).
Proof.
  unfold serve. destruct (segments _) as [segs|]; [|by left]. case_bool_decide; [by left|]. destruct (mux_clean _); [|by left]. cbn [negb].
  pose proof (find_differs (fun p => bool_decide (gs <$> p = segs)) _ _ (fun x y => differs (x r) (y r)) (exact_differ r)) as Hf. cbv beta in Hf.
  destruct (List.find _ (exact_routes true)) as [[? ?]|], (List.find _ (exact_routes false)) as [[? ?]|]; [exact Hf|destruct Hf..|].
  destruct (routers_differ r) as [Hkv Hdoc]. unfold subtree. destruct segs as [|a [|b [|c rest]]]; auto 9 with differs.
Qed.

(** C8: what a read-only server does: whatever the request and whatever the
    database answers, no handler stores, replaces or removes keys, documents,
    tasks, events or points, or extends the event history; tasks are taken and
    acknowledged for requests to the path of [/api/queue/dequeue] only, which the
    mode does not guard, and files are written for the checkpoint and the backup
    only; all the others read, or open buckets, collections and queues, which the
    database creates empty when there are none. The server answers as one that
    can be written, or refuses. *)
Theorem read_only_effects r :
  asks (fun A o => read_only_may (routed r) (access_of o)) (serve true r)
  /\ differs (serve true r) (serve false r).
Proof.
  split; [|apply read_only_differs]. apply (serve_routed (asks _)); [exact I..| | |].
  - unfold exact_routes. repeat (apply Forall_cons; split; [cbn [fst snd]; intros Hp|]); [..|constructor];
      unfold_handlers; walk; cbn [access_of read_only_may]; auto; apply reads_may; unfold reads_only; auto with asks.
  - unfold_handlers; walk; cbn [access_of read_only_may]; auto.
  - unfold_handlers; walk; cbn [access_of read_only_may]; auto.
Qed.

(** ** Failures *)

(** The replies of the handlers: a value with status 200, or an error. *)
Inductive proper : reply -> Prop :=
| proper_value v : proper (writeJSON 200 v)
| proper_text t : proper (Reply 200 (Plain t))
| proper_error st msg : st ∈ [400; 403; 404; 405; 409; 500]%N -> proper (writeError st msg).

Lemma committed_proper err : proper (committed err).
Proof. destruct err; [by apply proper_error, list_elem_of_In; simpl; auto 9|constructor]. Qed.

Hint Resolve committed_proper proper_value proper_text : ends.
Hint Extern 1 (proper (writeError _ _)) => by apply proper_error, list_elem_of_In; simpl; auto 9 : ends.
Hint Extern 1 (proper (writeJSON 200 _)) => apply proper_value : ends.
Hint Extern 1 (proper _) => progress unfold not_allowed, read_only_error, studio_read_only : ends.

(** The replies the server gives before a handler runs. *)
Definition unhandled : list reply :=
  [Reply 400 (Plain (js "400 Bad Request")); Reply 200 NoBody; Redirect; Asset;
   Reply 404 (Plain (js "404 page not found" ++ [10%N]))].

(** Every handler that is reached replies properly. *)
Lemma serve_proper ro r : ends (fun rep => rep ∈ unhandled \/ proper rep) (serve ro r).
Proof.
  apply (serve_all (ends _)); [left; apply list_elem_of_In; simpl; auto 9..| | |].
  all: each_handler; walk; right; auto with ends.
Qed.

Lemma ends_exec {D} `{Database D} {R} Q (m : io R) (w : world D) : ends Q m -> Q (exec w m).2.
Proof.
  revert w. induction m as [r|A o k IH]; intros w Hm; [done|]. simpl. destruct (exec_op w o) as [w' a]. apply IH, Hm.
Qed.

Lemma received_error st msg res : received (writeError st msg) res ->
  res_status res = st /\ parse (res_text res) = Some (error_body (text_of msg)).
Proof. intros [Hs Ht]. by split. Qed.

(** A failure of a handler, as the client's caller catches it. *)
Lemma error_told `{Engine} st msg res :
  received (writeError st msg) res -> (res_ok (mk_response st [] []) = false) -> text_of msg <> [] ->
  settle (Responded res) = inl (mk_err (text_of msg)).
Proof.
  intros [Hst Ht]%received_error Hbad Hm. unfold settle. destruct res as [st' line text]. simpl in Hst, Ht. subst st'.
  change (res_ok (mk_response st line text)) with (res_ok (mk_response st [] [])). rewrite Hbad.
  unfold http_error. cbn [res_text]. rewrite Ht. by destruct (text_of msg).
Qed.

(** A failure of the server is told in its own words: whatever the request,
    the database and the answer, a reply of a handler is either a success or an
    error of a known status; and the client's caller catches an error with
    exactly the message the handler wrote. *)
Theorem failures_told `{Engine} {D} `{Database D} ro r (w : world D) :
  let rep := (exec w (serve ro r)).2 in
  rep ∈ unhandled \/
  forall res, received rep res ->
    res_status res = 200%N \/
    (res_status res ∈ [400; 403; 404; 405; 409; 500]%N /\
     exists msg, rep = writeError (res_status res) msg /\
       (text_of msg <> [] -> settle (Responded res) = inl (mk_err (text_of msg)))).
Proof.
  cbv zeta. destruct (ends_exec _ _ w (serve_proper ro r)) as [Hu|Hp]; [by left|]. right.
  destruct Hp as [v|t|st msg Hst]; intros res Hres; [left; apply Hres..|]. right.
  destruct (received_error st msg res Hres) as [<- _]. split; [done|]. exists msg. split; [done|]. intros Hm.
  apply (error_told (res_status res)); [done| |done].
  rewrite !elem_of_cons, elem_of_nil in Hst. destruct_or? Hst; by rewrite Hst.
Qed.

(** ** The event history *)

(** Requests are served at once: each program advances one operation at a time,
    in any order. The steps are labelled with the event they push. *)
Section Interleaving.
Context {D : Type} `{Database D} (ro : bool).

Record server := mk_server { sv_world : world D; sv_running : list (io reply) }.

Definition pushed {A} (o : op A) : list event := match o with Push e => [e] | _ => [] end.

Inductive server_step : server -> list event -> server -> Prop :=
| step_arrive w ms r : server_step (mk_server w ms) [] (mk_server w (ms ++ [serve ro r]))
| step_advance w ms i A (o : op A) k :
    ms !! i = Some (Ask o k) ->
    server_step (mk_server w ms) (pushed o) (mk_server (exec_op w o).1 (<[i := k (exec_op w o).2]> ms))
| step_reply w ms i rep : ms !! i = Some (Done rep) -> server_step (mk_server w ms) [] (mk_server w (delete i ms)).

Inductive server_run : server -> list event -> server -> Prop :=
| run_nil s : server_run s [] s
| run_step s es s1 es1 s2 : server_run s es s1 -> server_step s1 es1 s2 -> server_run s (es ++ es1) s2.

Lemma record_newest e es : record_event e (take 50 es) = take 50 (e :: es).
Proof using Type.
  unfold record_event. cbn [length]. rewrite length_take. destruct (Nat.ltb_spec 50 (S (50 `min` length es))).
  - by rewrite (firstn_cons 49 e (take 50 es)), take_take.
  - rewrite (firstn_cons 49 e es). f_equal. rewrite !take_ge; [done|lia|lia].
Qed.

Lemma exec_op_history {A} (w : world D) (o : op A) :
  w_history (exec_op w o).1 = match pushed o with [e] => record_event e (w_history w) | _ => w_history w end.
Proof using Type. destruct o as [A d|e|]; simpl; [by destruct (perform _ _ _)|done|done]. Qed.

(** What the handlers push: events with a topic, unless the server is read-only. *)
Definition may_push {A} (o : op A) : Prop := forall e, e ∈ pushed o -> ro = false /\ e_Topic e <> [].

Lemma db_pushes {A} (d : dbop A) : may_push (DB d).
Proof using Type. by intros e Hin%not_elem_of_nil. Qed.

Lemma reads_push {R} (m : io R) : reads_only m -> asks (fun A o => may_push o) m.
Proof using Type. apply asks_mono. intros A [B d|e|] Ho; [apply db_pushes|done|by intros e Hin%not_elem_of_nil]. Qed.

Hint Extern 1 (asks _ _) => apply reads_push; unfold reads_only; auto with asks : pushes.
Hint Resolve db_pushes : pushes.

Lemma publish_pushes b : asks (fun A o => may_push o) (handlePubSubPublish ro b).
Proof using Type.
  unfold handlePubSubPublish, decoding. destruct ro eqn:Ero; [done|]. destruct (Decode _ b) as [req ok].
  destruct ok; [|done]. unfold publish. case_bool_decide as Ht; [done|]. split; [apply db_pushes|]. intros [[]|count]; try done.
  do 2 (split; [apply db_pushes|]; intros). split; [|done]. by intros e ->%list_elem_of_singleton.
Qed.

Lemma serve_pushes r : asks (fun A o => may_push o) (serve ro r).
Proof using Type.
  apply (serve_all (asks _)); [exact I..| | |].
  - unfold exact_routes.
    repeat (apply Forall_cons; split;
      [cbn [snd]; first [apply publish_pushes | unfold_handlers; walk; auto with pushes]|]); [|constructor].
    by intros e Hin%not_elem_of_nil.
  - unfold_handlers. walk; auto with pushes.
  - unfold_handlers. walk; auto with pushes.
Qed.

(** C33: however requests interleave, the history holds exactly the last fifty
    published events, newest first; each has a topic, and a read-only server
    publishes none. *)
Theorem history_last_fifty db s es :
  server_run (mk_server (mk_world db []) []) es s ->
  w_history (sv_world s) = take 50 (reverse es) /\ Forall (fun e => ro = false /\ e_Topic e <> []) es.
Proof using Type.
  intros Hrun. enough (w_history (sv_world s) = take 50 (reverse es) /\ Forall (fun e => ro = false /\ e_Topic e <> []) es
    /\ Forall (asks (fun A o => may_push o)) (sv_running s)) as (? & ? & _) by done.
  remember (mk_server (mk_world db []) []) as s0 eqn:E0. revert E0.
  induction Hrun as [s0|s0 es s1 es1 s2 _ IH Hstep]; intros ->; [by repeat constructor|].
  destruct (IH eq_refl) as (Hh & Hes & Hms). clear IH.
  destruct Hstep as [w ms r|w ms i A o k Hi|w ms i rep Hi]; rewrite ?app_nil_r; cbn [sv_world sv_running] in *.
  - split_and!; [done|done|]. apply Forall_app. split; [done|]. apply Forall_singleton, serve_pushes.
  - destruct (Forall_lookup_1 _ _ _ _ Hms Hi) as [Ho Hk]. split_and!.
    + rewrite exec_op_history, Hh. destruct o as [B d|e|]; simpl pushed; rewrite ?app_nil_r; [done| |done].
      by rewrite reverse_app, record_newest.
    + apply Forall_app. split; [done|]. by apply Forall_forall.
    + apply Forall_insert; [done|]. apply Hk.
  - split_and!; [done|done|]. by apply Forall_delete.
Qed.
(** A request served on its own is one of the interleavings. *)
Lemma alone_runs s0 es0 w m : server_run s0 es0 (mk_server w [m]) ->
  exists es, server_run s0 es (mk_server (exec w m).1 [Done (exec w m).2]).
Proof using Type.
  revert es0 w. induction m as [rep|A o k IH]; intros es0 w Hrun; [by exists es0|].
  cbn [exec]. destruct (exec_op w o) as [w' a] eqn:E. eapply IH. eapply run_step; [exact Hrun|].
  pose proof (step_advance w [Ask o k] 0 A o k eq_refl) as Hs. rewrite E in Hs. exact Hs.
Qed.

End Interleaving.

Module Examples.

#[local] Existing Instance Shelf.shelf_database.

Definition publishing : http_request :=
  mk_request (js "/api/pubsub/publish") (js "POST") [] (Some (stringify (VObj [(js "topic", VStr (js "news")); (js "payload", VStr (js "hi"))]))).

(** One publication on an empty database: one event in the history. *)
Lemma history_last_fifty_witness :
  exists s es, server_run false (mk_server Shelf.empty []) es s
    /\ w_history (sv_world s) = take 50 (reverse es) /\ length (w_history (sv_world s)) = 1%nat
    /\ Forall (fun e => false = false /\ e_Topic e <> []) es.
Proof.
  destruct (alone_runs false (mk_server Shelf.empty []) [] Shelf.empty (serve false publishing)) as [es Hrun].
  { exact (run_step false _ [] _ [] _ (run_nil false _) (step_arrive false Shelf.empty [] publishing)). }
  eexists _, es. split; [exact Hrun|]. destruct (history_last_fifty false _ _ es Hrun) as [Hh Hes].
  split; [exact Hh|]. split; [vm_compute; reflexivity|exact Hes].
Defined.

End Examples.
