(* ===== verification/Wire.v ===== *)
(** The client and the server together: every call of [api.ts] against
    [serve]. A call that is sent runs exactly the program of the handler the
    client meant, on the names, keys and values the caller gave, whatever
    characters they hold; and what was stored is what is read back. *)

From S2P Require Import Prelude JsString JsNumber JsDate Json Api Types Routes Go Server ServerSafety.

Open Scope N_scope.

(** ** Addresses *)

Lemma unescape_app plus a b r : unescape plus a = Some b -> unescape plus (a ++ r) = app b <$> unescape plus r.
Proof.
  revert b. induction a as [a IH] using (induction_ltof1 _ (@length N)). unfold ltof in IH. intros b Hb.
  destruct a as [|c t]; [injection Hb as <-; simpl; by destruct (unescape plus r)|]. simpl in Hb |- *.
  destruct (c =? 37).
  - destruct t as [|h [|l t]]; try done. cbn [app]. destruct (unhex h) as [x|]; [|done]. destruct (unhex l) as [y|]; [|done].
    simpl in *. destruct (unescape plus t) as [u|] eqn:E; [|done]. injection Hb as <-.
    rewrite (IH t) with (b := u) by (done || (simpl; lia)). by destruct (unescape plus r).
  - destruct (unescape plus t) as [u|] eqn:E; [|done]. injection Hb as <-.
    rewrite (IH t) with (b := u) by (done || (simpl; lia)). by destruct (unescape plus r).
Qed.

(** An encoded component has no separator, whatever its units. *)
Definition unseparated (c : N) : Prop := c <> 47 /\ c <> 63.

Lemma hex_digit_unseparated d : unseparated (hex_digit d).
Proof. unfold unseparated, hex_digit. destruct (N.ltb_spec d 10); lia. Qed.

Lemma encode_unseparated s e : encodeURIComponent s = Some e -> Forall unseparated e.
Proof.
  unfold encodeURIComponent. destruct (code_points s) as [cps|]; [|done]. intros [= <-]. unfold compose.
  induction cps as [|cp cps IH]; [constructor|].
  change (Forall unseparated (encode_point cp ++ mjoin (encode_point <$> cps))). apply Forall_app. split; [|done].
  unfold encode_point. destruct (uri_unreserved cp) eqn:E.
  - apply unreserved_facts in E. repeat constructor; lia.
  - induction (utf8_of cp) as [|b bs IHb]; [constructor|].
    change (Forall unseparated (pct b ++ mjoin (pct <$> bs))). apply Forall_app. split; [|done].
    repeat constructor; try done; apply hex_digit_unseparated.
Qed.

(** A path the multiplexer serves as it is, and whose decoded segments are its
    segments. *)
Definition plain_path (url : jstr) : bool :=
  let raw := (cut 63 url).1 in
  match segments raw with
  | Some segs => mux_clean raw && forallb (fun s => bool_decide (47 ∉ s)) segs
  | None => false
  end.

Section Addressed.
Context (prefix : jstr) (segs : list jstr) `{!Prefix prefix segs}.
Variables (e b action query : jstr).
Hypothesis He : Forall unseparated e.
Hypothesis Hb : unescape false e = Some b.
Hypothesis Hslash : 47 ∉ b.
Hypothesis Haction : Forall literal action.
Hypothesis Hquery : query = [] \/ head query = Some 63.

Let path := prefix ++ e ++ 47 :: action.

Lemma addressed_cut : cut 63 (path ++ query) = (path, tail query).
Proof using He Haction Hquery Prefix0.
  assert (Forall (fun c => c <> 63) path) as Hp.
  { unfold path. apply Forall_app. split; [eapply Forall_impl; [exact prefix_literal | by intros ? []]|].
    apply Forall_app. split; [eapply Forall_impl; [exact He | by intros ? []]|].
    constructor; [done|]. eapply Forall_impl; [exact Haction | unfold literal; naive_solver]. }
  destruct query as [|c q]; [rewrite app_nil_r; by apply cut_none|].
  destruct Hquery as [|[= ->]]; [done|]. by apply cut_app.
Qed.

Lemma action_unescape : unescape false action = Some action.
Proof using Haction.
  rewrite <- (app_nil_r action) at 1. rewrite unescape_literal by (eapply Forall_impl; [exact Haction | by intros ? []]).
  simpl. by rewrite app_nil_r.
Qed.

Lemma path_segments : tail (split_on (N.eqb 47) path) = segs ++ [e; action].
Proof using He Haction Prefix0.
  unfold path. rewrite prefix_split. f_equal. rewrite split_on_app; [|clear Hquery|done].
  - f_equal. apply split_on_clean. eapply Forall_impl; [exact Haction|]. intros c (_ & _ & Hc). by apply N.eqb_neq.
  - eapply Forall_impl; [exact He|]. intros c [Hc _]. by apply N.eqb_neq.
Qed.

Lemma addressed_parts : parts prefix (path ++ query) = [b; action].
Proof using He Hb Hslash Haction Hquery Prefix0.
  unfold parts. rewrite addressed_cut. cbn [fst]. unfold path.
  rewrite unescape_literal by (eapply Forall_impl; [exact prefix_literal | by intros ? []]).
  rewrite (unescape_app false e b) by done. change (47 :: action) with ([47] ++ action).
  rewrite unescape_literal by by repeat constructor. rewrite action_unescape. simpl. rewrite trim_prefix_app.
  rewrite split_on_app; [|clear Hquery|done].
  - f_equal. apply split_on_clean. eapply Forall_impl; [exact Haction|]. intros c (_ & _ & Hc). by apply N.eqb_neq.
  - apply Forall_forall. intros c Hc. apply N.eqb_neq. intros Heq. by subst c.
Qed.
End Addressed.

(** ** Serving a call *)

(** A call that is sent, and the program the server runs for it. *)
Definition served `{Engine} (c : call) (m : bool -> io reply) : Prop :=
  exists r, c = inr r /\ forall ro, serve ro r = m ro.

(** The exact routes. *)
Lemma serve_exact ro r segs h path :
  segments (cut 63 (req_url r)).1 = Some segs -> req_method r <> js "OPTIONS" -> mux_clean (cut 63 (req_url r)).1 = true ->
  List.find (fun p => bool_decide (gs <$> p.1 = segs)) (exact_routes ro) = Some (path, h) -> serve ro r = h r.
Proof. intros Hs Hm Hc Hf. unfold serve. by rewrite Hs, Hc, bool_decide_false, Hf by done. Qed.

(** No exact route has four segments. *)
Lemma exact_routes_short ro a b c d :
  List.find (fun p => bool_decide (gs <$> p.1 = [a; b; c; d])) (exact_routes ro) = None.
Proof.
  assert (Forall (fun p => length p.1 <= 3)%nat (exact_routes ro)) as Hl by by repeat (constructor; [simpl; lia|]).
  induction Hl as [|p l Hp _ IH]; [done|]. cbn [List.find]. rewrite bool_decide_false; [done|].
  intros E. apply (f_equal length) in E. rewrite length_fmap in E. simpl in E. lia.
Qed.

Section Routed.
Variables (e b action query : jstr) (ro : bool) (r : http_request).
Hypothesis He : Forall unseparated e.
Hypothesis Hb : unescape false e = Some b.
Hypothesis Hslash : 47 ∉ b.
Hypothesis Hclean : clean_segment e = true.
Hypothesis Haction : Forall literal action.
Hypothesis Hac : clean_segment action = true.
Hypothesis Hquery : query = [] \/ head query = Some 63.
Hypothesis Hmethod : req_method r <> js "OPTIONS".

(** A named resource of a router is served by it. *)
Lemma serve_subtree prefix segs `{!Prefix prefix segs} name :
  req_url r = (prefix ++ e ++ 47 :: action) ++ query -> segs = [js "api"; name] ->
  forallb clean_segment segs = true -> unescape false name = Some name ->
  serve ro r = subtree ro [gs "api"; name; b; action] r.
Proof using All.
  intros Hurl Hsegs Hcs Hn. unfold serve.
  assert ((cut 63 (req_url r)).1 = prefix ++ e ++ 47 :: action) as ->.
  { rewrite Hurl. by rewrite (addressed_cut prefix segs). }
  unfold segments, mux_clean. rewrite (path_segments prefix segs) by done. subst segs.
  cbn [app mapM mbind option_bind fmap option_fmap option_map]. rewrite Hn, Hb, (action_unescape action) by done.
  change (unescape false (js "api")) with (Some (gs "api")). cbn [mbind option_bind mret option_ret].
  rewrite bool_decide_false by done. cbn [clean_segments]. cbn [forallb] in Hcs.
  apply andb_true_iff in Hcs as [H1 H2]. rewrite andb_true_r in H2. rewrite H1, H2, Hclean, Hac, orb_true_r. cbn [andb negb].
  by rewrite exact_routes_short.
Qed.

Lemma serve_kv : req_url r = (js "/api/kv/" ++ e ++ 47 :: action) ++ query -> serve ro r = handleKVRoute ro r.
Proof using All. intros Hurl. by rewrite (serve_subtree (js "/api/kv/") _ (js "kv")). Qed.

Lemma serve_doc : req_url r = (js "/api/doc/" ++ e ++ 47 :: action) ++ query -> serve ro r = handleDocRoute ro r.
Proof using All. intros Hurl. by rewrite (serve_subtree (js "/api/doc/") _ (js "doc")). Qed.
End Routed.

(** ** What a call delivers *)

(** The body of a POST is decoded as the object without its undefined members. *)
Lemma Decode_post {A} (f : val -> decoded A) ps :
  json_ok (VObj (defined ps)) = true -> Decode f (Some (stringify (VObj ps))) = f (VObj (defined ps)).
Proof. intros Hps. unfold Decode. cbn [mbind option_bind]. by rewrite parse_stringify_defined. Qed.

(** A name as it travels in a path. *)
Lemma named_facts s b : segment_name s b ->
  exists e, encodeURIComponent s = Some e /\ Forall unseparated e /\ unescape false e = Some b /\ (47 ∉ b)
    /\ clean_segment e = true.
Proof.
  intros (Hwf & Hb & Hc & H47). destruct (param_encodes s b) as [e He]; [done|]. exists e.
  split_and!; [done|by eapply encode_unseparated|by rewrite (encodeURIComponent_unescape false s e)| |by eapply encoded_clean].
  intros Hin. by apply (utf8_slash s b Hb) in Hin.
Qed.

(** A number written as the decimal text of a 64-bit integer. *)
Definition int_text (n : num) (z : Z) : Prop :=
  printable n = true /\ num_str n = Z_str z /\ (- 2 ^ 63 <= z < 2 ^ 63)%Z.

Lemma go_int_text n z : int_text n z -> go_int (VNum n) = (z, true).
Proof. intros (_ & Ht & Hz). unfold go_int. by rewrite Ht, parse_int_str. Qed.

Lemma go_str_text s b : utf8 s = Some b -> go_str (VStr s) = (b, true).
Proof. intros Hb. unfold go_str. by rewrite (go_string_utf8 s b). Qed.

Lemma wf_units s : wf_str s -> units_ok s = true.
Proof. intros H. apply forallb_Forall. eapply Forall_impl; [exact H|]. intros c Hc. by apply N.ltb_lt. Qed.

(** Serve a named resource: route it, then read its parts. *)
Ltac side :=
  first [done | by repeat constructor | by left | by right | rewrite <- ?app_assoc, ?app_nil_r; reflexivity].

Ltac serve_named lem router prefix e b act query :=
  let ro := fresh "ro" in
  eexists; split; [reflexivity|]; intros ro; rewrite (lem e b act query ro) by side; unfold router;
  match goal with |- context [parts ?p ?u] =>
    replace (parts p u) with [b; act] by
      (symmetry; etransitivity; [|apply (addressed_parts prefix _ e b act query); side];
       f_equal; rewrite <- ?app_assoc, ?app_nil_r; reflexivity)
  end.

(** A body with fixed member names has no loss when its values have none. *)
Lemma body_ok ps : obj_of ps = ps -> forallb (fun p => units_ok p.1 && json_ok p.2) ps = true -> json_ok (VObj ps) = true.
Proof. intros Ho Hp. cbn [json_ok]. by rewrite bool_decide_true, Hp by done. Qed.

Ltac body := rewrite Decode_post; [|apply body_ok; [reflexivity|simpl; rewrite ?wf_units by done; try done]].

(** The parameter of an address. *)
Lemma named_param prefix segs `{!Prefix prefix segs} s b e action name value v uv rest :
  segment_name s b -> encodeURIComponent s = Some e -> Forall literal action -> clean_segment action = true ->
  Forall (fun c => c <> 37 /\ c <> 43 /\ c <> 38 /\ c <> 61) name -> param_text value uv ->
  encodeURIComponent value = Some v -> rest = [] \/ head rest = Some 38 ->
  query_get name ((prefix ++ e ++ 47 :: action) ++ 63 :: name ++ 61 :: v ++ rest) = uv.
Proof.
  intros (Hwf & Hb & Hc & H47) He Ha Hac Hn [Hwv Huv] Hv Hr.
  by apply (query_address prefix segs s e b action) with (value := value).
Qed.

Ltac read_param prefix e act name v uv rest :=
  match goal with |- context [query_get ?n ?u] =>
    replace (query_get n u) with uv by
      (symmetry; etransitivity; [|eapply (named_param prefix _ _ _ e act name _ v uv rest); [eassumption|eassumption|side..|eassumption|eassumption|side]];
       f_equal; rewrite <- ?app_assoc, ?app_nil_r; reflexivity)
  end.

Section KeyValue.
Context `{Engine} (bucket key : jstr) (ub uk : bytes).
Hypothesis Hbucket : segment_name bucket ub.
Hypothesis Hkey : param_text key uk.

Lemma getKV_served : served (getKV bucket key) (fun _ => handleKVGet ub uk).
Proof using All.
  destruct (named_facts bucket ub Hbucket) as (e & He & Hs & Hu & H47 & Hc).
  destruct (param_encodes key uk Hkey) as [k Hk]. unfold getKV, with_component. rewrite He, Hk.
  serve_named serve_kv handleKVRoute (js "/api/kv/") e ub (js "get") (63 :: js "key=" ++ k).
  read_param (js "/api/kv/") e (js "get") (js "key") k uk (@nil N). reflexivity.
Qed.

Lemma scanBucket_served limit : served (scanBucket bucket key limit) (fun _ => handleKVScan ub uk).
Proof using All.
  destruct (named_facts bucket ub Hbucket) as (e & He & Hs & Hu & H47 & Hc).
  destruct (param_encodes key uk Hkey) as [k Hk]. unfold scanBucket, with_component. rewrite He, Hk.
  serve_named serve_kv handleKVRoute (js "/api/kv/") e ub (js "scan") (63 :: js "prefix=" ++ k ++ js "&limit=" ++ num_str limit).
  read_param (js "/api/kv/") e (js "scan") (js "prefix") k uk (js "&limit=" ++ num_str limit). reflexivity.
Qed.

Lemma deleteKV_served : served (deleteKV bucket key) (fun ro => guarded ro (handleKVDelete ub uk)).
Proof using All.
  destruct (named_facts bucket ub Hbucket) as (e & He & Hs & Hu & H47 & Hc).
  destruct (param_encodes key uk Hkey) as [k Hk]. unfold deleteKV, with_component. rewrite He, Hk.
  serve_named serve_kv handleKVRoute (js "/api/kv/") e ub (js "delete") (63 :: js "key=" ++ k).
  read_param (js "/api/kv/") e (js "delete") (js "key") k uk (@nil N). reflexivity.
Qed.

(** The optional time to live: absent, or a number of seconds. *)
Definition ttl_text (ttl : option num) (z : Z) : Prop :=
  match ttl with Some n => int_text n z | None => z = 0%Z end.

Lemma putKV_served value uv ttl z : param_text value uv -> ttl_text ttl z ->
  served (putKV bucket key value ttl) (fun ro => guarded ro (put ub (Build_put_req uk uv z))).
Proof using All.
  intros [Hwv Huv] Ht. destruct Hkey as [Hwk Huk].
  destruct (named_facts bucket ub Hbucket) as (e & He & Hs & Hu & H47 & Hc). unfold putKV, with_component. rewrite He.
  serve_named serve_kv handleKVRoute (js "/api/kv/") e ub (js "put") (@nil N).
  change (guarded ro (handleKVPut ub (Some (stringify (VObj [(js "key", VStr key); (js "value", VStr value);
    (js "ttl", match ttl with Some t => VNum t | None => VUndef end)])))) = guarded ro (put ub (Build_put_req uk uv z))).
  f_equal. unfold handleKVPut, decoding. destruct ttl as [n|].
  - body; [|by rewrite (proj1 Ht)].
    simpl in Ht. unfold go_struct, put_req_of, fld.
    change (get _ (js "key")) with (VStr key). change (get _ (js "value")) with (VStr value). change (get _ (js "ttl")) with (VNum n).
    by rewrite (go_str_text key uk), (go_str_text value uv), (go_int_text n z).
  - simpl in Ht. subst z. body.
    unfold go_struct, put_req_of, fld.
    change (get _ (js "key")) with (VStr key). change (get _ (js "value")) with (VStr value). change (get _ (js "ttl")) with VUndef.
    by rewrite (go_str_text key uk), (go_str_text value uv).
Qed.

Lemma incrementKV_served delta z : int_text delta z ->
  served (incrementKV bucket key delta) (fun ro => guarded ro (incr ub (Build_incr_req uk z))).
Proof using All.
  intros Hd. destruct Hkey as [Hwk Huk].
  destruct (named_facts bucket ub Hbucket) as (e & He & Hs & Hu & H47 & Hc). unfold incrementKV, with_component. rewrite He.
  serve_named serve_kv handleKVRoute (js "/api/kv/") e ub (js "incr") (@nil N).
  change (guarded ro (handleKVIncr ub (Some (stringify (VObj [(js "key", VStr key); (js "delta", VNum delta)]))))
    = guarded ro (incr ub (Build_incr_req uk z))).
  f_equal. unfold handleKVIncr.
  body; [|by rewrite (proj1 Hd)].
  unfold go_struct, incr_req_of, fld. change (get _ (js "key")) with (VStr key). change (get _ (js "delta")) with (VNum delta).
  by rewrite (go_str_text key uk), (go_int_text delta z).
Qed.
End KeyValue.

(** C31: the key-value calls of the client, served: for a bucket whose name is one
    clean segment of a path (no slash), a key and a value that are well-formed
    texts, no time to live or a whole number of seconds, and a step that is a
    64-bit integer, the server runs the operation of the call on that bucket, key
    and value, byte for byte. What it does beyond or short of the call is part of
    its operation: a scan stops at a hundred entries, whatever limit was asked for
    ([handleKVScan]), and a step of zero counts as one ([incr]). A read-only server
    refuses the put, the deletion and the increment. *)
Theorem kv_calls_served `{Engine} bucket key value limit ttl delta ub uk uv z d :
  segment_name bucket ub -> param_text key uk -> param_text value uv -> ttl_text ttl z -> int_text delta d ->
  served (scanBucket bucket key limit) (fun _ => handleKVScan ub uk) /\
  served (getKV bucket key) (fun _ => handleKVGet ub uk) /\
  served (putKV bucket key value ttl) (fun ro => guarded ro (put ub (Build_put_req uk uv z))) /\
  served (deleteKV bucket key) (fun ro => guarded ro (handleKVDelete ub uk)) /\
  served (incrementKV bucket key delta) (fun ro => guarded ro (incr ub (Build_incr_req uk d))).
Proof.
  intros Hb Hk Hv Ht Hd. split_and!; [by apply scanBucket_served|by apply getKV_served|by apply putKV_served
    |by apply deleteKV_served|by apply incrementKV_served].
Qed.

(** ** Documents *)

(** The strings of a value are well-formed texts. *)
Fixpoint texts_ok (v : val) : bool :=
  match v with
  | VStr s => bool_decide (is_Some (code_points s))
  | VArr vs => forallb texts_ok vs
  | VObj ps => forallb (fun p => bool_decide (is_Some (code_points p.1)) && texts_ok p.2) ps
  | _ => true
  end.

Lemma sanitize_ok s : units_ok s = true -> is_Some (code_points s) -> sanitize s = s.
Proof.
  intros Hu [cps Hc]. apply units_ok_wf in Hu. unfold sanitize. by rewrite (scalars_code_points s cps), (code_points_units s cps).
Qed.

(** Such a value is decoded as itself. *)
Lemma go_any_ok v : json_ok v = true -> texts_ok v = true -> go_any v = v.
Proof.
  induction v as [| |b|n|s|vs IH|ps IH] using val_ind; try done; simpl.
  - intros Hu Ht. to_prop. by rewrite sanitize_ok.
  - intros Hj Ht. f_equal. rewrite !forallb_Forall in *. induction IH as [|v vs Hv _ IHvs]; [done|].
    apply Forall_cons in Hj as [Hj1 Hj2], Ht as [Ht1 Ht2]. simpl. by rewrite Hv, IHvs.
  - rewrite andb_true_iff. intros [Ho Hj] Ht. to_prop. f_equal. rewrite <- Ho at 2. f_equal.
    rewrite !forallb_Forall in *. clear Ho. induction IH as [|[k v] ps Hv _ IHps]; [done|].
    apply Forall_cons in Hj as [Hj1 Hj2], Ht as [Ht1 Ht2]. simpl in *. to_prop. by rewrite Hv, IHps, sanitize_ok.
Qed.

(** A document without loss is received whole. *)
Lemma Decode_doc d : json_ok (VObj d) = true -> texts_ok (VObj d) = true ->
  Decode go_map (Some (stringify (VObj d))) = (Some d, true).
Proof.
  intros Hj Ht. unfold Decode. cbn [mbind option_bind]. rewrite parse_stringify by done. unfold go_map.
  by rewrite (go_any_ok (VObj d)).
Qed.

Section Documents.
Context `{Engine} (collection id : jstr) (uc ui : bytes).
Hypothesis Hcoll : segment_name collection uc.
Hypothesis Hid : param_text id ui.

Lemma queryDocuments_served q :
  served (queryDocuments collection q) (fun _ => handleDocQuery uc (Some (stringify (VObj q)))).
Proof using Hcoll.
  destruct (named_facts collection uc Hcoll) as (e & He & Hs & Hu & H47 & Hc). unfold queryDocuments, with_component. rewrite He.
  serve_named serve_doc handleDocRoute (js "/api/doc/") e uc (js "query") (@nil N). reflexivity.
Qed.

Lemma getDocument_served : served (getDocument collection id) (fun _ => handleDocGet uc ui).
Proof using All.
  destruct (named_facts collection uc Hcoll) as (e & He & Hs & Hu & H47 & Hc).
  destruct (param_encodes id ui Hid) as [k Hk]. unfold getDocument, with_component. rewrite He, Hk.
  serve_named serve_doc handleDocRoute (js "/api/doc/") e uc (js "get") (63 :: js "id=" ++ k).
  read_param (js "/api/doc/") e (js "get") (js "id") k ui (@nil N). reflexivity.
Qed.

Lemma deleteDocument_served : served (deleteDocument collection id) (fun ro => guarded ro (handleDocDelete uc ui)).
Proof using All.
  destruct (named_facts collection uc Hcoll) as (e & He & Hs & Hu & H47 & Hc).
  destruct (param_encodes id ui Hid) as [k Hk]. unfold deleteDocument, with_component. rewrite He, Hk.
  serve_named serve_doc handleDocRoute (js "/api/doc/") e uc (js "delete") (63 :: js "id=" ++ k).
  read_param (js "/api/doc/") e (js "delete") (js "id") k ui (@nil N). reflexivity.
Qed.

Variable d : jsobj.
Hypothesis Hjson : json_ok (VObj d) = true.
Hypothesis Htexts : texts_ok (VObj d) = true.

Lemma insertDocument_served : served (insertDocument collection (VObj d)) (fun ro => guarded ro (insert_doc uc (Some d))).
Proof using Hcoll Hjson Htexts.
  destruct (named_facts collection uc Hcoll) as (e & He & Hs & Hu & H47 & Hc). unfold insertDocument, with_component. rewrite He.
  serve_named serve_doc handleDocRoute (js "/api/doc/") e uc (js "insert") (@nil N).
  change (guarded ro (handleDocInsert uc (Some (stringify (VObj d)))) = guarded ro (insert_doc uc (Some d))).
  f_equal. unfold handleDocInsert. by rewrite Decode_doc.
Qed.

Lemma updateDocument_served : served (updateDocument collection id (VObj d)) (fun ro => guarded ro (replace_doc uc ui (Some d))).
Proof using All.
  destruct (named_facts collection uc Hcoll) as (e & He & Hs & Hu & H47 & Hc).
  destruct (param_encodes id ui Hid) as [k Hk]. unfold updateDocument, with_component. rewrite He, Hk.
  serve_named serve_doc handleDocRoute (js "/api/doc/") e uc (js "update") (63 :: js "id=" ++ k).
  read_param (js "/api/doc/") e (js "update") (js "id") k ui (@nil N).
  change (guarded ro (handleDocUpdate uc ui (Some (stringify (VObj d)))) = guarded ro (replace_doc uc ui (Some d))).
  f_equal. unfold handleDocUpdate. by rewrite Decode_doc.
Qed.
End Documents.

(** C32: the document calls, served: for a collection whose name is one clean
    segment of a path (no slash), an identifier that is a well-formed text and a
    document that prints without loss and has well-formed texts only, the
    collection, the identifier and the document arrive as they were given; the
    body of a query arrives as it was printed (what is decoded from it is in
    [console_query_run]); and a read-only server refuses the writes. *)
Theorem doc_calls_served `{Engine} collection id d q uc ui :
  segment_name collection uc -> param_text id ui -> json_ok (VObj d) = true -> texts_ok (VObj d) = true ->
  served (queryDocuments collection q) (fun _ => handleDocQuery uc (Some (stringify (VObj q)))) /\
  served (getDocument collection id) (fun _ => handleDocGet uc ui) /\
  served (insertDocument collection (VObj d)) (fun ro => guarded ro (insert_doc uc (Some d))) /\
  served (updateDocument collection id (VObj d)) (fun ro => guarded ro (replace_doc uc ui (Some d))) /\
  served (deleteDocument collection id) (fun ro => guarded ro (handleDocDelete uc ui)).
Proof.
  intros Hc Hi Hj Ht. split_and!; [by apply queryDocuments_served|by apply getDocument_served|by apply insertDocument_served
    |by apply updateDocument_served|by apply deleteDocument_served].
Qed.

(** ** The calls with a fixed path *)

(** Route a request whose path is closed, and leave what its handler does. *)
Ltac serve_fixed :=
  eexists; split; [reflexivity|]; intros ro; etransitivity; [eapply serve_exact; [reflexivity|done|reflexivity|reflexivity]|];
  cbv beta.

Lemma getPubSubHistory_served `{Engine} : served getPubSubHistory (fun _ => handlePubSubHistory).
Proof. serve_fixed; reflexivity. Qed.

(** Every other call that reads reaches its handler. *)
Theorem reading_calls_served `{Engine} name u :
  param_text name u ->
  served getStats (fun _ => handleStats) /\
  served getCatalog (fun _ => handleCatalog) /\
  served listQueues (fun _ => handleQueueList) /\
  served (getQueueStats name) (fun _ => handleQueueStats u) /\
  served checkIntegrity (fun _ => handleIntegrityCheck) /\
  served getPubSubHistory (fun _ => handlePubSubHistory).
Proof.
  intros Hn. split_and!; try (serve_fixed; reflexivity).
  destruct (param_encodes name u Hn) as [e He]. destruct Hn as [Hwf Hu]. unfold getQueueStats, with_component. rewrite He.
  serve_fixed. f_equal. cbn [req_url request].
  rewrite <- (query_first (js "/api/queue/stats") (js "name") name e u []) by side. by rewrite app_nil_r.
Qed.

(** An optional text: absent, or given. *)
Definition opt_text (s : option jstr) (b : bytes) : Prop :=
  match s with Some s => param_text s b | None => b = [] end.

(** Read a member of a decoded body. *)
Ltac member k v := change (get _ (js k)) with v.

Section Queues.
Context `{Engine} (queue : jstr) (uq : bytes).
Hypothesis Hqueue : param_text queue uq.

Lemma enqueueTask_served payload dedup priority delay up ud p m :
  param_text payload up -> opt_text dedup ud -> int_text priority p -> int_text delay m ->
  served (enqueueTask queue payload dedup priority delay)
    (fun ro => if ro then Done studio_read_only else enqueue (Build_enqueue_req uq up ud p m)).
Proof using Hqueue.
  intros [Hwp Hup] Hd Hp Hm. destruct Hqueue as [Hwq Huq]. serve_fixed. cbn [req_body request].
  unfold handleQueueEnqueue, decoding. destruct ro; [done|]. cbn [opt_body POST].
  destruct dedup as [d|]; [destruct Hd as [Hwd Hud] | simpl in Hd; subst ud]; body;
    try (by rewrite (proj1 Hp), (proj1 Hm)); unfold go_struct, enqueue_req_of, fld;
    member "queue" (VStr queue); member "payload" (VStr payload); member "priority" (VNum priority);
    member "delay_ms" (VNum delay);
    rewrite (go_str_text queue uq), (go_str_text payload up), (go_int_text priority p), (go_int_text delay m) by done.
  - member "dedup_id" (VStr d). by rewrite (go_str_text d ud).
  - by member "dedup_id" VUndef.
Qed.

Lemma dequeueTask_served ack : served (dequeueTask queue ack) (fun _ => dequeue (Build_dequeue_req uq ack)).
Proof using Hqueue.
  destruct Hqueue as [Hwq Huq]. serve_fixed. cbn [req_body request opt_body POST]. unfold handleQueueDequeue, decoding. body.
  unfold go_struct, dequeue_req_of, fld. member "queue" (VStr queue). member "auto_ack" (VBool ack).
  by rewrite (go_str_text queue uq).
Qed.
End Queues.

Lemma publishPubSub_served `{Engine} topic payload dedup ut up ud :
  param_text topic ut -> param_text payload up -> opt_text dedup ud ->
  served (publishPubSub topic payload dedup)
    (fun ro => if ro then Done studio_read_only else publish (Build_publish_req ut up ud)).
Proof.
  intros [Hwt Hut] [Hwp Hup] Hd. serve_fixed. cbn [req_body request opt_body POST].
  unfold handlePubSubPublish, decoding. destruct ro; [done|].
  destruct dedup as [d|]; [destruct Hd as [Hwd Hud] | simpl in Hd; subst ud]; body;
    unfold go_struct, publish_req_of, fld; member "topic" (VStr topic); member "payload" (VStr payload);
    rewrite (go_str_text topic ut), (go_str_text payload up) by done.
  - member "dedup_id" (VStr d). by rewrite (go_str_text d ud).
  - by member "dedup_id" VUndef.
Qed.

(** The queue calls arrive whole: the queue's name, the payload and the
    deduplication key byte for byte, the delay in milliseconds as nanoseconds of
    a 64-bit duration; a priority from 1 to 255 is kept, a larger one is taken
    modulo 256, and one below 1 is replaced by the default of 128. A task is
    fetched for ten seconds, within two, and acknowledged at once when asked. *)
Theorem queue_calls_served `{Engine} queue payload dedup priority delay ack uq up ud p m :
  param_text queue uq -> param_text payload up -> opt_text dedup ud -> int_text priority p -> int_text delay m ->
  served (enqueueTask queue payload dedup priority delay)
    (fun ro => if ro then Done studio_read_only else enqueue (Build_enqueue_req uq up ud p m)) /\
  served (dequeueTask queue ack) (fun _ => dequeue (Build_dequeue_req uq ack)) /\
  let o := enqueue_options (Build_enqueue_req uq up ud p m) in
  qo_dedup o = ud /\ (0 <= qo_priority o < 256)%Z /\ (1 <= p <= 255 -> qo_priority o = p)%Z /\
  (p <= 0 -> qo_priority o = 128)%Z /\ (0 <= m < 2 ^ 63 / 10 ^ 6 -> qo_delay o = m * 10 ^ 6)%Z.
Proof.
  intros Hq Hp Hd Hr Hm. split; [by apply enqueueTask_served|]. split; [by apply dequeueTask_served|].
  unfold enqueue_options, uint8. cbn. split_and!.
  - case_bool_decide; [by subst|done].
  - destruct (0 <? p)%Z; [by apply Z.mod_pos_bound|done].
  - destruct (0 <? p)%Z; [apply Z.mod_pos_bound; done|done].
  - intros Hb. rewrite (proj2 (Z.ltb_lt 0 p)) by lia. apply Z.mod_small. lia.
  - intros Hb. by rewrite (proj2 (Z.ltb_ge 0 p)).
  - intros Hb. change (2 ^ 63 / 10 ^ 6)%Z with 9223372036854%Z in Hb. destruct (Z.ltb_spec 0 m); [|simpl; lia].
    apply int64_small. lia.
Qed.

(** ** Times *)

Lemma ascii_text s : Forall (fun c => c < 128) s -> param_text s s.
Proof.
  intros Hs. split; [eapply Forall_impl; [exact Hs | simpl; lia]|].
  assert (code_points s = Some s) as Hc.
  { induction Hs as [|c s Hc _ IH]; [done|]. cbn [code_points].
    assert (is_low c = false) as -> by (unfold is_low; by decide_N).
    assert (is_high c = false) as -> by (unfold is_high; by decide_N). by rewrite IH. }
  unfold utf8. rewrite Hc. simpl. f_equal. clear Hc. induction Hs as [|c s Hc _ IH]; [done|].
  change (utf8_of c ++ mjoin (utf8_of <$> s) = c :: s). rewrite IH. unfold utf8_of. by decide_N.
Qed.

(** An instant of a four-digit year. *)
Definition dated (t : Z) : Prop := (Z.abs t <= max_time /\ 0 <= year_of_day (t / ms_per_day) <= 9999)%Z.

Lemma pad2_ascii n : (0 <= n < 100)%Z -> Forall (fun c => c < 128) (pad2 n).
Proof.
  intros Hn. unfold pad2, digit. repeat constructor; (assert (0 <= n / 10 < 10 /\ 0 <= n mod 10 < 10)%Z
    by (Z.to_euclidean_division_equations; lia)); lia.
Qed.

(** The text of an instant, which the server reads as the instant in nanoseconds. *)
Lemma iso_delivered t : dated t ->
  exists s, toISOString (Some t) = Some s /\ param_text s s /\ s <> []
    /\ forall strict, parse_rfc3339 strict s = Some (t * 10 ^ 6)%Z.
Proof.
  intros [Ht Hy]. destruct (parse_iso false t Ht Hy) as (s & Hs & Hp). exists s. split; [done|].
  assert (Forall (fun c => c < 128) s) as Ha.
  { unfold toISOString in Hs. cbn [mbind option_bind] in Hs. rewrite (proj2 (Z.leb_le _ _) Ht) in Hs.
    pose proof (civil_spec (t / ms_per_day)) as Hc.
    assert ((civil (t / ms_per_day)).1.1 = year_of_day (t / ms_per_day)) as Ey by done.
    destruct (civil (t / ms_per_day)) as [[y m] d]. destruct Hc as (Hm & Hd & _). simpl in Ey. rewrite <- Ey in Hy.
    apply (inj Some) in Hs. rewrite <- Hs. assert (0 <= t mod ms_per_day < ms_per_day)%Z as Hms by (apply Z.mod_pos_bound; done).
    unfold ms_per_day in *. pose proof (days_in_month_31 y m Hm). unfold year_text.
    rewrite (proj2 (Z.leb_le 0 y)), (proj2 (Z.leb_le y 9999)) by lia. cbn [andb]. unfold pad3, pad4.
    change (js "-") with [45]. change (js "T") with [84]. change (js ":") with [58]. change (js ".") with [46].
    change (js "Z") with [90]. rewrite !Forall_app.
    split_and!; try (apply pad2_ascii; Z.to_euclidean_division_equations; lia); try by repeat constructor.
    apply Forall_cons. split; [|apply pad2_ascii; Z.to_euclidean_division_equations; lia].
    unfold digit. assert (0 <= t mod 86400000 mod 1000 / 100 < 10)%Z by (Z.to_euclidean_division_equations; lia). lia. }
  split; [by apply ascii_text|]. split; [by intros ->|]. intros strict.
  destruct (parse_iso strict t Ht Hy) as (s' & Hs' & Hp'). by rewrite Hs in Hs'; injection Hs' as <-.
Qed.

Section TimeSeries.
Context `{Engine} (series : jstr) (us : bytes) (t : Z).
Hypothesis Hseries : param_text series us.
Hypothesis Hdated : dated t.

Lemma pruneTimeSeries_served :
  exists before, toISOString (Some t) = Some before /\
  served (pruneTimeSeries series before) (fun ro => guarded ro
    (if blank us then Done (writeError 400 (gs "Series name is required"))
     else if IsZero (t * 10 ^ 6) then Done (writeError 400 (gs "A valid RFC3339 retention cutoff is required"))
     else
       let? removed := TsPruneBefore us (t * 10 ^ 6) in
       match removed with
       | inl e => Done (writeError 500 e)
       | inr n => Done (writeJSON 200 (obj [("removed", vint n)]))
       end)).
Proof using All.
  destruct (iso_delivered t Hdated) as (s & Hs & [Hws Hus] & Hne & Hp). exists s. split; [done|].
  destruct Hseries as [Hwf Hu]. serve_fixed. unfold handleTimeSeriesPrune. rewrite bool_decide_true by done. cbn [negb].
  f_equal. unfold decoding. cbn [req_body request opt_body POST]. body.
  unfold go_struct, ts_prune_req_of, fld. member "series" (VStr series). member "before" (VStr s).
  rewrite (go_str_text series us), (go_str_text s s) by done. cbn [fst snd andb]. unfold ts_prune. cbn [tp_Series tp_Before].
  unfold parseStudioTime. by rewrite bool_decide_false, Hp by done.
Qed.
(** Tags, given as texts. *)
Variable tags : list (jstr * jstr).
Definition tag_members (l : list (jstr * jstr)) : jsobj := prod_map id VStr <$> l.
Hypothesis Htags : json_ok (VObj (tag_members tags)) = true.
Hypothesis Htags_text : texts_ok (VObj (tag_members tags)) = true.

Lemma go_tags : go_str_map (VObj (tag_members tags)) = (tags, true).
Proof using Htags Htags_text.
  clear Hdated Hseries. unfold go_str_map. cbn [json_ok texts_ok] in *. apply andb_true_iff in Htags as [_ Hj].
  rewrite !forallb_Forall in *. unfold tag_members in *.
  assert (forallb (fun p => (go_str p.2).2) (prod_map id VStr <$> tags) = true) as ->.
  { apply forallb_Forall, Forall_fmap, Forall_forall. by intros []. }
  f_equal. induction tags as [|[k v] l IH]; [done|]. apply Forall_cons in Hj as [Hj1 Hj2], Htags_text as [Ht1 Ht2].
  simpl in *. to_prop. rewrite (sanitize_ok k) by done. f_equal; [|by apply IH]. f_equal.
  rewrite text_go_string by by apply units_ok_wf. by apply sanitize_ok.
Qed.

Lemma writeTimeSeries_served fields :
  json_ok (VObj fields) = true -> texts_ok (VObj fields) = true ->
  exists text, toISOString (Some t) = Some text /\
  served (writeTimeSeries series [(js "Timestamp", VStr text); (js "Tags", VObj (tag_members tags)); (js "Fields", VObj fields)])
    (fun ro => guarded ro (ts_write (Build_ts_write_req us (Build_ts_point (t * 10 ^ 6) tags fields)))).
Proof using All.
  intros Hf Hft. destruct (iso_delivered t Hdated) as (s & Hs & [Hws Hus] & Hne & Hp). exists s. split; [done|].
  destruct Hseries as [Hwf Hu]. serve_fixed. unfold handleTimeSeriesWrite. rewrite bool_decide_true by done. cbn [negb].
  f_equal. unfold decoding. cbn [req_body request opt_body POST].
  rewrite Decode_post; [|apply body_ok; [reflexivity|]].
  - unfold go_struct, ts_write_req_of, fld. member "series" (VStr series).
    match goal with |- context [get ?o (js "point")] => change (get o (js "point")) with
      (VObj [(js "Timestamp", VStr s); (js "Tags", VObj (tag_members tags)); (js "Fields", VObj fields)]) end.
    unfold go_struct, point_of, fld. member "Timestamp" (VStr s). member "Tags" (VObj (tag_members tags)). member "Fields" (VObj fields).
    rewrite (go_str_text series us), go_tags by done. unfold go_time, go_map. rewrite (go_string_utf8 s s), Hp by done.
    by rewrite (go_any_ok (VObj fields)).
  - set (point := VObj [(js "Timestamp", VStr s); (js "Tags", VObj (tag_members tags)); (js "Fields", VObj fields)]).
    change (units_ok (js "series") && units_ok series && (units_ok (js "point") && json_ok point && true) = true).
    rewrite (wf_units series) by done. unfold point. rewrite body_ok; [done|reflexivity|].
    cbn [forallb fst snd]. rewrite Htags, Hf. cbn [json_ok]. by rewrite (wf_units s).
Qed.

Lemma queryTimeSeries_served limit z desc stop :
  int_text limit z -> dated stop ->
  exists a b, toISOString (Some t) = Some a /\ toISOString (Some stop) = Some b /\
  served (queryTimeSeries [(js "series", VStr series); (js "start", VStr a); (js "end", VStr b);
                           (js "tags", VObj (tag_members tags)); (js "limit", VNum limit); (js "descending", VBool desc)])
    (fun _ => if blank us then Done (writeError 400 (gs "Series name is required"))
      else
        let? points := TsAll us (Build_time_query (t * 10 ^ 6) (stop * 10 ^ 6) z tags desc) in
        match points with
        | inl e => Done (writeError 500 e)
        | inr points => Done (writeJSON 200 (obj [("count", vint (Z.of_nat (length points))); ("points", VArr (point_json <$> points))]))
        end).
Proof using All.
  intros Hl Hstop. destruct (iso_delivered t Hdated) as (a & Ha & [Hwa Hua] & Hna & Hpa).
  destruct (iso_delivered stop Hstop) as (b & Hb & [Hwb Hub] & Hnb & Hpb). exists a, b. do 2 (split; [done|]).
  destruct Hseries as [Hwf Hu]. serve_fixed. unfold handleTimeSeriesQuery. rewrite bool_decide_true by done. cbn [negb].
  unfold decoding. cbn [req_body request opt_body POST].
  rewrite Decode_post; [|apply body_ok; [reflexivity|]].
  - unfold go_struct, ts_query_req_of, fld. member "series" (VStr series). member "start" (VStr a). member "end" (VStr b).
    member "tags" (VObj (tag_members tags)). member "limit" (VNum limit). member "descending" (VBool desc).
    rewrite (go_str_text series us), (go_str_text a a), (go_str_text b b), go_tags, (go_int_text limit z) by done.
    cbn [fst snd andb]. unfold ts_query, parseStudioTime. cbn [tq_Series tq_Start tq_End tq_Tags tq_Limit tq_Descending].
    by rewrite !bool_decide_false, Hpa, Hpb by done.
  - change (units_ok (js "series") && units_ok series && (units_ok (js "start") && units_ok a && (units_ok (js "end") && units_ok b
      && (units_ok (js "tags") && json_ok (VObj (tag_members tags)) && (units_ok (js "limit") && printable limit && true)))) = true).
    by rewrite Htags, (wf_units series), (wf_units a), (wf_units b), (proj1 Hl).
Qed.
End TimeSeries.

(** Instants arrive exactly: for every series and every instant with a
    four-digit year, a query, a written point and a retention cutoff reach the
    database at that instant, to the nanosecond, with the tags and fields that
    were given. *)
Theorem times_served `{Engine} series us t stop tags fields limit z desc :
  param_text series us -> dated t -> dated stop -> int_text limit z ->
  json_ok (VObj (tag_members tags)) = true -> texts_ok (VObj (tag_members tags)) = true ->
  json_ok (VObj fields) = true -> texts_ok (VObj fields) = true -> blank us = false -> IsZero (t * 10 ^ 6) = false ->
  exists a b, toISOString (Some t) = Some a /\ toISOString (Some stop) = Some b /\
  served (pruneTimeSeries series a) (fun ro => guarded ro
    (let? removed := TsPruneBefore us (t * 10 ^ 6) in
     match removed with
     | inl e => Done (writeError 500 e)
     | inr n => Done (writeJSON 200 (obj [("removed", vint n)]))
     end)) /\
  served (writeTimeSeries series [(js "Timestamp", VStr a); (js "Tags", VObj (tag_members tags)); (js "Fields", VObj fields)])
    (fun ro => guarded ro
      (let? id := TsWrite us (Build_ts_point (t * 10 ^ 6) tags fields) in
       match id with inl e => Done (writeError 500 e) | inr id => Done (writeJSON 200 (obj [("id", vstr id)])) end)) /\
  served (queryTimeSeries [(js "series", VStr series); (js "start", VStr a); (js "end", VStr b);
                           (js "tags", VObj (tag_members tags)); (js "limit", VNum limit); (js "descending", VBool desc)])
    (fun _ => let? points := TsAll us (Build_time_query (t * 10 ^ 6) (stop * 10 ^ 6) z tags desc) in
      match points with
      | inl e => Done (writeError 500 e)
      | inr points => Done (writeJSON 200 (obj [("count", vint (Z.of_nat (length points))); ("points", VArr (point_json <$> points))]))
      end).
Proof.
  intros Hs Ht Hstop Hl Hg Hgt Hf Hft Hblank Hzero.
  destruct (pruneTimeSeries_served series us t Hs Ht) as (a & Ha & Hprune).
  destruct (writeTimeSeries_served series us t Hs Ht tags Hg Hgt fields Hf Hft) as (a' & Ha' & Hwrite).
  destruct (queryTimeSeries_served series us t Hs Ht tags Hg Hgt limit z desc stop Hl Hstop) as (a'' & b & Ha'' & Hb & Hquery).
  rewrite Ha in Ha', Ha''. injection Ha' as <-. injection Ha'' as <-. exists a, b. do 2 (split; [done|]).
  unfold ts_write in Hwrite. cbn [tw_Series tw_Point] in Hwrite. rewrite Hblank in Hprune, Hwrite, Hquery. by rewrite Hzero in Hprune.
Qed.

(** ** Round trips *)

(** What the studio relies on a key-value store for: the value last put at a
    key is there, and opening a bucket or reading changes no value. *)
Class KeyValueStore (D : Type) `{Database D} := {
  kv_lookup : D -> bytes -> bytes -> option bytes;
  kv_put db b k v ttl : (perform _ db (Put b k v ttl)).2 = None -> kv_lookup (perform _ db (Put b k v ttl)).1 b k = Some v;
  kv_open db b : kv_lookup (perform _ db (OpenBucket b)).1 = kv_lookup db;
  kv_get db b k : (perform _ db (Get b k)).2 = kv_lookup db b k;
}.

(** What the caller of a call may get, when the server serves it: the world
    afterwards, and the settlement of any response the reply is received as. *)
Inductive calls_back `{Engine} {D} `{Database D} (ro : bool) (w : world D) (c : call) : world D -> jserr + val -> Prop :=
| calls_thrown e : c = inl e -> calls_back ro w c w (inl e)
| calls_settled r res : c = inr r -> received (exec w (serve ro r)).2 res ->
    calls_back ro w c (exec w (serve ro r)).1 (settle (Responded res)).

(** A call that is served, by the program it runs. *)
Lemma calls_back_served `{Engine} {D} `{Database D} ro (w w' : world D) c m v :
  served c m -> calls_back ro w c w' v ->
  w' = (exec w (m ro)).1 /\ exists res, received (exec w (m ro)).2 res /\ v = settle (Responded res).
Proof.
  intros (r & -> & Hr) [e|r' res [= <-] Hres]; [done|]. rewrite Hr in *. split; [done|]. by exists res.
Qed.

(** The settlement of a value, and of an error. *)
Lemma settle_encodable `{Engine} v res : encodable v = true -> received (writeJSON 200 v) res -> settle (Responded res) = inr v.
Proof.
  intros He [Hst Ht]. rewrite He in Ht. unfold settle. destruct res as [st line text]. simpl in *. subst st.
  change (res_ok _) with true. cbv iota. by rewrite Ht.
Qed.

Lemma settle_value `{Engine} v res x : received (writeJSON 200 v) res -> settle (Responded res) = inr x -> x = v /\ encodable v = true.
Proof.
  destruct (encodable v) eqn:He; intros Hr; [rewrite (settle_encodable v res He Hr); by intros [= <-]|].
  destruct Hr as [Hst Ht]. rewrite He in Ht. unfold settle. destruct res as [st line text]. simpl in *. subst st text.
  by change (res_ok _) with true.
Qed.

Lemma settle_error `{Engine} st msg res x : res_ok (mk_response st [] []) = false -> received (writeError st msg) res ->
  inr x = settle (Responded res) -> False.
Proof.
  intros Hbad [Hst _]. destruct res as [st' line text]. simpl in Hst. subst st'.
  destruct (settle_failed (mk_response st line text) Hbad) as [e ->]. done.
Qed.

(** C7: what the client stores is what the client reads: for a bucket whose name
    is one clean segment of a path (no slash), a key and a value that are
    well-formed texts, and no time to live or a whole number of seconds, when the
    call that stores succeeds, and the key is read next, before it expires or
    anybody writes it, the call that reads gives exactly the key and the value,
    character for character. *)
Theorem put_get_roundtrip `{Engine} {D} `{KeyValueStore D} ro (w w1 w2 : world D) bucket key value ttl ub uk uv z x v :
  segment_name bucket ub -> param_text key uk -> param_text value uv -> ttl_text ttl z ->
  calls_back ro w (putKV bucket key value ttl) w1 (inr x) ->
  calls_back ro w1 (getKV bucket key) w2 v ->
  v = inr (VObj [(js "key", VStr key); (js "value", VStr value)]).
Proof.
  intros Hb Hk Hv Ht Hput Hget.
  apply (calls_back_served _ _ _ _ _ _ (putKV_served bucket key ub uk Hb Hk value uv ttl z Hv Ht)) in Hput as (-> & res1 & Hr1 & Hx).
  apply (calls_back_served _ _ _ _ _ _ (getKV_served bucket key ub uk Hb Hk)) in Hget as (_ & res2 & Hr2 & ->).
  destruct ro; [by destruct (settle_error 403 (gs "Database is in read-only mode") res1 x eq_refl Hr1 Hx)|].
  unfold guarded, put, handleKVGet in *. cbn [exec exec_op put_Key put_Value put_TTL] in *.
  match type of Hr1 with context [perform _ _ (Put _ _ _ ?t)] => pose proof (kv_put (w_db w) ub uk uv t) as Hlaw; revert Hr1 Hr2 Hlaw;
    destruct (perform _ (w_db w) (Put ub uk uv t)) as [db1 err] end.
  cbn [fst snd w_db w_history]. intros Hr1 Hr2 Hlaw.
  destruct err as [msg|]; [by destruct (settle_error 500 msg res1 x eq_refl Hr1 Hx)|]. specialize (Hlaw eq_refl).
  pose proof (kv_open db1 ub) as Hopen. destruct (perform _ db1 (OpenBucket ub)) as [db2 []]. cbn [fst snd w_db w_history] in *.
  pose proof (kv_get db2 ub uk) as Hgot. rewrite Hopen, Hlaw in Hgot. destruct (perform _ db2 (Get ub uk)) as [db3 got].
  simpl in Hgot. subst got. cbn [exec snd] in Hr2. apply settle_encodable in Hr2; [|done]. rewrite Hr2.
  unfold obj, vstr. simpl. by rewrite (text_utf8 key uk), (text_utf8 value uv) by (apply Hk || apply Hv).
Qed.

Lemma record_event_head e h : exists rest, record_event e h = e :: rest /\ (length rest < 50)%nat.
Proof.
  unfold record_event. cbn [length]. destruct (Nat.ltb_spec 50 (S (length h))).
  - exists (take 49 h). split; [done|]. rewrite length_take. lia.
  - exists h. split; [done|]. lia.
Qed.

(** An event the encoder writes is one the client reads, text for text. *)
Lemma event_read e topic payload dedup :
  text_of (e_Topic e) = topic -> text_of (e_Payload e) = payload -> text_of (e_DedupID e) = dedup ->
  (e_DedupID e = [] <-> dedup = []) -> encodable (event_json e) = true ->
  exists at_, PubSubEvent_of (event_json e) = Some (Build_PubSubEvent (text_of (e_ID e)) topic payload
    (if bool_decide (dedup = []) then None else Some dedup) at_).
Proof.
  intros <- <- <- Hd He. unfold event_json, vtime in *. destruct (rfc3339_nano (e_CreatedAt e)) as [s|].
  - exists s. case_bool_decide as Hn; [by rewrite bool_decide_true by by apply Hd|].
    by rewrite bool_decide_false by by rewrite <- Hd.
  - exfalso. by destruct (bool_decide (e_DedupID e = [])).
Qed.

(** An optional key without characters is none. *)
Definition given (dedup : option jstr) : option jstr := match dedup with Some (_ :: _) => dedup | _ => None end.

Lemma opt_text_read dedup b : opt_text dedup b ->
  text_of b = default [] dedup /\ (b = [] <-> default [] dedup = []) /\
  (if bool_decide (default [] dedup = []) then None else Some (default [] dedup)) = given dedup.
Proof.
  destruct dedup as [s|]; simpl; [intros [Hwf Hb]|by intros ->]. split; [by apply text_utf8|]. split.
  - split; [|by intros ->; injection Hb as <-]. intros ->. by rewrite <- (text_utf8 s []).
  - by destruct s.
Qed.

(** What is published is what the stream shows: whatever the topic, payload
    and key, when the publication succeeds, the history fetched next starts with
    an event of exactly that topic, payload and key, and holds at most fifty. *)
Theorem publish_history_roundtrip `{Engine} {D} `{Database D} ro (w w1 w2 : world D) topic payload dedup ut up ud x v :
  param_text topic ut -> param_text payload up -> opt_text dedup ud ->
  calls_back ro w (publishPubSub topic payload dedup) w1 (inr x) ->
  calls_back ro w1 getPubSubHistory w2 (inr v) ->
  exists e rest id_ at_, v = VObj [(js "events", VArr (e :: rest))] /\ (length rest < 50)%nat
    /\ PubSubEvent_of e = Some (Build_PubSubEvent id_ topic payload (given dedup) at_).
Proof.
  intros Ht Hp Hd Hpub Hhist.
  apply (calls_back_served _ _ _ _ _ _ (publishPubSub_served topic payload dedup ut up ud Ht Hp Hd)) in Hpub as (-> & res1 & Hr1 & Hx).
  apply (calls_back_served _ _ _ _ _ _ getPubSubHistory_served) in Hhist as (_ & res2 & Hr2 & Hv).
  destruct ro; [by destruct (settle_error 403 (gs "Studio is in read-only mode") res1 x eq_refl Hr1 Hx)|].
  unfold publish, handlePubSubHistory in *. cbn [pu_Topic pu_Payload pu_DedupID] in *.
  case_bool_decide as Hne; [by destruct (settle_error 400 (gs "Missing topic") res1 x eq_refl Hr1 Hx)|].
  revert Hr1 Hr2. cbn [exec exec_op]. destruct (perform _ (w_db w) _) as [db1 [err|count]]; cbn [w_db w_history fst snd].
  { intros Hr1. destruct err; cbn [exec snd] in Hr1;
      (exfalso; eapply settle_error; [|exact Hr1|exact Hx]; reflexivity). }
  intros _. cbn [exec exec_op w_db w_history]. destruct (perform _ db1 Now) as [db2 now]. cbn [exec exec_op w_db w_history].
  destruct (perform _ db2 Now) as [db3 created]. cbn [w_db w_history fst snd]. intros Hr2.
  set (ev := Build_event _ ut up ud created) in Hr2.
  destruct (record_event_head ev (w_history w)) as (rest & Hrec & Hlen). rewrite Hrec in Hr2.
  symmetry in Hv. apply (settle_value _ _ _ Hr2) in Hv as [-> Henc]. destruct (opt_text_read dedup ud Hd) as (Hd1 & Hd2 & Hd3).
  destruct (event_read ev topic payload (default [] dedup)) as [at_ Hat]; [by apply text_utf8; apply Ht|by apply text_utf8; apply Hp|done|done| |].
  { change ((encodable (event_json ev) && forallb encodable (event_json <$> rest)) && true = true) in Henc.
    rewrite andb_true_r in Henc. by apply andb_true_iff in Henc as [? _]. }
  exists (event_json ev), (event_json <$> rest), (text_of (e_ID ev)), at_. split; [done|]. rewrite length_fmap. split; [done|].
  by rewrite Hat, Hd3.
Qed.

(** ** The theorems on concrete calls *)

Module Examples.

#[local] Existing Instance plain_engine.
#[local] Existing Instance Shelf.shelf_database.

Ltac text := split; [apply (bool_decide_unpack _); by vm_compute | by vm_compute].

Ltac day := split; [by vm_compute|split; by vm_compute].

Ltac whole := split_and!; [by vm_compute | by vm_compute | lia | lia].

Lemma profiles : segment_name (js "user profiles") (gs "user profiles").
Proof. split_and!; [apply (bool_decide_unpack _); by vm_compute | by vm_compute | by vm_compute | by apply (bool_decide_unpack _)]. Qed.

Lemma kv_calls_served_witness :
  served (putKV (js "user profiles") (js "a/é") (js "x=1") None)
    (fun ro => guarded ro (put (gs "user profiles") (Build_put_req [97; 47; 0xC3; 0xA9] (gs "x=1") 0)))
  /\ served (incrementKV (js "user profiles") (js "a/é") (num_of_Z (-3)))
    (fun ro => guarded ro (incr (gs "user profiles") (Build_incr_req [97; 47; 0xC3; 0xA9] (-3)))).
Proof.
  destruct (kv_calls_served (js "user profiles") (js "a/é") (js "x=1") (num_of_Z 100) None (num_of_Z (-3))
    (gs "user profiles") [97; 47; 0xC3; 0xA9] (gs "x=1") 0 (-3)) as (_ & _ & Hput & _ & Hincr);
    [exact profiles|text|text|reflexivity|whole|]. split; [exact Hput|exact Hincr].
Defined.

Lemma doc_calls_served_witness :
  served (insertDocument (js "user profiles") (VObj [(js "name", VStr (js "Zoé")); (js "age", VNum (num_of_Z 41))]))
    (fun ro => guarded ro (insert_doc (gs "user profiles") (Some [(js "name", VStr (js "Zoé")); (js "age", VNum (num_of_Z 41))]))).
Proof.
  apply (doc_calls_served (js "user profiles") (js "id 1&x=2") [(js "name", VStr (js "Zoé")); (js "age", VNum (num_of_Z 41))] []
    (gs "user profiles") (gs "id 1&x=2")); [exact profiles|text|by vm_compute|by vm_compute].
Defined.

Lemma reading_calls_served_witness : served (getQueueStats (js "mail & co")) (fun _ => handleQueueStats (gs "mail & co")).
Proof. apply (reading_calls_served (js "mail & co")). text. Defined.

Lemma queue_calls_served_witness :
  served (enqueueTask (js "mail") (js "{}") None (num_of_Z 300) (num_of_Z 1500))
    (fun ro => if ro then Done studio_read_only else enqueue (Build_enqueue_req (gs "mail") (gs "{}") [] 300 1500))
  /\ qo_priority (enqueue_options (Build_enqueue_req (gs "mail") (gs "{}") [] 300 1500)) = 44%Z.
Proof.
  split; [|vm_compute; reflexivity].
  apply (queue_calls_served (js "mail") (js "{}") None (num_of_Z 300) (num_of_Z 1500) true (gs "mail") (gs "{}") [] 300 1500);
    [text|text|reflexivity|whole|whole].
Defined.

Lemma times_served_witness :
  exists a b, toISOString (Some 1700000000123%Z) = Some a /\ toISOString (Some 1700003600000%Z) = Some b
  /\ served (pruneTimeSeries (js "cpu") a) (fun ro => guarded ro
      (let? removed := TsPruneBefore (gs "cpu") 1700000000123000000 in
       match removed with
       | inl e => Done (writeError 500 e)
       | inr n => Done (writeJSON 200 (obj [("removed", vint n)]))
       end)).
Proof.
  destruct (times_served (js "cpu") (gs "cpu") 1700000000123 1700003600000 [] [] (num_of_Z 100) 100 true) as (a & b & Ha & Hb & Hp & _);
    [text|day|day|whole|by vm_compute..|].
  exists a, b. split; [exact Ha|]. split; [exact Hb|exact Hp].
Defined.

#[local] Instance shelf_store : KeyValueStore Shelf.shelf.
Proof.
  refine (Build_KeyValueStore Shelf.shelf _ (fun db => Shelf.find_key (Shelf.sh_keys db)) _ _ _); [|done|done].
  intros db b k v ttl _. unfold Shelf.find_key. simpl. by rewrite bool_decide_true.
Defined.

(** The answer a reply is received as. *)
Definition respond (r : reply) : response :=
  match r with
  | Reply st (Json v) => mk_response st [] (stringify v)
  | Reply st (Plain t) => mk_response st [] t
  | Reply st NoBody => mk_response st [] []
  | Redirect | Asset => mk_response 301 [] []
  end.

(** A call on a world, with the answer the client's caller gets. *)
Definition performs (w : world Shelf.shelf) (c : call) : world Shelf.shelf * (jserr + val) :=
  match c with
  | inl e => (w, inl e)
  | inr r => let '(w', rep) := exec w (serve false r) in (w', settle (Responded (respond rep)))
  end.

Lemma performs_calls w c v :
  match c with inr r => received (exec w (serve false r)).2 (respond (exec w (serve false r)).2) | inl _ => True end ->
  (performs w c).2 = v -> calls_back false w c (performs w c).1 v.
Proof.
  intros Hr <-. destruct c as [e|r]; [by apply calls_thrown|]. simpl. pose proof (calls_settled false w (inr r) r _ eq_refl Hr) as Hc.
  by destruct (exec w (serve false r)).
Qed.

Ltac performed := apply performs_calls; [split; vm_compute; reflexivity|vm_compute; reflexivity].

Definition stored : world Shelf.shelf := (performs Shelf.empty (putKV (js "user profiles") (js "a/é") (js "x=1") None)).1.

Lemma put_get_roundtrip_witness :
  (performs stored (getKV (js "user profiles") (js "a/é"))).2
  = inr (VObj [(js "key", VStr (js "a/é")); (js "value", VStr (js "x=1"))]).
Proof.
  eapply (put_get_roundtrip false Shelf.empty stored _ (js "user profiles") (js "a/é") (js "x=1") None (gs "user profiles")
    [97; 47; 0xC3; 0xA9] (gs "x=1") 0); [exact profiles|text|text|reflexivity|performed|performed].
Defined.

Definition published : world Shelf.shelf := (performs Shelf.empty (publishPubSub (js "news") (js "hi") None)).1.

Lemma publish_history_roundtrip_witness :
  exists v e rest id_ at_,
    (performs published getPubSubHistory).2 = inr v /\ v = VObj [(js "events", VArr (e :: rest))]
    /\ PubSubEvent_of e = Some (Build_PubSubEvent id_ (js "news") (js "hi") None at_).
Proof.
  assert (exists v, (performs published getPubSubHistory).2 = inr v) as [v Hv] by (eexists; vm_compute; reflexivity).
  edestruct (publish_history_roundtrip false Shelf.empty published
    (performs published getPubSubHistory).1 (js "news") (js "hi") None (gs "news") (gs "hi") [])
    as (e & rest & id_ & at_ & He & _ & Hev); [text|text|reflexivity|performed| |].
  - apply performs_calls; [split; vm_compute; reflexivity|exact Hv].
  - exists v, e, rest, id_, at_. split; [exact Hv|]. split; [exact He|exact Hev].
Defined.

End Examples.
