(* ===== verification/QueueService.v ===== *)
(** The studio server in front of the queue engine: a task submitted by the
    client and then taken by a client, through the handlers of
    [studio/handlers.go] and the engine of [internal/queue]. *)

From S2P Require Import GoHeap QueueMessage QueueEngine.
From S2P Require Import Prelude JsString JsNumber Json Api Routes Go Server ServerSafety Wire.

Open Scope Z_scope.

(** What the handlers see of a message. *)
Definition message_of (m : Message) : queue_message :=
  Build_queue_message (m_ID m) (m_Queue m) (m_Payload m) (m_Priority m) (m_RetryCount m) (MessageState_String (m_State m)).

(** The options of a call, over [DefaultOptions]. *)
Definition call_options (o : queue_options) : Options :=
  WithDelay (qo_delay o) (WithPriority (qo_priority o) (WithDedupID (qo_dedup o) (Some (qo_window o)) DefaultOptions)).

Definition enqueue_answer (r : QueueEngine.queue_error + Message) : queue_error + queue_message :=
  match r with
  | inl QueueEngine.ErrDuplicateMessage => inl ErrDuplicateMessage
  | inl ErrClosed => inl (OtherError (gs "coco/queue: queue closed"))
  | inl ErrMessageNotFound => inl (OtherError (gs "coco/queue: message not found"))
  | inl ErrMaxRetriesExceeded => inl (OtherError (gs "coco/queue: max retries exceeded, routed to DLQ"))
  | inr m => inr (message_of m)
  end.

(** A database whose queue operations are those of the engines, at clock readings
    in order. [tq_opened] are the queues with an engine. What [Dequeue] does when its first round finds nothing is left
    open. [Ack] of a message calls the engine of its queue. *)
Class TaskQueues (D : Type) `{Database D} := {
  tq_tree : Type;
  tq_btree :: BTree tq_tree;
  tq_clock : D -> Z;
  tq_opened : D -> bytes -> Prop;
  tq_engine : D -> bytes -> QueueEngine;
  tq_contents : D -> bytes -> tq_tree;
  tq_open db q : tq_opened db q -> let db' := (perform _ db (OpenQueue q)).1 in
    tq_opened db' q /\ tq_clock db <= tq_clock db' /\ tq_engine db' = tq_engine db /\ tq_contents db' = tq_contents db;
  tq_enqueue db q payload o : tq_opened db q -> exists now0 now nowd,
    let db' := (perform _ db (Enqueue q payload o)).1 in
    let r := Queue_Enqueue now0 now nowd payload (call_options o) (tq_engine db q) (tq_contents db q) in
    tq_opened db' q /\ tq_clock db <= now0 <= tq_clock db' /\ (perform _ db (Enqueue q payload o)).2 = enqueue_answer r.2
    /\ tq_engine db' q = r.1.1 /\ tq_contents db' q = r.1.2;
  tq_dequeue db q timeout v : tq_opened db q -> exists now,
    let db' := (perform _ db (Dequeue q timeout v)).1 in
    let r := Queue_Dequeue now (WithVisibilityTimeout v DefaultOptions) (tq_engine db q) (tq_contents db q) in
    tq_opened db' q /\ tq_clock db <= now /\ forall m, r.2 = inr (Some m) ->
      (perform _ db (Dequeue q timeout v)).2 = inr (message_of m) /\ tq_engine db' q = r.1.1 /\ tq_contents db' q = r.1.2;
  tq_ack db m : tq_opened db (msg_Queue m) -> let db' := (perform _ db (Ack m)).1 in
    let r := QueueEngine.Ack (msg_ID m) (tq_engine db (msg_Queue m)) (tq_contents db (msg_Queue m)) in
    tq_opened db' (msg_Queue m) /\ tq_engine db' (msg_Queue m) = r.1.1 /\ tq_contents db' (msg_Queue m) = r.1.2
    /\ (perform _ db (Ack m)).2 = match r.2 with
         | None => Build_queue_message (msg_ID m) (msg_Queue m) (msg_Payload m) (msg_Priority m) (msg_RetryCount m) (gs "completed")
         | Some _ => m
         end;
}.

(** ** A task through an idle queue *)

(** Open, with nothing waiting; tasks may be held. *)
Definition idle (e : QueueEngine) : Prop := q_closed e = false /\ q_ready e = [].

Lemma next_visible_single {T} `{BTree T} now e m (t : T) : m_ExpireAt m <= 0 -> m_VisibleAt m <= now ->
  next_visible 1 now e [m] t = ([], t, Some m).
Proof.
  intros Hx Hv. cbn [next_visible]. rewrite (proj2 (Z.ltb_ge _ _)) by lia. cbn [andb]. by rewrite (proj2 (Z.ltb_ge _ _)) by lia.
Qed.

(** A held task is settled by its identifier. *)
Lemma held_acked {T} `{BTree T} id m f e (t : T) : q_inFlight e = <[id := m]> f ->
  let r := QueueEngine.Ack id e t in
  r.2 = None /\ q_closed r.1.1 = q_closed e /\ q_ready r.1.1 = q_ready e /\ q_inFlight r.1.1 = delete id f.
Proof. intros Hf. unfold QueueEngine.Ack. rewrite Hf, lookup_insert_eq. destruct e. cbn in *. subst. by rewrite delete_insert_eq. Qed.

(** The only waiting task is the one handed out. *)
Lemma single_taken {T} `{BTree T} now v e m (t : T) : q_closed e = false -> q_ready e = [m] -> m_ExpireAt m <= 0 -> m_VisibleAt m <= now -> 0 < v ->
  let r := dequeue_round now v e t in
  r.2 = inr (Some (leased now v m)) /\ q_closed r.1.1 = false /\ q_ready r.1.1 = [] /\ q_inFlight r.1.1 = <[m_ID m := leased now v m]> (q_inFlight e).
Proof.
  intros Hc Hr Hx Hv Hp. unfold dequeue_round. rewrite Hc, Hr, (proj2 (Z.leb_gt _ _)) by lia. cbn [length]. rewrite next_visible_single by done. cbn [fst snd].
  destruct e, m; cbn in *. by subst.
Qed.

(** A task accepted by an idle queue is its only one. *)
Lemma idle_enqueue {T} `{BTree T} now0 now nowd payload o e (t : T) : idle e -> o_DedupID o = [] ->
  let r := Queue_Enqueue now0 now nowd payload o e t in
  exists id, let m := stamped e now id (built now0 payload o) in
    r.2 = inr m /\ m_ID m = id /\ q_closed r.1.1 = false /\ q_ready r.1.1 = [m] /\ q_inFlight r.1.1 = q_inFlight e.
Proof.
  intros [Hc Hr] Hd. unfold Queue_Enqueue, QueueEngine.Enqueue. cbn [m_DedupID built m_ID]. rewrite !bool_decide_eq_true_2 by done. cbn [negb snd].
  destruct e as [name cfg ready held dlq dedup tree seq closed notified]. cbn in Hc, Hr. subst. cbn. eexists. by split_and!.
Qed.

Lemma byte_encodable p : 0 <= p < 256 -> is_finite (num_of_Z p) = true.
Proof.
  intros Hp. assert (forallb (fun n => is_finite (num_of_Z (Z.of_nat n))) (seq 0 256) = true) as Hall by (vm_compute; reflexivity).
  rewrite forallb_forall in Hall. specialize (Hall (Z.to_nat p)). rewrite Z2Nat.id in Hall by lia. apply Hall, in_seq. lia.
Qed.

Lemma priority_byte req : 0 <= qo_priority (enqueue_options req) < 256.
Proof. cbn. unfold uint8. destruct (Z.ltb_spec 0 (en_Priority req)); [by apply Z.mod_pos_bound|done]. Qed.

Section Tasks.
Context `{Engine} {D : Type} `{TaskQueues D}.

(** What the reply to an accepted task says. *)
Definition accepted_json (id q : bytes) : val :=
  obj [("message_id", vstr id); ("queue", vstr q); ("state", vstr (gs "ready")); ("success", VBool true)].

Definition delivered_json (id q payload : bytes) (priority : Z) : val :=
  obj [("found", VBool true); ("message_id", vstr id); ("payload", vstr payload); ("priority", vint priority); ("queue", vstr q);
       ("retry_count", vint 1); ("state", vstr (gs "completed"))].

(** The engine behind a world. *)
Definition engine_of (w : world D) (q : bytes) : QueueEngine := tq_engine (w_db w) q.

(** Submitting to an idle queue. *)
Lemma submit_idle (w : world D) req : let q := en_Queue req in
  q <> [] -> en_DedupID req = [] -> en_DelayMs req <= 0 ->
  tq_opened (w_db w) q -> idle (engine_of w q) -> q_name (engine_of w q) = q -> 0 < tq_clock (w_db w) ->
  let r := Server.exec w (enqueue req) in
  exists m, r.2 = writeJSON 200 (accepted_json (m_ID m) q) /\ tq_opened (w_db r.1) q
    /\ q_ready (engine_of r.1 q) = [m] /\ q_closed (engine_of r.1 q) = false /\ q_inFlight (engine_of r.1 q) = q_inFlight (engine_of w q)
    /\ m_Payload m = en_Payload req /\ m_Priority m = qo_priority (enqueue_options req) /\ m_RetryCount m = 0 /\ m_Queue m = q
    /\ m_ExpireAt m <= 0 /\ m_VisibleAt m <= tq_clock (w_db r.1).
Proof.
  intros q Hq Hd Hdelay Hop Hidle Hname Hclock. unfold enqueue. rewrite bool_decide_eq_false_2 by done. cbn [Server.exec exec_op].
  pose proof (tq_open (w_db w) q Hop) as (Hop1 & Hclk & Heng & Hcon). fold q. destruct (perform _ (w_db w) (OpenQueue q)) as [db1 []]. cbn [fst snd w_db w_history] in *.
  destruct (tq_enqueue db1 q (en_Payload req) (enqueue_options req) Hop1) as (now0 & now & nowd & Hop2 & Ht & Hans & He & Hc). cbv zeta in *. rewrite Heng, Hcon in *.
  destruct (idle_enqueue now0 now nowd (en_Payload req) (call_options (enqueue_options req)) (tq_engine (w_db w) q) (tq_contents (w_db w) q)) as (id & Hr & Hid & Hcl & Hrd & Hfl);
    [done|cbn; by rewrite Hd, bool_decide_eq_true_2|].
  rewrite Hr in Hans. destruct (perform _ db1 (Enqueue q _ _)) as [db2 ans]. cbn [fst snd] in *. subst ans. cbn [enqueue_answer Server.exec fst snd].
  exists (stamped (tq_engine (w_db w) q) now id (built now0 (en_Payload req) (call_options (enqueue_options req)))).
  unfold engine_of in *. cbn [w_db]. rewrite He. split_and!; try done.
  - unfold accepted_json, message_of. cbn [msg_ID msg_Queue msg_State m_ID m_Queue stamped]. by rewrite Hname.
  - cbn. rewrite (proj2 (Z.ltb_ge 0 (en_DelayMs req))) by lia. cbn. destruct (Z.leb_spec now0 0); lia.
Qed.

(** Taking the only task with an acknowledgement. *)
Lemma take_single (w : world D) q m : q <> [] -> tq_opened (w_db w) q -> q_ready (engine_of w q) = [m] -> q_closed (engine_of w q) = false ->
  m_ExpireAt m <= 0 -> m_VisibleAt m <= tq_clock (w_db w) -> m_RetryCount m = 0 -> m_Queue m = q ->
  let r := Server.exec w (dequeue (Build_dequeue_req q true)) in
  r.2 = writeJSON 200 (delivered_json (m_ID m) q (m_Payload m) (m_Priority m))
  /\ idle (engine_of r.1 q) /\ q_inFlight (engine_of r.1 q) = delete (m_ID m) (q_inFlight (engine_of w q)).
Proof.
  intros Hq Hop Hr Hc Hx Hv Hretry Hmq. unfold dequeue, engine_of in *. rewrite bool_decide_eq_false_2 by done. cbn [Server.exec exec_op de_Queue de_AutoAck].
  pose proof (tq_open (w_db w) q Hop) as (Hop1 & Hclk & Heng & Hcon). destruct (perform _ (w_db w) (OpenQueue q)) as [db1 []]. cbn [fst snd w_db w_history] in *.
  destruct (tq_dequeue db1 q (2 * Server.second) (10 * Server.second) Hop1) as (now & Hop2 & Hnow & Hdeq). cbv zeta in *. rewrite Heng, Hcon in *.
  unfold Queue_Dequeue in Hdeq. change (o_VisibilityTimeout (WithVisibilityTimeout (10 * Server.second) DefaultOptions)) with (10 * Server.second) in Hdeq.
  destruct (single_taken now (10 * Server.second) (tq_engine (w_db w) q) m (tq_contents (w_db w) q)) as (Hm & Hcl & Hrd & Hfl); [done|done|done|lia|done|].
  specialize (Hdeq _ Hm) as (Hans & He & Hcn). rewrite <- He in Hcl, Hrd, Hfl. clear He Hcn Hm.
  destruct (perform _ db1 (Dequeue q _ _)) as [db2 ans]. cbn [fst snd] in *. subst ans. cbn [Server.exec exec_op].
  set (m' := leased now (10 * Server.second) m) in *. assert (m_ID m' = m_ID m /\ m_Queue m' = q /\ m_Payload m' = m_Payload m /\ m_Priority m' = m_Priority m /\ m_RetryCount m' = 1)
    as (Hid & Hqq & Hp & Hpr & Hrc) by (unfold m'; destruct m; cbn in *; by subst).
  assert (msg_Queue (message_of m') = q) as Hmq' by done. assert (msg_ID (message_of m') = m_ID m) as Hmi' by done.
  destruct (tq_ack db2 (message_of m')) as (Hop3 & Ha & _ & Hres); [by rewrite Hmq'|]. cbv zeta in *. cbn [w_db w_history] in *. rewrite Hmq', Hmi' in Ha, Hres.
  destruct (held_acked (m_ID m) m' _ (tq_engine db2 q) (tq_contents db2 q) Hfl) as (Hs & Hcl' & Hrd' & Hfl'). rewrite Hs in Hres. rewrite <- Ha in Hcl', Hrd', Hfl'.
  destruct (perform _ db2 (Ack _)) as [db3 ans]. cbn [fst snd w_db w_history Server.exec] in *. subst ans. split_and!.
  - unfold delivered_json, message_json. cbn [message_of msg_ID msg_Queue msg_Payload msg_Priority msg_RetryCount msg_State]. by rewrite Hp, Hpr, Hrc.
  - split; congruence.
  - exact Hfl'.
Qed.

(** C11: a task submitted without delay and without a deduplication identifier to a
    queue that is open, with nothing waiting in it (delayed tasks included), on a
    server that can be written, is delivered to the next client that takes one and
    acknowledges it at once: both calls succeed, the client gets the payload
    character for character with the priority the server gave it and its first
    delivery counted, and afterwards the queue neither holds nor waits with the
    task. The name of the queue (not empty) and the payload are well-formed texts,
    the priority is a 64-bit integer, and the clock is past its zero. *)
Theorem task_roundtrip (w w1 w2 : world D) queue payload priority delay uq up p ms v1 v2 :
  param_text queue uq -> param_text payload up -> int_text priority p -> int_text delay ms -> uq <> [] -> ms <= 0 ->
  tq_opened (w_db w) uq -> idle (engine_of w uq) -> q_name (engine_of w uq) = uq -> 0 < tq_clock (w_db w) ->
  calls_back false w (enqueueTask queue payload None priority delay) w1 v1 ->
  calls_back false w1 (dequeueTask queue true) w2 v2 ->
  exists id, v1 = inr (accepted_json id uq)
    /\ v2 = inr (delivered_json id uq up (qo_priority (enqueue_options (Build_enqueue_req uq up [] p ms))))
    /\ text_of up = payload /\ idle (engine_of w2 uq) /\ q_inFlight (engine_of w2 uq) = delete id (q_inFlight (engine_of w uq)).
Proof.
  intros Hq Hp Hr Hm Hne Hdelay Hop Hidle Hname Hclock Hput Htake.
  apply (calls_back_served _ _ _ _ _ _ (enqueueTask_served queue uq Hq payload None priority delay up [] p ms Hp eq_refl Hr Hm)) in Hput as (-> & res1 & Hr1 & ->).
  apply (calls_back_served _ _ _ _ _ _ (dequeueTask_served queue uq Hq true)) in Htake as (-> & res2 & Hr2 & ->). cbv iota in *.
  destruct (submit_idle w (Build_enqueue_req uq up [] p ms)) as (m & Hm1 & Hop1 & Hrd & Hcl & Hfl & Hpay & Hpri & Hret & Hmq & Hx & Hv); try done.
  cbn [en_Queue] in *. set (w1 := (Server.exec w _).1) in *.
  destruct (take_single w1 uq m) as (Hm2 & Hidle2 & Hfl2); try done.
  rewrite Hm1 in Hr1. rewrite Hm2 in Hr2. exists (m_ID m). split_and!; try done.
  - apply settle_encodable in Hr1; [exact Hr1|done].
  - rewrite Hpay, Hpri in Hr2. apply settle_encodable in Hr2; [exact Hr2|]. cbn [en_Payload].
    pose proof (byte_encodable _ (priority_byte (Build_enqueue_req uq up [] p ms))) as Hb.
    unfold delivered_json, obj, vstr, vint. simpl. simpl in Hb. by rewrite Hb.
  - apply text_utf8; [apply Hp|apply Hp].
  - by rewrite Hfl2, Hfl.
Qed.
End Tasks.

(** ** A database with queues *)

Module Desk.
Import Sorted.

Record desk := mk_desk { dk_shelf : Shelf.shelf; dk_clock : Z; dk_engine : bytes -> QueueEngine; dk_tree : bytes -> tree }.

Definition alter_at {A} (q : bytes) (a : A) (f : bytes -> A) : bytes -> A := fun k => if bool_decide (k = q) then a else f k.

(** The state of one queue after an operation; the clock ticks. *)
Definition on_desk (q : bytes) (e : QueueEngine) (t : tree) (db : desk) : desk :=
  mk_desk (dk_shelf db) (dk_clock db + 1) (alter_at q e (dk_engine db)) (alter_at q t (dk_tree db)).

Definition perform_desk (A : Type) (db : desk) (d : dbop A) : desk * A :=
  match d in dbop A return desk * A with
  | Enqueue q payload o =>
      let r := Queue_Enqueue (dk_clock db) (dk_clock db) (dk_clock db) payload (call_options o) (dk_engine db q) (dk_tree db q) in
      (on_desk q r.1.1 r.1.2 db, enqueue_answer r.2)
  | Dequeue q _ v =>
      let r := Queue_Dequeue (dk_clock db) (WithVisibilityTimeout v DefaultOptions) (dk_engine db q) (dk_tree db q) in
      (on_desk q r.1.1 r.1.2 db, match r.2 with inr (Some m) => inr (message_of m) | _ => inl DeadlineExceeded end)
  | Ack m =>
      let q := msg_Queue m in
      let r := QueueEngine.Ack (msg_ID m) (dk_engine db q) (dk_tree db q) in
      (on_desk q r.1.1 r.1.2 db, match r.2 with
         | None => Build_queue_message (msg_ID m) q (msg_Payload m) (msg_Priority m) (msg_RetryCount m) (gs "completed")
         | Some _ => m
         end)
  | other => let r := Shelf.perform_shelf _ (dk_shelf db) other in (mk_desk r.1 (dk_clock db) (dk_engine db) (dk_tree db), r.2)
  end.

#[global] Instance desk_database : Database desk := perform_desk.

#[global] Instance desk_queues : TaskQueues desk.
Proof.
  refine {| tq_tree := tree; tq_btree := sorted_tree; tq_clock := dk_clock; tq_opened := fun _ _ => True;
            tq_engine := dk_engine; tq_contents := dk_tree |}.
  - intros db q _. by split_and!.
  - intros db q payload o _. exists (dk_clock db), (dk_clock db), (dk_clock db). cbn [perform desk_database perform_desk fst snd on_desk dk_clock dk_engine dk_tree].
    unfold alter_at. rewrite !bool_decide_eq_true_2 by done. split_and!; (done || lia).
  - intros db q timeout v _. exists (dk_clock db). cbn [perform desk_database perform_desk fst snd on_desk dk_clock dk_engine dk_tree].
    unfold alter_at. rewrite !bool_decide_eq_true_2 by done. split_and!; [done|lia|]. by intros m ->.
  - intros db m _. cbn [perform desk_database perform_desk fst snd on_desk dk_clock dk_engine dk_tree].
    unfold alter_at. rewrite !bool_decide_eq_true_2 by done. by split_and!.
Defined.

Definition start : world desk :=
  mk_world (mk_desk (Shelf.mk_shelf [] 1700000000000000000) 1700000000000000000
    (fun q => NewQueueEngine 1700000000000000000 q DefaultConfig []) (fun _ => [])) [].

End Desk.

(** ** The theorem on concrete calls *)

Module Examples.
Import Desk.

#[local] Existing Instance plain_engine.

(** A call on a world, with the answer its caller gets. *)
Definition calls (w : world desk) (c : call) : world desk * (jserr + val) :=
  match c with
  | inl e => (w, inl e)
  | inr r => let '(w', rep) := Server.exec w (serve false r) in (w', settle (Responded (Wire.Examples.respond rep)))
  end.

Lemma calls_performed w c :
  match c with inr r => received (Server.exec w (serve false r)).2 (Wire.Examples.respond (Server.exec w (serve false r)).2) | inl _ => True end ->
  calls_back false w c (calls w c).1 (calls w c).2.
Proof.
  intros Hr. destruct c as [e|r]; [by apply calls_thrown|]. simpl. pose proof (calls_settled false w (inr r) r _ eq_refl Hr) as Hc.
  by destruct (Server.exec w (serve false r)).
Qed.

Definition sent := calls start (enqueueTask (js "mail") (js "héllo") None (num_of_Z 200) (num_of_Z 0)).
Definition taken_back := calls sent.1 (dequeueTask (js "mail") true).

Lemma sent_calls : calls_back false start (enqueueTask (js "mail") (js "héllo") None (num_of_Z 200) (num_of_Z 0)) sent.1 sent.2.
Proof. apply calls_performed. vm_compute. by split. Qed.

Lemma taken_calls : calls_back false sent.1 (dequeueTask (js "mail") true) taken_back.1 taken_back.2.
Proof. apply calls_performed. vm_compute. by split. Qed.

Lemma task_roundtrip_witness :
  (exists id, sent.2 = inr (accepted_json id (gs "mail")) /\ taken_back.2 = inr (delivered_json id (gs "mail") (gs "héllo") 200))
  /\ idle (engine_of taken_back.1 (gs "mail")).
Proof.
  destruct (task_roundtrip start sent.1 taken_back.1 (js "mail") (js "héllo") (num_of_Z 200) (num_of_Z 0) (gs "mail") (gs "héllo") 200 0 sent.2 taken_back.2)
    as (id & H1 & H2 & _ & H3 & _);
    [Wire.Examples.text|Wire.Examples.text|Wire.Examples.whole|Wire.Examples.whole|done|lia|exact I
    |split; vm_compute; reflexivity|vm_compute; reflexivity|vm_compute; reflexivity
    |exact sent_calls|exact taken_calls|].
  split; [exists id; split; [exact H1|exact H2]|exact H3].
Defined.

End Examples.
