(* ===== verification/React.v ===== *)
(** The run-time model shared by the views: what a component renders (a tree
    of elements with the handlers attached to them), what its handlers do
    (update state cells, start requests and timers, call back their parent),
    and the event loop that interleaves user events, responses and timers.

    A component's [useState] and [useRef] cells are a record; a handler is a
    state-passing program that reads the cells through the closure of the
    render that created it and updates the current ones; the code after an
    [await] is a continuation value that carries what its closure captured;
    effects run after a commit when one of their dependencies changed. *)

From coqutil Require Export Datatypes.RecordSetters.
From S2P Require Import Prelude JsString JsNumber Json Api.

Export TriangleBracketNotations.

#[global] Arguments constant {E} newValue _ /.

(** ** Rendered trees *)

Section Nodes.
Context {A : Type}.

(** Event handlers of an element, by the event that fires them. [OnAsk] is a
    click whose handler first asks [confirm(msg)]. *)
Inductive handler :=
| OnClick (a : A)
| OnAsk (msg : jstr) (f : bool -> A)
| OnText (f : jstr -> A)
| OnSelect (opts : list jstr) (f : jstr -> A)
| OnCheck (f : bool -> A)
| OnSubmit (a : A).

(** Elements with their tag, plain attributes, [disabled] flag, handlers and
    children. Styling and icons are not represented. *)
Unset Elimination Schemes.

Inductive node :=
| Txt (s : jstr)
| El (tag : jstr) (attrs : list (jstr * jstr)) (disabled : bool) (hs : list handler) (kids : list node).

Set Elimination Schemes.

(** The handlers that can fire, in document order: those of a disabled element cannot. *)
Fixpoint handlers (n : node) : list handler :=
  match n with
  | Txt _ => []
  | El _ _ dis hs kids =>
      (if dis then [] else hs)
      ++ (fix go l := match l with [] => [] | k :: r => handlers k ++ go r end) kids
  end.

Definition handlers_of (l : list node) : list handler := mjoin (handlers <$> l).

Lemma handlers_El tag attrs dis hs kids :
  handlers (El tag attrs dis hs kids) = (if dis then [] else hs) ++ handlers_of kids.
Proof. simpl. f_equal. induction kids as [|k r IH]; [done|]. by rewrite IH. Qed.

Lemma handlers_of_cons n l : handlers_of (n :: l) = handlers n ++ handlers_of l.
Proof. done. Qed.

Lemma handlers_of_app l1 l2 : handlers_of (l1 ++ l2) = handlers_of l1 ++ handlers_of l2.
Proof. unfold handlers_of. by rewrite fmap_app, join_app. Qed.

(** The text of a tree, in document order. *)
Fixpoint texts (n : node) : list jstr :=
  match n with
  | Txt s => [s]
  | El _ _ _ _ kids => (fix go l := match l with [] => [] | k :: r => texts k ++ go r end) kids
  end.

(** What the user does to an element. *)
Inductive payload := PClick | PAnswer (b : bool) | PText (s : jstr) | PCheck (b : bool).

(** The action an event triggers. A [select] offers only its options. *)
Definition fire (h : handler) (p : payload) : option A :=
  match h, p with
  | OnClick a, PClick => Some a
  | OnAsk _ f, PAnswer b => Some (f b)
  | OnText f, PText s => Some (f s)
  | OnSelect opts f, PText s => if bool_decide (s ∈ opts) then Some (f s) else None
  | OnCheck f, PCheck b => Some (f b)
  | OnSubmit a, PClick => Some a
  | _, _ => None
  end.

End Nodes.

#[global] Arguments handlers {A} n : simpl never.
Arguments handler : clear implicits.
Arguments node : clear implicits.

Section Jsx.
Context {A : Type}.

(** Shorthands for elements. *)
Definition el (tag : string) (kids : list (node A)) : node A := El (js tag) [] false [] kids.
Definition txt (s : string) : node A := Txt (js s).
Definition button (dis : bool) (h : handler A) (kids : list (node A)) : node A :=
  El (js "button") [] dis [h] kids.
Definition option_el (value label : jstr) : node A := El (js "option") [(js "value", value)] false [] [Txt label].

(** [cond && elem] and [cond ? a : b] in children position. *)
Definition when (b : bool) (l : list (node A)) : list (node A) := if b then l else [].

(** The children a value becomes: nothing for [undefined], [null] and
    booleans, text for strings and numbers, the children of its elements for an
    array; an object is not a valid child and throws. *)
Fixpoint child (v : val) : option (list (node A)) :=
  match v with
  | VUndef | VNull | VBool _ => Some []
  | VNum n => Some [Txt (num_str n)]
  | VStr s => Some [Txt s]
  | VArr vs =>
      (fix go l := match l with
       | [] => Some []
       | x :: r => a ← child x; b ← go r; Some (a ++ b)
       end) vs
  | VObj _ => None
  end.

(** A count shown as text. *)
Definition count_txt {B} (l : list B) : node A := Txt (digits (N.of_nat (length l))).

End Jsx.

(** ** Commands and programs *)

(** Calls that leave the component. *)
Inductive external :=
| OnRefreshCatalog
| OnNavigate (view : jstr)
| WriteClipboard (s : jstr)
| ConsoleError (what : jstr)
| SetStorage (key value : jstr)
| SetDarkClass (on : bool)
| SetLightClass (on : bool).

Inductive cmd (K : Type) :=
| Fetch (r : http_request) (k : K)
| Timer (ms : N) (k : K)
| Interval (ms : N) (k : K)
| Ext (e : external).
Arguments Fetch {K} r k.
Arguments Timer {K} ms k.
Arguments Interval {K} ms k.
Arguments Ext {K} e.

(** A program over state cells [St] whose suspended parts are [K]. *)
Definition prog (St K : Type) : Type := St -> St * list (cmd K).

Section Prog.
Context {St K : Type}.

Definition pskip : prog St K := fun s => (s, []).
Definition modify (f : St -> St) : prog St K := fun s => (f s, []).
Definition emit (c : cmd K) : prog St K := fun s => (s, [c]).
Definition pseq (m1 m2 : prog St K) : prog St K := fun s =>
  let '(s1, c1) := m1 s in let '(s2, c2) := m2 s1 in (s2, c1 ++ c2).
(** Read the current cells (a ref, or the argument of a functional update). *)
Definition with_state (f : St -> prog St K) : prog St K := fun s => f s s.
Definition pwhen (b : bool) (m : prog St K) : prog St K := if b then m else pskip.

(** [await call] inside [try]: a call that throws before it is sent goes to the handler. *)
Definition await_call (c : call) (k : K) (on_throw : jserr -> prog St K) : prog St K :=
  match c with
  | inr r => emit (Fetch r k)
  | inl e => on_throw e
  end.

End Prog.

Declare Scope prog_scope.
Delimit Scope prog_scope with prog.
Notation "m1 ;;; m2" := (pseq m1 m2) (at level 62, right associativity) : prog_scope.
Open Scope prog_scope.

(** [setX(v)] for the cell [x]. *)
Notation "x <-- v" := (modify (fun s => s <| x := v |>)) (at level 61, no associativity) : prog_scope.

(** ** Components and their event loop *)

(** How a suspended part resumes: with a settled request, or by a timer. *)
Inductive outcome :=
| Settled (f : fetch_result)
| Fired.

(** An effect: whether its dependencies changed since the previous commit
    ([None] at the first one), and its body. *)
Record effect (Props St K : Type) := mk_effect {
  eff_changed : option (Props * St) -> Props * St -> bool;
  eff_body : Props -> St -> prog St K;
}.
Arguments mk_effect {Props St K}.
Arguments eff_changed {Props St K}.
Arguments eff_body {Props St K}.

Record component := mk_component {
  Props : Type;
  State : Type;
  Action : Type;
  Kont : Type;
  initial : Props -> State;
  handle : Props -> State -> Action -> prog State Kont;
  resume : Kont -> outcome -> prog State Kont;
  (** the outcomes the model covers: successful responses of the interface
      the call declares, every failure, every timer *)
  accepts : Kont -> outcome -> bool;
  effects : list (effect Props State Kont);
  render : Props -> State -> option (node Action);
  (** the functions it hands to its children, which may be called at any time *)
  callbacks : list (handler Action);
}.

Inductive pending (K : Type) :=
| PFetch (r : http_request) (k : K)
| PTimer (k : K)
| PInterval (k : K).
Arguments PFetch {K} r k.
Arguments PTimer {K} k.
Arguments PInterval {K} k.

Definition pending_of {K} (c : cmd K) : list (pending K) :=
  match c with
  | Fetch r k => [PFetch r k]
  | Timer _ k => [PTimer k]
  | Interval _ k => [PInterval k]
  | Ext _ => []
  end.

Definition kont_of {K} (p : pending K) : K :=
  match p with PFetch _ k | PTimer k | PInterval k => k end.

Section Loop.
Context (C : component).

Record config := mk_config {
  cprops : Props C;
  cstate : State C;
  cpend : list (pending (Kont C));
}.

(** Run, in order, the effects whose dependencies changed. *)
Fixpoint run_list (l : list (effect (Props C) (State C) (Kont C))) (old : option (Props C * State C))
  (new : Props C * State C) : prog (State C) (Kont C) :=
  match l with
  | [] => pskip
  | e :: r => pwhen (eff_changed e old new) (eff_body e new.1 new.2) ;;; run_list r old new
  end.

Definition run_effects (old : option (Props C * State C)) (new : Props C * State C) : prog (State C) (Kont C) :=
  run_list (effects C) old new.

Definition any_changed (old : option (Props C * State C)) (new : Props C * State C) : bool :=
  existsb (fun e => eff_changed e old new) (effects C).

(** Commit after commit until no dependency changes. *)
Fixpoint flush (fuel : nat) (old : option (Props C * State C)) (p : Props C) (s : State C)
  : State C * list (cmd (Kont C)) :=
  match fuel with
  | O => (s, [])
  | S f =>
      if any_changed old (p, s) then
        let '(s1, c1) := run_effects old (p, s) s in
        let '(s2, c2) := flush f (Some (p, s)) p s1 in (s2, c1 ++ c2)
      else (s, [])
  end.

(** Commits after one task: one for the task, and one per round of effects
    that change the dependencies of others; the views settle within three. *)
Definition commit_fuel : nat := 4.

Lemma commit_fuel_pos : exists n, commit_fuel = S n.
Proof. by eexists. Qed.

Lemma commit_fuel_3 : commit_fuel = S (S (S 1)).
Proof. done. Qed.

#[global] Opaque commit_fuel.

(** Whether the commits end: no dependency changes once the fuel is spent. *)
Fixpoint settles (fuel : nat) (old : option (Props C * State C)) (p : Props C) (s : State C) : bool :=
  match fuel with
  | O => negb (any_changed old (p, s))
  | S f => if any_changed old (p, s) then settles f (Some (p, s)) p (run_effects old (p, s) s).1 else true
  end.

(** One task of the event loop: a program, then the commits it causes. *)
Definition task (p : Props C) (s : State C) (pend : list (pending (Kont C))) (m : prog (State C) (Kont C))
  : config * list (cmd (Kont C)) :=
  let '(s1, c1) := m s in
  let '(s2, c2) := flush commit_fuel (Some (p, s)) p s1 in
  (mk_config p s2 (pend ++ mjoin (pending_of <$> c1 ++ c2)), c1 ++ c2).

(** The first commit. *)
Definition mount (p : Props C) : config * list (cmd (Kont C)) :=
  let '(s, cs) := flush commit_fuel None p (initial C p) in
  (mk_config p s (mjoin (pending_of <$> cs)), cs).

Inductive input :=
| IEvent (n : nat) (p : payload)
| ICall (n : nat) (p : payload)
| IResume (n : nat) (o : outcome)
| IProps (p : Props C).

(** Whether an outcome fits a suspended part, and what stays pending after it. *)
Definition after_resume (q : pending (Kont C)) (o : outcome) : option (list (pending (Kont C))) :=
  match q, o with
  | PFetch _ _, Settled _ => Some []
  | PTimer _, Fired => Some []
  | PInterval k, Fired => Some [PInterval k]
  | _, _ => None
  end.

Definition exec (c : config) (i : input) : option (config * list (cmd (Kont C))) :=
  match i with
  | IEvent n p =>
      tree ← render C (cprops c) (cstate c);
      h ← handlers tree !! n;
      a ← fire h p;
      Some (task (cprops c) (cstate c) (cpend c) (handle C (cprops c) (cstate c) a))
  | ICall n p =>
      h ← callbacks C !! n;
      a ← fire h p;
      Some (task (cprops c) (cstate c) (cpend c) (handle C (cprops c) (cstate c) a))
  | IResume n o =>
      q ← cpend c !! n;
      keep ← after_resume q o;
      _ ← (if accepts C (kont_of q) o then Some () else None);
      Some (task (cprops c) (cstate c) (take n (cpend c) ++ keep ++ drop (S n) (cpend c)) (resume C (kont_of q) o))
  | IProps p =>
      let '(s, cs) := flush commit_fuel (Some (cprops c, cstate c)) p (cstate c) in
      Some (mk_config p s (cpend c ++ mjoin (pending_of <$> cs)), cs)
  end.

(** Run a sequence of inputs, collecting the commands. *)
Fixpoint run (c : config) (ins : list input) : option (config * list (cmd (Kont C))) :=
  match ins with
  | [] => Some (c, [])
  | i :: r => '(c1, o1) ← exec c i; '(c2, o2) ← run c1 r; Some (c2, o1 ++ o2)
  end.

(** Whether an input is possible, and the cells after a sequence of inputs:
    what examples evaluate. *)
Definition can (c : config) (i : input) : bool := match exec c i with Some _ => true | None => false end.

Definition after (c : config) (ins : list input) : option (State C) := (fun r => cstate r.1) <$> run c ins.

Lemma can_exec c i : can c i = true -> exists c' o, exec c i = Some (c', o).
Proof. unfold can. destruct (exec c i) as [[c' o]|]; [by eauto|done]. Qed.

Lemma after_run c ins s : after c ins = Some s -> exists c' o, run c ins = Some (c', o) /\ cstate c' = s.
Proof. unfold after. destruct (run c ins) as [[c' o]|]; [|done]. intros [= <-]. by eauto. Qed.

Inductive reachable (p0 : Props C) : config -> Prop :=
| reach_mount : reachable p0 (mount p0).1
| reach_step c i c' o : reachable p0 c -> exec c i = Some (c', o) -> reachable p0 c'.

Lemma reachable_run p0 c ins c' o : reachable p0 c -> run c ins = Some (c', o) -> reachable p0 c'.
Proof.
  revert c o. induction ins as [|i r IH]; intros c o Hc; simpl; [by intros [= <- _]|].
  destruct (exec c i) as [[c1 o1]|] eqn:E; [|done]. simpl.
  destruct (run c1 r) as [[c2 o2]|] eqn:E2; [|done]. intros [= <- _].
  eapply IH; [|done]. by eapply reach_step.
Qed.

(** An event comes from a handler of the rendered tree. *)
Lemma exec_event c n p c' o :
  exec c (IEvent n p) = Some (c', o) ->
  exists tree h a, render C (cprops c) (cstate c) = Some tree /\ h ∈ handlers tree /\ fire h p = Some a
    /\ (c', o) = task (cprops c) (cstate c) (cpend c) (handle C (cprops c) (cstate c) a).
Proof.
  simpl. destruct (render C _ _) as [tree|]; [|done]. simpl.
  destruct (handlers tree !! n) as [h|] eqn:Eh; [|done]. simpl.
  destruct (fire h p) as [a|] eqn:Ea; [|done]. simpl. intros [= H].
  exists tree, h, a. apply list_elem_of_lookup_2 in Eh. by repeat split.
Qed.

(** A call comes from a callback. *)
Lemma exec_call c n p c' o :
  exec c (ICall n p) = Some (c', o) ->
  exists h a, h ∈ callbacks C /\ fire h p = Some a
    /\ (c', o) = task (cprops c) (cstate c) (cpend c) (handle C (cprops c) (cstate c) a).
Proof.
  simpl. destruct (callbacks C !! n) as [h|] eqn:Eh; [|done]. simpl.
  destruct (fire h p) as [a|] eqn:Ea; [|done]. simpl. intros [= H].
  exists h, a. apply list_elem_of_lookup_2 in Eh. by repeat split.
Qed.

Lemma exec_resume c n o c' out :
  exec c (IResume n o) = Some (c', out) ->
  exists q keep, cpend c !! n = Some q /\ after_resume q o = Some keep
    /\ accepts C (kont_of q) o = true /\ (c', out) = task (cprops c) (cstate c) (take n (cpend c) ++ keep ++ drop (S n) (cpend c))
                     (resume C (kont_of q) o).
Proof.
  simpl. destruct (cpend c !! n) as [q|] eqn:Eq; [|done]. simpl.
  destruct (after_resume q o) as [keep|] eqn:Ek; [|done]. simpl.
  destruct (accepts C (kont_of q) o) eqn:Ea; [|done]. simpl. intros [= H].
  exists q, keep. by repeat split.
Qed.

End Loop.

Arguments cprops {C}.
Arguments cstate {C}.
Arguments cpend {C}.
Arguments IEvent {C}.
Arguments ICall {C}.
Arguments IResume {C}.
Arguments IProps {C}.

(** ** Invariants of a component

    A predicate on the props, the cells and the pending parts that the first
    round of effects establishes and that every program preserves holds of
    every configuration the event loop reaches. *)

Abbreviation pends cs := (mjoin (pending_of <$> cs)).

Class Invariant (C : component) (I : Props C -> State C -> list (pending (Kont C)) -> Prop) := {
  inv_mount p :
    let m := run_effects C None (p, initial C p) (initial C p) in I p m.1 (pends m.2);
  inv_handle p s pend tree h pl a : I p s pend ->
    render C p s = Some tree -> h ∈ handlers tree -> fire h pl = Some a ->
    I p (handle C p s a s).1 (pend ++ pends (handle C p s a s).2);
  inv_call p s pend h pl a : I p s pend -> h ∈ callbacks C -> fire h pl = Some a ->
    I p (handle C p s a s).1 (pend ++ pends (handle C p s a s).2);
  inv_resume p s l1 q l2 o keep : I p s (l1 ++ q :: l2) ->
    after_resume C q o = Some keep -> accepts C (kont_of q) o = true ->
    I p (resume C (kont_of q) o s).1 ((l1 ++ keep ++ l2) ++ pends (resume C (kont_of q) o s).2);
  inv_effect e p s0 s pend : e ∈ effects C -> I p s pend ->
    I p (eff_body e p s0 s).1 (pend ++ pends (eff_body e p s0 s).2);
  inv_props p p' s pend : I p s pend ->
    let m := run_effects C (Some (p, s)) (p', s) s in I p' m.1 (pend ++ pends m.2);
}.

Section InvariantTheory.
Context (C : component) (I : Props C -> State C -> list (pending (Kont C)) -> Prop).

Lemma pends_app {K} (c1 c2 : list (cmd K)) : pends (c1 ++ c2) = pends c1 ++ pends c2.
Proof. by rewrite fmap_app, join_app. Qed.

Lemma run_list_safe l old new s pend :
  (forall e p s0 s pend, e ∈ l -> I p s pend ->
    I p (eff_body e p s0 s).1 (pend ++ pends (eff_body e p s0 s).2)) ->
  I new.1 s pend ->
  I new.1 (run_list C l old new s).1 (pend ++ pends (run_list C l old new s).2).
Proof.
  intros He. revert s pend. induction l as [|e r IH]; intros s pend Hs; [by rewrite app_nil_r|].
  simpl. unfold pseq, pwhen. destruct (eff_changed e old new).
  - pose proof (He e new.1 new.2 s pend (list_elem_of_here _ _) Hs) as H1.
    destruct (eff_body e new.1 new.2 s) as [s1 c1]. simpl in H1.
    assert (forall e0 p s0 s pend, e0 ∈ r -> I p s pend ->
      I p (eff_body e0 p s0 s).1 (pend ++ pends (eff_body e0 p s0 s).2)) as Hr.
    { intros e0 ? ? ? ? Hin. apply He. by right. }
    specialize (IH Hr _ _ H1).
    destruct (run_list C r old new s1) as [s2 c2]. simpl in *. by rewrite pends_app, app_assoc.
  - unfold pskip. specialize (IH (fun e0 p s0 s pend Hin => He e0 p s0 s pend (list_elem_of_further _ _ _ Hin)) s pend Hs).
    by destruct (run_list C r old new s) as [s2 c2].
Qed.

Lemma run_list_cons e r old new s :
  (run_list C (e :: r) old new s).1
  = (run_list C r old new (if eff_changed e old new then (eff_body e new.1 new.2 s).1 else s)).1.
Proof.
  simpl. unfold pseq, pwhen. destruct (eff_changed e old new); [destruct (eff_body e new.1 new.2 s) as [s1 c1]|];
    simpl; by destruct (run_list C r old new _).
Qed.

Lemma run_list_idle l old new s :
  existsb (fun e => eff_changed e old new) l = false -> run_list C l old new s = (s, []).
Proof.
  induction l as [|e r IH]; [done|]. simpl. intros [He Hr]%orb_false_iff.
  unfold pseq, pwhen. rewrite He. unfold pskip. cbn. by rewrite (IH Hr).
Qed.

Context `{Inv : !Invariant C I}.

Lemma flush_safe fuel old p s pend :
  I p s pend -> I p (flush C fuel old p s).1 (pend ++ pends (flush C fuel old p s).2).
Proof using Inv.
  revert old s pend. induction fuel as [|f IH]; intros old s pend Hs; simpl; [by rewrite app_nil_r|].
  destruct (any_changed C old (p, s)); [|by rewrite app_nil_r].
  pose proof (run_list_safe (effects C) old (p, s) s pend inv_effect Hs) as H1. fold (run_effects C old (p, s)) in H1.
  destruct (run_effects C old (p, s) s) as [s1 c1]. cbn [fst snd] in H1. specialize (IH (Some (p, s)) _ _ H1).
  destruct (flush C f (Some (p, s)) p s1) as [s2 c2]. cbn [fst snd] in *. by rewrite pends_app, app_assoc.
Qed.

(** A first round of effects that establishes the invariant is enough. *)
Lemma flush_establish old p s pend :
  (let m := run_effects C old (p, s) s in I p m.1 (pend ++ pends m.2)) ->
  I p (flush C commit_fuel old p s).1 (pend ++ pends (flush C commit_fuel old p s).2).
Proof using Inv.
  destruct commit_fuel_pos as [n ->]. simpl. intros H1.
  destruct (any_changed C old (p, s)) eqn:Ea.
  - destruct (run_effects C old (p, s) s) as [s1 c1]. cbn [fst snd] in H1. pose proof (flush_safe n (Some (p, s)) p s1 _ H1) as H2.
    destruct (flush C n (Some (p, s)) p s1) as [s2 c2]. simpl in *. by rewrite pends_app, app_assoc.
  - unfold run_effects in H1. by rewrite run_list_idle in H1.
Qed.

Lemma task_safe p s pend m : I p (m s).1 (pend ++ pends (m s).2) ->
  let c := (task C p s pend m).1 in I (cprops c) (cstate c) (cpend c).
Proof using Inv.
  intros Hm. unfold task. destruct (m s) as [s1 c1]. cbn [fst snd] in Hm.
  pose proof (flush_safe commit_fuel (Some (p, s)) p s1 _ Hm) as H2.
  destruct (flush C commit_fuel (Some (p, s)) p s1) as [s2 c2]. simpl in *. by rewrite pends_app, app_assoc.
Qed.

Lemma invariant_reachable p0 c : reachable C p0 c -> I (cprops c) (cstate c) (cpend c).
Proof using Inv.
  induction 1 as [|c i c' o _ IH E].
  - unfold mount. pose proof (flush_establish None p0 (initial C p0) [] (inv_mount p0)) as H1.
    by destruct (flush C commit_fuel None p0 (initial C p0)).
  - destruct i as [n pl|n pl|n out|p].
    + apply exec_event in E as (tree & h & a & Hren & Hin & Hfire & E). rewrite (f_equal fst E : c' = _).
      apply task_safe. by eapply inv_handle.
    + apply exec_call in E as (h & a & Hin & Hfire & E). rewrite (f_equal fst E : c' = _).
      apply task_safe. by eapply inv_call.
    + apply exec_resume in E as (q & keep & Eq & Ek & Ea & E). rewrite (f_equal fst E : c' = _).
      apply task_safe. eapply inv_resume; [|done|done]. by rewrite take_drop_middle.
    + unfold exec in E. pose proof (flush_establish _ _ _ _ (inv_props _ p _ _ IH)) as H1.
      destruct (flush C commit_fuel (Some (cprops c, cstate c)) p (cstate c)) as [s cs].
      cbv beta iota in E. by injection E as <- _.
Qed.

End InvariantTheory.

(** Commits end when the second round of effects leaves alone the part of the
    state the dependencies read. *)
Lemma settles_by (C : component) {D} (d : State C -> D) :
  (forall p s s', d s' = d s -> any_changed C (Some (p, s)) (p, s') = false) ->
  (forall old p s, any_changed C old (p, s) = true ->
    let s1 := (run_effects C old (p, s) s).1 in d (run_effects C (Some (p, s)) (p, s1) s1).1 = d s1) ->
  forall old p s, settles C commit_fuel old p s = true.
Proof.
  intros Hd H2 old p s. rewrite commit_fuel_3. cbn [settles]. destruct (any_changed C old (p, s)) eqn:E; [|done].
  destruct (any_changed C (Some (p, s)) _); [|done]. by rewrite (Hd p _ _ (H2 old p s E)).
Qed.

(** ** What a program leaves alone *)

Create HintDb frame.

Section Frames.
Context {St K A : Type} (f : St -> A).

Definition frames (m : prog St K) : Prop := forall s, f (m s).1 = f s.

Lemma frames_skip : frames pskip.
Proof. done. Qed.

Lemma frames_emit c : frames (emit c).
Proof. done. Qed.

Lemma frames_modify g : (forall s, f (g s) = f s) -> frames (modify g).
Proof. done. Qed.

Lemma frames_seq m1 m2 : frames m1 -> frames m2 -> frames (pseq m1 m2).
Proof.
  intros H1 H2 s. unfold pseq. specialize (H1 s). destruct (m1 s) as [s1 c1].
  specialize (H2 s1). destruct (m2 s1) as [s2 c2]. simpl in *. congruence.
Qed.

Lemma frames_if (b : bool) m1 m2 : frames m1 -> frames m2 -> frames (if b then m1 else m2).
Proof. by destruct b. Qed.

Lemma frames_when b m : frames m -> frames (pwhen b m).
Proof. by destruct b. Qed.

Lemma frames_with g : (forall s, frames (g s)) -> frames (with_state g).
Proof. intros Hg s. apply Hg. Qed.

Lemma frames_call c k bad : (forall e, frames (bad e)) -> frames (await_call c k bad).
Proof. intros Hb. destruct c; [apply Hb|done]. Qed.

End Frames.

#[export] Hint Resolve frames_skip frames_emit frames_modify frames_seq frames_if frames_when frames_with frames_call : frame.

Section FrameTheory.
Context (C : component) {A : Type} (f : State C -> A).
Context (Heff : forall e p s0, e ∈ effects C -> frames f (eff_body e p s0)).

Lemma run_list_frames l old new : (forall e, e ∈ l -> e ∈ effects C) -> frames f (run_list C l old new).
Proof using Heff.
  induction l as [|e r IH]; intros Hl; [apply frames_skip|]. simpl. apply frames_seq.
  - apply frames_when, Heff, Hl. by left.
  - apply IH. intros e' He'. apply Hl. by right.
Qed.

Lemma flush_frames fuel old p s : f (flush C fuel old p s).1 = f s.
Proof using Heff.
  revert old s. induction fuel as [|n IH]; intros old s; [done|]. simpl. destruct (any_changed C old (p, s)); [|done].
  pose proof (run_list_frames (effects C) old (p, s) (fun e He => He) s) as H1. unfold run_effects.
  destruct (run_list C (effects C) old (p, s) s) as [s1 c1]. specialize (IH (Some (p, s)) s1).
  destruct (flush C n (Some (p, s)) p s1) as [s2 c2]. simpl in *. congruence.
Qed.

Lemma task_frames p s pend m : f (cstate (task C p s pend m).1) = f (m s).1.
Proof using Heff.
  unfold task. destruct (m s) as [s1 c1]. pose proof (flush_frames commit_fuel (Some (p, s)) p s1) as H1.
  destruct (flush C commit_fuel (Some (p, s)) p s1). done.
Qed.

(** The part [f] of the state changes in a step only as a handler or a resumed
    part changes it. *)
Lemma exec_frames c i c' o : exec C c i = Some (c', o) ->
  f (cstate c') = f (cstate c)
  \/ (exists a, f (cstate c') = f (handle C (cprops c) (cstate c) a (cstate c)).1)
  \/ (exists n q out, i = IResume n out /\ cpend c !! n = Some q /\ accepts C (kont_of q) out = true
      /\ is_Some (after_resume C q out)
      /\ f (cstate c') = f (resume C (kont_of q) out (cstate c)).1).
Proof using Heff.
  intros E. destruct i as [n pl|n pl|n out|p].
  - apply exec_event in E as (tree & h & a & _ & _ & _ & E). right. left. exists a.
    rewrite (f_equal fst E : c' = _). apply task_frames.
  - apply exec_call in E as (h & a & _ & _ & E). right. left. exists a.
    rewrite (f_equal fst E : c' = _). apply task_frames.
  - apply exec_resume in E as (q & keep & Eq & Ek & Ea & E). right. right. exists n, q, out.
    rewrite (f_equal fst E : c' = _). do 3 (split; [done|]). split; [by rewrite Ek|]. apply task_frames.
  - left. unfold exec in E. pose proof (flush_frames commit_fuel (Some (cprops c, cstate c)) p (cstate c)) as H1.
    destruct (flush C commit_fuel _ p (cstate c)) as [s cs]. cbv beta iota in E. by injection E as <- _.
Qed.

End FrameTheory.

(** ** At most one request in flight

    A view whose button is disabled while a flag is set promises that its
    handlers start a request only when the flag is down. *)

(** The suspended parts selected by [T] among commands and pending entries. *)
Definition count_pend {K} (T : K -> bool) (l : list (pending K)) : nat :=
  length (filter (fun q => T (kont_of q) = true) l).
Definition count_cmds {K} (T : K -> bool) (l : list (cmd K)) : nat := count_pend T (mjoin (pending_of <$> l)).

Lemma count_pend_all {K} (l : list (pending K)) : count_pend (fun _ => true) l = length l.
Proof.
  unfold count_pend. induction l as [|q r IH]; [done|]. rewrite filter_cons, decide_True by done. simpl. by rewrite IH.
Qed.

(** Only requests are selected, never timers. *)
Definition requests_only {K} (T : K -> bool) (l : list (pending K)) : Prop :=
  Forall (fun q => T (kont_of q) = true -> match q with PFetch _ _ => True | _ => False end) l.

(** What a program may do to the flag and to the selected requests. *)
Definition keeps {K} (T : K -> bool) (b b' : bool) (cs : list (cmd K)) : Prop :=
  b' = b /\ count_cmds T cs = O /\ requests_only T (mjoin (pending_of <$> cs)).
Definition starts {K} (T : K -> bool) (b b' : bool) (cs : list (cmd K)) : Prop :=
  b = false /\ b' = true /\ count_cmds T cs = 1%nat /\ requests_only T (mjoin (pending_of <$> cs)).

Class SingleFlight (C : component) (flag : State C -> bool) (T : Kont C -> bool) := {
  sf_initial p : flag (initial C p) = false;
  sf_handle p s tree h pl a : render C p s = Some tree -> h ∈ handlers tree -> fire h pl = Some a ->
    keeps T (flag s) (flag (handle C p s a s).1) (handle C p s a s).2
    \/ starts T (flag s) (flag (handle C p s a s).1) (handle C p s a s).2;
  sf_call p s h pl a : h ∈ callbacks C -> fire h pl = Some a ->
    keeps T (flag s) (flag (handle C p s a s).1) (handle C p s a s).2;
  sf_resume_own k o s : T k = true ->
    keeps T false (flag (resume C k o s).1) (resume C k o s).2;
  sf_resume_other k o s : T k = false ->
    keeps T (flag s) (flag (resume C k o s).1) (resume C k o s).2;
  sf_effects e p s0 s : e ∈ effects C ->
    keeps T (flag s) (flag (eff_body e p s0 s).1) (eff_body e p s0 s).2;
}.

Section SingleFlightTheory.
Context (C : component) (flag : State C -> bool) (T : Kont C -> bool).
Context `{SF : !SingleFlight C flag T}.

Lemma count_pend_app {K} (T' : K -> bool) l1 l2 : count_pend T' (l1 ++ l2) = (count_pend T' l1 + count_pend T' l2)%nat.
Proof. unfold count_pend. by rewrite filter_app, length_app. Qed.

Lemma count_cmds_app {K} (T' : K -> bool) l1 l2 : count_cmds T' (l1 ++ l2) = (count_cmds T' l1 + count_cmds T' l2)%nat.
Proof. unfold count_cmds. by rewrite fmap_app, join_app, count_pend_app. Qed.

Lemma keeps_nil {K} (T' : K -> bool) b : keeps T' b b [].
Proof. split; [done|]. split; [done|constructor]. Qed.

Lemma keeps_app {K} (T' : K -> bool) b1 b2 b3 c1 c2 :
  keeps T' b1 b2 c1 -> keeps T' b2 b3 c2 -> keeps T' b1 b3 (c1 ++ c2).
Proof.
  intros (-> & H1 & H2) (-> & H3 & H4). split; [done|]. rewrite count_cmds_app, H1, H3. split; [done|].
  unfold requests_only. rewrite fmap_app, join_app. by apply Forall_app.
Qed.

Lemma run_effects_keeps old new s :
  keeps T (flag s) (flag (run_effects C old new s).1) (run_effects C old new s).2.
Proof using SF.
  unfold run_effects. assert (Forall (fun e => e ∈ effects C) (effects C)) as Hin by by apply Forall_forall.
  revert Hin s. generalize (effects C) at 2 3 4. intros l Hin. induction Hin as [|e r He _ IH]; intros s; [apply keeps_nil|].
  simpl. unfold pseq, pwhen. destruct (eff_changed e old new).
  - pose proof (sf_effects e new.1 new.2 s He) as Hk.
    destruct (eff_body e new.1 new.2 s) as [s1 c1]. simpl in Hk.
    specialize (IH s1). destruct (run_list C r old new s1) as [s2 c2]. by eapply keeps_app.
  - unfold pskip. specialize (IH s). by destruct (run_list C r old new s) as [s2 c2].
Qed.

Lemma flush_keeps fuel old p s :
  keeps T (flag s) (flag (flush C fuel old p s).1) (flush C fuel old p s).2.
Proof using SF.
  revert old s. induction fuel as [|f IH]; intros old s; simpl; [apply keeps_nil|].
  destruct (any_changed C old (p, s)); [|apply keeps_nil].
  pose proof (run_effects_keeps old (p, s) s) as He. destruct (run_effects C old (p, s) s) as [s1 c1].
  specialize (IH (Some (p, s)) s1). destruct (flush C f (Some (p, s)) p s1) as [s2 c2]. by eapply keeps_app.
Qed.

(** The invariant: the flag is up exactly while one selected request is pending. *)
Definition flight_inv (c : config C) : Prop :=
  count_pend T (cpend c) = (if flag (cstate c) then 1%nat else O) /\ requests_only T (cpend c).

Lemma task_inv p s pend (m : prog (State C) (Kont C)) (b : bool) :
  count_pend T pend = (if b then 1%nat else O) -> requests_only T pend ->
  keeps T b (flag (m s).1) (m s).2 \/ starts T b (flag (m s).1) (m s).2 ->
  flight_inv (task C p s pend m).1.
Proof using SF.
  intros Hc Hr Hm. unfold task, flight_inv. destruct (m s) as [s1 c1]. simpl in Hm.
  pose proof (flush_keeps commit_fuel (Some (p, s)) p s1) as (Hf & Hn & Hq).
  destruct (flush C commit_fuel (Some (p, s)) p s1) as [s2 c2]. simpl in *.
  rewrite fmap_app, join_app, !count_pend_app, Hc, Hf. fold (count_cmds T c1). fold (count_cmds T c2).
  unfold requests_only in *. rewrite !Forall_app.
  destruct Hm as [(-> & -> & H) | (-> & -> & -> & H)]; rewrite Hn; split; try done; by destruct b.
Qed.

Lemma count_pend_split (l : list (pending (Kont C))) n q :
  l !! n = Some q ->
  count_pend T l = (count_pend T (take n l ++ drop (S n) l) + (if T (kont_of q) then 1 else 0))%nat.
Proof using Type.
  intros H. rewrite <- (take_drop_middle l n q H) at 1. rewrite !count_pend_app.
  unfold count_pend at 2. rewrite filter_cons. destruct (T (kont_of q)).
  - rewrite decide_True by done. simpl. fold (count_pend T (drop (S n) l)). lia.
  - rewrite decide_False by done. fold (count_pend T (drop (S n) l)). lia.
Qed.

Lemma after_resume_other q o keep :
  after_resume C q o = Some keep -> T (kont_of q) = false -> count_pend T keep = O /\ requests_only T keep.
Proof using Type.
  intros Ek Et. destruct q, o; try done; injection Ek as <-; try (split; [done|constructor]).
  simpl in Et. split; [|constructor; [simpl; congruence|constructor]].
  unfold count_pend. by rewrite filter_cons_False by (simpl; congruence).
Qed.

Lemma resume_inv c n q o keep :
  flight_inv c -> cpend c !! n = Some q -> after_resume C q o = Some keep ->
  flight_inv (task C (cprops c) (cstate c) (take n (cpend c) ++ keep ++ drop (S n) (cpend c))
                (resume C (kont_of q) o)).1.
Proof using SF.
  intros [Hc Hr] Eq Ek. rewrite (count_pend_split _ _ _ Eq) in Hc.
  assert (requests_only T (take n (cpend c)) /\ requests_only T (drop (S n) (cpend c)) /\ requests_only T [q])
    as (Hr1 & Hr2 & Hq).
  { unfold requests_only in *. rewrite <- (take_drop_middle _ _ _ Eq) in Hr.
    rewrite Forall_app, Forall_cons in Hr. rewrite Forall_singleton. naive_solver. }
  rewrite count_pend_app in Hc. destruct (T (kont_of q)) eqn:Et.
  - apply Forall_cons in Hq as [Hq _]. specialize (Hq Et). destruct q; try done. destruct o; [|done].
    injection Ek as <-. eapply (task_inv _ _ _ _ false); [| |left; by apply sf_resume_own].
    + rewrite !count_pend_app. change (count_pend T []) with O. destruct (flag (cstate c)); lia.
    + by repeat (apply Forall_app; split); [|constructor|].
  - destruct (after_resume_other _ _ _ Ek Et) as [Hk Hk'].
    eapply task_inv; [| |left; by apply sf_resume_other].
    + rewrite !count_pend_app, Hk. lia.
    + by repeat (apply Forall_app; split).
Qed.

Lemma flight_reachable p0 c : reachable C p0 c -> flight_inv c.
Proof using SF.
  induction 1 as [|c i c' o _ IH E].
  - unfold mount, flight_inv. pose proof (flush_keeps commit_fuel None p0 (initial C p0)) as (Hf & Hn & Hq).
    destruct (flush C commit_fuel None p0 (initial C p0)) as [s cs]. simpl in *.
    rewrite Hf, sf_initial. by split.
  - destruct i as [n pl|n pl|n out|p].
    + apply exec_event in E as (tree & h & a & Hren & Hin & Hfire & E). rewrite (f_equal fst E : c' = _).
      destruct IH as [Hc Hr]. eapply task_inv; [done|done|]. by eapply sf_handle.
    + apply exec_call in E as (h & a & Hin & Hfire & E). rewrite (f_equal fst E : c' = _).
      destruct IH as [Hc Hr]. eapply task_inv; [done|done|]. left. by eapply sf_call.
    + apply exec_resume in E as (q & keep & Eq & Ek & _ & E). rewrite (f_equal fst E : c' = _).
      by apply resume_inv.
    + destruct IH as [Hc Hr]. unfold exec in E.
      pose proof (flush_keeps commit_fuel (Some (cprops c, cstate c)) p (cstate c)) as (Hf & Hn & Hq).
      destruct (flush C commit_fuel (Some (cprops c, cstate c)) p (cstate c)) as [s cs].
      cbv beta iota in E. injection E as <- _.
      unfold flight_inv. simpl in *. rewrite count_pend_app, Hf, Hc. fold (count_cmds T cs). rewrite Hn.
      split; [by destruct (flag (cstate c))|]. by apply Forall_app.
Qed.

End SingleFlightTheory.

(** ** What a program emits *)

Section Emits.
Context {St K : Type} (Q : cmd K -> Prop).
Implicit Types m : prog St K.

(** Every command a program emits satisfies [Q]. *)
Definition emits (m : prog St K) : Prop := forall s, Forall Q (m s).2.

Lemma emits_skip : emits pskip.
Proof. intros s. constructor. Qed.

Lemma emits_modify g : emits (modify g).
Proof. intros s. constructor. Qed.

Lemma emits_emit c : Q c -> emits (emit c).
Proof. intros Hc s. by repeat constructor. Qed.

Lemma emits_seq m1 m2 : emits m1 -> emits m2 -> emits (m1 ;;; m2).
Proof.
  intros H1 H2 s. unfold pseq. specialize (H1 s). destruct (m1 s) as [s1 c1]. specialize (H2 s1).
  destruct (m2 s1) as [s2 c2]. by apply Forall_app.
Qed.

Lemma emits_if (b : bool) m1 m2 : emits m1 -> emits m2 -> emits (if b then m1 else m2).
Proof. by destruct b. Qed.

Lemma emits_when b m : emits m -> emits (pwhen b m).
Proof. destruct b; [done|]. intros _. apply emits_skip. Qed.

Lemma emits_with (g : St -> prog St K) : (forall s, emits (g s)) -> emits (with_state g).
Proof. intros Hg s. apply Hg. Qed.

Lemma emits_call c k (bad : jserr -> prog St K) :
  (forall r, c = inr r -> Q (Fetch r k)) -> (forall e, emits (bad e)) -> emits (await_call c k bad).
Proof. intros Hc Hb. destruct c as [e|r]; [apply Hb|]. by apply emits_emit, Hc. Qed.

End Emits.

#[export] Hint Resolve emits_skip emits_modify emits_emit emits_seq emits_if emits_when emits_with emits_call : emits.

Lemma emits_mono {St K} (Q R : cmd K -> Prop) (m : prog St K) : (forall c, Q c -> R c) -> emits Q m -> emits R m.
Proof. intros H1 H2 s. eapply Forall_impl; [apply H2|done]. Qed.

(** Commands whose requests are the client's. *)
Definition sends_api {K} (c : cmd K) : Prop := match c with Fetch r _ => api_request r | _ => True end.

Lemma sends_call {St K} `{Engine} c (k : K) (bad : jserr -> prog St K) :
  api_ok c -> (forall e, emits sends_api (bad e)) -> emits sends_api (await_call c k bad).
Proof. intros Hc. by apply emits_call. Qed.

Lemma sends_ext {K} e : sends_api (Ext (K := K) e).
Proof. done. Qed.

Lemma sends_timer {K} ms (k : K) : sends_api (Timer ms k).
Proof. done. Qed.

Lemma sends_interval {K} ms (k : K) : sends_api (Interval ms k).
Proof. done. Qed.

#[export] Hint Resolve sends_ext sends_timer sends_interval : emits.
#[export] Hint Resolve sends_call | 0 : emits.

(** A command that starts no interval, and programs that emit only such. *)
Definition no_interval {K} (c : cmd K) : Prop := match c with Interval _ _ => False | _ => True end.

Abbreviation quiet := (emits no_interval).

Lemma quiet_fetch {K} r (k : K) : no_interval (Fetch r k).
Proof. done. Qed.

Lemma quiet_timer {K} ms (k : K) : no_interval (Timer ms k).
Proof. done. Qed.

Lemma quiet_ext {K} e : no_interval (Ext (K := K) e).
Proof. done. Qed.

#[export] Hint Resolve quiet_fetch quiet_timer quiet_ext : emits.

(** Commands that do both. *)
Definition calm {K} (c : cmd K) : Prop := sends_api c /\ no_interval c.

Lemma calm_call {St K} `{Engine} c (k : K) (bad : jserr -> prog St K) :
  api_ok c -> (forall e, emits calm (bad e)) -> emits calm (await_call c k bad).
Proof. intros Hc. apply emits_call. intros r Hr. split; [by apply Hc|done]. Qed.

Lemma calm_ext {K} e : calm (Ext (K := K) e).
Proof. done. Qed.

Lemma calm_timer {K} ms (k : K) : calm (Timer ms k).
Proof. done. Qed.

#[export] Hint Resolve calm_ext calm_timer : emits.
#[export] Hint Resolve calm_call | 0 : emits.

(** A component whose handlers, resumed parts and effects emit only such commands. *)
Class Emitting (C : component) (Q : cmd (Kont C) -> Prop) := {
  em_handle p s a : emits Q (handle C p s a);
  em_resume k o : emits Q (resume C k o);
  em_effect e p s : e ∈ effects C -> emits Q (eff_body e p s);
}.

Lemma emitting_mono C (Q R : cmd (Kont C) -> Prop) : (forall c, Q c -> R c) -> Emitting C Q -> Emitting C R.
Proof. intros HQ [H1 H2 H3]. split; intros; eapply emits_mono; eauto. Qed.

Lemma run_list_emits C (Q : cmd (Kont C) -> Prop) l old new :
  (forall e p s, e ∈ l -> emits Q (eff_body e p s)) -> emits Q (run_list C l old new).
Proof.
  induction l as [|e r IH]; intros Hl; [apply emits_skip|]. simpl. apply emits_seq.
  - apply emits_when, Hl. by left.
  - apply IH. intros e' p s He'. apply Hl. by right.
Qed.

Section EmittingTheory.
Context (C : component) (Q : cmd (Kont C) -> Prop) `{E : !Emitting C Q}.

Lemma run_effects_emits old new s : Forall Q (run_effects C old new s).2.
Proof using E. apply run_list_emits. intros e p s0. apply em_effect. Qed.

Lemma flush_emits fuel old p s : Forall Q (flush C fuel old p s).2.
Proof using E.
  revert old s. induction fuel as [|n IH]; intros old s; [constructor|]. simpl.
  destruct (any_changed C old (p, s)); [|constructor]. pose proof (run_effects_emits old (p, s) s) as H1.
  destruct (run_effects C old (p, s) s) as [s1 c1]. specialize (IH (Some (p, s)) s1).
  destruct (flush C n (Some (p, s)) p s1) as [s2 c2]. by apply Forall_app.
Qed.

Lemma task_emits p s pend m : emits Q m -> Forall Q (task C p s pend m).2.
Proof using E.
  intros Hm. unfold task. specialize (Hm s). destruct (m s) as [s1 c1].
  pose proof (flush_emits commit_fuel (Some (p, s)) p s1) as H1.
  destruct (flush C commit_fuel (Some (p, s)) p s1) as [s2 c2]. by apply Forall_app.
Qed.

Lemma exec_emits c i c' o : exec C c i = Some (c', o) -> Forall Q o.
Proof using E.
  intros Hx. destruct i as [n pl|n pl|n out|p].
  - apply exec_event in Hx as (tree & h & a & _ & _ & _ & Hx). rewrite (f_equal snd Hx : o = _). apply task_emits, em_handle.
  - apply exec_call in Hx as (h & a & _ & _ & Hx). rewrite (f_equal snd Hx : o = _). apply task_emits, em_handle.
  - apply exec_resume in Hx as (q & keep & _ & _ & _ & Hx). rewrite (f_equal snd Hx : o = _). apply task_emits, em_resume.
  - unfold exec in Hx. pose proof (flush_emits commit_fuel (Some (cprops c, cstate c)) p (cstate c)) as H1.
    destruct (flush C commit_fuel _ p (cstate c)) as [s cs]. cbv beta iota in Hx. by injection Hx as _ <-.
Qed.

End EmittingTheory.

(** ** Polling

    A view that starts an interval in the effect of its first commit, and
    nowhere else, polls at one rate for as long as it is shown. *)

Definition is_interval {K} (q : pending K) : bool := match q with PInterval _ => true | _ => false end.
(** [clearInterval] for the interval of an effect. *)
Definition clearInterval {K} (l : list (pending K)) : list (pending K) := filter (fun q => is_interval q = false) l.

Definition intervals {K} (l : list (pending K)) : nat := length (filter (fun q => is_interval q = true) l).

Lemma intervals_app {K} (l1 l2 : list (pending K)) : intervals (l1 ++ l2) = (intervals l1 + intervals l2)%nat.
Proof. unfold intervals. by rewrite filter_app, length_app. Qed.

Lemma no_intervals {K} (cs : list (cmd K)) : Forall no_interval cs -> intervals (pends cs) = O.
Proof.
  induction 1 as [|c l Hc _ IH]; [done|]. change (intervals (pending_of c ++ pends l) = O).
  rewrite intervals_app, IH. by destruct c.
Qed.

(** What a polling view promises: the first round of effects starts [n]
    intervals; nothing else starts one. *)
Class Polls (C : component) (n : nat) := {
  polls_mount p : intervals (pends (run_effects C None (p, initial C p) (initial C p)).2) = n;
  polls_handle p s a : quiet (handle C p s a);
  polls_resume k o : quiet (resume C k o);
  polls_effects e old new : e ∈ effects C -> eff_changed e (Some old) new = true -> quiet (eff_body e new.1 new.2);
}.

(** A view that never starts one. *)
Lemma calm_polls C `{E : !Emitting C calm} : Polls C 0.
Proof.
  assert (Emitting C no_interval) as En by (eapply emitting_mono; [|exact E]; by intros c []).
  split; [|apply em_handle|apply em_resume|intros e old new He _; by apply em_effect].
  intros p. by apply no_intervals, run_effects_emits.
Qed.

Section PollsTheory.
Context (C : component) (N : nat) `{P : !Polls C N}.

Lemma run_list_quiet l old new : (forall e, e ∈ l -> e ∈ effects C) -> quiet (run_list C l (Some old) new).
Proof using P.
  induction l as [|e r IH]; intros Hl; [apply emits_skip|]. simpl. apply emits_seq.
  - unfold pwhen. destruct (eff_changed e (Some old) new) eqn:E; [|apply emits_skip].
    eapply polls_effects; [|exact E]. apply Hl. by left.
  - apply IH. intros e' He'. apply Hl. by right.
Qed.

Lemma flush_quiet fuel old p s : Forall no_interval (flush C fuel (Some old) p s).2.
Proof using P.
  revert old s. induction fuel as [|n IH]; intros old s; [constructor|]. simpl.
  destruct (any_changed C (Some old) (p, s)); [|constructor].
  pose proof (run_list_quiet (effects C) old (p, s) (fun e He => He) s) as H1. unfold run_effects.
  destruct (run_list C (effects C) (Some old) (p, s) s) as [s1 c1]. specialize (IH (p, s) s1).
  destruct (flush C n (Some (p, s)) p s1) as [s2 c2]. by apply Forall_app.
Qed.

Lemma task_intervals p s pend m :
  quiet m -> intervals (cpend (task C p s pend m).1) = intervals pend.
Proof using P.
  intros Hm. unfold task. specialize (Hm s). destruct (m s) as [s1 c1].
  pose proof (flush_quiet commit_fuel (p, s) p s1) as H1. destruct (flush C commit_fuel (Some (p, s)) p s1) as [s2 c2].
  simpl in *. rewrite intervals_app, no_intervals by by apply Forall_app. lia.
Qed.

Lemma mount_intervals p : intervals (cpend (mount C p).1) = N.
Proof using P.
  unfold mount. destruct commit_fuel_pos as [n ->]. simpl. pose proof (polls_mount p) as H1.
  destruct (any_changed C None (p, initial C p)) eqn:E.
  - destruct (run_effects C None (p, initial C p) (initial C p)) as [s1 c1].
    pose proof (flush_quiet n (p, initial C p) p s1) as H2. destruct (flush C n _ p s1) as [s2 c2]. simpl in *.
    rewrite pends_app, intervals_app, (no_intervals c2) by done. lia.
  - unfold run_effects in H1. by rewrite run_list_idle in H1.
Qed.

Lemma resume_intervals q o keep : after_resume C q o = Some keep -> intervals keep = intervals [q].
Proof. by destruct q, o; intros [= <-]. Qed.

Lemma polls_reachable p0 c : reachable C p0 c -> intervals (cpend c) = N.
Proof using P.
  induction 1 as [|c i c' o _ IH E]; [apply mount_intervals|]. destruct i as [n pl|n pl|n out|p].
  - apply exec_event in E as (tree & h & a & _ & _ & _ & E). rewrite (f_equal fst E : c' = _).
    by rewrite task_intervals by apply polls_handle.
  - apply exec_call in E as (h & a & _ & _ & E). rewrite (f_equal fst E : c' = _).
    by rewrite task_intervals by apply polls_handle.
  - apply exec_resume in E as (q & keep & Eq & Ek & _ & E). rewrite (f_equal fst E : c' = _).
    rewrite task_intervals by apply polls_resume. rewrite <- (take_drop_middle _ _ _ Eq) in IH.
    rewrite !intervals_app, (resume_intervals q out keep Ek). rewrite intervals_app in IH.
    change (q :: drop (S n) (cpend c)) with ([q] ++ drop (S n) (cpend c)) in IH. rewrite intervals_app in IH. done.
  - unfold exec in E. pose proof (flush_quiet commit_fuel (cprops c, cstate c) p (cstate c)) as H1.
    destruct (flush C commit_fuel _ p (cstate c)) as [s cs]. cbv beta iota in E. injection E as <- _. simpl in *.
    rewrite intervals_app, no_intervals by done. lia.
Qed.

End PollsTheory.

(** Components without callbacks have nothing to promise about them. *)
Ltac no_calls := intros; match goal with H : _ ∈ callbacks _ |- _ => by apply not_elem_of_nil in H end.
