(* ===== verification/LatestWins.v ===== *)
(** The latest-request guard that the collection and time series views share: a
    counter kept in a ref numbers the requests, and a response changes the view
    only when its number is still the counter. The class states what a view
    promises of its handlers; the theory derives what the event loop keeps. *)

From S2P Require Import Prelude JsString JsNumber Json Api React.

Open Scope N_scope.

(** What the guard looks at: the counter and the loading flag. *)
Abbreviation obs := (N * bool)%type.

(** Starting requests: each takes the next number and raises the flag; one that
    throws before it is sent lowers it again. *)
Inductive issues : obs -> list N -> obs -> Prop :=
| issue_none o : issues o [] o
| issue_send n b : issues (n, b) [n + 1] (n + 1, true)
| issue_throw n b : issues (n, b) [] (n + 1, false)
| issue_seq o1 l1 o2 l2 o3 : issues o1 l1 o2 -> issues o2 l2 o3 -> issues o1 (l1 ++ l2) o3.

Section Tags.
Context {K : Type} (tag : K -> option N).

(** The numbers of the pending requests. *)
Definition ids (l : list (pending K)) : list N := omap (fun q => tag (kont_of q)) l.

(** Only requests carry a number. *)
Definition fetch_tagged (l : list (pending K)) : Prop :=
  Forall (fun q => match q with PFetch _ _ => True | _ => tag (kont_of q) = None end) l.

Lemma ids_app l1 l2 : ids (l1 ++ l2) = ids l1 ++ ids l2.
Proof. apply omap_app. Qed.

Definition guard_inv (o : obs) (l : list (pending K)) : Prop :=
  fetch_tagged l /\ NoDup (ids l) /\ Forall (fun i => i <= o.1) (ids l) /\ (o.2 = true <-> o.1 ∈ ids l).

(** The flag is up exactly while a request with the latest number is pending. *)
Lemma guard_loading o l : guard_inv o l -> (o.2 = true <-> exists r k, PFetch r k ∈ l /\ tag k = Some o.1).
Proof.
  intros (Hl & _ & _ & ->). unfold ids. rewrite list_elem_of_omap. split.
  - intros (q & Hq & Et). unfold fetch_tagged in Hl. rewrite Forall_forall in Hl. specialize (Hl q Hq).
    destruct q as [r k|k|k]; [by exists r, k|by rewrite Et in Hl..].
  - intros (r & k & Hin & Et). by exists (PFetch r k).
Qed.

Lemma issues_inv o1 new o2 (l : list N) :
  issues o1 new o2 ->
  NoDup l -> Forall (fun i => i <= o1.1) l -> (o1.2 = true <-> o1.1 ∈ l) ->
  NoDup (l ++ new) /\ Forall (fun i => i <= o2.1) (l ++ new) /\ (o2.2 = true <-> o2.1 ∈ l ++ new).
Proof.
  intros Hi. revert l. induction Hi as [o|n b|n b|o1 l1 o2 l2 o3 _ IH1 _ IH2]; intros l Hn Hf Hl.
  - by rewrite app_nil_r.
  - assert (n + 1 ∉ l) as Hnew by (intros Hin; rewrite Forall_forall in Hf; specialize (Hf _ Hin); simpl in Hf; lia).
    split; [|split].
    + apply NoDup_app. split; [done|]. split; [|apply NoDup_singleton]. by intros x Hx ->%list_elem_of_singleton.
    + apply Forall_app. split; [|by constructor; [simpl; lia|]]. eapply Forall_impl; [done|]. simpl. lia.
    + simpl. rewrite elem_of_app, list_elem_of_singleton. naive_solver.
  - rewrite app_nil_r. split; [done|]. split; [eapply Forall_impl; [done|]; simpl; lia|]. simpl.
    split; [done|]. intros Hin. rewrite Forall_forall in Hf. specialize (Hf _ Hin). simpl in Hf. lia.
  - destruct (IH1 l) as (? & ? & ?); auto. rewrite app_assoc. auto.
Qed.

Lemma guard_issue o1 o2 l cs :
  issues o1 (ids (pends cs)) o2 -> fetch_tagged (pends cs) -> guard_inv o1 l -> guard_inv o2 (l ++ pends cs).
Proof.
  intros Hi Ht (Hl & Hn & Hf & Hb). split; [by apply Forall_app|]. rewrite ids_app. by eapply issues_inv.
Qed.

(** Removing the answered request: the flag falls exactly with the latest one. *)
Lemma guard_answer n b l1 r k l2 i :
  tag k = Some i -> guard_inv (n, b) (l1 ++ PFetch r k :: l2) ->
  guard_inv (n, if i =? n then false else b) (l1 ++ l2).
Proof.
  intros Et (Hl & Hn & Hf & Hb). unfold guard_inv, fetch_tagged in *. rewrite ids_app in *. simpl in *. rewrite Et in *.
  apply Forall_app in Hl as [Hl1 [_ Hl2]%Forall_cons]. split; [by apply Forall_app|].
  apply NoDup_app in Hn as (Hn1 & Hx & [Hni Hn2]%NoDup_cons). split.
  { apply NoDup_app. split; [done|]. split; [|done]. intros x Hx1 Hx2. apply (Hx x Hx1). by right. }
  apply Forall_app in Hf as [Hf1 [Hi Hf2]%Forall_cons]. split; [by apply Forall_app|].
  specialize (Hx i). rewrite elem_of_app in *. rewrite elem_of_cons in *.
  destruct (i =? n) eqn:E; to_prop; [|naive_solver]. subst i. split; [done|]. naive_solver.
Qed.

Lemma guard_skip o q keep l1 l2 :
  tag (kont_of q) = None -> (keep = [] \/ keep = [q]) -> guard_inv o (l1 ++ q :: l2) -> guard_inv o (l1 ++ keep ++ l2).
Proof.
  intros Et Hk (Hl & H2). unfold guard_inv, fetch_tagged in *.
  assert (ids (l1 ++ keep ++ l2) = ids (l1 ++ q :: l2)) as ->.
  { rewrite !ids_app. f_equal. simpl. rewrite Et. destruct Hk as [-> | ->]; simpl; by rewrite ?Et. }
  split; [|done]. apply Forall_app in Hl as [Hl1 [Hq Hl2]%Forall_cons].
  apply Forall_app. split; [done|]. apply Forall_app. split; [|done]. destruct Hk as [-> | ->]; by repeat constructor.
Qed.

End Tags.

(** A program that does nothing to the counter, the flag and the numbered
    requests but start requests. *)
Section Programs.
Context {St K : Type} (observe : St -> obs) (tag : K -> option N).

Definition issuing (m : prog St K) : Prop := forall s,
  issues (observe s) (ids tag (pends (m s).2)) (observe (m s).1) /\ fetch_tagged tag (pends (m s).2).

Lemma issuing_skip : issuing pskip.
Proof. intros s. split; [constructor|by constructor]. Qed.

Lemma issuing_modify f : (forall s, observe (f s) = observe s) -> issuing (modify f).
Proof. intros Hf s. simpl. rewrite Hf. split; [constructor|by constructor]. Qed.

Lemma issuing_seq m1 m2 : issuing m1 -> issuing m2 -> issuing (pseq m1 m2).
Proof.
  intros H1 H2 s. unfold pseq. destruct (H1 s) as [Hi Ht]. destruct (m1 s) as [s1 c1].
  destruct (H2 s1) as [Hi2 Ht2]. destruct (m2 s1) as [s2 c2]. cbn [fst snd] in *.
  rewrite pends_app, ids_app. split; [by eapply issue_seq|by apply Forall_app].
Qed.

(** A command without a number. *)
Lemma issuing_emit c : ids tag (pending_of c) = [] -> fetch_tagged tag (pending_of c) -> issuing (emit c).
Proof. intros Hc Ht s. simpl. rewrite app_nil_r, Hc. by split; [constructor|]. Qed.

Lemma issuing_call c k bad :
  tag k = None -> (forall e, issuing (bad e)) -> issuing (await_call c k bad).
Proof.
  intros Hk Hb. destruct c as [e|r]; [apply Hb|]. apply issuing_emit; [by simpl; rewrite Hk|by repeat constructor].
Qed.

Lemma issuing_if (b : bool) m1 m2 : issuing m1 -> issuing m2 -> issuing (if b then m1 else m2).
Proof. by destruct b. Qed.

Lemma issuing_with f : (forall s, issuing (f s)) -> issuing (with_state f).
Proof. intros Hf s. apply Hf. Qed.

End Programs.

#[export] Hint Resolve issuing_skip issuing_modify issuing_seq issuing_call issuing_if issuing_with issuing_emit : js.

(** What a view with the guard promises. *)
Class LatestWins (C : component) (observe : State C -> obs) (tag : Kont C -> option N) := {
  lw_initial p : observe (initial C p) = (0, false);
  lw_handle p env a : issuing observe tag (handle C p env a);
  lw_effect e p env : e ∈ effects C -> issuing observe tag (eff_body e p env);
  lw_answer k i f s : tag k = Some i -> accepts C k (Settled f) = true ->
    (resume C k (Settled f) s).2 = []
    /\ observe (resume C k (Settled f) s).1 = ((observe s).1, if i =? (observe s).1 then false else (observe s).2);
  lw_other k o : tag k = None -> issuing observe tag (resume C k o);
}.

Section Theory.
Context (C : component) (observe : State C -> obs) (tag : Kont C -> option N).
Context `{LW : !LatestWins C observe tag}.

Definition guarded (_ : Props C) (s : State C) (l : list (pending (Kont C))) : Prop := guard_inv tag (observe s) l.

#[export] Instance guarded_invariant : Invariant C guarded.
Proof using LW.
  assert (forall e p s0 s pend, e ∈ effects C -> guarded p s pend ->
    guarded p (eff_body e p s0 s).1 (pend ++ pends (eff_body e p s0 s).2)) as He.
  { intros e p s0 s pend Hin Hg. destruct (lw_effect e p s0 Hin s). by eapply guard_issue. }
  split.
  - intros p. apply (run_list_safe C guarded (effects C) None (p, initial C p) _ []); [done|].
    unfold guarded. rewrite lw_initial. repeat split; try done; try constructor. by intros ?%not_elem_of_nil.
  - intros p s pend tree h pl a Hg _ _ _. destruct (lw_handle p s a s). by eapply guard_issue.
  - intros p s pend h pl a Hg _ _. destruct (lw_handle p s a s). by eapply guard_issue.
  - intros p s l1 q l2 o keep Hg Hk Ha. unfold guarded in *. destruct (tag (kont_of q)) as [i|] eqn:Et.
    + assert (exists r k, q = PFetch r k) as (r & k & ->).
      { destruct Hg as [Hl _]. apply Forall_app in Hl as [_ [Hq _]%Forall_cons]. destruct q; [by eauto|by rewrite Et in Hq..]. }
      destruct o as [f|]; [|done]. injection Hk as <-. simpl in *.
      destruct (lw_answer k i f s Et Ha) as [-> ->]. rewrite app_nil_r.
      destruct (observe s) as [n b]. by eapply guard_answer.
    + destruct (lw_other (kont_of q) o Et s). eapply guard_issue; [done|done|]. eapply guard_skip; [done| |done].
      destruct q, o; simplify_eq/=; auto.
  - done.
  - intros p p' s pend Hg. by apply (run_list_safe C guarded (effects C) (Some (p, s)) (p', s)).
Qed.

(** The flag is up exactly while the latest request is pending, and no number
    is pending twice. *)
Lemma latest_reachable p0 c : reachable C p0 c ->
  NoDup (ids tag (cpend c)) /\ Forall (fun i => i <= (observe (cstate c)).1) (ids tag (cpend c))
  /\ ((observe (cstate c)).2 = true <-> exists r k, PFetch r k ∈ cpend c /\ tag k = Some (observe (cstate c)).1).
Proof using LW.
  intros Hr. apply (invariant_reachable C guarded) in Hr. pose proof (guard_loading _ _ _ Hr).
  by destruct Hr as (_ & ? & ? & _).
Qed.

End Theory.
