(* ===== verification/Quiescence.v ===== *)
(** Progress of the event loop: answering requests ends, and a view that shows it
    is busy is waiting for an answer. *)

From S2P Require Import Prelude JsString JsNumber Json Api React LatestWins.

Open Scope nat_scope.

(** ** Answers run out

    Every suspended part has a weight that covers the requests it starts when
    it is answered; answering then uses the weight up. *)

Definition fetch_weight {K} (w : K -> nat) (q : pending K) : nat := match q with PFetch _ k => w k | _ => 0 end.
Definition weigh {K} (w : K -> nat) (l : list (pending K)) : nat := sum_list_with (fetch_weight w) l.

Lemma weigh_app {K} (w : K -> nat) l1 l2 : weigh w (l1 ++ l2) = weigh w l1 + weigh w l2.
Proof. unfold weigh. by rewrite sum_list_with_app. Qed.

Lemma task_cpend C p s pend m : cpend (task C p s pend m).1 = pend ++ pends (task C p s [] m).2.
Proof. unfold task. destruct (m s) as [s1 c1]. by destruct (flush C commit_fuel (Some (p, s)) p s1). Qed.

(** A task whose commits change no dependency emits what its program emits. *)
Lemma task_idle C p s pend (m : prog (State C) (Kont C)) :
  any_changed C (Some (p, s)) (p, (m s).1) = false -> (task C p s pend m).2 = (m s).2.
Proof.
  unfold task. destruct (m s) as [s1 c1]. cbn [fst snd]. intros Hi. destruct commit_fuel_pos as [n ->].
  simpl. rewrite Hi. by rewrite app_nil_r.
Qed.

(** Programs that start requests of bounded weight. *)
Section Costs.
Context {St K : Type} (w : K -> nat).
Implicit Types m : prog St K.

Definition costs (n : nat) (m : prog St K) : Prop := forall s, weigh w (pends (m s).2) <= n.

Lemma costs_skip n : costs n pskip.
Proof. intros s. apply Nat.le_0_l. Qed.

Lemma costs_modify n g : costs n (modify g).
Proof. intros s. apply Nat.le_0_l. Qed.

Lemma costs_emit n c : weigh w (pending_of c) <= n -> costs n (emit c).
Proof. intros Hc s. simpl. by rewrite app_nil_r. Qed.

Lemma costs_first n m1 m2 : costs 0 m1 -> costs n m2 -> costs n (m1 ;;; m2).
Proof.
  intros H1 H2 s. unfold pseq. specialize (H1 s). destruct (m1 s) as [s1 c1]. specialize (H2 s1).
  destruct (m2 s1) as [s2 c2]. cbn [fst snd] in *. rewrite pends_app, weigh_app. lia.
Qed.

Lemma costs_last n m1 m2 : costs n m1 -> costs 0 m2 -> costs n (m1 ;;; m2).
Proof.
  intros H1 H2 s. unfold pseq. specialize (H1 s). destruct (m1 s) as [s1 c1]. specialize (H2 s1).
  destruct (m2 s1) as [s2 c2]. cbn [fst snd] in *. rewrite pends_app, weigh_app. lia.
Qed.

Lemma costs_if n (b : bool) m1 m2 : costs n m1 -> costs n m2 -> costs n (if b then m1 else m2).
Proof. by destruct b. Qed.

Lemma costs_when n b m : costs n m -> costs n (pwhen b m).
Proof. destruct b; [done|]. intros _. apply costs_skip. Qed.

Lemma costs_with n (g : St -> prog St K) : (forall s, costs n (g s)) -> costs n (with_state g).
Proof. intros Hg s. apply Hg. Qed.

Lemma costs_call n c k (bad : jserr -> prog St K) :
  w k <= n -> (forall e, costs n (bad e)) -> costs n (await_call c k bad).
Proof. intros Hk Hb. destruct c as [e|r]; [apply Hb|]. apply costs_emit. unfold weigh. simpl. lia. Qed.

End Costs.

Create HintDb costs.
#[export] Hint Resolve costs_skip costs_modify costs_emit costs_first costs_last costs_if costs_when costs_with costs_call : costs.
#[export] Hint Extern 1 (_ <= _) => (unfold weigh; simpl; lia) : costs.

Class Drains (C : component) (w : Kont C -> nat) := {
  dr_positive k : 0 < w k;
  dr_task p s k f : accepts C k (Settled f) = true ->
    weigh w (pends (task C p s [] (resume C k (Settled f))).2) < w k;
  dr_fails k e : accepts C k (Settled (NetworkError e)) = true;
}.

(** Answers that change no dependency cost what their program costs. *)
Lemma drains_idle (C : component) w p s k f n :
  any_changed C (Some (p, s)) (p, (resume C k (Settled f) s).1) = false ->
  costs w n (resume C k (Settled f)) -> n < w k ->
  weigh w (pends (task C p s [] (resume C k (Settled f))).2) < w k.
Proof. intros Hi Hc Hn. rewrite task_idle by done. specialize (Hc s). lia. Qed.

(** The answer to a pending request. *)
Definition is_answer {C} (i : input C) : Prop := match i with IResume _ (Settled _) => True | _ => False end.

Section DrainTheory.
Context (C : component) (w : Kont C -> nat) `{D : !Drains C w}.

Lemma answer_weighs c i c' o : exec C c i = Some (c', o) -> is_answer i -> weigh w (cpend c') < weigh w (cpend c).
Proof using D.
  destruct i as [| |n [f|]|]; try done. intros Hx _.
  apply exec_resume in Hx as (q & keep & Eq & Ek & Ha & Hx). rewrite (f_equal fst Hx : c' = _), task_cpend.
  destruct q as [r k|k|k]; try done. injection Ek as <-. pose proof (dr_task (cprops c) (cstate c) k f Ha) as Hw.
  rewrite <- (take_drop_middle _ _ _ Eq) at 3. rewrite !weigh_app. unfold weigh in *. simpl in *. lia.
Qed.

(** A run of answers uses the weight up. *)
Lemma answers_weigh ins c c' o :
  run C c ins = Some (c', o) -> Forall is_answer ins -> length ins + weigh w (cpend c') <= weigh w (cpend c).
Proof using D.
  revert c o. induction ins as [|i r IH]; intros c o; simpl; [by intros [= <- _]|].
  destruct (exec C c i) as [[c1 o1]|] eqn:E; [|done]. simpl.
  destruct (run C c1 r) as [[c2 o2]|] eqn:E2; [|done]. simpl. intros [= <- _] [Hi Hr]%Forall_cons.
  pose proof (answer_weighs c i c1 o1 E Hi). specialize (IH c1 o2 E2 Hr). lia.
Qed.

(** A pending request can be answered. *)
Lemma answer_possible c r k e : PFetch r k ∈ cpend c ->
  exists n c' o, exec C c (IResume n (Settled (NetworkError e))) = Some (c', o).
Proof using D.
  intros [n Hn]%list_elem_of_lookup. exists n. unfold exec. rewrite Hn. simpl. rewrite (dr_fails k e). simpl.
  destruct (task C _ _ _ _) as [c' o]. eauto.
Qed.

End DrainTheory.

(** ** Busy views wait for an answer *)

Class Waits (C : component) (busy : State C -> bool) := {
  busy_waits p0 c : reachable C p0 c -> busy (cstate c) = true -> exists r k, PFetch r k ∈ cpend c;
}.

Lemma flight_waits (C : component) flag T `{!SingleFlight C flag T} : Waits C flag.
Proof.
  split. intros p0 c Hr Hb. destruct (flight_reachable C flag T p0 c Hr) as [Hc Ho]. rewrite Hb in Hc.
  unfold count_pend in Hc. destruct (filter _ (cpend c)) as [|q l] eqn:Ef; [done|].
  assert (q ∈ filter (fun q => T (kont_of q) = true) (cpend c)) as [Hq Hin]%list_elem_of_filter by (rewrite Ef; by left).
  unfold requests_only in Ho. rewrite Forall_forall in Ho. specialize (Ho q Hin Hq). destruct q as [r k| |]; [by eauto|done..].
Qed.

Lemma latest_waits (C : component) observe tag `{!LatestWins C observe tag} : Waits C (fun s => (observe s).2).
Proof.
  split. intros p0 c Hr Hb. destruct (latest_reachable C observe tag p0 c Hr) as (_ & _ & Hl).
  apply Hl in Hb as (r & k & Hin & _). eauto.
Qed.

(** Views without a guard: a program that raises the flag starts a request
    that lowers it. *)
Section Raising.
Context {St K : Type} (flag : St -> bool) (T : K -> bool).
Implicit Types m : prog St K.

Definition awaits (l : list (pending K)) : Prop := exists r k, T k = true /\ PFetch r k ∈ l.

Definition raises (m : prog St K) : Prop := forall s, flag (m s).1 = true -> flag s = true \/ awaits (pends (m s).2).

Lemma awaits_app l1 l2 : awaits (l1 ++ l2) <-> awaits l1 \/ awaits l2.
Proof. unfold awaits. setoid_rewrite elem_of_app. naive_solver. Qed.

Lemma raises_frames m : frames flag m -> raises m.
Proof. intros Hf s. rewrite Hf. by left. Qed.

Lemma raises_modify g : (forall s, flag (g s) = flag s) -> raises (modify g).
Proof. intros Hg. by apply raises_frames. Qed.

Lemma raises_skip : raises pskip.
Proof. by left. Qed.

Lemma raises_emit c : raises (emit c).
Proof. by left. Qed.

Lemma raises_seq m1 m2 : raises m1 -> raises m2 -> raises (m1 ;;; m2).
Proof.
  intros H1 H2 s. unfold pseq. specialize (H1 s). destruct (m1 s) as [s1 c1]. specialize (H2 s1).
  destruct (m2 s1) as [s2 c2]. cbn [fst snd] in *. rewrite pends_app, awaits_app. naive_solver.
Qed.

Lemma raises_if (b : bool) m1 m2 : raises m1 -> raises m2 -> raises (if b then m1 else m2).
Proof. by destruct b. Qed.

Lemma raises_call c k (bad : jserr -> prog St K) : (forall e, raises (bad e)) -> raises (await_call c k bad).
Proof. intros Hb. destruct c; [apply Hb|apply raises_emit]. Qed.

End Raising.

#[export] Hint Resolve raises_modify raises_skip raises_emit raises_seq raises_if raises_call : js.

Class Raises (C : component) (flag : State C -> bool) (T : Kont C -> bool) := {
  ra_initial p : flag (initial C p) = false;
  ra_handle p s a : raises flag T (handle C p s a);
  ra_effect e p s : e ∈ effects C -> raises flag T (eff_body e p s);
  ra_other k o : T k = false -> raises flag T (resume C k o);
  ra_own k o s : T k = true -> flag (resume C k o s).1 = true -> awaits T (pends (resume C k o s).2);
}.

Section RaisesTheory.
Context (C : component) (flag : State C -> bool) (T : Kont C -> bool) `{R : !Raises C flag T}.

Definition raised (_ : Props C) (s : State C) (l : list (pending (Kont C))) : Prop := flag s = true -> awaits T l.

Lemma raised_by p s pend m : raises flag T m -> raised p s pend -> raised p (m s).1 (pend ++ pends (m s).2).
Proof using Type. intros Hm Hs Hf. rewrite awaits_app. destruct (Hm s Hf); [left; by apply Hs|by right]. Qed.

#[export] Instance raised_invariant : Invariant C raised.
Proof using R.
  assert (forall e p s0 s pend, e ∈ effects C -> raised p s pend ->
    raised p (eff_body e p s0 s).1 (pend ++ pends (eff_body e p s0 s).2)) as He.
  { intros e p s0 s pend Hin. by apply raised_by, ra_effect. }
  split.
  - intros p. apply (run_list_safe C raised (effects C) None (p, initial C p) _ []); [done|].
    intros Hf. by rewrite ra_initial in Hf.
  - intros p s pend tree h pl a Hs _ _ _. by apply raised_by, Hs; apply ra_handle.
  - intros p s pend h pl a Hs _ _. by apply raised_by, Hs; apply ra_handle.
  - intros p s l1 q l2 o keep Hs Hk _ Hf. destruct (T (kont_of q)) eqn:Et.
    + rewrite awaits_app. right. by apply ra_own.
    + destruct (ra_other (kont_of q) o Et s Hf) as [Hb|Hb]; rewrite awaits_app; [left|by right].
      destruct (Hs Hb) as (r & k & Hk' & Hin). exists r, k. split; [done|].
      rewrite !elem_of_app, elem_of_cons in Hin. rewrite !elem_of_app.
      destruct Hin as [|[<-|]]; [by left| |by right; right]. simpl in Et. congruence.
  - done.
  - intros p p' s pend Hs. by apply (run_list_safe C raised (effects C) (Some (p, s)) (p', s)).
Qed.

Lemma raises_waits : Waits C flag.
Proof using R.
  split. intros p0 c Hr Hb. destruct (invariant_reachable C raised p0 c Hr Hb) as (r & k & _ & Hin). eauto.
Qed.

End RaisesTheory.

(** Answering ends, and it ends with a view that is not busy: a run of answers is
    never longer than the weight of what is pending, and while the view is busy
    another answer can come. *)
Lemma quiesces (C : component) w busy `{!Drains C w, !Waits C busy} p0 c ins c' o :
  reachable C p0 c -> run C c ins = Some (c', o) -> Forall is_answer ins ->
  length ins <= weigh w (cpend c)
  /\ (busy (cstate c') = true -> forall e, exists n c'' o', exec C c' (IResume n (Settled (NetworkError e))) = Some (c'', o')).
Proof.
  intros Hr Hrun Ha. pose proof (answers_weigh C w ins c c' o Hrun Ha). split; [lia|]. intros Hb e.
  destruct (busy_waits p0 c' (reachable_run C p0 c ins c' o Hr Hrun) Hb) as (r & k & Hin). by eapply answer_possible.
Qed.
