(* ===== verification/ViewCommon.v ===== *)
(** Pieces the views share: the typing of a filter value, form elements, and
    the lemmas and tactics that analyse the handlers a tree offers. *)

From S2P Require Import Prelude JsString JsNumber Json Api Types React.

Open Scope N_scope.

(** Texts that depend on the user's locale: [new Date(s).toLocaleTimeString()],
    [new Date(s).toLocaleString()] and [n.toLocaleString()]. *)
Class Locale := {
  localeTime : jstr -> jstr;
  localeDate : jstr -> jstr;
  localeNumber : num -> jstr;
}.

(** The value a filter text stands for: a boolean, a number, or the text. *)
Definition filter_value (s : jstr) : val :=
  if str_eq s (js "true") then VBool true
  else if str_eq s (js "false") then VBool false
  else if negb (isNaN (Number s)) && negb (str_eq (trim s) []) then VNum (Number s)
  else VStr s.

(** A filter text is typed without loss: [true] and [false] are the booleans, a
    text that reads as a number is that number and never NaN, a numeral is its
    value, and any other text is itself. *)
Lemma filter_typing n s :
  filter_value (digits n) = VNum (num_of_Z (Z.of_N n)) /\
  match filter_value s with
  | VBool b => s = if b then js "true" else js "false"
  | VNum x => x = Number s /\ isNaN x = false /\ trim s <> []
  | VStr t => t = s
  | _ => False
  end.
Proof.
  split.
  - unfold filter_value. rewrite Number_digits, num_of_Z_not_nan, trim_digits by apply digits_digit.
    pose proof (digits_digit n) as Hd. pose proof (digits_nonempty n) as Hne. unfold str_eq.
    rewrite !bool_decide_eq_false_2; [done|done|..]; intros E; rewrite E in Hd; by inversion Hd.
  - unfold filter_value, str_eq. repeat case_bool_decide; try done; by destruct (isNaN (Number s)) eqn:E.
Qed.

(** One entry of a [filters] array. *)
Definition filter_entry (field op : jstr) (v : val) : val :=
  VObj [(js "field", VStr field); (js "op", VStr op); (js "value", v)].

(** What a suspended request resumes with: the decoded response, or the error
    that [catch] receives. *)
Definition awaited `{Engine} {St K A} (dec : val -> option A) (o : outcome)
  (ok : A -> prog St K) (bad : jserr -> prog St K) : prog St K :=
  match o with
  | Settled f =>
      match settle f with
      | inl e => bad e
      | inr v => match dec v with Some a => ok a | None => pskip end
      end
  | Fired => pskip
  end.

(** The outcomes of a request whose response has an interface. *)
Definition conforms `{Engine} {A} (dec : val -> option A) (o : outcome) : bool :=
  match o with Settled f => success dec (settle f) | Fired => true end.

(** [x.trim() ? a : b] *)
Definition if_text {B} (s : jstr) (a b : B) : B := if truthy_str (trim s) then a else b.

Section Forms.
Context {A : Type}.

Definition input (type placeholder value : jstr) (f : jstr -> A) : node A :=
  El (js "input") [(js "type", type); (js "placeholder", placeholder); (js "value", value)] false [OnText f] [].

Definition textarea (placeholder value : jstr) (f : jstr -> A) : node A :=
  El (js "textarea") [(js "placeholder", placeholder); (js "value", value)] false [OnText f] [].

Definition select (value : jstr) (opts : list (jstr * jstr)) (f : jstr -> A) : node A :=
  El (js "select") [(js "value", value)] false [OnSelect opts.*1 f] (map (fun o => option_el o.1 o.2) opts).

Definition checkbox (checked : bool) (f : bool -> A) : node A :=
  El (js "input") [(js "type", js "checkbox"); (js "checked", if checked then js "true" else js "false")] false [OnCheck f] [].

(** A range slider offers the integers from [lo] to [hi]. *)
Definition range_values (lo hi : N) : list jstr := (fun i => digits (N.of_nat i)) <$> seq (N.to_nat lo) (N.to_nat (hi - lo + 1)).
Definition range (lo hi : N) (value : jstr) (f : jstr -> A) : node A :=
  El (js "input") [(js "type", js "range"); (js "min", digits lo); (js "max", digits hi); (js "value", value)] false
    [OnSelect (range_values lo hi) f] [].

(** The red or green message boxes: nothing when there is no message. *)
Definition message_box (m : option jstr) : list (node A) :=
  match m with
  | Some s => when (truthy_str s) [el "div" [el "span" [Txt s]]]
  | None => []
  end.

End Forms.

(** [xs.map((x, i) => ...)] on children. *)
Definition mapi {A B} (f : nat -> A -> B) (l : list A) : list B := imap f l.

(** An optional JSON preview, [v && <pre>...</pre>] on an object. *)
Definition json_preview {A} (v : option jsobj) : list (node A) :=
  match v with Some o => [el "pre" [Txt (stringify2 (VObj o))]] | None => [] end.

(** [doc_id || `#${id}`] *)
Definition doc_label (doc_id : option jstr) (id : num) : jstr := str_or (default [] doc_id) (js "#" ++ num_str id).

(** The options of a collection selector. *)
Definition collection_options (cs : list CatalogObject) : list (jstr * jstr) :=
  match cs with
  | [] => [([], js "(No collections in database)")]
  | _ => map (fun c => (co_name c, co_name c)) cs
  end.

(** A collection selector offers the names of the catalog, or the empty one. *)
Lemma collection_option_values cs v :
  v ∈ (collection_options cs).*1 -> v ∈ co_name <$> cs \/ (co_name <$> cs = [] /\ v = []).
Proof.
  unfold collection_options. destruct cs as [|x r]; [intros ->%list_elem_of_singleton; by right|].
  intros (p & -> & (c & <- & Hc%list_elem_of_In)%list_elem_of_In%in_map_iff)%list_elem_of_fmap. left. by apply (list_elem_of_fmap_2 co_name).
Qed.

(** Reduce [h ∈ handlers tree] to the handlers written in the tree. *)
Lemma handlers_el {A} tag (kids : list (node A)) : handlers (el tag kids) = handlers_of kids.
Proof. unfold el. by rewrite handlers_El. Qed.

Lemma handlers_button {A} dis (h : handler A) kids :
  handlers (button dis h kids) = (if dis then [] else [h]) ++ handlers_of kids.
Proof. unfold button. by rewrite handlers_El. Qed.

Lemma handlers_of_when {A} b (l : list (node A)) : handlers_of (when b l) = if b then handlers_of l else [].
Proof. by destruct b. Qed.

Lemma handlers_of_options {A} (opts : list (jstr * jstr)) :
  handlers_of (map (fun o => option_el (A := A) o.1 o.2) opts) = [].
Proof. induction opts as [|o r IH]; [done|]. cbn [map]. by rewrite handlers_of_cons, IH. Qed.

Lemma handlers_select {A} value opts (f : jstr -> A) : handlers (select value opts f) = [OnSelect opts.*1 f].
Proof. unfold select. rewrite handlers_El, handlers_of_options. done. Qed.

Lemma handlers_of_message {A} m : handlers_of (message_box (A := A) m) = [].
Proof. destruct m as [s|]; [|done]. simpl. by destruct (truthy_str s). Qed.

Lemma elem_of_handlers_map {A B} (f : B -> node A) l h :
  h ∈ handlers_of (map f l) <-> exists x, x ∈ l /\ h ∈ handlers (f x).
Proof.
  induction l as [|x r IH]; cbn [map].
  - split; [by intros ?%not_elem_of_nil | by intros (x & ?%not_elem_of_nil & _)].
  - rewrite handlers_of_cons, elem_of_app, IH. split.
    + intros [?|(y & ? & ?)]; [exists x|exists y]; by rewrite elem_of_cons; auto.
    + intros (y & [->|?]%elem_of_cons & ?); [by left|right; eauto].
Qed.

Create Rewrite HintDb handlers.
#[export] Hint Rewrite @handlers_El @handlers_el @handlers_button @handlers_of_when @handlers_select
  @handlers_of_message @handlers_of_cons @handlers_of_app @elem_of_app : handlers.

Lemma elem_of_handlers_mapi {A B} (f : nat -> B -> node A) l h :
  h ∈ handlers_of (mapi f l) <-> exists i x, l !! i = Some x /\ h ∈ handlers (f i x).
Proof.
  unfold mapi. revert f. induction l as [|x r IH]; intros f; [split; [by intros ?%not_elem_of_nil | naive_solver]|].
  simpl. rewrite handlers_of_cons, elem_of_app, IH. split.
  - intros [?|(i & y & ? & ?)]; [by exists O, x | by exists (S i), y].
  - intros ([|i] & y & ? & ?); simplify_eq/=; [by left | right; by exists i, y].
Qed.

Lemma handlers_json_preview {A} v : handlers_of (json_preview (A := A) v) = [].
Proof. by destruct v. Qed.

(** The handlers of children built by a function that may throw. *)
Lemma mapM_handlers {A B} (f : B -> option (node A)) l k h :
  mapM f l = Some k -> h ∈ handlers_of k -> exists x n, x ∈ l /\ f x = Some n /\ h ∈ handlers n.
Proof.
  intros Hm%mapM_Some_1. induction Hm as [|x n l k Hx _ IH]; [by intros ?%not_elem_of_nil|].
  rewrite handlers_of_cons, elem_of_app. intros [Hh|Hh].
  - exists x, n. by rewrite elem_of_cons; auto.
  - destruct (IH Hh) as (y & m & ? & ? & ?). exists y, m. by rewrite elem_of_cons; auto.
Qed.

(** A value shown as a child has no handlers. *)
Lemma child_inert {A} v : forall l, child (A := A) v = Some l -> handlers_of l = [].
Proof.
  induction v as [| | | | |vs IH|] using val_ind; intros l; simpl; intros [= <-] || intros Hc; try done.
  revert l Hc. induction IH as [|x r Hx _ IHr]; intros l Hc; [by simplify_eq|].
  destruct (child x) as [a|] eqn:Ea; [|done]. simpl in Hc.
  match type of Hc with (?g ≫= _) = _ => destruct g as [b|] eqn:Eb end; [|done]. simplify_eq/=.
  rewrite handlers_of_app, (Hx _ eq_refl), (IHr _ eq_refl). done.
Qed.

Lemma elem_of_handlers_if {A} (b : bool) (h : handler A) (l1 l2 : list (handler A)) :
  h ∈ (if b then l1 else l2) <-> (b = true /\ h ∈ l1) \/ (b = false /\ h ∈ l2).
Proof. destruct b; naive_solver. Qed.

Lemma handlers_Txt {A} s : handlers (A := A) (Txt s) = [].
Proof. done. Qed.

Lemma handlers_txt {A} s : handlers (A := A) (txt s) = [].
Proof. done. Qed.

Lemma handlers_count {A B} (l : list B) : handlers (A := A) (count_txt l) = [].
Proof. done. Qed.

Lemma handlers_of_nil {A} : handlers_of (A := A) [] = [].
Proof. done. Qed.

Lemma handlers_input {A} t p v (f : jstr -> A) : handlers (input t p v f) = [OnText f].
Proof. done. Qed.

Lemma handlers_range {A} lo hi v (f : jstr -> A) : handlers (range lo hi v f) = [OnSelect (range_values lo hi) f].
Proof. done. Qed.

Lemma handlers_textarea {A} p v (f : jstr -> A) : handlers (textarea p v f) = [OnText f].
Proof. done. Qed.

Lemma handlers_checkbox {A} v (f : bool -> A) : handlers (checkbox v f) = [OnCheck f].
Proof. done. Qed.

#[export] Hint Rewrite @handlers_Txt @handlers_txt @handlers_count @handlers_of_nil @handlers_input @handlers_range @handlers_textarea
  @handlers_checkbox @elem_of_handlers_map @elem_of_handlers_mapi @handlers_json_preview @elem_of_handlers_if @elem_of_nil @list_elem_of_singleton app_nil_l app_nil_r : handlers.

(** Enumerate the handlers of a tree: one goal for each handler written in it. *)
Ltac handler_cases H :=
  autorewrite with handlers in H;
  repeat match type of H with
  | _ \/ _ => destruct H as [H|H]
  | _ /\ _ => let G := fresh "G" in destruct H as [G H]; try discriminate G
  | exists _, _ => destruct H as [? H]; autorewrite with handlers in H
  | False => destruct H
  end.

(** Analyse [fire h pl = Some a] for a handler known syntactically: the goals
    that remain are the ones whose action can be the one asked for. *)
Ltac fired Hf :=
  match type of Hf with
  | fire ?h ?pl = Some _ => subst; destruct pl; simpl in Hf;
      try match type of Hf with (if ?b then _ else _) = _ => destruct b eqn:? end; simplify_eq
  end.

(** Discharge the obligations of [SingleFlight] on a program without branches. *)
Ltac flight :=
  lazymatch goal with
  | |- keeps _ _ _ _ => split; [try done | split; [try done | repeat (constructor || done)]]
  | |- starts _ _ _ _ => split; [try done | split; [try done | split; [try done | repeat (constructor || done)]]]
  end.

(** Case analysis on how a request resumed. *)
Ltac awaited_cases :=
  unfold awaited;
  repeat match goal with
  | |- context [match ?x with Settled _ => _ | Fired => _ end] => destruct x
  | |- context [match settle ?f with inl _ => _ | inr _ => _ end] => destruct (settle f)
  | |- context [match ?d ?v with Some _ => _ | None => _ end] => destruct (d v)
  end.

(** ** Concrete parameters and inputs for evaluating the views *)

Definition plain_locale : Locale := {| localeTime := fun s => s; localeDate := fun s => s; localeNumber := num_str |}.

(** A successful response with the given body. *)
Definition ok_response (v : val) : outcome := Settled (Responded (mk_response 200 (js "OK") (stringify v))).

Definition named (name : string) : CatalogObject := {|
  co_id := None; co_type := []; co_name := js name; co_root := None; co_flags := None; co_indexes := None |}.

Definition catalog_with (buckets collections : list string) : CatalogData := {|
  cat_buckets := Some (map named buckets); cat_collections := Some (map named collections); cat_queues := Some [] |}.
