(* ===== verification/QueryConsoleView.v ===== *)
(** [studio/frontend/src/views/QueryConsoleView.tsx]: the query builder, the
    request it sends and the result panel. *)

From S2P Require Import Prelude JsString JsNumber Json Api Types React ViewCommon Quiescence.

Section View.
Context `{Engine}.

Record Cells := {
  selectedCollection : jstr;
  whereField : jstr; whereOp : jstr; whereVal : jstr;
  orderField : jstr; orderDesc : bool;
  limit : num;
  result : option QueryResult;
  loading : bool;
  error : option jstr;
}.

Inductive Act :=
| SetCollection (v : jstr) | SetWhereField (v : jstr) | SetWhereOp (v : jstr) | SetWhereVal (v : jstr)
| SetOrderField (v : jstr) | SetDirection (v : jstr) | SetLimit (v : jstr)
| Execute (explainOnly : bool).

Inductive Susp := Executed.

Definition init (catalog : option CatalogData) : Cells := {|
  selectedCollection := first_name (collections_of catalog);
  whereField := []; whereOp := js "eq"; whereVal := [];
  orderField := []; orderDesc := false; limit := num_of_Z 20;
  result := None; loading := false; error := None |}.

(** The body of the query request. *)
Definition query_payload (env : Cells) (explainOnly : bool) : jsobj :=
  [(js "filters", if_text (whereField env)
      (VArr [filter_entry (trim (whereField env)) (whereOp env) (filter_value (whereVal env))]) (VArr []));
   (js "order_by", if_text (orderField env)
      (VObj [(js "field", VStr (trim (orderField env))); (js "desc", VBool (orderDesc env))]) VUndef);
   (js "limit", VNum (limit env));
   (js "explain", VBool explainOnly)].

Definition execute_failed (e : jserr) : prog Cells Susp := error <-- Some (err_or e (js "Query execution failed")).

Definition handleExecute (env : Cells) (explainOnly : bool) : prog Cells Susp :=
  if negb (truthy_str (selectedCollection env)) then pskip
  else
    loading <-- true ;;; error <-- None ;;;
    await_call (queryDocuments (selectedCollection env) (query_payload env explainOnly)) Executed
      (fun e => execute_failed e ;;; loading <-- false).

(** The rest of [handleExecute] after its [await]. *)
Definition executed (o : outcome) : prog Cells Susp :=
  awaited QueryResult_of o (fun r => result <-- Some r) execute_failed ;;; loading <-- false.

Definition on (env : Cells) (a : Act) : prog Cells Susp :=
  match a with
  | SetCollection v => selectedCollection <-- v
  | SetWhereField v => whereField <-- v
  | SetWhereOp v => whereOp <-- v
  | SetWhereVal v => whereVal <-- v
  | SetOrderField v => orderField <-- v
  | SetDirection v => orderDesc <-- str_eq v (js "desc")
  | SetLimit v => limit <-- Number v
  | Execute b => handleExecute env b
  end.

(** ** Rendering *)

Definition go_method (op : jstr) : jstr :=
  if str_eq op (js "gte") then js "Gte" else if str_eq op (js "gt") then js "Gt"
  else if str_eq op (js "lt") then js "Lt" else if str_eq op (js "lte") then js "Lte" else js "Eq".

Definition codeSnippet (s : Cells) : jstr :=
  jq "col := db.Collection('" ++ str_or (selectedCollection s) (js "collection") ++ jq "')" ++ [10%N]
  ++ js "rows, err := col.Query()"
  ++ (if truthy_str (whereField s)
      then [10%N] ++ jq "  .Where('" ++ whereField s ++ jq "')." ++ go_method (whereOp s) ++ js "(" ++ whereVal s ++ js ")"
      else [])
  ++ (if truthy_str (orderField s)
      then [10%N] ++ jq "  .OrderBy('" ++ orderField s ++ jq "', coco." ++ (if orderDesc s then js "Desc" else js "Asc") ++ js ")"
      else [])
  ++ (if truthy_num (limit s) then [10%N] ++ js "  .Limit(" ++ num_str (limit s) ++ js ")" else [])
  ++ [10%N] ++ js "  .All()".

Definition header_block : node Act :=
  el "div" [
    el "h1" [el "span" [txt "Query Console & Execution Planner"]];
    el "p" [txt "Execute structured queries, inspect Volcano physical operators, and analyze AST plans"]].

Definition where_ops : list (jstr * jstr) :=
  [(js "eq", js "=="); (js "gt", js ">"); (js "gte", js ">="); (js "lt", js "<"); (js "lte", js "<=")].

Definition directions : list (jstr * jstr) :=
  [(js "asc", js "Ascending (ASC)"); (js "desc", js "Descending (DESC)")].

Definition params_panel (collections : list CatalogObject) (s : Cells) : node Act :=
  let busy := loading s || negb (truthy_str (selectedCollection s)) in
  el "div" [
    el "h2" [txt "Query Parameters"];
    el "div" [
      el "label" [txt "Target Collection"];
      select (selectedCollection s) (collection_options collections) SetCollection];
    el "div" [
      el "label" [txt "Predicate (Where)"];
      el "div" [
        input (js "text") (js "field") (whereField s) SetWhereField;
        select (whereOp s) where_ops SetWhereOp;
        input (js "text") (js "value") (whereVal s) SetWhereVal]];
    el "div" [
      el "div" [el "label" [txt "Order By"]; input (js "text") (js "field") (orderField s) SetOrderField];
      el "div" [
        el "label" [txt "Direction"];
        select (if orderDesc s then js "desc" else js "asc") directions SetDirection]];
    el "div" [el "label" [txt "Result Limit"]; input (js "number") [] (num_str (limit s)) SetLimit];
    el "div" [
      button busy (OnClick (Execute false)) [el "span" [txt "Execute"]];
      button busy (OnClick (Execute true)) [txt "Explain Plan"]]].

Definition snippet_box (s : Cells) : node Act :=
  el "div" [el "div" [el "span" [txt "Equivalent Go Code"]]; el "pre" [Txt (codeSnippet s)]].

(** [result?.execution_plan && ...] *)
Definition plan_banner (s : Cells) : list (node Act) :=
  match result s ≫= execution_plan with
  | Some plan => when (truthy_str plan) [el "div" [el "div" [el "span" [txt "Volcano Physical Execution Plan"]]; el "div" [Txt plan]]]
  | None => []
  end.

Definition results_header (s : Cells) : node Act :=
  el "div" ([
    el "div" [el "span" [txt "Query Results ("; count_txt (default [] (result s ≫= documents)); txt " rows)"]]]
    ++ match result s with
       | Some r => [el "span" [Txt (toFixed (duration_ms r) 2); txt " ms"]]
       | None => []
       end).

(** The body of the result box: reading the length of [documents] throws when
    the response has none. *)
Definition results_body (s : Cells) : option (list (node Act)) :=
  if loading s then Some [el "div" [txt "Executing Volcano operators..."]]
  else match result s with
  | None => Some [el "div" [txt "Click Execute to run the query and view results."]]
  | Some r =>
      docs ← documents r;
      Some (match docs with
      | [] => [el "div" [txt "No documents matched the query predicates."]]
      | _ => [el "pre" [Txt (stringify2 (VArr (VObj <$> docs)))]]
      end)
  end.

Definition view (catalog : option CatalogData) (s : Cells) : option (node Act) :=
  body ← results_body s;
  Some (el "div" [
    header_block;
    el "div" [
      el "div" [params_panel (collections_of catalog) s; snippet_box s];
      el "div" (plan_banner s ++ message_box (error s)
        ++ [el "div" [results_header s; el "div" body]])]]).

Definition QueryConsoleView : component := {|
  Props := option CatalogData; State := Cells; Action := Act; Kont := Susp;
  initial := init; handle := fun _ => on; resume := fun _ => executed;
  accepts := fun _ => conforms QueryResult_of;
  effects := []; render := view; callbacks := [] |}.

End View.

(** ** At most one query in flight *)

Section Theory.
Context `{Engine}.

Lemma results_body_inert s body : results_body s = Some body -> handlers_of body = [].
Proof.
  unfold results_body. intros Hb. repeat case_match; simplify_eq/=; try done.
  destruct (documents _) as [[|d r]|]; by simplify_eq/=.
Qed.

Lemma plan_banner_inert s : handlers_of (plan_banner s) = [].
Proof. unfold plan_banner. repeat case_match; [|done]. by destruct (truthy_str _). Qed.

(** The Execute and Explain buttons are disabled while a query runs. *)
Lemma execute_enabled catalog s tree h pl b :
  view catalog s = Some tree -> h ∈ handlers tree -> fire h pl = Some (Execute b) -> loading s = false.
Proof.
  unfold view. destruct (results_body s) as [body|] eqn:Eb; [|done]. cbn [mbind option_bind]. intros [= <-] Hin Hf.
  unfold header_block, params_panel, snippet_box, results_header in Hin.
  autorewrite with handlers in Hin. rewrite plan_banner_inert, (results_body_inert _ _ Eb) in Hin.
  handler_cases Hin; fired Hf; to_prop; auto.
  all: by destruct (result s); autorewrite with handlers in Hin.
Qed.

#[export] Instance execute_single : SingleFlight QueryConsoleView loading (fun _ => true).
Proof.
  split.
  - done.
  - intros p s tree h pl a Hren Hin Hf. destruct a as [v|v|v|v|v|v|v|b]; try (left; by apply keeps_nil).
    simpl. unfold handleExecute. case_match; [left; by apply keeps_nil|].
    assert (loading s = false) as El by by eapply execute_enabled.
    destruct (queryDocuments _ _) as [e|r]; [left|right]; flight.
  - no_calls.
  - intros [] o s _. simpl. unfold executed, pseq. awaited_cases; flight.
  - done.
  - intros e p s0 s He. by apply not_elem_of_nil in He.
Qed.

(** One query at most is pending, and the loading flag is up exactly while it is:
    no click can start a second one, and an answer always takes the notice away. *)
Theorem query_single_flight p0 c :
  reachable QueryConsoleView p0 c -> length (cpend c) = if loading (cstate c) then 1%nat else 0%nat.
Proof.
  intros Hr. rewrite <- count_pend_all. apply (flight_reachable QueryConsoleView loading (fun _ => true) p0 c Hr).
Qed.

(** ** The request *)

(** The body of a query, read back by the server, holds the typed filter when
    a field is named, the order when one is given and no [order_by] otherwise, the
    limit and the explain flag. *)
Theorem query_request_body env explainOnly r :
  json_ok (VObj (defined (query_payload env explainOnly))) = true ->
  queryDocuments (selectedCollection env) (query_payload env explainOnly) = inr r ->
  (req_body r ≫= parse) = Some (VObj (
    [(js "filters", if truthy_str (trim (whereField env))
        then VArr [filter_entry (trim (whereField env)) (whereOp env) (filter_value (whereVal env))] else VArr [])]
    ++ (if truthy_str (trim (orderField env))
        then [(js "order_by", VObj [(js "field", VStr (trim (orderField env))); (js "desc", VBool (orderDesc env))])] else [])
    ++ [(js "limit", VNum (limit env)); (js "explain", VBool explainOnly)])).
Proof.
  intros Hok. unfold queryDocuments, with_component. destruct (encodeURIComponent _) as [c|]; [|done].
  intros [= <-]. simpl req_body. cbn [mbind option_bind]. rewrite parse_stringify_defined by done.
  unfold query_payload, defined, if_text. f_equal. f_equal.
  by destruct (truthy_str (trim (whereField env))), (truthy_str (trim (orderField env))).
Qed.

(** ** Rendering *)

(** The console renders in exactly the states that load, hold no result, or
    hold a result with a document list; a result without one makes it throw. *)
Theorem query_render catalog s :
  is_Some (view catalog s) <-> loading s = true \/ forall r, result s = Some r -> is_Some (documents r).
Proof.
  unfold view, results_body. destruct (loading s); [split; [by left|by eexists]|].
  destruct (result s) as [r|]; [|split; [by right|by eexists]].
  destruct (documents r) as [docs|] eqn:Ed; simpl.
  - split; [intros _; right; intros r' [= <-]; by rewrite Ed|by eexists].
  - split; [by intros [? ?]|]. intros [?|Hd]; [done|]. specialize (Hd r eq_refl). rewrite Ed in Hd. by destruct Hd.
Qed.

(** ** Progress *)

#[export] Instance query_api : Emitting QueryConsoleView calm.
Proof.
  split.
  - intros p s []; simpl; unfold handleExecute, execute_failed; auto 9 with emits.
  - intros [] o. simpl. unfold executed, execute_failed. awaited_cases; auto with emits.
  - by intros e p s ?%not_elem_of_nil.
Qed.

#[export] Instance query_drains : Drains QueryConsoleView (fun _ => 1%nat).
Proof.
  split; [intros _; lia| |done]. intros p s [] f _. apply drains_idle with (n := 0%nat); [done| |lia].
  simpl. unfold executed, execute_failed. awaited_cases; auto with costs.
Qed.

#[export] Instance query_waits : Waits QueryConsoleView loading.
Proof. eapply flight_waits, execute_single. Qed.

End Theory.

(** ** The theorems on a concrete console *)

Module Examples.

#[local] Existing Instance plain_engine.

Definition users_catalog : option CatalogData := Some (catalog_with [] ["users"]%string).

Definition opened : config QueryConsoleView := (mount QueryConsoleView users_catalog).1.

(** A click on Execute. *)
Definition click_execute : React.input QueryConsoleView := IEvent 7 PClick.

Definition adults : Cells := (init users_catalog) <| whereField := js "age" |> <| whereOp := js "gte" |> <| whereVal := js "18" |>.

Lemma query_request_body_witness :
  exists r, queryDocuments (selectedCollection adults) (query_payload adults false) = inr r
    /\ (req_body r ≫= parse) = Some (VObj (
      [(js "filters", VArr [filter_entry (js "age") (js "gte") (VNum (num_of_Z 18))])]
      ++ [] ++ [(js "limit", VNum (num_of_Z 20)); (js "explain", VBool false)])).
Proof.
  eexists. split; [vm_compute; reflexivity|].
  refine (eq_trans (query_request_body adults false _ _ _) _); vm_compute; reflexivity.
Defined.

Definition null_answer : outcome :=
  ok_response (VObj [(js "documents", VNull); (js "count", VNum (num_of_Z 0)); (js "duration_ms", VNum (num_of_Z 1))]).

(** A query that matches nothing may be answered without a document list (the
    server writes an empty list as [null]); after that answer the console cannot
    render. *)
Theorem query_null_documents_crash :
  (fun s => bool_decide (is_Some (view users_catalog s))) <$> after QueryConsoleView opened [click_execute; IResume 0 null_answer]
  = Some false.
Proof. vm_compute. reflexivity. Qed.

End Examples.
