(* ===== verification/VectorPlaygroundView.v ===== *)
(** [studio/frontend/src/views/VectorPlaygroundView.tsx]: parsing of the query
    vector, the search request and the list of matches. *)

From S2P Require Import Prelude JsString JsNumber Json Api Types React ViewCommon Quiescence.

Open Scope N_scope.

Section View.
Context `{Engine}.

Record Cells := {
  collection : jstr; field : jstr; metric : jstr; k : num; vectorText : jstr;
  results : list VectorSearchResult; loading : bool; error : option jstr;
}.

Inductive Act :=
| SetCollection (v : jstr) | SetField (v : jstr) | SetMetric (v : jstr) | SetK (v : jstr) | SetVectorText (v : jstr)
| Search.

Inductive Susp := Searched.

Definition init (catalog : option CatalogData) : Cells := {|
  collection := first_name (collections_of catalog); field := js "embedding"; metric := js "cosine";
  k := num_of_Z 5; vectorText := []; results := []; loading := false; error := None |}.

(** The coordinates in [vectorText]: a JSON array when it starts with a
    bracket, otherwise the comma-separated pieces that are numbers. *)
Definition query_vector (text : jstr) : jserr + val :=
  if starts_with (js "[") text then
    match parse text with
    | Some v => inr v
    | None => inl (mk_err (syntax_message text))
    end
  else inr (VArr (VNum <$> filter (fun n => isNaN n = false) ((fun s => parseFloat (trim s)) <$> split_on (N.eqb 44) text))).

(** [vec.length === 0] *)
Definition empty_vector (v : val) : bool := match v with VArr [] => true | _ => false end.

Definition matches_of (v : val) : option (option (list VectorSearchResult)) :=
  o ← as_obj v; nullable (as_arr VectorSearchResult_of) (fld o "matches").

Definition search_failed (e : jserr) : prog Cells Susp := error <-- Some (err_or e (js "Vector search failed")).

Definition handleSearch (env : Cells) : prog Cells Susp :=
  if negb (truthy_str (collection env)) then error <-- Some (js "Please select a collection")
  else
    error <-- None ;;; loading <-- true ;;;
    match query_vector (vectorText env) with
    | inl e => search_failed e ;;; loading <-- false
    | inr vec =>
        if empty_vector vec then
          search_failed (mk_err (js "Please enter query vector coordinates (e.g. 0.1, 0.2, 0.3)")) ;;; loading <-- false
        else
          await_call (searchVectors (collection env) (field env) vec (k env) (metric env)) Searched
            (fun e => search_failed e ;;; loading <-- false)
    end.

Definition searched (o : outcome) : prog Cells Susp :=
  awaited matches_of o (fun ms => results <-- default [] ms) search_failed ;;; loading <-- false.

Definition on (env : Cells) (a : Act) : prog Cells Susp :=
  match a with
  | SetCollection v => collection <-- v
  | SetField v => field <-- v
  | SetMetric v => metric <-- v
  | SetK v => k <-- Number v
  | SetVectorText v => vectorText <-- v
  | Search => handleSearch env
  end.

(** ** Rendering *)

Definition metrics : list (jstr * jstr) :=
  [(js "cosine", js "Cosine Distance (1.0 - Similarity)"); (js "l2", js "Euclidean Distance (L2 Norm)");
   (js "dot", js "Dot Product (Negative Inner Product)")].

Definition controls (collections : list CatalogObject) (s : Cells) : node Act :=
  el "div" [
    el "h2" [txt "Vector Query Config"];
    el "div" [el "label" [txt "Collection"]; select (collection s) (collection_options collections) SetCollection];
    el "div" [el "label" [txt "Vector Field"]; input (js "text") (js "e.g. embedding, vector") (field s) SetField];
    el "div" [el "label" [txt "Distance Metric"]; select (metric s) metrics SetMetric];
    el "div" [el "label" [txt "Top-K Nearest Neighbors ("; Txt (num_str (k s)); txt ")"];
              range 1 50 (num_str (k s)) SetK];
    el "div" [el "label" [txt "Query Vector Coordinates"]; textarea (js "0.12, 0.45, 0.89, ...") (vectorText s) SetVectorText];
    button (loading s || bool_decide (collections = [])) (OnClick Search) [el "span" [txt "Search Nearest Vectors"]]].

(** The width of the similarity bar. *)
Definition bar_width (m : VectorSearchResult) : jstr := num_str (nmax (num_of_Z 5) (similarity_pct m)) ++ js "%".

Definition match_card (i : nat) (m : VectorSearchResult) : node Act :=
  el "div" ([
    el "div" [
      el "div" [el "span" [Txt (digits (N.of_nat i + 1))]; el "span" [txt "Doc ID: "; Txt (doc_label (vs_doc_id m) (vs_id m))]];
      el "div" [txt "Dist: "; el "span" [Txt (toFixed (distance m) 4)]]];
    el "div" [
      el "div" [el "span" [txt "Similarity Score"]; el "span" [Txt (toFixed (similarity_pct m) 1); txt "%"]];
      el "div" [El (js "div") [(js "width", bar_width m)] false [] []]]]
    ++ json_preview (vs_document m)).

Definition matches_body (s : Cells) : node Act :=
  if loading s then el "div" [txt "Traversing HNSW layers..."]
  else match results s with
  | [] => el "div" [txt "Enter vector coordinates and click Search to view nearest matches."]
  | ms => el "div" (mapi match_card ms)
  end.

Definition view (catalog : option CatalogData) (s : Cells) : option (node Act) :=
  Some (el "div" [
    el "div" [
      el "h1" [el "span" [txt "Vector Search Playground"]];
      el "p" [txt "Perform high-dimensional approximate nearest neighbor (HNSW) similarity searches"]];
    el "div" [
      controls (collections_of catalog) s;
      el "div" (message_box (error s) ++ [
        el "div" [
          el "div" [
            el "div" [el "span" [txt "Top-"; Txt (num_str (k s)); txt " Nearest Neighbors"]];
            el "span" [txt "HNSW Graph Beam Search"]];
          el "div" [matches_body s]]])]]).

Definition VectorPlaygroundView : component := {|
  Props := option CatalogData; State := Cells; Action := Act; Kont := Susp;
  initial := init; handle := fun _ => on; resume := fun _ => searched;
  accepts := fun _ => conforms matches_of;
  effects := []; render := view; callbacks := [] |}.

End View.

Section Theory.
Context `{Engine}.

(** The search button is disabled while a search runs. *)
Lemma vector_search_enabled catalog s tree h pl :
  view catalog s = Some tree -> h ∈ handlers tree -> fire h pl = Some Search -> loading s = false.
Proof.
  intros [= <-] Hin Hf. unfold controls, matches_body in Hin.
  handler_cases Hin; fired Hf; to_prop; auto; repeat case_match; try done.
  all: unfold match_card in Hin; handler_cases Hin.
Qed.

#[export] Instance vector_single : SingleFlight VectorPlaygroundView loading (fun _ => true).
Proof.
  split.
  - done.
  - intros p s tree h pl a Hren Hin Hf. destruct a; try (left; by apply keeps_nil).
    simpl. unfold handleSearch. case_match; [left; by apply keeps_nil|].
    assert (loading s = false) as El by by eapply vector_search_enabled.
    destruct (query_vector _) as [e|vec]; [left; flight|]. case_match; [left|right]; flight.
  - no_calls.
  - intros [] o s _. simpl. unfold searched, pseq. awaited_cases; flight.
  - done.
  - intros e p s0 s He. by apply not_elem_of_nil in He.
Qed.

(** One search at most is pending, and the loading flag is up exactly while it is. *)
Theorem vector_single_flight p0 c :
  reachable VectorPlaygroundView p0 c -> length (cpend c) = if loading (cstate c) then 1%nat else 0%nat.
Proof.
  intros Hr. rewrite <- count_pend_all. apply (flight_reachable VectorPlaygroundView loading (fun _ => true) p0 c Hr).
Qed.

(** ** The query vector *)

Lemma split_join_digits n ns :
  split_on (N.eqb 44) (join (js ",") (digits <$> n :: ns)) = digits <$> n :: ns.
Proof.
  assert (forall m, Forall (fun c => (44 =? c) = false) (digits m)) as Hd.
  { intros m. eapply Forall_impl; [apply digits_digit|]. intros c Hc. apply negb_true_iff.
    apply (digit_forallb (fun c => negb (44 =? c)) c); [reflexivity|done]. }
  revert n. induction ns as [|m r IH]; intros n; simpl; [by apply split_on_clean|].
  change (js ",") with [44] in *. simpl in IH. rewrite split_on_app; [|done|done]. by rewrite IH.
Qed.

Lemma starts_bracket_digits n r : starts_with (js "[") (digits n ++ r) = false.
Proof.
  pose proof (digits_nonempty n). pose proof (digits_digit n) as Hd. destruct (digits n) as [|d ds]; [done|].
  apply Forall_cons in Hd as [Hd _]. change (js "[") with [91]. simpl.
  rewrite andb_true_r. apply negb_true_iff. apply (digit_forallb (fun c => negb (91 =? c)) d); [reflexivity|done].
Qed.

(** Numerals separated by commas are read as the vector of their values, in
    order, each rounded to the nearest double. *)
Theorem vector_of_numerals n ns :
  query_vector (join (js ",") (digits <$> n :: ns)) = inr (VArr ((fun m => VNum (num_of_Z (Z.of_N m))) <$> n :: ns)).
Proof.
  unfold query_vector.
  assert (starts_with (js "[") (join (js ",") (digits <$> n :: ns)) = false) as ->.
  { simpl. destruct ns; simpl; [rewrite <- (app_nil_r (digits n))|]; apply starts_bracket_digits. }
  rewrite split_join_digits. do 2 f_equal. rewrite <- list_fmap_compose.
  induction (n :: ns) as [|m r IH]; [done|]. rewrite !fmap_cons. unfold compose at 1.
  rewrite trim_digits by apply digits_digit. rewrite parseFloat_digits, filter_cons, num_of_Z_not_nan.
  rewrite decide_True by done. rewrite fmap_cons. by rewrite IH.
Qed.

(** A search request is sent only for a chosen collection and a non-empty
    vector; a vector that was not given as JSON holds numbers only, none of them
    NaN. Otherwise the handler sends nothing and ends with an error shown. *)
Theorem vector_search_request env s :
  (exists r vec, (handleSearch env s).2 = [Fetch r Searched]
     /\ collection env <> [] /\ query_vector (vectorText env) = inr vec /\ vec <> VArr []
     /\ searchVectors (collection env) (field env) vec (k env) (metric env) = inr r
     /\ (starts_with (js "[") (vectorText env) = false ->
         exists ns, vec = VArr (VNum <$> ns) /\ Forall (fun n => isNaN n = false) ns))
  \/ ((handleSearch env s).2 = [] /\ is_Some (error (handleSearch env s).1) /\
      (loading s = false -> loading (handleSearch env s).1 = false)).
Proof.
  unfold handleSearch. destruct (collection env) as [|c0 cr] eqn:Ec; cbn [negb truthy_str]; [right; by destruct s|].
  destruct (query_vector (vectorText env)) as [e|vec] eqn:Eq; [right; destruct s; split_and!; by eexists|].
  destruct (empty_vector vec) eqn:Ee; [right; destruct s; split_and!; by eexists|].
  left. eexists _, vec. split; [reflexivity|]. split_and!; try done; [by intros ->|].
  intros Hb. unfold query_vector in Eq. rewrite Hb in Eq. injection Eq as <-. eexists. split; [reflexivity|].
  apply Forall_forall. by intros x [Hx _]%list_elem_of_filter.
Qed.

(** ** Progress *)

#[export] Instance vector_api : Emitting VectorPlaygroundView calm.
Proof.
  split.
  - intros p s []; simpl; unfold handleSearch, search_failed; auto 9 with emits.
    destruct (query_vector _); auto 12 with emits.
  - intros [] o. simpl. unfold searched, search_failed. awaited_cases; auto with emits.
  - by intros e p s ?%not_elem_of_nil.
Qed.

#[export] Instance vector_drains : Drains VectorPlaygroundView (fun _ => 1%nat).
Proof.
  split; [intros _; lia| |done]. intros p s [] f _. apply drains_idle with (n := 0%nat); [done| |lia].
  simpl. unfold searched, search_failed. awaited_cases; auto with costs.
Qed.

#[export] Instance vector_waits : Waits VectorPlaygroundView loading.
Proof. eapply flight_waits, vector_single. Qed.

End Theory.
