(* ===== verification/SearchPlaygroundView.v ===== *)
(** [studio/frontend/src/views/SearchPlaygroundView.tsx]: full-text search, the
    token preview, and the effect that keeps the selected collection in the
    catalog. *)

From S2P Require Import Prelude JsString JsNumber Json Api Types React ViewCommon Quiescence.

Open Scope N_scope.

Section View.
Context `{Engine}.

Record Cells := {
  collection : jstr; field : jstr; queryText : jstr; k : num;
  results : list TextSearchResult; loading : bool; error : option jstr;
}.

Inductive Act :=
| SetCollection (v : jstr) | SetField (v : jstr) | SetQueryText (v : jstr) | SetK (v : jstr) | Search.

Inductive Susp := Searched.

Definition init (catalog : option CatalogData) : Cells := {|
  collection := []; field := []; queryText := []; k := num_of_Z 10;
  results := []; loading := false; error := None |}.

(** The effect: its body depends on the names in the catalog and on the
    selected one only, and does nothing when run again. *)
Definition sync_collection (collections : list CatalogObject) (env : Cells) : prog Cells Susp :=
  if negb (existsb (fun item => str_eq (co_name item) (collection env)) collections)
  then collection <-- first_name collections
  else pskip.

(** Its dependencies are the selection and the array of collections, a new one
    with every catalog (and with every render while there is none). Running it
    again on the same names and selection changes nothing ([sync_idle]), so it
    is taken to run when the names or the selection changed. *)
Definition sync_effect : effect (option CatalogData) Cells Susp := mk_effect
  (fun old new => match old with
   | None => true
   | Some (c0, s0) =>
       negb (str_eq (collection s0) (collection new.2))
       || negb (bool_decide (co_name <$> collections_of c0 = co_name <$> collections_of new.1))
   end)
  (fun c s => sync_collection (collections_of c) s).

Definition results_of (v : val) : option (option (list TextSearchResult)) :=
  o ← as_obj v; nullable (as_arr TextSearchResult_of) (fld o "results").

Definition search_failed (e : jserr) : prog Cells Susp := error <-- Some (err_or e (js "Full-text search failed")).

Definition handleSearch (env : Cells) : prog Cells Susp :=
  if negb (truthy_str (collection env)) then error <-- Some (js "Please select a collection")
  else if negb (truthy_str (trim (queryText env))) then error <-- Some (js "Please enter search keywords")
  else
    error <-- None ;;; loading <-- true ;;;
    await_call (searchFullText (collection env) (field env) (queryText env) (k env)) Searched
      (fun e => search_failed e ;;; loading <-- false).

Definition searched (o : outcome) : prog Cells Susp :=
  awaited results_of o (fun rs => results <-- default [] rs) search_failed ;;; loading <-- false.

Definition on (env : Cells) (a : Act) : prog Cells Susp :=
  match a with
  | SetCollection v => collection <-- v
  | SetField v => field <-- v
  | SetQueryText v => queryText <-- v
  | SetK v => k <-- Number v
  | Search => handleSearch env
  end.

(** The token preview: [text.toLowerCase().split(/\W+/).filter(Boolean)]. *)
Definition queryTokens (s : Cells) : list jstr := words (toLowerCase (queryText s)).

(** ** Rendering *)

Definition config_panel (collections : list CatalogObject) (s : Cells) : node Act :=
  el "div" ([
    el "h2" [txt "Search Query Config"];
    el "div" [el "label" [txt "Collection"]; select (collection s) (collection_options collections) SetCollection];
    el "div" [el "label" [txt "Field "; el "span" [txt "(optional)"]];
              input (js "text") (js "All text fields (or e.g. content)") (field s) SetField];
    el "div" [el "label" [txt "Search Keywords"];
              input (js "text") (js "e.g. high performance database") (queryText s) SetQueryText]]
    ++ when (negb (bool_decide (queryTokens s = []))) [
      el "div" [el "label" [txt "Parsed Token Terms:"];
                el "div" (map (fun tok => el "span" [Txt tok]) (queryTokens s))]]
    ++ [
    el "div" [el "label" [txt "Max Results ("; Txt (num_str (k s)); txt ")"]; range 1 30 (num_str (k s)) SetK];
    button (loading s || bool_decide (collections = [])) (OnClick Search) [el "span" [txt "Execute BM25 Query"]]]).

Definition result_card (i : nat) (r : TextSearchResult) : node Act :=
  el "div" ([
    el "div" [
      el "div" [el "span" [Txt (digits (N.of_nat i + 1))]; el "span" [txt "Doc ID: "; Txt (doc_label (ts_doc_id r) (record_id r))]];
      el "span" [txt "Score: "; Txt (toFixed (score r) 3)]]]
    ++ json_preview (ts_document r)).

Definition results_body (s : Cells) : node Act :=
  if loading s then el "div" [txt "Scanning inverted index postings..."]
  else match results s with
  | [] => el "div" [txt "Enter query keywords and click Execute to test BM25 rankings."]
  | rs => el "div" (mapi result_card rs)
  end.

Definition view (catalog : option CatalogData) (s : Cells) : option (node Act) :=
  Some (el "div" [
    el "div" [
      el "h1" [el "span" [txt "Full-Text Search & BM25 Scoring"]];
      el "p" [txt "Unicode-aware tokenization, Inverted Index postings, and BM25 relevance scoring"]];
    el "div" [
      config_panel (collections_of catalog) s;
      el "div" (message_box (error s) ++ [
        el "div" [
          el "div" [
            el "div" [el "span" [txt "Ranked Search Results ("; count_txt (results s); txt ")"]];
            el "span" [txt "k1=1.2 · b=0.75 · IDF Weighted"]];
          el "div" [results_body s]]])]]).

Definition SearchPlaygroundView : component := {|
  Props := option CatalogData; State := Cells; Action := Act; Kont := Susp;
  initial := init; handle := fun _ => on; resume := fun _ => searched;
  accepts := fun _ => conforms results_of;
  effects := [sync_effect]; render := view; callbacks := [] |}.

End View.

Section Theory.
Context `{Engine}.

(** The search button is disabled while a search runs. *)
Lemma text_search_enabled catalog s tree h pl :
  view catalog s = Some tree -> h ∈ handlers tree -> fire h pl = Some Search -> loading s = false.
Proof.
  intros [= <-] Hin Hf. unfold config_panel, results_body in Hin.
  handler_cases Hin; fired Hf; to_prop; auto; repeat case_match; try done.
  all: unfold result_card in Hin; handler_cases Hin.
Qed.

#[export] Instance text_single : SingleFlight SearchPlaygroundView loading (fun _ => true).
Proof.
  split.
  - done.
  - intros p s tree h pl a Hren Hin Hf. destruct a; try (left; by apply keeps_nil).
    simpl. unfold handleSearch. repeat case_match; try (left; by apply keeps_nil).
    assert (loading s = false) as El by by eapply text_search_enabled. right; flight.
  - no_calls.
  - intros [] o s _. simpl. unfold searched, pseq. awaited_cases; flight.
  - done.
  - intros e p s0 s ->%list_elem_of_singleton. simpl. unfold sync_collection. case_match; by apply keeps_nil.
Qed.

(** One search at most is pending, and the loading flag is up exactly while it is. *)
Theorem text_single_flight p0 c :
  reachable SearchPlaygroundView p0 c -> length (cpend c) = if loading (cstate c) then 1%nat else 0%nat.
Proof.
  intros Hr. rewrite <- count_pend_all. apply (flight_reachable SearchPlaygroundView loading (fun _ => true) p0 c Hr).
Qed.

(** ** The selected collection *)

Definition names (c : option CatalogData) : list jstr := co_name <$> collections_of c.

Definition collection_valid (c : option CatalogData) (s : Cells) : Prop :=
  collection s ∈ names c \/ (names c = [] /\ collection s = []).

Lemma sync_valid c env s :
  collection env = collection s -> collection_valid c (sync_collection (collections_of c) env s).1.
Proof.
  intros He. unfold sync_collection. destruct (existsb _ _) eqn:E; simpl.
  - left. apply existsb_exists in E as (x & Hin & Hx). apply list_elem_of_fmap. exists x. unfold str_eq in Hx. to_prop.
    split; [by rewrite Hx|by apply list_elem_of_In].
  - destruct s. unfold collection_valid, names, first_name. simpl. destruct (collections_of c) as [|x r]; [by right|left; by left].
Qed.

Lemma sync_keeps_valid c env s :
  collection_valid c s -> collection_valid c (sync_collection (collections_of c) env s).1.
Proof.
  intros Hs. unfold sync_collection. case_match; [|done]. destruct s. unfold collection_valid, names, first_name. simpl.
  destruct (collections_of c) as [|x r]; [by right|left; by left].
Qed.

(** Only the selector chooses a collection, among its options. *)
Lemma selector_actions c s tree h pl v :
  view c s = Some tree -> h ∈ handlers tree -> fire h pl = Some (SetCollection v) ->
  v ∈ names c \/ (names c = [] /\ v = []).
Proof.
  intros [= <-] Hin Hf. unfold config_panel, results_body in Hin.
  handler_cases Hin; fired Hf; to_prop; try (by apply collection_option_values); repeat case_match; try done.
  all: unfold result_card in Hin; handler_cases Hin.
Qed.

#[export] Instance collection_invariant : Invariant SearchPlaygroundView (fun c s _ => collection_valid c s).
Proof.
  assert (forall (m : prog Cells Susp) c s, frames collection m -> collection_valid c s -> collection_valid c (m s).1) as Hk.
  { intros m c s Hf. unfold collection_valid. by rewrite Hf. }
  split.
  - intros p m. subst m. unfold run_effects. simpl effects. rewrite run_list_cons. by apply sync_valid.
  - intros p s pend tree h pl a Hs Hren Hin Hf. destruct a; simpl; try by destruct s.
    + destruct s. by eapply selector_actions.
    + unfold handleSearch, search_failed. apply Hk; [|done]. auto 9 with frame.
  - no_calls.
  - intros p s l1 q l2 o keep Hs _ _. apply Hk; [|done]. simpl. unfold searched, search_failed. awaited_cases; auto with frame.
  - intros e p s0 s pend ->%list_elem_of_singleton Hs. by apply sync_keeps_valid.
  - intros p p' s pend Hs m. subst m. unfold run_effects. simpl effects. rewrite run_list_cons. simpl run_list. unfold pskip.
    case_match eqn:E; [by apply sync_valid|]. simpl in E. to_prop. unfold collection_valid, names in *. simpl. by rewrite <- H1.
Qed.

(** In every configuration the search playground reaches, the collection it
    would search is one of the current catalog, and empty only when the catalog
    has none, so what the selector shows is what is searched. *)
Theorem search_selection p0 c :
  reachable SearchPlaygroundView p0 c -> collection_valid (cprops c) (cstate c).
Proof. apply (invariant_reachable SearchPlaygroundView (fun c s _ => collection_valid c s)). Qed.

(** Synchronising again changes nothing more. *)
Lemma sync_idle c s : collection_valid c s -> sync_collection (collections_of c) s s = (s, []).
Proof.
  intros Hs. unfold sync_collection. destruct (existsb _ _) eqn:E; [done|]. simpl. destruct Hs as [Hin|[Hn Hc]].
  - apply list_elem_of_fmap in Hin as (x & Hx & Hin%list_elem_of_In).
    apply not_true_iff_false in E. destruct E. apply existsb_exists. exists x. split; [done|].
    unfold str_eq. by apply bool_decide_eq_true_2.
  - unfold names in Hn. apply fmap_nil_inv in Hn. rewrite Hn. destruct s. simpl in *. by subst.
Qed.

Lemma search_settles old p s : settles SearchPlaygroundView commit_fuel old p s = true.
Proof.
  revert old p s. apply (settles_by SearchPlaygroundView collection).
  - intros p s s' Hs. unfold any_changed. simpl. unfold str_eq. by rewrite Hs, !bool_decide_eq_true_2.
  - intros old p s Hch s1. unfold any_changed in Hch. simpl existsb in Hch. rewrite orb_false_r in Hch.
    assert (collection_valid p s1) as Hv.
    { subst s1. unfold run_effects. simpl effects. rewrite run_list_cons. simpl eff_changed. rewrite Hch. by apply sync_valid. }
    clearbody s1. unfold run_effects. simpl effects. rewrite run_list_cons. simpl run_list. unfold pskip.
    cbn [fst]. destruct (negb _ || negb _); [|done]. by rewrite sync_idle.
Qed.

(** ** Tokens *)

(** The token preview shows non-empty words made of ASCII letters, digits and
    underscores only: every other character of the query separates words, letters
    of other scripts included. *)
Theorem search_tokens s :
  Forall (fun w => w <> [] /\ Forall (fun c => is_word c = true) w) (queryTokens s).
Proof. apply words_spec. Qed.

(** ** Progress *)

#[export] Instance text_api : Emitting SearchPlaygroundView calm.
Proof.
  split.
  - intros p s []; simpl; unfold handleSearch, search_failed; auto 12 with emits.
  - intros [] o. simpl. unfold searched, search_failed. awaited_cases; auto with emits.
  - intros e p s ->%list_elem_of_singleton. simpl. unfold sync_collection. auto with emits.
Qed.

Lemma collection_frames_searched o : frames collection (searched o).
Proof. unfold searched, search_failed. awaited_cases; auto with frame. Qed.

#[export] Instance text_drains : Drains SearchPlaygroundView (fun _ => 1%nat).
Proof.
  split; [intros _; lia| |done]. intros p s [] f _. apply drains_idle with (n := 0%nat); [| |lia].
  - unfold any_changed. simpl. unfold str_eq. by rewrite collection_frames_searched, !bool_decide_eq_true_2.
  - simpl. unfold searched, search_failed. awaited_cases; auto with costs.
Qed.

#[export] Instance text_waits : Waits SearchPlaygroundView loading.
Proof. eapply flight_waits, text_single. Qed.

End Theory.

(** ** The theorems on a concrete playground *)

Module Examples.

#[local] Existing Instance plain_engine.

Definition docs_catalog : option CatalogData := Some (catalog_with [] ["docs"]%string).

Definition opened : config SearchPlaygroundView := (mount SearchPlaygroundView docs_catalog).1.

Lemma search_selection_witness : collection_valid (cprops opened) (cstate opened).
Proof. apply (search_selection docs_catalog opened). constructor. Defined.

End Examples.
