(* ===== verification/MaintenanceView.v ===== *)
(** [studio/frontend/src/views/MaintenanceView.tsx]: the three storage tools and
    the integrity report. *)

From S2P Require Import Prelude JsString JsNumber Json Api Types React ViewCommon Quiescence.

Section View.
Context `{Engine}.

Record Cells := {
  report : option IntegrityReport;
  loadingCheck : bool; loadingCheckpoint : bool; loadingBackup : bool;
  statusMsg : option jstr; error : option jstr;
}.

Inductive Act := RunCheck | Checkpoint | Backup.

Inductive Susp := Checked | Checkpointed | BackedUp.

Definition init : Cells := {|
  report := None; loadingCheck := false; loadingCheckpoint := false; loadingBackup := false;
  statusMsg := None; error := None |}.

(** ** Integrity check *)

Definition check_failed (e : jserr) : prog Cells Susp := error <-- Some (err_or e (js "Integrity check failed")).

Definition handleRunCheck : prog Cells Susp :=
  error <-- None ;;; statusMsg <-- None ;;; loadingCheck <-- true ;;;
  await_call checkIntegrity Checked (fun e => check_failed e ;;; loadingCheck <-- false).

(** The report kept: absent lists become empty. *)
Definition kept_report (res : IntegrityReport) : IntegrityReport := {|
  valid := valid res; pages_checked := pages_checked res;
  errors := Some (default [] (errors res)); warnings := Some (default [] (warnings res)) |}.

Definition checked (o : outcome) : prog Cells Susp :=
  awaited IntegrityReport_of o (fun res => report <-- Some (kept_report res)) check_failed ;;; loadingCheck <-- false.

(** ** Checkpoint *)

Definition last_lsn_of (v : val) : option num := o ← as_obj v; as_num (fld o "last_lsn").

Definition checkpoint_failed (e : jserr) : prog Cells Susp := error <-- Some (err_or e (js "WAL Checkpoint failed")).

Definition handleCheckpoint : prog Cells Susp :=
  error <-- None ;;; statusMsg <-- None ;;; loadingCheckpoint <-- true ;;;
  await_call checkpointWAL Checkpointed (fun e => checkpoint_failed e ;;; loadingCheckpoint <-- false).

Definition checkpointed (o : outcome) : prog Cells Susp :=
  awaited last_lsn_of o
    (fun lsn => statusMsg <-- Some (js "WAL checkpoint completed successfully. LSN synced to #" ++ num_str lsn))
    checkpoint_failed ;;;
  loadingCheckpoint <-- false.

(** ** Backup *)

Definition backup_path_of (v : val) : option jstr := o ← as_obj v; as_str (fld o "backup_path").

Definition backup_failed (e : jserr) : prog Cells Susp := error <-- Some (err_or e (js "Backup failed")).

Definition handleBackup : prog Cells Susp :=
  error <-- None ;;; statusMsg <-- None ;;; loadingBackup <-- true ;;;
  await_call (triggerBackup None) BackedUp (fun e => backup_failed e ;;; loadingBackup <-- false).

Definition backed_up (o : outcome) : prog Cells Susp :=
  awaited backup_path_of o (fun path => statusMsg <-- Some (js "Snapshot backup saved to: " ++ path)) backup_failed ;;;
  loadingBackup <-- false.

Definition on (a : Act) : prog Cells Susp :=
  match a with RunCheck => handleRunCheck | Checkpoint => handleCheckpoint | Backup => handleBackup end.

Definition resumed (q : Susp) (o : outcome) : prog Cells Susp :=
  match q with Checked => checked o | Checkpointed => checkpointed o | BackedUp => backed_up o end.

Definition accepted (q : Susp) : outcome -> bool :=
  match q with
  | Checked => conforms IntegrityReport_of
  | Checkpointed => conforms last_lsn_of
  | BackedUp => conforms backup_path_of
  end.

(** ** Rendering *)

Definition tool (title blurb : string) (busy : bool) (a : Act) (working idle : string) : node Act :=
  el "div" [
    el "div" [el "h2" [txt title]; el "p" [txt blurb]];
    button busy (OnClick a) [el "span" [if busy then txt working else txt idle]]].

Definition tools (s : Cells) : node Act :=
  el "div" [
    tool "Kernel Integrity Check"
      "Scans all allocated slotted pages, checks CRC32C Castagnoli hardware checksums, validates B+Tree pointers, and ensures record directory consistency."
      (loadingCheck s) RunCheck "Verifying..." "Run Integrity Check";
    tool "Force WAL Checkpoint"
      "Synchronously flushes all dirty pages from the 16-partition LRU cache to disk, advances the Meta LSN checkpoint watermark, and truncates the WAL file."
      (loadingCheckpoint s) Checkpoint "Checkpointing..." "Flush & Checkpoint";
    tool "Point-In-Time Backup"
      "Creates a consistent, standalone copy of the single-file storage kernel while transactions continue executing."
      (loadingBackup s) Backup "Copying..." "Create Backup Snapshot"].

Definition issue_list (title : string) (l : list jstr) : list (node Act) :=
  when (negb (bool_decide (l = [])))
    [el "div" [el "span" [txt title]; el "ul" (map (fun e => el "li" [Txt e]) l)]].

Definition report_panel (r : IntegrityReport) : node Act :=
  let errs := default [] (errors r) in
  let warns := default [] (warnings r) in
  el "div" ([
    el "div" [
      el "div" [el "h2" [txt "Integrity Report: "; if valid r then txt "All Structures Healthy" else txt "Corruption Detected"]];
      el "span" [Txt (num_str (pages_checked r)); txt " Pages Validated"]]]
    ++ issue_list "Errors:" errs ++ issue_list "Warnings:" warns
    ++ when (bool_decide (errs = [])) [
      el "div" [txt "✓ Meta A / Meta B generation headers valid."; el "br" [];
                txt "✓ All page checksums passed hardware CRC32C verification."; el "br" [];
                txt "✓ B+Tree internal and leaf nodes consistent."; el "br" [];
                txt "✓ Record directory version chains consistent."]]).

Definition view (s : Cells) : option (node Act) :=
  Some (el "div" ([
    el "div" [
      el "h1" [el "span" [txt "Integrity Verification & Storage Tools"]];
      el "p" [txt "Perform storage kernel integrity diagnostics, force WAL checkpoints, and create snapshots"]]]
    ++ message_box (statusMsg s) ++ message_box (error s) ++ [tools s]
    ++ match report s with Some r => [report_panel r] | None => [] end)).

Definition MaintenanceView : component := {|
  Props := unit; State := Cells; Action := Act; Kont := Susp;
  initial := fun _ => init; handle := fun _ _ => on; resume := resumed; accepts := accepted;
  effects := []; render := fun _ => view; callbacks := [] |}.

End View.

Section Theory.
Context `{Engine}.

(** The flag a tool's button is disabled by, and the request it covers. *)
Definition busy (a : Act) (s : Cells) : bool :=
  match a with RunCheck => loadingCheck s | Checkpoint => loadingCheckpoint s | Backup => loadingBackup s end.

Definition own_request (a : Act) (q : Susp) : bool :=
  match a, q with RunCheck, Checked | Checkpoint, Checkpointed | Backup, BackedUp => true | _, _ => false end.

Lemma tool_enabled s tree h pl a :
  view s = Some tree -> h ∈ handlers tree -> fire h pl = Some a -> busy a s = false.
Proof.
  intros [= <-] Hin Hf. unfold tools, tool in Hin.
  handler_cases Hin; fired Hf; auto; repeat case_match; try done.
  all: unfold report_panel, issue_list in Hin; handler_cases Hin; repeat case_match; by handler_cases Hin.
Qed.

#[export] Instance tool_single (a : Act) : SingleFlight MaintenanceView (busy a) (own_request a).
Proof.
  split.
  - by destruct a.
  - intros p s tree h pl a' Hren Hin Hf. pose proof (tool_enabled _ _ _ _ _ Hren Hin Hf) as Hb.
    destruct a, a'; simpl in *; first [left; flight; fail | right; flight].
  - no_calls.
  - intros q o s Ht. destruct a, q; try discriminate; simpl;
      unfold checked, checkpointed, backed_up, pseq; awaited_cases; flight.
  - intros q o s Ht. destruct a, q; try discriminate; simpl;
      unfold checked, checkpointed, backed_up, pseq; awaited_cases; flight.
  - intros e p s0 s He. by apply not_elem_of_nil in He.
Qed.

(** Each of the three tools (integrity check, checkpoint, backup) runs at most
    once at a time, independently of the others: its flag is up exactly while its
    own request is pending. *)
Theorem tools_single_flight a p0 c :
  reachable MaintenanceView p0 c ->
  count_pend (own_request a) (cpend c) = (if busy a (cstate c) then 1%nat else 0%nat).
Proof. intros Hr. apply (flight_reachable MaintenanceView (busy a) (own_request a) p0 c Hr). Qed.

Lemma maintenance_settles old p s : settles MaintenanceView commit_fuel old p s = true.
Proof. revert old p s. by apply (settles_by MaintenanceView (fun _ => tt)). Qed.

(** ** Progress *)

#[export] Instance maintenance_api : Emitting MaintenanceView calm.
Proof.
  split.
  - intros p s []; simpl; unfold handleRunCheck, check_failed, handleCheckpoint, checkpoint_failed, handleBackup, backup_failed;
      auto 9 with emits.
  - intros [] o; simpl; unfold checked, check_failed, checkpointed, checkpoint_failed, backed_up, backup_failed;
      awaited_cases; auto with emits.
  - by intros e p s ?%not_elem_of_nil.
Qed.

#[export] Instance maintenance_drains : Drains MaintenanceView (fun _ => 1%nat).
Proof.
  split; [intros _; lia| |by intros []]. intros p s q f _. apply drains_idle with (n := 0%nat); [done| |lia].
  destruct q; simpl; unfold checked, check_failed, checkpointed, checkpoint_failed, backed_up, backup_failed;
    awaited_cases; auto with costs.
Qed.

#[export] Instance maintenance_waits : Waits MaintenanceView (fun s => loadingCheck s || loadingCheckpoint s || loadingBackup s).
Proof.
  split. intros p0 c Hr [[Hb|Hb]%orb_true_iff|Hb]%orb_true_iff.
  - exact (busy_waits (Waits := flight_waits _ _ _ (SingleFlight0 := tool_single RunCheck)) p0 c Hr Hb).
  - exact (busy_waits (Waits := flight_waits _ _ _ (SingleFlight0 := tool_single Checkpoint)) p0 c Hr Hb).
  - exact (busy_waits (Waits := flight_waits _ _ _ (SingleFlight0 := tool_single Backup)) p0 c Hr Hb).
Qed.

End Theory.
