(* ===== verification/CollectionsView.v ===== *)
(** [studio/frontend/src/views/CollectionsView.tsx]: browsing a collection
    (with the guard that only the latest query updates the table), filtering,
    and the create/edit dialog. *)

From S2P Require Import Prelude JsString JsNumber Json Api Types React ViewCommon LatestWins Quiescence.

Open Scope N_scope.

(** [modalMode] *)
Inductive Mode := Create | Edit.

#[global] Instance Mode_eq_dec : EqDecision Mode.
Proof. solve_decision. Defined.

Section View.
Context `{Engine}.

Record Cells := {
  selectedCollection : jstr;
  documents : list jsobj; loading : bool; error : option jstr;
  filterField : jstr; filterOp : jstr; filterVal : jstr;
  viewDoc : option jsobj;
  isModalOpen : bool; jsonInput : jstr; modalMode : Mode;
  latestRequest : N;
}.

Inductive Act :=
| SelectTab (name : jstr)
| SetFilterField (v : jstr) | SetFilterOp (v : jstr) | SetFilterVal (v : jstr)
| ApplyFilter | ClearFilter
| ShowDoc (doc : jsobj) | CloseDoc
| OpenCreate | OpenEdit (doc : jsobj) | CloseModal | SetJsonInput (v : jstr) | SaveDocument
| DeleteDoc (id : jstr) (confirmed : bool)
| Uncaught.

(** The suspended parts, with the closure each runs in. *)
Inductive Susp :=
| Loaded (requestID : N)
| Cleared (env : Cells)
| Saved (env : Cells)
| Deleted (env : Cells).

Definition init (_ : option CatalogData) : Cells := {|
  selectedCollection := []; documents := []; loading := false; error := None;
  filterField := []; filterOp := js "eq"; filterVal := [];
  viewDoc := None; isModalOpen := false; jsonInput := []; modalMode := Create;
  latestRequest := 0 |}.

(** ** Loading documents *)

Definition load_filters (env : Cells) : val :=
  if_text (filterField env)
    (VArr [filter_entry (trim (filterField env)) (filterOp env) (filter_value (filterVal env))]) VUndef.

Definition load_call (env : Cells) (collection : jstr) : call :=
  queryDocuments collection [(js "filters", load_filters env); (js "limit", VNum (num_of_Z 50))].

(** [if (requestID === latestRequest.current) ...] *)
Definition if_latest (requestID : N) (m : prog Cells Susp) : prog Cells Susp :=
  with_state (fun s => pwhen (requestID =? latestRequest s) m).

Definition load_failed (requestID : N) (e : jserr) : prog Cells Susp :=
  if_latest requestID (error <-- Some (err_or e (js "Failed to load documents"))).

Definition load_finally (requestID : N) : prog Cells Susp := if_latest requestID (loading <-- false).

Definition loadDocuments (env : Cells) (collection : jstr) : prog Cells Susp :=
  if negb (truthy_str collection) then pskip
  else with_state (fun s =>
    let requestID := latestRequest s + 1 in
    latestRequest <-- requestID ;;;
    loading <-- true ;;; error <-- None ;;;
    await_call (load_call env collection) (Loaded requestID)
      (fun e => load_failed requestID e ;;; load_finally requestID)).

Definition loaded (requestID : N) (o : outcome) : prog Cells Susp :=
  awaited QueryResult_of o
    (fun res => if_latest requestID (documents <-- default [] (Types.documents res))) (load_failed requestID) ;;;
  load_finally requestID.

(** ** Effects *)

Definition sync_selection (collections : list CatalogObject) : prog Cells Susp :=
  with_state (fun s =>
    let current := selectedCollection s in
    if truthy_str current && existsb (fun c => str_eq (co_name c) current) collections then pskip
    else selectedCollection <-- first_name collections).

(** It runs when [catalog] is replaced. Running it again on the same names changes
    nothing when no collection has an empty name ([sync_selection_idle]), so it is
    taken to run when the names changed. *)
Definition catalog_effect : effect (option CatalogData) Cells Susp := mk_effect
  (fun old new => match old with
   | None => true
   | Some (c0, _) => negb (bool_decide (co_name <$> collections_of c0 = co_name <$> collections_of new.1))
   end)
  (fun c _ => sync_selection (collections_of c)).

Definition selection_effect : effect (option CatalogData) Cells Susp := mk_effect
  (fun old new => match old with
   | None => true
   | Some (_, s0) => negb (str_eq (selectedCollection s0) (selectedCollection new.2))
   end)
  (fun _ s => if truthy_str (selectedCollection s) then loadDocuments s (selectedCollection s) else pskip).

(** ** Dialogs *)

Definition new_document : jstr :=
  js "{" ++ [10] ++ jq "  'name': 'New Document'," ++ [10] ++ jq "  'active': true" ++ [10] ++ js "}".

Definition handleOpenCreate : prog Cells Susp :=
  modalMode <-- Create ;;; jsonInput <-- new_document ;;; isModalOpen <-- true.

Definition handleOpenEdit (doc : jsobj) : prog Cells Susp :=
  modalMode <-- Edit ;;; jsonInput <-- stringify2 (VObj doc) ;;; isModalOpen <-- true.

Definition save_failed (e : jserr) : prog Cells Susp := error <-- Some (err_or e (js "Invalid JSON or Save Failed")).

(** The request that saves the dialog's text, or the error it throws. *)
Definition save_call (env : Cells) : call :=
  match parse (jsonInput env) with
  | None => inl (mk_err (syntax_message (jsonInput env)))
  | Some parsed =>
      match modalMode env with
      | Create => insertDocument (selectedCollection env) parsed
      | Edit =>
          match member_of parsed (js "_id") with
          | None => inl (mk_err (type_message (js "parsed._id")))
          | Some id =>
              if negb (truthy id) then inl (mk_err (js "Document must have an _id for updating"))
              else match to_string id with
              | None => inl (mk_err (type_message (js "String(id)")))
              | Some i => updateDocument (selectedCollection env) i parsed
              end
          end
      end
  end.

Definition handleSaveDocument (env : Cells) : prog Cells Susp :=
  error <-- None ;;; await_call (save_call env) (Saved env) save_failed.

Definition saved (env : Cells) (o : outcome) : prog Cells Susp :=
  awaited Some o
    (fun _ => isModalOpen <-- false ;;; loadDocuments env (selectedCollection env) ;;; emit (Ext OnRefreshCatalog))
    save_failed.

Definition delete_failed (e : jserr) : prog Cells Susp := error <-- Some (err_or e (js "Failed to delete document")).

Definition handleDelete (env : Cells) (id : jstr) (confirmed : bool) : prog Cells Susp :=
  if negb confirmed then pskip
  else await_call (deleteDocument (selectedCollection env) id) (Deleted env) delete_failed.

Definition deleted (env : Cells) (o : outcome) : prog Cells Susp :=
  awaited Some o (fun _ => loadDocuments env (selectedCollection env)) delete_failed.

Definition clear_filter (env : Cells) : prog Cells Susp :=
  filterField <-- [] ;;; filterVal <-- [] ;;; emit (Timer 0 (Cleared env)).

Definition on (env : Cells) (a : Act) : prog Cells Susp :=
  match a with
  | SelectTab name => selectedCollection <-- name
  | SetFilterField v => filterField <-- v
  | SetFilterOp v => filterOp <-- v
  | SetFilterVal v => filterVal <-- v
  | ApplyFilter => loadDocuments env (selectedCollection env)
  | ClearFilter => clear_filter env
  | ShowDoc doc => viewDoc <-- Some doc
  | CloseDoc => viewDoc <-- None
  | OpenCreate => handleOpenCreate
  | OpenEdit doc => handleOpenEdit doc
  | CloseModal => isModalOpen <-- false
  | SetJsonInput v => jsonInput <-- v
  | SaveDocument => handleSaveDocument env
  | DeleteDoc id b => handleDelete env id b
  | Uncaught => pskip
  end.

Definition resumed (q : Susp) (o : outcome) : prog Cells Susp :=
  match q with
  | Loaded id => loaded id o
  | Cleared env => loadDocuments env (selectedCollection env)
  | Saved env => saved env o
  | Deleted env => deleted env o
  end.

Definition accepted (q : Susp) (o : outcome) : bool :=
  match q with
  | Loaded _ => conforms QueryResult_of o
  | _ => true
  end.

(** ** Rendering *)

(** The first six distinct keys of the documents. *)
Definition allKeys (s : Cells) : list jstr := take 6 (distinct (mjoin (keys <$> documents s))).

Definition title_bar (s : Cells) : node Act :=
  el "div" ([
    el "div" [
      el "h1" [el "span" [txt "Document Collections"]];
      el "p" [txt "Browse and query CSON-encoded NoSQL collections with schema validation"]]]
    ++ when (truthy_str (selectedCollection s)) [
      button false (OnClick OpenCreate) [el "span" [txt "Insert Document"]]]).

Definition tabs (collections : list CatalogObject) : node Act :=
  el "div" match collections with
  | [] => [el "span" [txt "No collections found"]]
  | cs => map (fun c => button false (OnClick (SelectTab (co_name c))) [Txt (co_name c)]) cs
  end.

Definition filter_ops : list (jstr * jstr) :=
  [(js "eq", js "== (Equals)"); (js "ne", js "!= (Not Equals)"); (js "gt", js "> (Greater Than)");
   (js "gte", js ">= (Greater or Equal)"); (js "lt", js "< (Less Than)"); (js "lte", js "<= (Less or Equal)");
   (js "contains", js "Contains (Substring)")].

Definition filter_bar (s : Cells) : node Act :=
  el "div" ([
    el "div" [el "span" [txt "Filter:"]];
    input (js "text") (js "Field name (e.g. status, age)") (filterField s) SetFilterField;
    select (filterOp s) filter_ops SetFilterOp;
    input (js "text") (js "Value (e.g. active, 25)") (filterVal s) SetFilterVal;
    button false (OnClick ApplyFilter) [el "span" [txt "Apply Filter"]]]
    ++ when (truthy_str (filterField s)) [button false (OnClick ClearFilter) [txt "Clear"]]).

(** The text of a cell: [String(val)], replaced by its JSON for an object. The
    conversion runs, and may throw, for objects too. *)
Definition displayVal (v : val) : option jstr :=
  t ← to_string v;
  Some match v with VArr _ | VObj _ => stringify v | _ => t end.

Definition cell (doc : jsobj) (k : jstr) : option (node Act) :=
  d ← displayVal (get doc k);
  Some (El (js "td") [(js "title", d)] false [] [if str_eq k (js "_id") then el "span" [Txt d] else Txt d]).

(** The three buttons of a row. [String(doc._id)] is evaluated on the click. *)
Definition row_actions (doc : jsobj) : node Act :=
  el "td" [
    button false (OnClick (ShowDoc doc)) [];
    button false (OnClick (OpenEdit doc)) [];
    match to_string (get doc (js "_id")) with
    | Some id =>
        button false (OnAsk (jq "Are you sure you want to delete document '" ++ id ++ jq "'?") (DeleteDoc id)) []
    | None => button false (OnClick Uncaught) []
    end].

Definition row (ks : list jstr) (doc : jsobj) : option (node Act) :=
  tds ← mapM (cell doc) ks;
  Some (el "tr" (tds ++ [row_actions doc])).

Definition notice_row (ks : list jstr) (text : string) : node Act :=
  el "tr" [El (js "td") [(js "colSpan", digits (N.of_nat (length ks) + 1))] false [] [txt text]].

Definition table_rows (s : Cells) : option (list (node Act)) :=
  if loading s then Some [notice_row (allKeys s) "Loading collection documents..."]
  else match documents s with
  | [] => Some [notice_row (allKeys s) "No documents found."]
  | docs => mapM (row (allKeys s)) docs
  end.

Definition table (s : Cells) (rows : list (node Act)) : node Act :=
  el "div" [
    el "div" [el "span" [count_txt (documents s); txt " Documents Loaded"]; el "span" [txt "CSON Zero-Copy Projection"]];
    el "div" [el "table" [
      el "thead" [el "tr" (map (fun k => el "th" [Txt k]) (allKeys s) ++ [el "th" [txt "Actions"]])];
      el "tbody" rows]]].

(** The viewer: the [_id] is shown as a child, which throws for an object. *)
Definition viewer (s : Cells) : option (list (node Act)) :=
  match viewDoc s with
  | None => Some []
  | Some doc =>
      id ← child (get doc (js "_id"));
      Some [el "div" [el "div" [
        el "div" [el "h3" (txt "Document: " :: id); button false (OnClick CloseDoc) [txt "Close"]];
        el "pre" [Txt (stringify2 (VObj doc))]]]]
  end.

Definition modal (s : Cells) : list (node Act) :=
  when (isModalOpen s) [el "div" [el "div" [
    el "div" [
      el "h3" [match modalMode s with Create => txt "Insert New Document" | Edit => txt "Edit Document" end];
      button false (OnClick CloseModal) [txt "Cancel"]];
    el "div" [el "label" [txt "JSON Payload"]; textarea [] (jsonInput s) SetJsonInput];
    el "div" [
      button false (OnClick CloseModal) [txt "Cancel"];
      button false (OnClick SaveDocument) [txt "Save Document"]]]]].

Definition view (catalog : option CatalogData) (s : Cells) : option (node Act) :=
  rows ← table_rows s;
  v ← viewer s;
  Some (el "div" ([title_bar s; tabs (collections_of catalog); filter_bar s]
    ++ message_box (error s) ++ [table s rows] ++ v ++ modal s)).

Definition CollectionsView : component := {|
  Props := option CatalogData; State := Cells; Action := Act; Kont := Susp;
  initial := init; handle := fun _ => on; resume := resumed; accepts := accepted;
  effects := [catalog_effect; selection_effect]; render := view; callbacks := [] |}.

End View.

Section Theory.
Context `{Engine}.

(** ** The latest request wins *)

Definition guard_obs (s : Cells) : N * bool := (latestRequest s, loading s).
Definition guard_tag (q : Susp) : option N := match q with Loaded i => Some i | _ => None end.

Lemma loadDocuments_issuing env c : issuing guard_obs guard_tag (loadDocuments env c).
Proof.
  intros s. unfold loadDocuments. destruct (truthy_str c); simpl; [|split; [constructor|by constructor]].
  unfold with_state, load_call. destruct (queryDocuments _ _) as [e|r]; simpl.
  - unfold pseq, load_failed, load_finally, if_latest, with_state, pwhen, guard_obs. cbn. rewrite !N.eqb_refl. cbn.
    rewrite N.eqb_refl. split; [apply issue_throw|by constructor].
  - split; [apply issue_send|by repeat constructor].
Qed.

Hint Resolve loadDocuments_issuing : js.

#[export] Instance collections_latest : LatestWins CollectionsView guard_obs guard_tag.
Proof.
  split.
  - done.
  - intros p env []; simpl; auto 9 with js.
    + apply issuing_seq; auto with js. apply issuing_seq; auto with js. apply issuing_emit; by repeat constructor.
    + unfold handleOpenCreate. auto with js.
    + unfold handleOpenEdit. auto with js.
    + unfold handleSaveDocument, save_failed. auto with js.
    + unfold handleDelete, delete_failed. auto with js.
  - intros e p env He. apply elem_of_cons in He as [-> | ->%list_elem_of_singleton]; simpl; [|auto with js].
    unfold sync_selection. auto with js.
  - intros [i| | |] j f s; try done. intros [= ->]. simpl. unfold loaded, awaited, success.
    destruct (settle f) as [e|v]; [|destruct (QueryResult_of v) as [res|]; [|done]]; intros _;
      unfold pseq, load_failed, load_finally, if_latest, with_state, pwhen, guard_obs; destruct s as [??????????? n]; simpl;
      destruct (j =? n) eqn:E; simpl; by rewrite ?E.
  - intros [i|env|env|env] o; [done|intros _..]; simpl; [auto with js|unfold saved|unfold deleted];
      unfold save_failed, delete_failed; awaited_cases; auto with js.
    apply issuing_seq; [by auto with js|]. apply issuing_seq; [by auto with js|]. apply issuing_emit; by repeat constructor.
Qed.


(** Nothing but a loaded answer touches the documents. *)
Lemma documents_frames_load env c : frames documents (loadDocuments env c).
Proof.
  unfold loadDocuments, load_failed, load_finally, if_latest. auto 12 with frame.
Qed.

Hint Resolve documents_frames_load : frame.

Lemma documents_frames_on env a : frames documents (on env a).
Proof.
  destruct a; simpl; unfold clear_filter, handleOpenCreate, handleOpenEdit, handleSaveDocument, save_failed,
    handleDelete, delete_failed; auto 9 with frame.
Qed.

Lemma documents_frames_effects e p s0 : e ∈ effects CollectionsView -> frames documents (eff_body e p s0).
Proof.
  intros He. apply elem_of_cons in He as [-> | ->%list_elem_of_singleton]; simpl; [unfold sync_selection|]; auto with frame.
Qed.

Lemma documents_frames_other q o : guard_tag q = None -> frames documents (resumed q o).
Proof.
  destruct q as [i|env|env|env]; [done|intros _..]; simpl; [auto with frame|unfold saved|unfold deleted];
    unfold save_failed, delete_failed; awaited_cases; auto 9 with frame.
Qed.

(** What an answer does to the documents. *)
Lemma loaded_documents i f s : conforms QueryResult_of (Settled f) = true ->
  documents (loaded i (Settled f) s).1 =
  match settle f with
  | inr v => if i =? latestRequest s then default [] (QueryResult_of v ≫= Types.documents) else documents s
  | inl _ => documents s
  end.
Proof.
  unfold conforms, success, loaded, awaited, load_failed, load_finally, if_latest, with_state, pwhen, pseq.
  destruct (settle f) as [e|v]; [|destruct (QueryResult_of v) as [res|]; [|done]]; intros _;
    destruct s as [??????????? n]; simpl; destruct (i =? n) eqn:E; simpl; by rewrite ?E.
Qed.

Lemma documents_frames_fired i : frames documents (loaded i Fired).
Proof. unfold loaded, load_finally, if_latest. simpl. auto 9 with frame. Qed.

(** C1: in every step of the collection browser, the table of documents stays as
    it is or becomes the answer to the latest request; the answer to an earlier
    request, a failed one, and every other event leave it alone. *)
Theorem collections_latest_wins c i c' o :
  exec CollectionsView c i = Some (c', o) ->
  documents (cstate c') = documents (cstate c)
  \/ exists n r f v res,
       i = IResume n (Settled f)
       /\ cpend c !! n = Some (PFetch r (Loaded (latestRequest (cstate c))))
       /\ settle f = inr v /\ QueryResult_of v = Some res
       /\ documents (cstate c') = default [] (Types.documents res).
Proof.
  intros E. apply (exec_frames CollectionsView documents documents_frames_effects) in E
    as [E|[[a E]|(n & q & out & -> & Eq & Ha & [keep Hk] & E)]].
  - by left.
  - left. rewrite E. apply documents_frames_on.
  - destruct (guard_tag (kont_of q)) as [j|] eqn:Et; [|left; rewrite E; by apply documents_frames_other].
    destruct (kont_of q) as [i| | |] eqn:Eq'; try done. simpl in E, Ha.
    destruct out as [f|]; [|left; rewrite E; apply documents_frames_fired].
    destruct q as [r k|k|k]; try done. simpl in Eq'. subst k.
    rewrite loaded_documents in E by done. unfold conforms, success in Ha.
    destruct (settle f) as [e|v] eqn:Ef; [by left|]. destruct (QueryResult_of v) as [res|] eqn:Er; [|done].
    destruct (i =? latestRequest (cstate c)) eqn:Ei; [|by left]. to_prop. subst i.
    right. by exists n, r, f, v, res.
Qed.

(** C28: in every configuration the browser reaches, the loading flag is up
    exactly while the latest request is pending, so the notice cannot stay after
    its answer, and no two pending requests share a number. *)
Theorem collections_loading p0 c :
  reachable CollectionsView p0 c ->
  (loading (cstate c) = true <-> exists r, PFetch r (Loaded (latestRequest (cstate c))) ∈ cpend c)
  /\ NoDup (ids guard_tag (cpend c)).
Proof.
  intros Hr. destruct (latest_reachable CollectionsView guard_obs guard_tag p0 c Hr) as (Hn & _ & Hl).
  split; [|done]. rewrite (Hl : loading (cstate c) = true <-> _). split.
  - intros (r & [i| | |] & Hin & Et); try done. exists r. by injection Et as ->.
  - intros [r Hin]. by exists r, (Loaded (latestRequest (cstate c))).
Qed.

(** ** The selected collection *)

Definition names (c : option CatalogData) : list jstr := co_name <$> collections_of c.

Definition selection_valid (c : option CatalogData) (s : Cells) : Prop :=
  selectedCollection s ∈ names c \/ (names c = [] /\ selectedCollection s = []).

Lemma first_name_valid cs : first_name cs ∈ co_name <$> cs \/ (co_name <$> cs = [] /\ first_name cs = []).
Proof. destruct cs as [|c r]; [by right|left]. by left. Qed.

Lemma sync_selection_valid c s : selection_valid c (sync_selection (collections_of c) s).1.
Proof.
  unfold sync_selection, with_state. case_match eqn:E; [|destruct s; apply first_name_valid].
  apply andb_true_iff in E as [_ (x & Hin & Hx)%existsb_exists]. left. apply list_elem_of_fmap. exists x.
  split; [|by apply list_elem_of_In]. unfold str_eq in Hx. by to_prop.
Qed.

Lemma selection_frames_load env c : frames selectedCollection (loadDocuments env c).
Proof. unfold loadDocuments, load_failed, load_finally, if_latest. auto 12 with frame. Qed.

Hint Resolve selection_frames_load : frame.

Lemma selection_frames_resumed q o : frames selectedCollection (resumed q o).
Proof.
  destruct q; simpl; unfold loaded, saved, deleted, save_failed, delete_failed, load_failed, load_finally, if_latest;
    try awaited_cases; auto 12 with frame.
Qed.

(** No row of the table chooses a collection. *)
Lemma rows_actions s rows h pl name :
  table_rows s = Some rows -> h ∈ handlers_of rows -> fire h pl <> Some (SelectTab name).
Proof.
  unfold table_rows. intros Hr Hin Hf.
  assert (forall docs, mapM (row (allKeys s)) docs = Some rows -> False) as Hrow.
  { intros docs Hm. destruct (mapM_handlers _ _ _ _ Hm Hin) as (doc & n & _ & Hn & Hh). unfold row in Hn.
    destruct (mapM (cell doc) (allKeys s)) as [tds|] eqn:Et; [|done]. simplify_eq/=. unfold row_actions in Hh.
    handler_cases Hh.
    - destruct (mapM_handlers _ _ _ _ Et Hh) as (k & n & _ & Hc & Hk). unfold cell in Hc.
      destruct (displayVal _); [|done]. simplify_eq/=. case_match; by handler_cases Hk.
    - by fired Hf.
    - by fired Hf.
    - case_match; handler_cases Hh; by fired Hf. }
  destruct (loading s); [simplify_eq; unfold notice_row in Hin; by handler_cases Hin|].
  destruct (documents s); [simplify_eq; unfold notice_row in Hin; by handler_cases Hin|]. by eapply Hrow.
Qed.

(** Only the tabs choose a collection, and they offer the catalog's. *)
Lemma tab_actions c s tree h pl name :
  view c s = Some tree -> h ∈ handlers tree -> fire h pl = Some (SelectTab name) -> name ∈ names c.
Proof.
  unfold view. destruct (table_rows s) as [rows|] eqn:Er; [|done]. cbn [mbind option_bind].
  destruct (viewer s) as [v|] eqn:Ev; [|done]. cbn [mbind option_bind]. intros [= <-] Hin Hf.
  unfold title_bar, tabs, filter_bar, table, modal, viewer in *. handler_cases Hin; try by fired Hf.
  - destruct (collections_of c) as [|x r] eqn:Ec; [by handler_cases Hin|]. handler_cases Hin. fired Hf.
    unfold names. rewrite Ec. by apply list_elem_of_fmap_2.
  - by destruct (rows_actions _ _ _ pl name Er Hin).
  - destruct (viewDoc s) as [doc|]; simplify_eq/=; [|by apply not_elem_of_nil in Hin].
    destruct (child _) as [l|] eqn:El; simplify_eq/=. autorewrite with handlers in Hin.
    rewrite (child_inert _ _ El) in Hin. handler_cases Hin; by fired Hf.
  - destruct (modalMode s); by handler_cases Hin.
Qed.

Lemma selection_frames_on env a : (forall n, a <> SelectTab n) -> frames selectedCollection (on env a).
Proof.
  intros Ha. destruct a; try done; simpl; unfold clear_filter, handleOpenCreate, handleOpenEdit, handleSaveDocument,
    save_failed, handleDelete, delete_failed; auto 9 with frame.
  by destruct (Ha name).
Qed.

Lemma selection_valid_frames c (m : prog Cells Susp) s :
  frames selectedCollection m -> selection_valid c s -> selection_valid c (m s).1.
Proof. intros Hf. unfold selection_valid. by rewrite Hf. Qed.

Hint Resolve selection_valid_frames : frame.

Lemma selection_frames_load_effect p s0 : frames selectedCollection (eff_body selection_effect p s0).
Proof. simpl. auto with frame. Qed.

(** The effects after the first leave the selection valid. *)
Lemma selection_valid_rest c old new s :
  selection_valid c s -> selection_valid c (run_list CollectionsView [selection_effect] old new s).1.
Proof.
  intros Hs. rewrite run_list_cons. simpl run_list. unfold pskip. case_match; [|done].
  apply selection_valid_frames; [apply (selection_frames_load_effect new.1 new.2)|done].
Qed.

#[export] Instance selection_invariant : Invariant CollectionsView (fun c s _ => selection_valid c s).
Proof.
  split.
  - intros p m. subst m. unfold run_effects. simpl effects. rewrite run_list_cons.
    apply selection_valid_rest. apply sync_selection_valid.
  - intros p s pend tree h pl a Hs Hren Hin Hf.
    destruct a; try (apply selection_valid_frames; [apply selection_frames_on; by intros ? [=]|done]).
    left. destruct s. by eapply tab_actions.
  - no_calls.
  - intros. apply selection_valid_frames; [apply selection_frames_resumed|done].
  - intros e p s0 s pend He Hs. apply elem_of_cons in He as [-> | ->%list_elem_of_singleton]; [apply sync_selection_valid|].
    apply selection_valid_frames; [apply selection_frames_load_effect|done].
  - intros p p' s pend Hs m. subst m. unfold run_effects. simpl effects. rewrite run_list_cons. apply selection_valid_rest.
    cbn [catalog_effect eff_changed eff_body fst snd]. case_bool_decide as Hn; simpl; [|apply sync_selection_valid].
    unfold selection_valid, names in *. by rewrite <- Hn.
Qed.

(** Synchronising again changes nothing. *)
Lemma sync_selection_idle c s : selection_valid c s -> [] ∉ names c -> sync_selection (collections_of c) s = (s, []).
Proof.
  intros Hs Hn. unfold sync_selection, with_state. destruct Hs as [Hin|[He Hs]].
  - assert (truthy_str (selectedCollection s) = true) as -> by (destruct (selectedCollection s); done).
    apply list_elem_of_fmap in Hin as (x & Hx & Hin%list_elem_of_In).
    assert (existsb (fun c => str_eq (co_name c) (selectedCollection s)) (collections_of c) = true) as ->; [|done].
    apply existsb_exists. exists x. split; [done|]. unfold str_eq. by apply bool_decide_eq_true_2.
  - unfold names in He. apply fmap_nil_inv in He. rewrite He. simpl. rewrite andb_false_r. destruct s. simpl in *. by subst.
Qed.

(** In every configuration the browser reaches, whatever catalogs its parent
    passes down, the selected collection is one of the current catalog, and
    empty only when the catalog has none. *)
Theorem collections_selection p0 c :
  reachable CollectionsView p0 c -> selection_valid (cprops c) (cstate c).
Proof. apply (invariant_reachable CollectionsView (fun c s _ => selection_valid c s)). Qed.

(** ** Commits end *)

Lemma collections_settles old p s : settles CollectionsView commit_fuel old p s = true.
Proof.
  revert old p s. apply (settles_by CollectionsView selectedCollection).
  - intros p s s' Hs. unfold any_changed. simpl. unfold str_eq. by rewrite Hs, !bool_decide_eq_true_2.
  - intros old p s _ s1. generalize s1. clear s1. intros s1. unfold run_effects. simpl effects. rewrite run_list_cons.
    cbn [catalog_effect eff_changed fst snd]. rewrite bool_decide_eq_true_2 by done. cbn [negb].
    rewrite run_list_cons. simpl run_list. unfold pskip. case_match; [|done]. apply (selection_frames_load_effect p).
Qed.

(** ** Editing *)

(** Opening a document in the editor and saving it unchanged sends that very
    document, under its own identifier, to its collection. *)
Theorem edit_save_roundtrip env doc id c i :
  json_ok (VObj doc) = true ->
  truthy (get doc (js "_id")) = true -> to_string (get doc (js "_id")) = Some id ->
  encodeURIComponent (selectedCollection env) = Some c -> encodeURIComponent id = Some i ->
  exists r, save_call (on env (OpenEdit doc) env).1 = inr r
    /\ req_method r = js "POST" /\ req_url r = js "/api/doc/" ++ c ++ js "/update?id=" ++ i
    /\ (req_body r ≫= parse) = Some (VObj doc).
Proof.
  intros Hok Ht Hs Hc Hi. destruct env. simpl in *. unfold save_call. simpl. rewrite parse_stringify2 by done. simpl.
  rewrite Ht. simpl. rewrite Hs. unfold updateDocument, with_component. rewrite Hc, Hi.
  eexists. split; [reflexivity|]. split; [done|]. split; [done|]. simpl. by apply parse_stringify.
Qed.

(** ** The Clear button *)

(** Clear empties the filter fields, but the query it schedules runs in the
    closure of the render that created the button: the request sent next still
    carries the filter that was just cleared. *)
Theorem clear_requests_old_filter env s r :
  truthy_str (selectedCollection env) = true -> load_call env (selectedCollection env) = inr r ->
  filterField (on env ClearFilter env).1 = []
  /\ (on env ClearFilter env).2 = [Timer 0 (Cleared env)]
  /\ (resumed (Cleared env) Fired s).2 = [Fetch r (Loaded (latestRequest s + 1))].
Proof.
  intros Hs Hc. split; [by destruct env|]. split; [by destruct env|]. simpl. unfold loadDocuments.
  rewrite Hs. simpl. unfold with_state, pseq. simpl. by rewrite Hc.
Qed.

(** ** The table *)

(** The columns are distinct keys of the loaded documents, six at most, in
    the order of their first occurrence, and all of them when there are no more
    than six. *)
Theorem table_columns s :
  NoDup (allKeys s) /\ (length (allKeys s) <= 6)%nat
  /\ (forall k, k ∈ allKeys s -> exists doc, doc ∈ documents s /\ k ∈ keys doc)
  /\ (allKeys s) `prefix_of` distinct (mjoin (keys <$> documents s))
  /\ ((length (distinct (mjoin (keys <$> documents s))) <= 6)%nat ->
      forall doc k, doc ∈ documents s -> k ∈ keys doc -> k ∈ allKeys s).
Proof.
  unfold allKeys. set (ks := distinct (mjoin (keys <$> documents s))).
  assert (forall k, k ∈ ks <-> exists doc, doc ∈ documents s /\ k ∈ keys doc) as Hks.
  { intros k. unfold ks. rewrite elem_of_distinct, list_elem_of_join. split.
    - intros (l & Hk & (doc & -> & Hd)%list_elem_of_fmap). eauto.
    - intros (doc & Hd & Hk). exists (keys doc). split; [done|]. by apply list_elem_of_fmap_2. }
  split; [|split; [rewrite length_take; lia|split; [|split]]].
  - assert (NoDup (take 6 ks ++ drop 6 ks)) as Hn by (rewrite take_drop; unfold ks; auto with js).
    by apply NoDup_app in Hn as [? _].
  - intros k Hk. apply Hks. rewrite <- (take_drop 6 ks). apply elem_of_app. by left.
  - exists (drop 6 ks). by rewrite take_drop.
  - intros Hl doc k Hd Hk. rewrite take_ge by done. apply Hks. eauto.
Qed.

Lemma is_Some_bind {A B} (x : option A) (f : A -> B) : is_Some (y ← x; Some (f y)) <-> is_Some x.
Proof. destruct x; simpl; split; intros Hx; first [exfalso; by destruct Hx|by eexists]. Qed.

Lemma row_renders ks doc : is_Some (row ks doc) <-> forall k, k ∈ ks -> is_Some (to_string (get doc k)).
Proof.
  unfold row. rewrite is_Some_bind, mapM_is_Some, Forall_forall.
  split; intros Hk k Hin; specialize (Hk k Hin); unfold compose, cell, displayVal in *; destruct (to_string _); simpl in *;
    first [exfalso; by destruct Hk|by eexists].
Qed.

Lemma rows_render s : is_Some (table_rows s) <->
  loading s = true \/ forall doc k, doc ∈ documents s -> k ∈ allKeys s -> is_Some (to_string (get doc k)).
Proof.
  unfold table_rows. destruct (loading s); [split; [by left|by eexists]|].
  assert (is_Some (mapM (row (allKeys s)) (documents s)) <->
    forall doc k, doc ∈ documents s -> k ∈ allKeys s -> is_Some (to_string (get doc k))) as Hr.
  { rewrite mapM_is_Some, Forall_forall. setoid_rewrite row_renders. naive_solver. }
  destruct (documents s) as [|d r] eqn:Ed; [split; [right; by intros ?? ?%not_elem_of_nil|by eexists]|].
  rewrite Hr. naive_solver.
Qed.

(** The browser renders unless a shown cell or the identifier of the viewed
    document cannot be turned into text, which needs a nested object that
    redefines [toString], or an object as [_id]; these are exactly the states in
    which rendering throws. *)
Theorem collections_render catalog s :
  is_Some (view catalog s) <->
  (loading s = true \/ forall doc k, doc ∈ documents s -> k ∈ allKeys s -> is_Some (to_string (get doc k)))
  /\ (forall doc, viewDoc s = Some doc -> is_Some (child (A := Act) (get doc (js "_id")))).
Proof.
  unfold view. split.
  - intros [t Ht]. destruct (table_rows s) as [rows|] eqn:Er; [|done]. split; [apply rows_render; by rewrite Er|].
    intros doc Hd. unfold viewer in Ht. rewrite Hd in Ht. simpl in Ht. by destruct (child _).
  - intros [Hr Hv]. apply rows_render in Hr as [rows ->]. simpl. unfold viewer.
    destruct (viewDoc s) as [doc|]; [|by eexists]. destruct (Hv doc eq_refl) as [l ->]. by eexists.
Qed.

(** ** Progress *)

Lemma loadDocuments_api env c : emits calm (loadDocuments env c).
Proof. unfold loadDocuments, load_failed, load_finally, if_latest. auto 15 with emits. Qed.

Hint Resolve loadDocuments_api : emits.

Lemma save_call_ok env : api_ok (save_call env).
Proof. unfold save_call. repeat case_match; auto with emits. Qed.

Hint Resolve save_call_ok : emits.

#[export] Instance collections_api : Emitting CollectionsView calm.
Proof.
  split.
  - intros p s []; simpl; unfold clear_filter, handleOpenCreate, handleOpenEdit, handleSaveDocument, save_failed,
      handleDelete, delete_failed; auto 9 with emits.
  - intros [] o; simpl; unfold loaded, load_failed, load_finally, if_latest, saved, save_failed, deleted, delete_failed;
      try awaited_cases; auto 9 with emits.
  - intros e p s [-> | ->%list_elem_of_singleton]%elem_of_cons; simpl; [unfold sync_selection|]; auto with emits.
Qed.

(** Saving and deleting load the documents once more. *)
Definition collections_weight (q : Susp) : nat := match q with Loaded _ => 1 | _ => 2 end.

Lemma loadDocuments_costs env c : costs collections_weight 1 (loadDocuments env c).
Proof. unfold loadDocuments, load_failed, load_finally, if_latest. auto 15 with costs. Qed.

Hint Resolve loadDocuments_costs : costs.

#[export] Instance collections_drains : Drains CollectionsView collections_weight.
Proof.
  split; [intros []; simpl; lia| |by intros []]. intros p s q f _.
  apply drains_idle with (n := (collections_weight q - 1)%nat); [| |destruct q; simpl; lia].
  - unfold any_changed. simpl. unfold str_eq. by rewrite selection_frames_resumed, !bool_decide_eq_true_2.
  - destruct q; simpl; unfold loaded, load_failed, load_finally, if_latest, saved, save_failed, deleted, delete_failed;
      try awaited_cases; auto 9 with costs.
Qed.

#[export] Instance collections_waits : Waits CollectionsView loading.
Proof. exact (latest_waits CollectionsView guard_obs guard_tag). Qed.

End Theory.

(** ** The theorems on a concrete browser *)

Module Examples.

#[local] Existing Instance plain_engine.

Definition user : jsobj := [(js "_id", VStr (js "u1")); (js "name", VStr (js "Ann"))].

Definition users_catalog : option CatalogData := Some (catalog_with [] ["users"]%string).

(** The browser just after it mounted: the first query is pending. *)
Definition opened : config CollectionsView := (mount CollectionsView users_catalog).1.

Definition answered : React.input CollectionsView :=
  IResume 0 (ok_response (VObj [(js "documents", VArr [VObj user]); (js "duration_ms", VNum (num_of_Z 2))])).

Lemma opened_reachable : reachable CollectionsView users_catalog opened.
Proof. constructor. Qed.

Lemma collections_latest_wins_witness :
  exists c' o, exec CollectionsView opened answered = Some (c', o)
    /\ (documents (cstate c') = documents (cstate opened)
        \/ exists n r f v res, answered = IResume n (Settled f)
             /\ cpend opened !! n = Some (PFetch r (Loaded (latestRequest (cstate opened))))
             /\ settle f = inr v /\ QueryResult_of v = Some res
             /\ documents (cstate c') = default [] (Types.documents res))
    /\ documents <$> after CollectionsView opened [answered] = Some [user].
Proof.
  destruct (can_exec CollectionsView opened answered) as (c' & o & E); [vm_compute; reflexivity|].
  exists c', o. split; [exact E|]. split; [exact (collections_latest_wins opened answered c' o E)|vm_compute; reflexivity].
Defined.

Lemma collections_loading_witness :
  (loading (cstate opened) = true <-> exists r, PFetch r (Loaded (latestRequest (cstate opened))) ∈ cpend opened)
  /\ NoDup (ids guard_tag (cpend opened)).
Proof. exact (collections_loading users_catalog opened opened_reachable). Defined.

Lemma collections_selection_witness : selection_valid (cprops opened) (cstate opened).
Proof. exact (collections_selection users_catalog opened opened_reachable). Defined.

Lemma edit_save_roundtrip_witness :
  exists r, save_call (on (cstate opened) (OpenEdit user) (cstate opened)).1 = inr r
    /\ req_method r = js "POST" /\ req_url r = js "/api/doc/" ++ js "users" ++ js "/update?id=" ++ js "u1"
    /\ (req_body r ≫= parse) = Some (VObj user).
Proof.
  apply (edit_save_roundtrip (cstate opened) user (js "u1") (js "users") (js "u1")); vm_compute; reflexivity.
Defined.

(** A browser with a filter on [age]. *)
Definition filtered : Cells := (cstate opened) <| filterField := js "age" |> <| filterVal := js "25" |>.

Lemma clear_requests_old_filter_witness :
  exists r, load_call filtered (selectedCollection filtered) = inr r
    /\ filterField (on filtered ClearFilter filtered).1 = []
    /\ (on filtered ClearFilter filtered).2 = [Timer 0 (Cleared filtered)]
    /\ (resumed (Cleared filtered) Fired (cstate opened)).2 = [Fetch r (Loaded (latestRequest (cstate opened) + 1))].
Proof.
  eexists. split; [vm_compute; reflexivity|].
  apply clear_requests_old_filter; vm_compute; reflexivity.
Defined.

End Examples.
