(* ===== verification/BucketsView.v ===== *)
(** [studio/frontend/src/views/BucketsView.tsx]: browsing a key/value bucket,
    the put dialog, deletion and the atomic increment. *)

From S2P Require Import Prelude JsString JsNumber Json Api Types React ViewCommon Quiescence.

Open Scope N_scope.

Section View.
Context `{Engine}.

Record Cells := {
  selectedBucket : jstr;
  entries : list KVEntry; loading : bool; error : option jstr;
  prefix : jstr;
  isModalOpen : bool; keyInput : jstr; valInput : jstr; ttlInput : jstr;
}.

Inductive Act :=
| SelectTab (name : jstr) | SetPrefix (v : jstr) | Scan
| OpenPut | CloseModal | SetKey (v : jstr) | SetVal (v : jstr) | SetTtl (v : jstr) | PutKey
| DeleteKey (key : jstr) (confirmed : bool) | Increment (key : jstr).

Inductive Susp :=
| Scanned
| Stored (env : Cells)
| Deleted (env : Cells)
| Incremented (env : Cells).

Definition init (_ : option CatalogData) : Cells := {|
  selectedBucket := []; entries := []; loading := false; error := None; prefix := [];
  isModalOpen := false; keyInput := []; valInput := []; ttlInput := [] |}.

(** ** Scanning *)

Definition entries_of (v : val) : option (option (list KVEntry)) :=
  o ← as_obj v; nullable (as_arr KVEntry_of) (fld o "entries").

Definition scan_failed (e : jserr) : prog Cells Susp := error <-- Some (err_or e (js "Failed to scan bucket")).

Definition loadEntries (env : Cells) : prog Cells Susp :=
  if negb (truthy_str (selectedBucket env)) then pskip
  else
    loading <-- true ;;; error <-- None ;;;
    await_call (scanBucket (selectedBucket env) (prefix env) (num_of_Z 100)) Scanned
      (fun e => scan_failed e ;;; loading <-- false).

Definition scanned (o : outcome) : prog Cells Susp :=
  awaited entries_of o (fun es => entries <-- default [] es) scan_failed ;;; loading <-- false.

(** ** Effects *)

(** Its dependencies are the array of buckets, a new one with every catalog (and
    with every render while there is none), and the selection. Running it again
    on the same names and selection changes nothing ([choose_idem]), so it is
    taken to run when the names or the selection changed. *)
Definition first_bucket_effect : effect (option CatalogData) Cells Susp := mk_effect
  (fun old new => match old with
   | None => true
   | Some (c0, s0) =>
       negb (bool_decide (co_name <$> buckets_of c0 = co_name <$> buckets_of new.1))
       || negb (str_eq (selectedBucket s0) (selectedBucket new.2))
   end)
  (fun c s => match buckets_of c with
   | b :: _ => if negb (truthy_str (selectedBucket s)) then selectedBucket <-- co_name b else pskip
   | [] => pskip
   end).

Definition selection_effect : effect (option CatalogData) Cells Susp := mk_effect
  (fun old new => match old with
   | None => true
   | Some (_, s0) => negb (str_eq (selectedBucket s0) (selectedBucket new.2))
   end)
  (fun _ s => if truthy_str (selectedBucket s) then loadEntries s else pskip).

(** ** Changing entries *)

(** [ttlInput ? Number(ttlInput) : undefined] *)
Definition ttlSec (env : Cells) : option num := if truthy_str (ttlInput env) then Some (Number (ttlInput env)) else None.

Definition put_failed (e : jserr) : prog Cells Susp := error <-- Some (err_or e (js "Failed to put key-value")).

Definition handlePut (env : Cells) : prog Cells Susp :=
  if negb (truthy_str (trim (keyInput env))) then error <-- Some (js "Key cannot be empty")
  else
    error <-- None ;;;
    await_call (putKV (selectedBucket env) (keyInput env) (valInput env) (ttlSec env)) (Stored env) put_failed.

Definition stored (env : Cells) (o : outcome) : prog Cells Susp :=
  awaited Some o
    (fun _ => isModalOpen <-- false ;;; keyInput <-- [] ;;; valInput <-- [] ;;; ttlInput <-- [] ;;;
              loadEntries env ;;; emit (Ext OnRefreshCatalog))
    put_failed.

Definition delete_failed (e : jserr) : prog Cells Susp := error <-- Some (err_or e (js "Failed to delete key")).

Definition handleDelete (env : Cells) (key : jstr) (confirmed : bool) : prog Cells Susp :=
  if negb confirmed then pskip
  else await_call (deleteKV (selectedBucket env) key) (Deleted env) delete_failed.

Definition deleted (env : Cells) (o : outcome) : prog Cells Susp :=
  awaited Some o (fun _ => loadEntries env) delete_failed.

Definition increment_failed (e : jserr) : prog Cells Susp :=
  error <-- Some (err_or e (js "Increment failed (is value an 8-byte integer?)")).

Definition handleIncrement (env : Cells) (key : jstr) (delta : num) : prog Cells Susp :=
  await_call (incrementKV (selectedBucket env) key delta) (Incremented env) increment_failed.

Definition incremented (env : Cells) (o : outcome) : prog Cells Susp :=
  awaited Some o (fun _ => loadEntries env) increment_failed.

Definition open_put : prog Cells Susp :=
  keyInput <-- [] ;;; valInput <-- [] ;;; ttlInput <-- [] ;;; isModalOpen <-- true.

Definition on (env : Cells) (a : Act) : prog Cells Susp :=
  match a with
  | SelectTab name => selectedBucket <-- name
  | SetPrefix v => prefix <-- v
  | Scan => loadEntries env
  | OpenPut => open_put
  | CloseModal => isModalOpen <-- false
  | SetKey v => keyInput <-- v
  | SetVal v => valInput <-- v
  | SetTtl v => ttlInput <-- v
  | PutKey => handlePut env
  | DeleteKey key b => handleDelete env key b
  | Increment key => handleIncrement env key (num_of_Z 1)
  end.

Definition resumed (q : Susp) (o : outcome) : prog Cells Susp :=
  match q with
  | Scanned => scanned o
  | Stored env => stored env o
  | Deleted env => deleted env o
  | Incremented env => incremented env o
  end.

Definition accepted (q : Susp) (o : outcome) : bool :=
  match q with Scanned => conforms entries_of o | _ => true end.

(** ** Rendering *)

Definition title_bar (s : Cells) : node Act :=
  el "div" ([
    el "div" [
      el "h1" [el "span" [txt "Key/Value Buckets"]];
      el "p" [txt "Ordered B+Tree transactional key/value store with TTL and atomic operations"]]]
    ++ when (truthy_str (selectedBucket s)) [button false (OnClick OpenPut) [el "span" [txt "Put Key/Value"]]]).

Definition tabs (buckets : list CatalogObject) : node Act :=
  el "div" match buckets with
  | [] => [el "span" [txt "No buckets found"]]
  | bs => map (fun b => button false (OnClick (SelectTab (co_name b))) [Txt (co_name b)]) bs
  end.

Definition prefix_bar (s : Cells) : node Act :=
  el "div" [
    el "div" [el "span" [txt "Prefix Scan:"]];
    input (js "text") (js "Filter by key prefix (e.g. user:, session:)") (prefix s) SetPrefix;
    button false (OnClick Scan) [txt "Scan"]].

Definition entry_row (e : KVEntry) : node Act :=
  el "tr" [
    el "td" [Txt (key e)]; el "td" [Txt (value e)]; el "td" [Txt (num_str (size e)); txt " B"];
    el "td" [
      button false (OnClick (Increment (key e))) [txt "+1"];
      button false (OnAsk (jq "Are you sure you want to delete key '" ++ key e ++ jq "'?") (DeleteKey (key e))) []]].

Definition notice_row (text : string) : node Act :=
  el "tr" [El (js "td") [(js "colSpan", js "4")] false [] [txt text]].

Definition table (s : Cells) : node Act :=
  el "div" [
    el "div" [el "span" [count_txt (entries s); txt " Keys Found"]; el "span" [txt "B+Tree Lexicographical Order"]];
    el "div" [el "table" [
      el "thead" [el "tr" [el "th" [txt "Key"]; el "th" [txt "Value"]; el "th" [txt "Size"]; el "th" [txt "Actions"]]];
      el "tbody" (if loading s then [notice_row "Scanning bucket B+Tree..."]
        else match entries s with
        | [] => [notice_row "Bucket is empty."]
        | es => map entry_row es
        end)]]].

Definition modal (s : Cells) : list (node Act) :=
  when (isModalOpen s) [el "div" [el "div" [
    el "div" [el "h3" [txt "Put Key/Value"]; button false (OnClick CloseModal) [txt "Cancel"]];
    el "div" [
      el "div" [el "label" [txt "Key"]; input (js "text") (js "e.g. user:1001") (keyInput s) SetKey];
      el "div" [el "label" [txt "Value"]; textarea (js "String, JSON, or payload") (valInput s) SetVal];
      el "div" [el "label" [el "span" [txt "Optional TTL (Seconds)"]];
                input (js "number") (js "e.g. 60 (expires in 60s)") (ttlInput s) SetTtl]];
    el "div" [
      button false (OnClick CloseModal) [txt "Cancel"];
      button false (OnClick PutKey) [txt "Save Key"]]]]].

Definition view (catalog : option CatalogData) (s : Cells) : option (node Act) :=
  Some (el "div" ([title_bar s; tabs (buckets_of catalog); prefix_bar s]
    ++ message_box (error s) ++ [table s] ++ modal s)).

Definition BucketsView : component := {|
  Props := option CatalogData; State := Cells; Action := Act; Kont := Susp;
  initial := init; handle := fun _ => on; resume := resumed; accepts := accepted;
  effects := [first_bucket_effect; selection_effect]; render := view; callbacks := [] |}.

End View.

Section Theory.
Context `{Engine}.

(** ** The put dialog *)

(** The object a put should deliver. *)
Definition put_body (env : Cells) : jsobj :=
  [(js "key", VStr (keyInput env)); (js "value", VStr (valInput env))]
  ++ match ttlInput env with [] => [] | t => [(js "ttl", VNum (Number t))] end.

(** Saving a blank key sends nothing and shows an error; saving any other
    key sends exactly one request, to the selected bucket, that delivers the key
    and the value as typed, and a time to live only when one was typed. *)
Theorem put_request env b :
  (trim (keyInput env) = [] ->
   on env PutKey env = (env <| error := Some (js "Key cannot be empty") |>, [])) /\
  (trim (keyInput env) <> [] -> encodeURIComponent (selectedBucket env) = Some b ->
   json_ok (VObj (put_body env)) = true ->
   exists r, (on env PutKey env).2 = [Fetch r (Stored env)]
     /\ req_method r = js "POST" /\ req_url r = js "/api/kv/" ++ b ++ js "/put"
     /\ (req_body r ≫= parse) = Some (VObj (put_body env))).
Proof.
  unfold on, handlePut. split; [by intros ->|]. intros Hk Hb Hok.
  destruct (trim (keyInput env)) eqn:Et; [done|]. cbn [truthy_str negb].
  unfold putKV, with_component. rewrite Hb. eexists. split; [reflexivity|]. split; [done|]. split; [done|].
  simpl req_body. cbn [mbind option_bind].
  assert (defined [(js "key", VStr (keyInput env)); (js "value", VStr (valInput env));
    (js "ttl", match ttlSec env with Some t => VNum t | None => VUndef end)] = put_body env) as Hd.
  { unfold put_body, ttlSec. by destruct (ttlInput env). }
  rewrite <- Hd in *. by apply parse_stringify_defined.
Qed.

(** ** The selected bucket *)

Lemma selected_frames_load env : frames selectedBucket (loadEntries env).
Proof. unfold loadEntries, scan_failed. auto 9 with frame. Qed.

Hint Resolve selected_frames_load : frame.

Lemma selected_frames_effect p s : frames selectedBucket (eff_body selection_effect p s).
Proof. simpl. auto with frame. Qed.

(** Choosing the first bucket, as the first effect does. *)
Definition choose (c : option CatalogData) (s : Cells) : jstr :=
  if truthy_str (selectedBucket s) then selectedBucket s
  else match buckets_of c with b :: _ => co_name b | [] => selectedBucket s end.

Lemma first_bucket_chooses c s : selectedBucket (eff_body first_bucket_effect c s s).1 = choose c s.
Proof.
  unfold choose. simpl. destruct (buckets_of c) as [|b r]; [by destruct (truthy_str _)|].
  destruct (truthy_str (selectedBucket s)) eqn:E; [done|]. by destruct s.
Qed.

Lemma choose_idem c s s' : selectedBucket s' = choose c s -> choose c s' = choose c s.
Proof.
  unfold choose. intros ->. destruct (truthy_str (selectedBucket s)) eqn:E; [by rewrite E|].
  destruct (buckets_of c) as [|b r]; [by rewrite E|]. by destruct (truthy_str (co_name b)).
Qed.

(** One round of effects, as the selection sees it. *)
Lemma round_selects old p s :
  any_changed BucketsView old (p, s) = true -> selectedBucket (run_effects BucketsView old (p, s) s).1 = choose p s.
Proof.
  intros Hch. unfold run_effects. change (effects BucketsView) with [first_bucket_effect; selection_effect].
  rewrite !run_list_cons.
  match goal with |- context [if ?b then (eff_body first_bucket_effect _ _ _).1 else _] => assert (b = true) as -> end.
  { unfold any_changed in Hch. simpl in *. destruct old as [[c0 s0]|]; [|done].
    rewrite orb_false_r in Hch. destruct (negb (bool_decide _)), (negb (str_eq _ _)); done. }
  cbn [run_list pskip fst snd]. case_match; [|apply first_bucket_chooses].
  rewrite (selected_frames_effect p s). apply first_bucket_chooses.
Qed.

Lemma buckets_settles old p s : settles BucketsView commit_fuel old p s = true.
Proof.
  revert old p s. apply (settles_by BucketsView selectedBucket).
  - intros p s s' Hs. unfold any_changed. simpl. unfold str_eq. by rewrite Hs, !bool_decide_eq_true_2.
  - intros old p s Hch s1. pose proof (round_selects old p s Hch) as H1. fold s1 in H1. clearbody s1.
    destruct (any_changed BucketsView (Some (p, s)) (p, s1)) eqn:E.
    + rewrite round_selects by done. rewrite (choose_idem p s s1) by done. done.
    + unfold run_effects. by rewrite run_list_idle.
Qed.

(** *** A chosen bucket *)

Definition names (c : option CatalogData) : list jstr := co_name <$> buckets_of c.

(** When every bucket has a name, one is selected as soon as there is one. *)
Definition chosen (c : option CatalogData) (s : Cells) : Prop :=
  [] ∈ names c \/ names c = [] \/ selectedBucket s <> [].

Lemma truthy_nonempty s : truthy_str s = true <-> s <> [].
Proof. by destruct s. Qed.

Lemma choose_chosen c s : selectedBucket s = choose c s -> chosen c s.
Proof.
  unfold chosen, choose, names. destruct (selectedBucket s) as [|x l]; simpl; [|by right; right].
  destruct (buckets_of c) as [|b r]; [by right; left|]. intros Hb. left. rewrite fmap_cons, <- Hb. by left.
Qed.

(** Only the tabs choose a bucket, and they offer the catalog's. *)
Lemma bucket_tabs c s tree h pl name :
  view c s = Some tree -> h ∈ handlers tree -> fire h pl = Some (SelectTab name) -> name ∈ names c.
Proof.
  intros [= <-] Hin Hf. unfold title_bar, tabs, prefix_bar, table, modal in Hin. handler_cases Hin; try by fired Hf.
  - destruct (buckets_of c) as [|x r] eqn:Ec; [by handler_cases Hin|]. handler_cases Hin. fired Hf.
    unfold names. rewrite Ec. by apply list_elem_of_fmap_2.
  - destruct (loading s); [by handler_cases Hin|]. destruct (entries s) as [|e r]; [by handler_cases Hin|].
    unfold entry_row in Hin. handler_cases Hin; by fired Hf.
Qed.

Lemma selected_frames_on env a : (forall n, a <> SelectTab n) -> frames selectedBucket (on env a).
Proof.
  intros Ha. destruct a; try done; simpl; unfold open_put, handlePut, put_failed, handleDelete, delete_failed, handleIncrement,
    increment_failed; auto 9 with frame.
  by destruct (Ha name).
Qed.

Lemma selected_frames_resumed q o : frames selectedBucket (resumed q o).
Proof.
  destruct q; simpl; unfold scanned, scan_failed, stored, put_failed, deleted, delete_failed, incremented, increment_failed;
    awaited_cases; auto 12 with frame.
Qed.

#[export] Instance chosen_invariant : Invariant BucketsView (fun c s _ => chosen c s).
Proof.
  assert (forall c s s', selectedBucket s' = selectedBucket s -> chosen c s -> chosen c s') as Hk.
  { intros c s s' He. unfold chosen. by rewrite He. }
  split.
  - intros p m. apply choose_chosen. subst m. rewrite round_selects by done.
    symmetry. apply choose_idem. by rewrite round_selects.
  - intros p s pend tree h pl a Hs Hren Hin Hf.
    destruct a; try (eapply Hk; [apply selected_frames_on; by intros ? [=]|done]).
    pose proof (bucket_tabs _ _ _ _ _ _ Hren Hin Hf) as Hn. unfold chosen. destruct s, name; [by left|by right; right].
  - no_calls.
  - intros p s l1 q l2 o keep Hs _ _. eapply Hk; [apply selected_frames_resumed|done].
  - intros e p s0 s pend [-> | ->%list_elem_of_singleton]%elem_of_cons Hs.
    + unfold chosen in *. simpl. destruct (buckets_of p) as [|b r] eqn:Eb; [done|].
      destruct (negb _); [|done]. simpl. destruct (co_name b) eqn:En; [left|right; right; by destruct s].
      unfold names. rewrite Eb, fmap_cons, En. by left.
    + eapply Hk; [apply (selected_frames_effect p s0)|done].
  - intros p p' s pend Hs m. subst m. destruct (any_changed BucketsView (Some (p, s)) (p', s)) eqn:E.
    + apply choose_chosen. rewrite round_selects by done. symmetry. apply choose_idem. by rewrite round_selects.
    + unfold run_effects. rewrite run_list_idle by done. unfold any_changed in E. simpl in E. to_prop.
      unfold chosen, names in *. by rewrite <- H0.
Qed.

(** Running the first effect again changes nothing. *)
Lemma first_bucket_idle c s : chosen c s -> [] ∉ names c -> eff_body first_bucket_effect c s s = (s, []).
Proof.
  intros Hs Hn. simpl. destruct (buckets_of c) as [|b r] eqn:Eb; [done|].
  destruct (truthy_str (selectedBucket s)) eqn:Et; [done|]. destruct Hs as [|[Hs|Hs%truthy_nonempty]]; [done| |congruence].
  unfold names in Hs. by rewrite Eb in Hs.
Qed.

(** ** Progress *)

Lemma loadEntries_api env : emits calm (loadEntries env).
Proof. unfold loadEntries, scan_failed. auto 9 with emits. Qed.

Hint Resolve loadEntries_api : emits.

#[export] Instance buckets_api : Emitting BucketsView calm.
Proof.
  split.
  - intros p s []; simpl; unfold open_put, handlePut, put_failed, handleDelete, delete_failed, handleIncrement, increment_failed;
      auto 9 with emits.
  - intros [] o; simpl; unfold scanned, scan_failed, stored, put_failed, deleted, delete_failed, incremented, increment_failed;
      awaited_cases; auto 12 with emits.
  - intros e p s [-> | ->%list_elem_of_singleton]%elem_of_cons; simpl; [case_match|]; auto with emits.
Qed.

(** Every change loads the entries once more. *)
Definition buckets_weight (q : Susp) : nat := match q with Scanned => 1 | _ => 2 end.

Lemma loadEntries_costs env : costs buckets_weight 1 (loadEntries env).
Proof. unfold loadEntries, scan_failed. auto 9 with costs. Qed.

Hint Resolve loadEntries_costs : costs.

#[export] Instance buckets_drains : Drains BucketsView buckets_weight.
Proof.
  split; [intros []; simpl; lia| |by intros []]. intros p s q f _.
  apply drains_idle with (n := (buckets_weight q - 1)%nat); [| |destruct q; simpl; lia].
  - unfold any_changed. simpl. unfold str_eq. by rewrite selected_frames_resumed, !bool_decide_eq_true_2.
  - destruct q; simpl; unfold scanned, scan_failed, stored, put_failed, deleted, delete_failed, incremented, increment_failed;
      awaited_cases; auto 12 with costs.
Qed.

Definition is_scan (q : Susp) : bool := match q with Scanned => true | _ => false end.

Lemma loadEntries_raises env : raises loading is_scan (loadEntries env).
Proof.
  intros s. unfold loadEntries. destruct (truthy_str _); [|by left]. simpl.
  destruct (scanBucket _ _ _) as [e|r]; destruct s; simpl; [done|]. intros _. right. exists r, Scanned. split; [done|by left].
Qed.

Hint Resolve loadEntries_raises : js.

#[export] Instance buckets_raises : Raises BucketsView loading is_scan.
Proof.
  split.
  - done.
  - intros p s []; simpl; unfold open_put, handlePut, put_failed, handleDelete, delete_failed, handleIncrement, increment_failed;
      auto 9 with js.
  - intros e p s [-> | ->%list_elem_of_singleton]%elem_of_cons; simpl; [case_match|]; auto with js.
  - intros [] o; try done; intros _; simpl; unfold stored, put_failed, deleted, delete_failed, incremented, increment_failed;
      awaited_cases; auto 12 with js.
  - intros [] o s; try done. intros _. simpl. unfold scanned, scan_failed, pseq. awaited_cases; by destruct s.
Qed.

#[export] Instance buckets_waits : Waits BucketsView loading.
Proof. eapply raises_waits, buckets_raises. Qed.

End Theory.

(** ** The theorems on a concrete browser *)

Module Examples.

#[local] Existing Instance plain_engine.

Definition two_buckets : option CatalogData := Some (catalog_with ["alpha"; "beta"] [])%string.

Definition typed : Cells :=
  (cstate (mount BucketsView two_buckets).1) <| keyInput := js "user:1" |> <| valInput := js "Ann" |> <| ttlInput := js "60" |>.

Lemma put_request_witness :
  exists r, (on typed PutKey typed).2 = [Fetch r (Stored typed)]
    /\ req_method r = js "POST" /\ req_url r = js "/api/kv/" ++ js "alpha" ++ js "/put"
    /\ (req_body r ≫= parse) = Some (VObj (put_body typed)).
Proof.
  apply (put_request typed (js "alpha")); vm_compute; [discriminate|reflexivity|reflexivity].
Defined.

(** The answer to a scan: one entry. *)
Definition one_entry (k : string) : outcome :=
  ok_response (VObj [(js "entries", VArr [VObj [(js "key", VStr (js k)); (js "value", VStr []); (js "size", VNum (num_of_Z 0))]])]).

Definition opened : config BucketsView := (mount BucketsView two_buckets).1.

(** Scans are not ordered: when the second bucket is selected while the scan
    of the first is still running, and that scan is answered last, the browser
    ends with the second bucket selected and the keys of the first shown under
    it, no scan pending. *)
Theorem stale_scan_shown :
  (fun s => (selectedBucket s, key <$> entries s, loading s))
    <$> after BucketsView opened
          [IEvent 2 PClick; IResume 1 (one_entry "key-of-beta"); IResume 0 (one_entry "key-of-alpha")]
  = Some (js "beta", [js "key-of-alpha"], false).
Proof. vm_compute. reflexivity. Qed.

End Examples.
