(* ===== verification/QueueView.v ===== *)
(** [studio/frontend/src/views/QueueView.tsx]: task queues: the polled list, the
    enqueue form and the worker simulator. *)

From S2P Require Import Prelude JsString JsNumber Json Api Types React ViewCommon Quiescence.

Open Scope N_scope.

(** The response of a dequeue. *)
Record DequeuedTask := {
  dq_found : bool; dq_message_id : option jstr; dq_queue : option jstr; dq_payload : option jstr;
  dq_retry_count : option num; dq_priority : option num; dq_state : option jstr;
}.

Definition DequeuedTask_of (v : val) : option DequeuedTask :=
  o ← as_obj v; a ← as_bool (fld o "found"); b ← optional as_str (fld o "message_id");
  q ← optional as_str (fld o "queue"); c ← optional as_str (fld o "payload");
  d ← optional as_num (fld o "retry_count"); e ← optional as_num (fld o "priority");
  st ← optional as_str (fld o "state");
  Some (Build_DequeuedTask a b q c d e st).

Section View.
Context `{Engine}.

Record Cells := {
  queues : list QueueItem; selectedQueue : jstr; loading : bool;
  error : option jstr; success : option jstr;
  payload : jstr; dedupId : jstr; priority : num; delayMs : num;
  lastDequeued : option DequeuedTask; autoAck : bool;
}.

Inductive Act :=
| Refresh | SelectQueue (name : jstr) | SetPayload (v : jstr) | SetDedupId (v : jstr)
| SetPriority (v : jstr) | SetDelayMs (v : jstr) | SetAutoAck (b : bool) | Enqueue | Dequeue.

Inductive Susp :=
| Listed (env : Cells)
| Tick (env : Cells)
| Enqueued (env : Cells)
| Dequeued (env : Cells).

Definition sample_payload : jstr :=
  js "{" ++ [10] ++ jq "  'order_id': 'ORD-9988'," ++ [10] ++ jq "  'action': 'charge_customer'," ++ [10]
  ++ jq "  'amount': 250.00" ++ [10] ++ js "}".

Definition init (initialQueue : option jstr) : Cells := {|
  queues := []; selectedQueue := str_or (default [] initialQueue) (js "default_tasks"); loading := false;
  error := None; success := None;
  payload := sample_payload; dedupId := js "order_ORD-9988"; priority := num_of_Z 128; delayMs := num_of_Z 0;
  lastDequeued := None; autoAck := true |}.

(** ** The queue list *)

Definition queues_of_response (v : val) : option (option (list QueueItem)) :=
  o ← as_obj v; nullable (as_arr QueueItem_of) (fld o "queues").

Definition failed (e : jserr) : prog Cells Susp := error <-- Some (message e).

Definition loadQueues (env : Cells) : prog Cells Susp :=
  loading <-- true ;;; await_call listQueues (Listed env) (fun e => failed e ;;; loading <-- false).

Definition listed (env : Cells) (o : outcome) : prog Cells Susp :=
  awaited queues_of_response o
    (fun qs =>
       queues <-- default [] qs ;;;
       match qs with
       | Some (q :: _) => if negb (truthy_str (selectedQueue env)) then selectedQueue <-- q_name q else pskip
       | _ => pskip
       end)
    failed ;;;
  loading <-- false.

(** The effect of the first commit: load, then poll every three seconds with
    the closure of that commit. *)
Definition poll_effect : effect (option jstr) Cells Susp := mk_effect
  (fun old _ => match old with None => true | Some _ => false end)
  (fun _ s => loadQueues s ;;; emit (Interval 3000 (Tick s))).

(** Its clean-up, when the view is unmounted. *)
Definition poll_cleanup {K} (pend : list (pending K)) : list (pending K) := clearInterval pend.

Definition currentQueueInfo (s : Cells) : option QueueItem :=
  List.find (fun q => str_eq (q_name q) (selectedQueue s)) (queues s).

(** ** Enqueue and dequeue *)

Definition message_id_of (v : val) : option jstr := o ← as_obj v; as_str (fld o "message_id").

Definition handleEnqueue (env : Cells) : prog Cells Susp :=
  error <-- None ;;; success <-- None ;;;
  await_call (enqueueTask (selectedQueue env) (payload env) (or_undefined (dedupId env)) (priority env) (delayMs env))
    (Enqueued env) failed.

Definition enqueued (env : Cells) (o : outcome) : prog Cells Susp :=
  awaited message_id_of o
    (fun id => success <-- Some (js "Task enqueued successfully! Message ID: " ++ id) ;;; loadQueues env) failed.

Definition handleDequeue (env : Cells) : prog Cells Susp :=
  error <-- None ;;; success <-- None ;;;
  await_call (dequeueTask (selectedQueue env) (autoAck env)) (Dequeued env) failed.

Definition dequeued_message (env : Cells) (res : DequeuedTask) : jstr :=
  if dq_found res then
    js "Task dequeued: " ++ default (js "undefined") (dq_message_id res)
    ++ js " (" ++ (if autoAck env then js "Auto-Acked" else js "Leased") ++ js ")"
  else js "Queue is currently empty.".

Definition dequeued (env : Cells) (o : outcome) : prog Cells Susp :=
  awaited DequeuedTask_of o
    (fun res => lastDequeued <-- Some res ;;; success <-- Some (dequeued_message env res) ;;; loadQueues env) failed.

Definition on (env : Cells) (a : Act) : prog Cells Susp :=
  match a with
  | Refresh => loadQueues env
  | SelectQueue name => selectedQueue <-- name
  | SetPayload v => payload <-- v
  | SetDedupId v => dedupId <-- v
  | SetPriority v => priority <-- num_or (parseInt v) (num_of_Z 128)
  | SetDelayMs v => delayMs <-- num_or (parseInt v) (num_of_Z 0)
  | SetAutoAck b => autoAck <-- b
  | Enqueue => handleEnqueue env
  | Dequeue => handleDequeue env
  end.

Definition resumed (q : Susp) (o : outcome) : prog Cells Susp :=
  match q with
  | Listed env => listed env o
  | Tick env => loadQueues env
  | Enqueued env => enqueued env o
  | Dequeued env => dequeued env o
  end.

Definition accepted (q : Susp) (o : outcome) : bool :=
  match q with
  | Listed _ => conforms queues_of_response o
  | Tick _ => true
  | Enqueued _ => conforms message_id_of o
  | Dequeued _ => conforms DequeuedTask_of o
  end.

(** ** Rendering *)

(** [info?.stats?.X ?? 0] *)
Definition stat (f : QueueStats -> num) (q : option QueueItem) : node Act :=
  Txt (num_str (default (num_of_Z 0) (f ∘ stats <$> q))).

Definition title_bar (s : Cells) : node Act :=
  el "div" [
    el "div" [
      el "h1" [el "span" [txt "Transactional Task Queues"]; el "span" [txt "Exactly-Once Dedup & DLQ"]];
      el "p" [txt "Durable task scheduling, visibility timeout leases, and distributed deduplication engine"]];
    el "div" [button (loading s) (OnClick Refresh) [el "span" [txt "Refresh"]]]].

Definition metric (title : string) (n : node Act) (note : string) : node Act :=
  el "div" [el "div" [el "span" [txt title]]; el "div" [n]; el "p" [txt note]].

Definition metrics_bar (s : Cells) : node Act :=
  el "div" [
    el "div" [
      el "label" [txt "Select / Active Queue"];
      el "div" [input (js "text") (js "e.g. order_processing") (selectedQueue s) SelectQueue]];
    metric "Ready Tasks" (stat ReadyCount (currentQueueInfo s)) "Available for workers";
    metric "In-Flight (Leased)" (stat InFlightCount (currentQueueInfo s)) "Under visibility lease";
    metric "Dead-Letter (DLQ)" (stat DLQCount (currentQueueInfo s)) "Exceeded max retries"].

Definition enqueue_panel (s : Cells) : node Act :=
  el "div" [
    el "div" [el "h2" [el "span" [txt "Enqueue Task"]]; el "span" [txt "Durable B+Tree Backed"]];
    El (js "form") [] false [OnSubmit Enqueue] [
      el "div" [el "label" [txt "Payload (JSON or Text)"]; textarea [] (payload s) SetPayload];
      el "div" [
        el "div" [el "label" [txt "Dedup ID (Idempotency)"]; input (js "text") (js "e.g. order_9988") (dedupId s) SetDedupId];
        el "div" [el "label" [txt "Priority (0 - 255)"]; input (js "number") [] (num_str (priority s)) SetPriority];
        el "div" [el "label" [txt "Delay (ms)"]; input (js "number") [] (num_str (delayMs s)) SetDelayMs]];
      el "button" [el "span" [Txt (jq "Enqueue Task to '"); Txt (selectedQueue s); Txt (jq "'")]]]].

(** A member that may be absent, as a child. *)
Definition opt_num_txt (n : option num) : list (node Act) := match n with Some n => [Txt (num_str n)] | None => [] end.
Definition opt_txt (t : option jstr) : list (node Act) := match t with Some t => [Txt t] | None => [] end.

Definition last_task (s : Cells) : node Act :=
  match lastDequeued s with
  | Some t =>
      if dq_found t then
        el "div" [
          el "div" [
            el "span" (txt "ID: " :: opt_txt (dq_message_id t));
            el "span" (txt "Priority: " :: opt_num_txt (dq_priority t) ++ [txt " | Retries: "] ++ opt_num_txt (dq_retry_count t))];
          el "pre" (opt_txt (dq_payload t))]
      else el "div" [el "p" [txt "No task dequeued yet"]]
  | None => el "div" [el "p" [txt "No task dequeued yet"]]
  end.

Definition worker_panel (s : Cells) : node Act :=
  el "div" [
    el "div" [
      el "h2" [el "span" [txt "Worker Simulator & Dequeue"]];
      el "div" [el "label" [checkbox (autoAck s) SetAutoAck; el "span" [txt "Auto-Ack"]]]];
    el "div" [last_task s; button false (OnClick Dequeue) [el "span" [txt "Simulate Worker Dequeue"]]]].

Definition queue_card (q : QueueItem) : node Act :=
  El (js "div") [] false [OnClick (SelectQueue (q_name q))] [
    el "div" [el "span" [Txt (q_name q)]; el "span" [txt "DLQ: "; if has_dlq q then txt "ON" else txt "OFF"]];
    el "div" [
      el "span" [txt "Ready: "; el "strong" [stat ReadyCount (Some q)]];
      el "span" [txt "In-Flight: "; el "strong" [stat InFlightCount (Some q)]];
      el "span" [txt "DLQ: "; el "strong" [stat DLQCount (Some q)]]]].

Definition catalog_panel (s : Cells) : node Act :=
  el "div" [
    el "h3" [el "span" [txt "Registered Persistent Queues ("; count_txt (queues s); txt ")"]];
    match queues s with
    | [] => el "p" [txt "No active queues recorded in storage catalog yet."]
    | qs => el "div" (map queue_card qs)
    end].

Definition view (_ : option jstr) (s : Cells) : option (node Act) :=
  Some (el "div" ([title_bar s] ++ message_box (error s) ++ message_box (success s)
    ++ [metrics_bar s; el "div" [enqueue_panel s; worker_panel s]; catalog_panel s])).

Definition QueueView : component := {|
  Props := option jstr; State := Cells; Action := Act; Kont := Susp;
  initial := init; handle := fun _ => on; resume := resumed; accepts := accepted;
  effects := [poll_effect]; render := view; callbacks := [] |}.

End View.

Section Theory.
Context `{Engine}.

(** ** Polling *)

Lemma failed_quiet e : quiet (failed e).
Proof. apply emits_modify. Qed.

Hint Resolve failed_quiet : emits.

Lemma loadQueues_quiet env : quiet (loadQueues env).
Proof. unfold loadQueues. auto 9 with emits. Qed.

Hint Resolve loadQueues_quiet : emits.

#[export] Instance queue_polls : Polls QueueView 1.
Proof.
  split.
  - done.
  - intros p s []; simpl; unfold handleEnqueue, handleDequeue; auto 9 with emits.
  - intros [] o; simpl; unfold listed, enqueued, dequeued; awaited_cases; auto 9 with emits.
    repeat apply emits_seq; auto with emits. case_match; [case_match|]; auto with emits.
  - by intros e old new ->%list_elem_of_singleton.
Qed.

(** For as long as the view is shown exactly one three-second poll is running: no
    event, answer or refresh starts a second one or stops it. *)
Theorem queue_polls_once p0 c : reachable QueueView p0 c -> intervals (cpend c) = 1%nat.
Proof. apply polls_reachable, queue_polls. Qed.

(** ** The enqueue form *)

(** The numbers of the form are numbers, and the priority is not zero. *)
Definition form_ok (s : Cells) : Prop := truthy_num (priority s) = true /\ isNaN (delayMs s) = false.

Lemma num_or_truthy x y : truthy_num y = true -> truthy_num (num_or x y) = true.
Proof. unfold num_or. by destruct (truthy_num x) eqn:E. Qed.

Lemma num_or_not_nan x y : isNaN y = false -> isNaN (num_or x y) = false.
Proof. unfold num_or. by destruct x. Qed.

Lemma form_frames (m : prog Cells Susp) s :
  frames (fun s => (priority s, delayMs s)) m -> form_ok s -> form_ok (m s).1.
Proof. intros Hf. unfold form_ok. pose proof (Hf s) as Hs. by injection Hs as -> ->. Qed.

Lemma form_frames_load env : frames (fun s => (priority s, delayMs s)) (loadQueues env).
Proof. unfold loadQueues, failed. auto 9 with frame. Qed.

Hint Resolve form_frames_load : frame.

#[export] Instance form_invariant : Invariant QueueView (fun _ s _ => form_ok s).
Proof.
  split.
  - done.
  - intros p s pend tree h pl a Hs _ _ _. change (form_ok (on s a s).1). destruct a; cbn [on]; unfold handleEnqueue, handleDequeue, failed;
      try solve [apply form_frames; [auto 9 with frame|done]].
    + destruct s, Hs. split; [by apply num_or_truthy|done].
    + destruct s, Hs. split; [done|by apply num_or_not_nan].
  - no_calls.
  - intros p s l1 q l2 o keep Hs _ _. change (form_ok (resumed (kont_of q) o s).1). apply form_frames; [|done].
    destruct (kont_of q); simpl; unfold listed, enqueued, dequeued, failed; awaited_cases; auto 9 with frame.
    repeat apply frames_seq; auto with frame. case_match; [case_match|]; auto with frame.
  - intros e p s0 s pend ->%list_elem_of_singleton Hs. apply (form_frames (eff_body poll_effect p s0)); [|done].
    simpl. auto with frame.
  - intros p p' s pend Hs. done.
Qed.

(** In every configuration the view reaches, whatever is typed, the priority
    is a number other than zero and the delay is a number. The lowest priority
    the form's label offers, zero, can therefore not be sent. *)
Theorem queue_form p0 c : reachable QueueView p0 c -> form_ok (cstate c).
Proof. apply (invariant_reachable QueueView (fun _ s _ => form_ok s)). Qed.

(** The object an enqueue should deliver. *)
Definition task_body (env : Cells) : jsobj :=
  [(js "queue", VStr (selectedQueue env)); (js "payload", VStr (payload env))]
  ++ match dedupId env with [] => [] | d => [(js "dedup_id", VStr d)] end
  ++ [(js "priority", VNum (priority env)); (js "delay_ms", VNum (delayMs env))].

(** Submitting the form sends one request that delivers the queue, the
    payload and the numbers of the form, with a deduplication key only when one
    was typed; and it clears the messages of the previous operation. *)
Theorem enqueue_request env :
  json_ok (VObj (task_body env)) = true ->
  exists r, on env Enqueue env = (env <| error := None |> <| success := None |>, [Fetch r (Enqueued env)])
    /\ req_method r = js "POST" /\ req_url r = js "/api/queue/enqueue"
    /\ (req_body r ≫= parse) = Some (VObj (task_body env)).
Proof.
  intros Hok. eexists. split; [reflexivity|]. split; [done|]. split; [done|]. simpl req_body. cbn [mbind option_bind].
  assert (defined [(js "queue", VStr (selectedQueue env)); (js "payload", VStr (payload env));
    (js "dedup_id", opt_str (or_undefined (dedupId env))); (js "priority", VNum (priority env));
    (js "delay_ms", VNum (delayMs env))] = task_body env) as Hd.
  { unfold task_body. by destruct (dedupId env). }
  rewrite <- Hd in *. by apply parse_stringify_defined.
Qed.

Lemma queue_settles old p s : settles QueueView commit_fuel old p s = true.
Proof. revert old p s. by apply (settles_by QueueView (fun _ => tt)). Qed.

(** ** Progress *)

Lemma loadQueues_api env : emits sends_api (loadQueues env).
Proof. unfold loadQueues, failed. auto 9 with emits. Qed.

Hint Resolve loadQueues_api : emits.

#[export] Instance queue_api : Emitting QueueView sends_api.
Proof.
  split.
  - intros p s []; simpl; unfold handleEnqueue, handleDequeue, failed; auto 9 with emits.
  - intros [] o; simpl; unfold listed, enqueued, dequeued, failed; awaited_cases; auto 9 with emits.
    repeat apply emits_seq; auto with emits. case_match; [case_match|]; auto with emits.
  - intros e p s ->%list_elem_of_singleton. simpl. auto with emits.
Qed.

(** Every operation lists the queues once more. *)
Definition queue_weight (q : Susp) : nat := match q with Listed _ => 1 | _ => 2 end.

Lemma loadQueues_costs env : costs queue_weight 1 (loadQueues env).
Proof. unfold loadQueues, failed. auto 9 with costs. Qed.

Hint Resolve loadQueues_costs : costs.

#[export] Instance queue_drains : Drains QueueView queue_weight.
Proof.
  split; [intros []; simpl; lia| |by intros []]. intros p s q f _.
  apply drains_idle with (n := (queue_weight q - 1)%nat); [done| |destruct q; simpl; lia].
  destruct q; simpl; unfold listed, enqueued, dequeued, failed; awaited_cases; auto 9 with costs.
  apply costs_first; [|auto with costs]. apply costs_first; [auto with costs|]. case_match; [case_match|]; auto with costs.
Qed.

Definition is_list (q : Susp) : bool := match q with Listed _ => true | _ => false end.

Lemma loadQueues_raises env : raises loading is_list (loadQueues env).
Proof. intros s _. right. exists (request (js "/queue/list") no_options), (Listed env). split; [done|by left]. Qed.

Hint Resolve loadQueues_raises : js.

#[export] Instance queue_raises : Raises QueueView loading is_list.
Proof.
  split.
  - done.
  - intros p s []; simpl; unfold handleEnqueue, handleDequeue, failed; auto 9 with js.
  - intros e p s ->%list_elem_of_singleton. simpl. auto with js.
  - intros [] o; try done; intros _; simpl; unfold enqueued, dequeued, failed; awaited_cases; auto 9 with js.
  - intros [env| | |] o s; try done. intros _. simpl. unfold listed, pseq. match goal with |- context [awaited ?a ?b ?c ?d s] => by destruct (awaited a b c d s) as [[] c1] end.
Qed.

#[export] Instance queue_waits : Waits QueueView loading.
Proof. eapply raises_waits, queue_raises. Qed.

End Theory.

(** ** The theorems on a concrete view *)

Module Examples.

#[local] Existing Instance plain_engine.

Definition opened : config QueueView := (mount QueueView (Some (js "orders"))).1.

Lemma queue_form_witness : form_ok (cstate opened).
Proof. apply (queue_form (Some (js "orders")) opened). constructor. Defined.

Lemma enqueue_request_witness :
  exists r, on (cstate opened) Enqueue (cstate opened)
      = ((cstate opened) <| error := None |> <| success := None |>, [Fetch r (Enqueued (cstate opened))])
    /\ req_method r = js "POST" /\ req_url r = js "/api/queue/enqueue"
    /\ (req_body r ≫= parse) = Some (VObj (task_body (cstate opened))).
Proof. apply (enqueue_request (cstate opened)). vm_compute. reflexivity. Defined.

End Examples.
