(* ===== verification/PubSubView.v ===== *)
(** [studio/frontend/src/views/PubSubView.tsx]: the publish form and the polled
    broadcast history. *)

From S2P Require Import Prelude JsString JsNumber Json Api Types React ViewCommon Quiescence.

Open Scope N_scope.

(** The response of a publish. *)
Record PublishResult := { pr_topic : jstr; subscribers_hit : num }.

Definition PublishResult_of (v : val) : option PublishResult :=
  o ← as_obj v; a ← as_str (fld o "topic"); b ← as_num (fld o "subscribers_hit"); Some (Build_PublishResult a b).

Section View.
Context `{Engine} `{Locale}.

Record Cells := {
  events : list PubSubEvent; loading : bool; error : option jstr; success : option jstr;
  topic : jstr; payload : jstr; dedupId : jstr;
}.

Inductive Act :=
| Refresh | SetTopic (v : jstr) | SetPayload (v : jstr) | SetDedupId (v : jstr) | Publish.

Inductive Susp := History | Tick | Published.

Definition sample_payload : jstr :=
  js "{" ++ [10] ++ jq "  'device_id': 'SENSOR-01'," ++ [10] ++ jq "  'temp_celsius': 24.5," ++ [10]
  ++ jq "  'humidity': 55" ++ [10] ++ js "}".

Definition init : Cells := {|
  events := []; loading := false; error := None; success := None;
  topic := js "sensors.iot.temperature"; payload := sample_payload; dedupId := [] |}.

(** ** History *)

Definition events_of (v : val) : option (option (list PubSubEvent)) :=
  o ← as_obj v; nullable (as_arr PubSubEvent_of) (fld o "events").

(** Failures are ignored: the poll runs in the background. *)
Definition loadHistory : prog Cells Susp := await_call getPubSubHistory History (fun _ => pskip).

Definition history_loaded (o : outcome) : prog Cells Susp :=
  awaited events_of o (fun es => events <-- default [] es) (fun _ => pskip).

Definition poll_effect : effect unit Cells Susp := mk_effect
  (fun old _ => match old with None => true | Some _ => false end)
  (fun _ _ => loadHistory ;;; emit (Interval 2000 Tick)).

(** Its clean-up, when the view is unmounted. *)
Definition poll_cleanup {K} (pend : list (pending K)) : list (pending K) := clearInterval pend.

(** ** Publishing *)

Definition publish_failed (e : jserr) : prog Cells Susp := error <-- Some (message e).

Definition handlePublish (env : Cells) : prog Cells Susp :=
  error <-- None ;;; success <-- None ;;; loading <-- true ;;;
  await_call (publishPubSub (topic env) (payload env) (or_undefined (dedupId env))) Published
    (fun e => publish_failed e ;;; loading <-- false).

Definition publish_message (r : PublishResult) : jstr :=
  jq "Event broadcasted to topic '" ++ pr_topic r ++ jq "' (" ++ num_str (subscribers_hit r) ++ js " active subscribers hit)".

Definition published (o : outcome) : prog Cells Susp :=
  awaited PublishResult_of o (fun r => success <-- Some (publish_message r) ;;; loadHistory) publish_failed ;;;
  loading <-- false.

Definition on (env : Cells) (a : Act) : prog Cells Susp :=
  match a with
  | Refresh => loadHistory
  | SetTopic v => topic <-- v
  | SetPayload v => payload <-- v
  | SetDedupId v => dedupId <-- v
  | Publish => handlePublish env
  end.

Definition resumed (q : Susp) (o : outcome) : prog Cells Susp :=
  match q with History => history_loaded o | Tick => loadHistory | Published => published o end.

Definition accepted (q : Susp) (o : outcome) : bool :=
  match q with History => conforms events_of o | Tick => true | Published => conforms PublishResult_of o end.

(** ** Rendering *)

Definition title_bar : node Act :=
  el "div" [
    el "div" [
      el "h1" [el "span" [txt "Real-Time Pub/Sub Broker"]; el "span" [txt "Wildcards & Consumer Groups"]];
      el "p" [txt "Ultra-fast in-memory topic routing, wildcard subscriptions, and distributed worker group load-sharing"]];
    el "div" [button false (OnClick Refresh) [el "span" [txt "Refresh"]]]].

Definition highlights : node Act :=
  el "div" [
    el "div" [el "div" [el "h4" [txt "~1.95M Broadcasts/sec"];
      el "p" [txt "High-throughput lock-free routing tree with zero interface allocations."]]];
    el "div" [el "div" [el "h4" [txt "Wildcard Patterns"];
      el "p" [txt "Supports "; el "code" [txt "*"]; txt " (single-segment) and "; el "code" [txt ">"]; txt " (multi-level wildcards)."]]];
    el "div" [el "div" [el "h4" [txt "Consumer Groups"];
      el "p" [txt "Dispatches each message to exactly one competing worker in a group."]]]].

(** The submit button is disabled while an event is being published; the form
    cannot be submitted then. *)
Definition publish_form (s : Cells) : node Act :=
  el "div" [
    el "h2" [el "span" [txt "Publish Topic Event"]];
    El (js "form") [] (loading s) [OnSubmit Publish] [
      el "div" [el "label" [txt "Topic Name"];
                input (js "text") (js "e.g. orders.created or sensors.kitchen.temp") (topic s) SetTopic];
      el "div" [el "label" [txt "Payload"]; textarea [] (payload s) SetPayload];
      el "div" [el "label" [txt "Dedup ID (Optional Deduplication Window)"];
                input (js "text") (js "e.g. evt_unique_123") (dedupId s) SetDedupId];
      El (js "button") [] (loading s) [] [el "span" [txt "Broadcast Event"]]]].

Definition event_card (e : PubSubEvent) : node Act :=
  el "div" ([
    el "div" [el "span" [Txt (ev_topic e)]; el "span" [Txt (localeTime (created_at e))]];
    el "pre" [Txt (ev_payload e)]]
    ++ when (truthy_str (default [] (ev_dedup_id e))) [
      el "div" [txt "Dedup ID: "; el "span" [Txt (default [] (ev_dedup_id e))]]]).

Definition stream (s : Cells) : node Act :=
  el "div" [
    el "div" [el "h2" [el "span" [txt "Live Broadcast Stream ("; count_txt (events s); txt ")"]];
              el "span" [txt "Auto-refreshing"]];
    el "div" match events s with
    | [] => [el "div" [el "p" [txt "No broadcast events recorded yet."]]]
    | es => map event_card es
    end].

Definition view (s : Cells) : option (node Act) :=
  Some (el "div" ([title_bar] ++ message_box (error s) ++ message_box (success s)
    ++ [highlights; el "div" [publish_form s; stream s]])).

Definition PubSubView : component := {|
  Props := unit; State := Cells; Action := Act; Kont := Susp;
  initial := fun _ => init; handle := fun _ => on; resume := resumed; accepts := accepted;
  effects := [poll_effect]; render := fun _ => view; callbacks := [] |}.

End View.

Section Theory.
Context `{Engine} `{Locale}.

Definition is_publish (q : Susp) : bool := match q with Published => true | _ => false end.

Lemma publish_enabled s tree h pl :
  view s = Some tree -> h ∈ handlers tree -> fire h pl = Some Publish -> loading s = false.
Proof.
  intros [= <-] Hin Hf. unfold title_bar, highlights, publish_form, stream in Hin.
  handler_cases Hin; fired Hf; auto.
  all: unfold event_card in Hin; repeat case_match; handler_cases Hin; repeat case_match; handler_cases Hin; by fired Hf.
Qed.

#[export] Instance publish_single : SingleFlight PubSubView loading is_publish.
Proof.
  split.
  - done.
  - intros p s tree h pl a Hren Hin Hf. destruct a; try (left; flight; fail).
    assert (loading s = false) as El by by eapply publish_enabled. right; flight.
  - no_calls.
  - intros [] o s Ht; try done. simpl. unfold published, pseq. awaited_cases; flight.
  - intros [] o s Ht; try done; simpl; [unfold history_loaded; awaited_cases|]; flight.
  - intros e p s0 s ->%list_elem_of_singleton. flight.
Qed.

(** A publication is started only when none is running: the loading flag is up
    exactly while one publish request is pending, so the button cannot send the
    same event twice. *)
Theorem publish_single_flight p0 c :
  reachable PubSubView p0 c -> count_pend is_publish (cpend c) = (if loading (cstate c) then 1%nat else 0%nat).
Proof. intros Hr. apply (flight_reachable PubSubView loading is_publish p0 c Hr). Qed.

Lemma loadHistory_quiet : quiet loadHistory.
Proof. unfold loadHistory. auto with emits. Qed.

Hint Resolve loadHistory_quiet : emits.

#[export] Instance pubsub_polls : Polls PubSubView 1.
Proof.
  split.
  - done.
  - intros p s []; simpl; unfold handlePublish, publish_failed; auto 9 with emits.
  - intros [] o; simpl; unfold history_loaded, published, publish_failed; awaited_cases; auto 9 with emits.
  - by intros e old new ->%list_elem_of_singleton.
Qed.

(** For as long as the view is shown exactly one two-second poll of the history is
    running. *)
Theorem pubsub_polls_once p0 c : reachable PubSubView p0 c -> intervals (cpend c) = 1%nat.
Proof. apply polls_reachable, pubsub_polls. Qed.

Lemma pubsub_settles old p s : settles PubSubView commit_fuel old p s = true.
Proof. revert old p s. by apply (settles_by PubSubView (fun _ => tt)). Qed.

(** ** Progress *)

Lemma loadHistory_api : emits sends_api loadHistory.
Proof. unfold loadHistory. auto with emits. Qed.

Hint Resolve loadHistory_api : emits.

#[export] Instance pubsub_api : Emitting PubSubView sends_api.
Proof.
  split.
  - intros p s []; simpl; unfold handlePublish, publish_failed; auto 9 with emits.
  - intros [] o; simpl; unfold history_loaded, published, publish_failed; awaited_cases; auto 9 with emits.
  - intros e p s ->%list_elem_of_singleton. simpl. auto with emits.
Qed.

(** Answering a publish loads the history once more. *)
Definition pubsub_weight (q : Susp) : nat := match q with History => 1 | Tick => 2 | Published => 2 end.

Lemma loadHistory_costs : costs pubsub_weight 1 loadHistory.
Proof. unfold loadHistory. auto with costs. Qed.

Hint Resolve loadHistory_costs : costs.

#[export] Instance pubsub_drains : Drains PubSubView pubsub_weight.
Proof.
  split; [intros []; simpl; lia| |by intros []]. intros p s q f _.
  apply drains_idle with (n := (pubsub_weight q - 1)%nat); [done| |destruct q; simpl; lia].
  destruct q; simpl; unfold history_loaded, published, publish_failed; awaited_cases; auto 9 with costs.
Qed.

#[export] Instance pubsub_waits : Waits PubSubView loading.
Proof. eapply flight_waits, publish_single. Qed.

End Theory.
