(* ===== verification/TimeSeriesView.v ===== *)
(** [studio/frontend/src/views/TimeSeriesView.tsx]: exploring, ingesting and
    pruning time series. The clock reading is the view's props: the environment
    may advance it between tasks. *)

From S2P Require Import Prelude JsString JsNumber JsDate Json Api Types React ViewCommon LatestWins Quiescence.

Open Scope N_scope.

Section Helpers.
Context `{Engine} `{Zone}.

(** [toLocalInput(new Date(t))]: throws when the shifted date is invalid. *)
Definition toLocalInput (t : Z) : option jstr :=
  let offset := offset_ms t in take 16 <$> toISOString (Some (t - offset)%Z).

Definition parseJSONMap (value label : jstr) : jserr + jsobj :=
  match parse value with
  | None => inl (mk_err (syntax_message value))
  | Some (VObj o) => inr o
  | Some _ => inl (mk_err (label ++ js " must be a JSON object"))
  end.

(** [new Date(s).toISOString()] *)
Definition iso (s : jstr) : jserr + jstr :=
  match toISOString (Date_of s) with Some t => inr t | None => inl (mk_err range_message) end.

End Helpers.

Section View.
Context `{Engine} `{Zone} `{Locale}.

Record Cells := {
  series : list jstr; selected : jstr; points : list TimeSeriesPoint;
  start : jstr; end_ : jstr; tags : jstr; limit : num; descending : bool;
  timestamp : jstr; writeTags : jstr; fields : jstr; retentionCutoff : jstr;
  loading : bool; error : option jstr; success : option jstr;
  latestRequest : N;
}.

Inductive Act :=
| RefreshSeries | SetSelected (v : jstr) | SetLimit (v : jstr) | SetStart (v : jstr) | SetEnd (v : jstr)
| SetDescending (b : bool) | RunQuery | SetTags (v : jstr)
| SetTimestamp (v : jstr) | SetWriteTags (v : jstr) | SetFields (v : jstr) | WritePoint
| SetCutoff (v : jstr) | Prune.

(** The callers of [loadSeries] differ in what a failure does. *)
Inductive SeriesCaller := AtMount | AtRefresh | AfterWrite (env : Cells).

Inductive Susp :=
| SeriesLoaded (who : SeriesCaller)
| PointsLoaded (requestID : N)
| Written (env : Cells)
| Pruned (env : Cells).

Definition day_ms : Z := (24 * 60 * 60 * 1000)%Z.

Definition init (now : Z) : Cells := {|
  series := []; selected := []; points := [];
  start := default [] (toLocalInput (now - day_ms)%Z); end_ := default [] (toLocalInput now);
  tags := js "{}"; limit := num_of_Z 100; descending := true;
  timestamp := default [] (toLocalInput now);
  writeTags := js "{" ++ [10] ++ jq "  'device': 'sensor-01'" ++ [10] ++ js "}";
  fields := js "{" ++ [10] ++ jq "  'temperature': 22.4" ++ [10] ++ js "}";
  retentionCutoff := default [] (toLocalInput (now - 30 * day_ms)%Z);
  loading := false; error := None; success := None; latestRequest := 0 |}.

(** ** The points of a series *)

(** [s ? new Date(s).toISOString() : undefined] *)
Definition optional_iso (s : jstr) : jserr + val :=
  if truthy_str s then (let! t := iso s in inr (VStr t)) else inr VUndef.

Definition points_call (env : Cells) : call :=
  let! s := optional_iso (start env) in
  let! e := optional_iso (end_ env) in
  let! t := parseJSONMap (tags env) (js "Tag filter") in
  queryTimeSeries [(js "series", VStr (trim (selected env))); (js "start", s); (js "end", e); (js "tags", VObj t);
                   (js "limit", VNum (limit env)); (js "descending", VBool (descending env))].

Definition if_latest (requestID : N) (m : prog Cells Susp) : prog Cells Susp :=
  with_state (fun s => pwhen (requestID =? latestRequest s) m).

Definition points_failed (requestID : N) (e : jserr) : prog Cells Susp :=
  if_latest requestID (error <-- Some (err_or e (js "Unable to load points"))).

Definition points_finally (requestID : N) : prog Cells Susp := if_latest requestID (loading <-- false).

Definition loadPoints (env : Cells) : prog Cells Susp :=
  if negb (truthy_str (trim (selected env))) then pskip
  else with_state (fun s =>
    let requestID := latestRequest s + 1 in
    latestRequest <-- requestID ;;;
    loading <-- true ;;; error <-- None ;;;
    await_call (points_call env) (PointsLoaded requestID)
      (fun e => points_failed requestID e ;;; points_finally requestID)).

Definition points_of (v : val) : option (list TimeSeriesPoint) :=
  o ← as_obj v; as_arr TimeSeriesPoint_of (fld o "points").

Definition points_loaded (requestID : N) (o : outcome) : prog Cells Susp :=
  awaited points_of o (fun ps => if_latest requestID (points <-- ps)) (points_failed requestID) ;;;
  points_finally requestID.

(** ** The list of series *)

Definition series_of (v : val) : option (list jstr) := o ← as_obj v; as_arr as_str (fld o "series").

Definition series_failed (who : SeriesCaller) (e : jserr) : prog Cells Susp :=
  match who with
  | AtMount => error <-- Some (err_or e (js "Unable to load series"))
  | AtRefresh => pskip
  | AfterWrite _ => error <-- Some (err_or e (js "Unable to write point"))
  end.

Definition loadSeries (who : SeriesCaller) : prog Cells Susp :=
  await_call listTimeSeries (SeriesLoaded who) (series_failed who).

(** The rest of [loadSeries], then of its caller. *)
Definition series_loaded (who : SeriesCaller) (o : outcome) : prog Cells Susp :=
  awaited series_of o
    (fun names =>
       series <-- names ;;;
       modify (fun s => s <| selected := str_or (selected s) (default [] (head names)) |>) ;;;
       match who with
       | AfterWrite env => emit (Ext OnRefreshCatalog) ;;; loadPoints env
       | _ => pskip
       end)
    (series_failed who).

(** ** Effects *)

Definition mount_effect : effect Z Cells Susp := mk_effect
  (fun old _ => match old with None => true | Some _ => false end)
  (fun _ _ => loadSeries AtMount).

Definition selected_effect : effect Z Cells Susp := mk_effect
  (fun old new => match old with
   | None => true
   | Some (_, s0) => negb (str_eq (selected s0) (selected new.2))
   end)
  (fun _ s => if truthy_str (selected s) then loadPoints s else pskip).

(** ** Ingest and retention *)

Definition write_call (now : Z) (env : Cells) : call :=
  if negb (truthy_str (trim (selected env))) then inl (mk_err (js "Enter a series name first"))
  else
    let! t := (if truthy_str (timestamp env) then iso (timestamp env)
               else match toISOString (Some now) with Some t => inr t | None => inl (mk_err range_message) end) in
    let! tg := parseJSONMap (writeTags env) (js "Tags") in
    let! fs := parseJSONMap (fields env) (js "Fields") in
    writeTimeSeries (trim (selected env)) [(js "Timestamp", VStr t); (js "Tags", VObj tg); (js "Fields", VObj fs)].

Definition write_failed (e : jserr) : prog Cells Susp := error <-- Some (err_or e (js "Unable to write point")).

Definition handleWrite (now : Z) (env : Cells) : prog Cells Susp :=
  error <-- None ;;; success <-- None ;;; await_call (write_call now env) (Written env) write_failed.

Definition written (env : Cells) (o : outcome) : prog Cells Susp :=
  awaited Some o (fun _ => success <-- Some (js "Point written successfully.") ;;; loadSeries (AfterWrite env)) write_failed.

Definition prune_call (env : Cells) : call :=
  if negb (truthy_str (trim (selected env))) then inl (mk_err (js "Enter a series name first"))
  else let! t := iso (retentionCutoff env) in pruneTimeSeries (trim (selected env)) t.

Definition prune_failed (e : jserr) : prog Cells Susp := error <-- Some (err_or e (js "Unable to apply retention")).

Definition handlePrune (env : Cells) : prog Cells Susp :=
  error <-- None ;;; success <-- None ;;; await_call (prune_call env) (Pruned env) prune_failed.

Definition removed_of (v : val) : option num := o ← as_obj v; as_num (fld o "removed").

Definition prune_message (n : num) : jstr :=
  js "Retention applied: removed " ++ num_str n ++ js " point" ++ (if num_eq n (num_of_Z 1) then [] else js "s") ++ js ".".

Definition pruned (env : Cells) (o : outcome) : prog Cells Susp :=
  awaited removed_of o (fun n => success <-- Some (prune_message n) ;;; loadPoints env) prune_failed.

Definition on (now : Z) (env : Cells) (a : Act) : prog Cells Susp :=
  match a with
  | RefreshSeries => loadSeries AtRefresh
  | SetSelected v => selected <-- v
  | SetLimit v => limit <-- num_or (Number v) (num_of_Z 100)
  | SetStart v => start <-- v
  | SetEnd v => end_ <-- v
  | SetDescending b => descending <-- b
  | RunQuery => loadPoints env
  | SetTags v => tags <-- v
  | SetTimestamp v => timestamp <-- v
  | SetWriteTags v => writeTags <-- v
  | SetFields v => fields <-- v
  | WritePoint => handleWrite now env
  | SetCutoff v => retentionCutoff <-- v
  | Prune => handlePrune env
  end.

Definition resumed (q : Susp) (o : outcome) : prog Cells Susp :=
  match q with
  | SeriesLoaded who => series_loaded who o
  | PointsLoaded i => points_loaded i o
  | Written env => written env o
  | Pruned env => pruned env o
  end.

Definition accepted (q : Susp) (o : outcome) : bool :=
  match q with
  | SeriesLoaded _ => conforms series_of o
  | PointsLoaded _ => conforms points_of o
  | Written _ => true
  | Pruned _ => conforms removed_of o
  end.

(** ** Rendering *)

Definition title_bar : node Act :=
  el "header" [
    el "div" [el "h1" [txt "Time-Series Explorer"];
              el "p" [txt "Inspect logs, metrics, and IoT telemetry by time range and exact tags."]];
    button false (OnClick RefreshSeries) [txt "Refresh series"]].

(** [m ? <div>...</div> : null] *)
Definition note (m : option jstr) : list (node Act) :=
  match m with Some t => when (truthy_str t) [el "div" [Txt t]] | None => [] end.

Definition query_section (s : Cells) : node Act :=
  el "section" [
    el "div" [
      el "label" [txt "Series name"; input (js "text") (js "e.g. sensor-readings") (selected s) SetSelected;
                  el "datalist" (map (fun name => option_el name []) (series s))];
      el "label" [txt "Result limit"; input (js "number") [] (num_str (limit s)) SetLimit];
      el "label" [txt "Start"; input (js "datetime-local") [] (start s) SetStart];
      el "label" [txt "End"; input (js "datetime-local") [] (end_ s) SetEnd]];
    el "div" [
      el "label" [checkbox (descending s) SetDescending; txt "Newest first"];
      button (loading s || negb (truthy_str (trim (selected s)))) (OnClick RunQuery)
        [if loading s then txt "Loading…" else txt "Run query"]]].

Definition edit_section (s : Cells) : node Act :=
  el "section" [
    el "div" [el "h2" [txt "Exact tag filter"]; textarea [] (tags s) SetTags;
              el "p" [txt "JSON object, e.g. "; Txt (jq "{'device':'sensor-01','severity':'error'}")]];
    El (js "form") [] false [OnSubmit WritePoint] [
      el "h2" [txt "Ingest point"];
      el "label" [txt "Timestamp"; input (js "datetime-local") [] (timestamp s) SetTimestamp];
      el "div" [
        el "label" [txt "Tags"; textarea [] (writeTags s) SetWriteTags];
        el "label" [txt "Fields"; textarea [] (fields s) SetFields]];
      el "button" [txt "Write point"]]].

(** [JSON.stringify(v)] as a child: nothing for an absent member. *)
Definition json_child (v : val) : list (node Act) :=
  match v with VUndef => [] | _ => [Txt (stringify v)] end.

Definition point_row (p : TimeSeriesPoint) : node Act :=
  el "tr" [el "td" [Txt (localeDate (Timestamp p))]; el "td" (json_child (Tags p)); el "td" (json_child (Fields p))].

Definition points_section (s : Cells) : node Act :=
  el "section" [
    el "div" [el "span" [count_txt (points s); txt " points loaded"]; el "span" [txt "timestamp · tags · fields"]];
    el "div" [el "table" [
      el "thead" [el "tr" [el "th" [txt "Timestamp"]; el "th" [txt "Tags"]; el "th" [txt "Fields"]]];
      el "tbody" match points s with
      | [] => [el "tr" [El (js "td") [(js "colSpan", js "3")] false [] [txt "No points found in this range."]]]
      | ps => map point_row ps
      end]]].

Definition retention_section (s : Cells) : node Act :=
  el "section" [
    el "div" [el "h2" [txt "Retention policy"]; el "p" [txt "Permanently remove points older than this cutoff."];
              input (js "datetime-local") [] (retentionCutoff s) SetCutoff];
    button (negb (truthy_str (trim (selected s)))) (OnClick Prune) [txt "Apply retention"]].

Definition view (s : Cells) : option (node Act) :=
  Some (el "div" ([title_bar] ++ note (error s) ++ note (success s)
    ++ [query_section s; edit_section s; points_section s; retention_section s])).

Definition TimeSeriesView : component := {|
  Props := Z; State := Cells; Action := Act; Kont := Susp;
  initial := init; handle := on; resume := resumed; accepts := accepted;
  effects := [mount_effect; selected_effect]; render := fun _ => view; callbacks := [] |}.

End View.

Section Theory.
Context `{Engine} `{Zone} `{Locale}.

Definition guard_obs (s : Cells) : N * bool := (latestRequest s, loading s).
Definition guard_tag (q : Susp) : option N := match q with PointsLoaded i => Some i | _ => None end.

Lemma loadPoints_issuing env : issuing guard_obs guard_tag (loadPoints env).
Proof.
  intros s. unfold loadPoints. destruct (truthy_str _); simpl; [|split; [constructor|by constructor]].
  unfold with_state. destruct (points_call env) as [e|r]; simpl.
  - unfold pseq, points_failed, points_finally, if_latest, with_state, pwhen, guard_obs. cbn. rewrite !N.eqb_refl. cbn.
    rewrite N.eqb_refl. split; [apply issue_throw|by constructor].
  - split; [apply issue_send|by repeat constructor].
Qed.

Hint Resolve loadPoints_issuing : js.

Lemma loadSeries_issuing who : issuing guard_obs guard_tag (loadSeries who).
Proof. unfold loadSeries, series_failed. apply issuing_call; [done|]. intros e. destruct who; auto with js. Qed.

Hint Resolve loadSeries_issuing : js.

#[export] Instance timeseries_latest : LatestWins TimeSeriesView guard_obs guard_tag.
Proof.
  split.
  - done.
  - intros p env []; simpl; auto 9 with js.
    + unfold handleWrite, write_failed. auto with js.
    + unfold handlePrune, prune_failed. auto with js.
  - intros e p env He. apply elem_of_cons in He as [-> | ->%list_elem_of_singleton]; simpl; auto with js.
  - intros [|i| |] j f s; try done. intros [= ->]. simpl. unfold points_loaded, awaited, Types.success.
    destruct (settle f) as [e|v]; [|destruct (points_of v) as [res|]; [|done]]; intros _;
      unfold pseq, points_failed, points_finally, if_latest, with_state, pwhen, guard_obs;
      destruct s as [??????????????? n]; simpl; destruct (j =? n) eqn:E; simpl; by rewrite ?E.
  - intros [who|i|env|env] o; [intros _|done|intros _..]; simpl;
      [unfold series_loaded, series_failed|unfold written, write_failed|unfold pruned, prune_failed];
      awaited_cases; try destruct who; auto 9 with js.
    repeat (apply issuing_seq; auto with js). apply issuing_emit; by repeat constructor.
Qed.

(** ** The table of points *)

Lemma points_frames_load env : frames points (loadPoints env).
Proof. unfold loadPoints, points_failed, points_finally, if_latest. auto 12 with frame. Qed.

Lemma points_frames_series who : frames points (loadSeries who).
Proof. unfold loadSeries. apply frames_call. intros e. destruct who; simpl; auto with frame. Qed.

Hint Resolve points_frames_load points_frames_series : frame.

Lemma points_frames_on now env a : frames points (on now env a).
Proof. destruct a; simpl; unfold handleWrite, write_failed, handlePrune, prune_failed; auto 9 with frame. Qed.

Lemma points_frames_effects e p s0 : e ∈ effects TimeSeriesView -> frames points (eff_body e p s0).
Proof. intros He. apply elem_of_cons in He as [-> | ->%list_elem_of_singleton]; simpl; auto with frame. Qed.

Lemma points_frames_other q o : guard_tag q = None -> frames points (resumed q o).
Proof.
  destruct q as [who|i|env|env]; [intros _|done|intros _..]; simpl;
    [unfold series_loaded, series_failed|unfold written, write_failed|unfold pruned, prune_failed];
    awaited_cases; try destruct who; auto 9 with frame.
Qed.

Lemma points_frames_fired i : frames points (points_loaded i Fired).
Proof. unfold points_loaded, points_finally, if_latest. simpl. auto 9 with frame. Qed.

(** What an answer does to the points. *)
Lemma loaded_points i f s : conforms points_of (Settled f) = true ->
  points (points_loaded i (Settled f) s).1 =
  match settle f with
  | inr v => if i =? latestRequest s then default [] (points_of v) else points s
  | inl _ => points s
  end.
Proof.
  unfold conforms, Types.success, points_loaded, awaited, points_failed, points_finally, if_latest, with_state, pwhen, pseq.
  destruct (settle f) as [e|v]; [|destruct (points_of v) as [res|]; [|done]]; intros _;
    destruct s as [??????????????? n]; simpl; destruct (i =? n) eqn:E; simpl; by rewrite ?E.
Qed.

(** In every step of the explorer the points shown stay as they are or
    become the answer to the latest query: a slow answer to an earlier range or
    series cannot replace them. *)
Theorem timeseries_latest_wins c i c' o :
  exec TimeSeriesView c i = Some (c', o) ->
  points (cstate c') = points (cstate c)
  \/ exists n r f v ps,
       i = IResume n (Settled f)
       /\ cpend c !! n = Some (PFetch r (PointsLoaded (latestRequest (cstate c))))
       /\ settle f = inr v /\ points_of v = Some ps /\ points (cstate c') = ps.
Proof.
  intros E. apply (exec_frames TimeSeriesView points points_frames_effects) in E
    as [E|[[a E]|(n & q & out & -> & Eq & Ha & [keep Hk] & E)]].
  - by left.
  - left. rewrite E. apply points_frames_on.
  - destruct (guard_tag (kont_of q)) as [j|] eqn:Et; [|left; rewrite E; by apply points_frames_other].
    destruct (kont_of q) as [|i| |] eqn:Eq'; try done. simpl in E, Ha.
    destruct out as [f|]; [|left; rewrite E; apply points_frames_fired].
    destruct q as [r k|k|k]; try done. simpl in Eq'. subst k.
    rewrite loaded_points in E by done. unfold conforms, Types.success in Ha.
    destruct (settle f) as [e|v] eqn:Ef; [by left|]. destruct (points_of v) as [ps|] eqn:Er; [|done].
    destruct (i =? latestRequest (cstate c)) eqn:Ei; [|by left]. to_prop. subst i.
    right. by exists n, r, f, v, ps.
Qed.

(** The loading notice is shown exactly while the latest query is pending. *)
Theorem timeseries_loading p0 c :
  reachable TimeSeriesView p0 c ->
  (loading (cstate c) = true <-> exists r, PFetch r (PointsLoaded (latestRequest (cstate c))) ∈ cpend c).
Proof.
  intros Hr. destruct (latest_reachable TimeSeriesView guard_obs guard_tag p0 c Hr) as (_ & _ & Hl).
  rewrite (Hl : loading (cstate c) = true <-> _). split.
  - intros (r & [|i| |] & Hin & Et); try done. exists r. by injection Et as ->.
  - intros [r Hin]. by exists r, (PointsLoaded (latestRequest (cstate c))).
Qed.

(** ** Local times *)

(** A date field filled from an instant and read back gives the start of
    that instant's minute, in every time zone whose offset is a whole number of
    minutes and stays the same between that minute's start and the instant. *)
Theorem local_input_roundtrip t :
  let l := (t - offset_ms t)%Z in
  (Z.abs l <= max_time)%Z -> (0 <= year_of_day (l / ms_per_day) <= 9999)%Z ->
  (offset_ms t mod 60000 = 0)%Z ->
  utc_of_local (l - l mod 60000)%Z = (l - l mod 60000 + offset_ms t)%Z ->
  exists s, toLocalInput t = Some s /\ Date_of s = Some (t - t mod 60000)%Z.
Proof.
  intros l Hl Hy Ho Hz. destruct (local_datetime_iso l Hl Hy) as (s & Hs & Hd).
  exists (take 16 s). unfold toLocalInput, Date_of. fold l. rewrite Hs, Hd. split; [done|]. f_equal. rewrite Hz.
  unfold l. Z.to_euclidean_division_equations. lia.
Qed.

(** ** Ingest *)

(** The object an ingest should deliver. *)
Definition point_body (env : Cells) (t : jstr) (tg fs : jsobj) : jsobj :=
  [(js "series", VStr (trim (selected env)));
   (js "point", VObj [(js "Timestamp", VStr t); (js "Tags", VObj tg); (js "Fields", VObj fs)])].

(** The instant an ingest is stamped with: the typed one, or the current time. *)
Definition stamp (now : Z) (env : Cells) : option Z :=
  if truthy_str (timestamp env) then Date_of (timestamp env) else Some now.

(** When the call of an ingest is made. *)
Lemma write_call_sends now env r : write_call now env = inr r ->
  exists t tg fs, trim (selected env) <> [] /\ toISOString (stamp now env) = Some t
    /\ parse (writeTags env) = Some (VObj tg) /\ parse (fields env) = Some (VObj fs)
    /\ send (js "/timeseries/write") (POST (VObj (point_body env t tg fs))) = inr r.
Proof.
  unfold write_call, stamp, iso. intros Ew. destruct (truthy_str (trim (selected env))) eqn:Et; [|done]. cbn [negb] in Ew.
  assert (trim (selected env) <> []) as Hne by by intros E; rewrite E in Et.
  assert (exists t, toISOString (if truthy_str (timestamp env) then Date_of (timestamp env) else Some now) = Some t
    /\ (let! tg := parseJSONMap (writeTags env) (js "Tags") in let! fs := parseJSONMap (fields env) (js "Fields") in
        writeTimeSeries (trim (selected env)) [(js "Timestamp", VStr t); (js "Tags", VObj tg); (js "Fields", VObj fs)]) = inr r)
    as (t & Hts & Hw).
  { destruct (truthy_str (timestamp env)); (destruct (toISOString _) as [t|]; [|done]); by exists t. }
  clear Ew. unfold parseJSONMap in Hw.
  destruct (parse (writeTags env)) as [[| | | | | |tg]|]; try done. cbn [throw_bind] in Hw.
  destruct (parse (fields env)) as [[| | | | | |fs]|]; try done. cbn [throw_bind] in Hw.
  by exists t, tg, fs.
Qed.

(** Writing a point either sends one request, for a named series, whose tags
    and fields are the JSON objects typed and whose time is the one typed (the
    current time when the field is empty), or sends nothing and shows an
    error. *)
Theorem ingest_request now env :
  (exists r t tg fs, (on now env WritePoint env).2 = [Fetch r (Written env)]
     /\ trim (selected env) <> [] /\ toISOString (stamp now env) = Some t
     /\ parse (writeTags env) = Some (VObj tg) /\ parse (fields env) = Some (VObj fs)
     /\ req_url r = js "/api/timeseries/write"
     /\ (json_ok (VObj (point_body env t tg fs)) = true ->
         (req_body r ≫= parse) = Some (VObj (point_body env t tg fs))))
  \/ ((on now env WritePoint env).2 = [] /\ is_Some (error (on now env WritePoint env).1)).
Proof.
  cbn [on]. unfold handleWrite. destruct (write_call now env) as [e|r] eqn:Ew.
  - right. destruct env. split; [done|by eexists].
  - left. apply write_call_sends in Ew as (t & tg & fs & Hn & Ht & Htg & Hfs & Hr).
    exists r, t, tg, fs. unfold send, request, POST in Hr. injection Hr as <-.
    do 6 (split; [done|]). cbn [req_body opt_body mbind option_bind]. apply parse_stringify.
Qed.

(** ** Commits end *)

Lemma series_name_frames_load env : frames selected (loadPoints env).
Proof. unfold loadPoints, points_failed, points_finally, if_latest. auto 12 with frame. Qed.

Lemma series_name_frames_series who : frames selected (loadSeries who).
Proof. unfold loadSeries. apply frames_call. intros e. destruct who; simpl; auto with frame. Qed.

Hint Resolve series_name_frames_load series_name_frames_series : frame.

Lemma series_name_frames_effects e p s0 : e ∈ effects TimeSeriesView -> frames selected (eff_body e p s0).
Proof. intros He. apply elem_of_cons in He as [-> | ->%list_elem_of_singleton]; simpl; auto with frame. Qed.

Lemma timeseries_settles old p s : settles TimeSeriesView commit_fuel old p s = true.
Proof.
  revert old p s. apply (settles_by TimeSeriesView selected).
  - intros p s s' Hs. unfold any_changed. simpl. unfold str_eq. by rewrite Hs, !bool_decide_eq_true_2.
  - intros old p s _ s1. by apply (run_list_frames TimeSeriesView selected series_name_frames_effects).
Qed.

(** ** Progress *)

Lemma points_call_ok env : api_ok (points_call env).
Proof. unfold points_call, queryTimeSeries. auto with emits. Qed.

Lemma write_call_ok now env : api_ok (write_call now env).
Proof. unfold write_call. case_match; auto with emits. Qed.

Lemma prune_call_ok env : api_ok (prune_call env).
Proof. unfold prune_call. case_match; auto with emits. Qed.

Hint Resolve points_call_ok write_call_ok prune_call_ok : emits.

Lemma loadPoints_api env : emits calm (loadPoints env).
Proof. unfold loadPoints, points_failed, points_finally, if_latest. auto 15 with emits. Qed.

Lemma loadSeries_api who : emits calm (loadSeries who).
Proof. unfold loadSeries. apply calm_call; [auto with emits|]. intros e. destruct who; simpl; auto with emits. Qed.

Hint Resolve loadPoints_api loadSeries_api : emits.

#[export] Instance timeseries_api : Emitting TimeSeriesView calm.
Proof.
  split.
  - intros p s []; simpl; unfold handleWrite, write_failed, handlePrune, prune_failed; auto 9 with emits.
  - intros [who|i|env|env] o; simpl; unfold series_loaded, series_failed, points_loaded, points_failed, points_finally,
      if_latest, written, write_failed, pruned, prune_failed; awaited_cases; try destruct who; auto 12 with emits.
  - intros e p s [-> | ->%list_elem_of_singleton]%elem_of_cons; simpl; auto with emits.
Qed.

(** The series answer may load points twice: by the caller and by the effect. *)
Definition timeseries_weight (q : Susp) : nat :=
  match q with PointsLoaded _ => 1 | Pruned _ => 2 | SeriesLoaded _ => 3 | Written _ => 4 end.

Lemma loadPoints_costs env : costs timeseries_weight 1 (loadPoints env).
Proof. unfold loadPoints, points_failed, points_finally, if_latest. auto 15 with costs. Qed.

Lemma loadSeries_costs who : costs timeseries_weight 3 (loadSeries who).
Proof. unfold loadSeries. apply costs_call; [done|]. intros e. destruct who; simpl; auto with costs. Qed.

Hint Resolve loadPoints_costs loadSeries_costs : costs.

(** The commits after a task load points at most once. *)
Lemma commits_cost p s s1 : (weigh timeseries_weight (pends (flush TimeSeriesView commit_fuel (Some (p, s)) p s1).2) <= 1)%nat.
Proof.
  rewrite commit_fuel_3. cbn [flush]. unfold any_changed at 1. simpl existsb.
  destruct (str_eq (selected s) (selected s1)) eqn:E; [simpl; lia|]. cbn [negb orb].
  pose proof (run_list_frames TimeSeriesView selected series_name_frames_effects (effects TimeSeriesView)
    (Some (p, s)) (p, s1) (fun e He => He) s1) as Hf. unfold run_effects.
  assert ((weigh timeseries_weight (pends (run_list TimeSeriesView (effects TimeSeriesView) (Some (p, s)) (p, s1) s1).2) <= 1)%nat) as Hc.
  { change (effects TimeSeriesView) with [mount_effect; selected_effect]. cbn [run_list].
    assert (costs timeseries_weight 1 (if truthy_str (selected s1) then loadPoints s1 else pskip)) as Hl by auto with costs.
    unfold pseq, pwhen. simpl. rewrite E. simpl. specialize (Hl s1). destruct (if truthy_str (selected s1) then _ else _) as [s2 c2].
    simpl. by rewrite app_nil_r. }
  destruct (run_list TimeSeriesView _ _ _ s1) as [s2 c2]. cbn [fst snd] in *.
  assert (any_changed TimeSeriesView (Some (p, s1)) (p, s2) = false) as ->.
  { unfold any_changed. simpl. unfold str_eq. by rewrite Hf, bool_decide_eq_true_2. }
  simpl. by rewrite app_nil_r.
Qed.

Lemma answer_costs (m : prog Cells Susp) n p s : costs timeseries_weight n m ->
  (weigh timeseries_weight (pends (task TimeSeriesView p s [] m).2) <= n + 1)%nat.
Proof.
  intros Hm. unfold task. specialize (Hm s). destruct (m s) as [s1 c1]. pose proof (commits_cost p s s1) as Hc.
  destruct (flush TimeSeriesView commit_fuel (Some (p, s)) p s1) as [s2 c2]. cbn [fst snd] in *.
  rewrite pends_app, weigh_app. apply Nat.add_le_mono; [exact Hm|exact Hc].
Qed.

Lemma series_loaded_costs who o : costs timeseries_weight 1 (series_loaded who o).
Proof. unfold series_loaded, series_failed. awaited_cases; destruct who; auto 12 with costs. Qed.

(** Only the series answer changes the selection. *)
Lemma series_name_frames_resumed q o :
  (forall who, q <> SeriesLoaded who) -> frames selected (resumed q o).
Proof.
  intros Hq. destruct q as [who|i|env|env]; [by destruct (Hq who)|..]; simpl;
    unfold points_loaded, points_failed, points_finally, if_latest, written, write_failed, pruned, prune_failed;
    awaited_cases; auto 12 with frame.
Qed.

#[export] Instance timeseries_drains : Drains TimeSeriesView timeseries_weight.
Proof.
  split; [intros []; simpl; lia| |by intros []]. intros p s q f _.
  destruct q as [who|i|env|env];
    [apply (Nat.le_lt_trans _ (1 + 1)); [apply answer_costs, series_loaded_costs|simpl; lia]|..];
    match goal with |- (_ < timeseries_weight ?q)%nat => apply drains_idle with (n := (timeseries_weight q - 1)%nat) end;
    try (simpl; lia).
  1, 3, 5: unfold any_changed; cbn [existsb effects TimeSeriesView eff_changed mount_effect selected_effect snd]; unfold str_eq;
    change (resume TimeSeriesView) with resumed; rewrite series_name_frames_resumed by done; by rewrite bool_decide_eq_true_2.
  all: simpl; unfold points_loaded, points_failed, points_finally, if_latest, written, write_failed, pruned, prune_failed;
    awaited_cases; auto 12 with costs.
Qed.

#[export] Instance timeseries_waits : Waits TimeSeriesView loading.
Proof. exact (latest_waits TimeSeriesView guard_obs guard_tag). Qed.

End Theory.

(** ** The theorems on a concrete explorer *)

Module Examples.

#[local] Existing Instance plain_engine.
#[local] Existing Instance plain_locale.

(** Seven hours east of Greenwich, all year. *)
#[local] Instance bangkok : Zone := {|
  offset_ms := fun _ => (-25200000)%Z; utc_of_local := fun l => (l - 25200000)%Z; other_date := fun _ => None |}.

(** 2026-01-02T03:04:05.678Z *)
Definition now : Z := 1767323045678%Z.

Definition opened : config TimeSeriesView := (mount TimeSeriesView now).1.

Definition listed : React.input TimeSeriesView := IResume 0 (ok_response (VObj [(js "series", VArr [VStr (js "cpu")])])).

Definition point : val :=
  VObj [(js "Timestamp", VStr (js "2026-01-02T03:04:00Z")); (js "Tags", VObj []); (js "Fields", VObj [(js "v", VNum (num_of_Z 1))])].

Definition answered : React.input TimeSeriesView := IResume 0 (ok_response (VObj [(js "points", VArr [point])])).

Definition empty_cells : Cells := initial TimeSeriesView now.

(** The explorer once its first series is selected: its points are being loaded. *)
Lemma selected_run : exists c o, run TimeSeriesView opened [listed] = Some (c, o)
  /\ cstate c = default empty_cells (after TimeSeriesView opened [listed])
  /\ can TimeSeriesView c answered = true.
Proof.
  destruct (after_run TimeSeriesView opened [listed] (default empty_cells (after TimeSeriesView opened [listed])))
    as (c & o & E & Hs); [vm_compute; reflexivity|].
  exists c, o. split; [exact E|]. split; [exact Hs|].
  assert (match run TimeSeriesView opened [listed] with Some (c, _) => can TimeSeriesView c answered | None => false end = true)
    as Hc by (vm_compute; reflexivity). by rewrite E in Hc.
Qed.

Lemma timeseries_latest_wins_witness :
  exists c c' o, exec TimeSeriesView c answered = Some (c', o)
    /\ (points (cstate c') = points (cstate c)
        \/ exists n r f v ps, answered = IResume n (Settled f)
             /\ cpend c !! n = Some (PFetch r (PointsLoaded (latestRequest (cstate c))))
             /\ settle f = inr v /\ points_of v = Some ps /\ points (cstate c') = ps)
    /\ length <$> (points <$> after TimeSeriesView opened [listed; answered]) = Some 1%nat.
Proof.
  destruct selected_run as (c & _ & _ & _ & Hc). destruct (can_exec TimeSeriesView c answered Hc) as (c' & o & E).
  exists c, c', o. split; [exact E|]. split; [exact (timeseries_latest_wins c answered c' o E)|vm_compute; reflexivity].
Defined.

Lemma timeseries_loading_witness :
  exists c : config TimeSeriesView, loading (cstate c) = true
    /\ (loading (cstate c) = true <-> exists r, PFetch r (PointsLoaded (latestRequest (cstate c))) ∈ cpend c).
Proof.
  destruct selected_run as (c & o & E & Hs & _). exists c. split; [rewrite Hs; vm_compute; reflexivity|].
  apply (timeseries_loading now c). eapply reachable_run; [apply reach_mount|exact E].
Defined.

Lemma local_input_roundtrip_witness :
  exists s, toLocalInput now = Some s /\ Date_of s = Some (now - now mod 60000)%Z.
Proof. apply (local_input_roundtrip now); vm_compute; [congruence|split; congruence|reflexivity|reflexivity]. Defined.

End Examples.
