(* ===== verification/Components.v ===== *)
(** [studio/frontend/src/components/]: the sidebar, the header and the error
    boundary of the studio. *)

From S2P Require Import Prelude JsString JsNumber Json Api Types React ViewCommon.

Open Scope N_scope.

(** ** [Sidebar.tsx] *)

Module Sidebar.

(** The identifiers of [ViewType], in the order of the navigation. *)
Record NavItem := { id : jstr; label : jstr; badge : option N }.

Definition nav_item (i l : string) (b : option N) : NavItem := {| id := js i; label := js l; badge := b |}.

Definition navItems (bucketCount collectionCount timeSeriesCount queueCount : N) : list NavItem := [
  nav_item "dashboard" "Dashboard" None;
  nav_item "collections" "Collections" (Some collectionCount);
  nav_item "timeseries" "Time Series" (Some timeSeriesCount);
  nav_item "buckets" "KV Buckets" (Some bucketCount);
  nav_item "queues" "Task Queues" (Some queueCount);
  nav_item "pubsub" "Real-Time Pub/Sub" None;
  nav_item "query" "Query Console" None;
  nav_item "vector" "Vector Search" None;
  nav_item "search" "Full-Text Search" None;
  nav_item "maintenance" "Integrity & Tools" None].

(** [ViewType] *)
Definition view_types : list jstr :=
  [js "dashboard"; js "collections"; js "timeseries"; js "buckets"; js "queues"; js "pubsub"; js "query";
   js "vector"; js "search"; js "maintenance"].

Definition nav_button {A} (onSelectView : jstr -> A) (item : NavItem) : node A :=
  button false (OnClick (onSelectView (id item)))
    (el "div" [el "span" [Txt (label item)]]
     :: match badge item with Some n => [el "span" [Txt (digits n)]] | None => [] end).

Definition Sidebar {A} (onSelectView : jstr -> A) (bucketCount collectionCount timeSeriesCount queueCount : N) : node A :=
  el "aside" [
    el "div" [el "div" [el "div" [el "span" [txt "CoCo DB"]; el "span" [txt "Studio"]]; el "p" [txt "Multi-Model Engine"]]];
    el "nav" (el "div" [txt "Database Explorer"]
      :: map (nav_button onSelectView) (navItems bucketCount collectionCount timeSeriesCount queueCount));
    el "div" [el "div" [el "span" [txt "Storage Kernel Active"]; el "span" [txt "v1.0 (Pure Go)"]]]].

(** The sidebar offers every view, and only views. *)
Lemma navItems_ids b c t q : id <$> navItems b c t q = view_types.
Proof. reflexivity. Qed.

Lemma sidebar_handlers {A} (f : jstr -> A) b c t q h :
  h ∈ handlers (Sidebar f b c t q) <-> exists v, v ∈ view_types /\ h = OnClick (f v).
Proof.
  unfold Sidebar. autorewrite with handlers. rewrite <- (navItems_ids b c t q).
  split.
  - intros Hin. repeat match type of Hin with _ \/ _ => destruct Hin as [Hin|Hin] end; try done.
    destruct Hin as (item & Hi & Hin). unfold nav_button in Hin. handler_cases Hin.
    + exists (id item). split; [by apply list_elem_of_fmap_2|done].
    + destruct (badge item); by handler_cases Hin.
  - intros (v & Hv & ->). apply list_elem_of_fmap_1 in Hv as (item & -> & Hi).
    assert (exists x, x ∈ navItems b c t q /\ OnClick (f (id item)) ∈ handlers (nav_button f x)) as Hx; [|tauto].
    exists item. split; [done|]. unfold nav_button. rewrite handlers_button. simpl. by left.
Qed.

End Sidebar.

(** ** [Header.tsx] *)

Module Header.

Inductive theme := Light | Dark.

#[global] Instance theme_eq_dec : EqDecision theme.
Proof. solve_decision. Defined.

Definition stats_line {A} (st : DBStats) : node A :=
  el "div" [
    el "span" [Txt (num_str (page_count st)); txt " Pages (";
               Txt (num_str (ndiv (nmul (page_count st) (num_of_Z 16)) (num_of_Z 1024))); txt " MB)"];
    el "span" [txt "Hit Rate: "; Txt (toFixed (nmul (cache_hit_rate st) (num_of_Z 100)) 1); txt "%"];
    el "span" [txt "LSN: #"; Txt (num_str (last_lsn st))]].

Definition Header {A} (stats : option DBStats) (loading : bool) (t : theme) (onToggleTheme onRefresh : A) : node A :=
  el "header" [
    el "div" (el "div" [el "div" []; el "span" [txt "CoCo Embedded Instance"]]
      :: match stats with Some st => [stats_line st] | None => [] end);
    el "div" [
      El (js "button")
        [(js "title", js "Switch to " ++ (match t with Dark => js "Light" | Light => js "Dark" end) ++ js " mode");
         (js "aria-label", js "Toggle theme")] false [OnClick onToggleTheme] [];
      button loading (OnClick onRefresh) [el "span" [txt "Refresh"]];
      el "div" [el "span" [txt "ACID OK"]]]].

End Header.

(** ** [ErrorBoundary.tsx] *)

Module ErrorBoundary.

(** Its state: [hasError] and [error]. *)
Record State := { hasError : bool; error : option jserr }.

Definition initial : State := {| hasError := false; error := None |}.

Definition getDerivedStateFromError (e : jserr) : State := {| hasError := true; error := Some e |}.

Definition componentDidCatch (e : jserr) : list external :=
  [ConsoleError (js "Uncaught component error: " ++ message e)].

(** [this.setState({ hasError: false, error: null })] *)
Definition retry : State := {| hasError := false; error := None |}.

Definition fallback {A} (onRetry : A) (s : State) : node A :=
  el "div" [
    el "div" [el "span" [txt "Component Rendering Error"]];
    el "p" [Txt (str_or (default [] (message <$> error s)) (js "An unexpected error occurred while rendering."))];
    button false (OnClick onRetry) [el "span" [txt "Retry Rendering"]]].

(** One commit: render the children, and fall back when rendering them threw. *)
Definition commit {A} (onRetry : A) (s : State) (children : jserr + node A) : State * list external * node A :=
  if hasError s then (s, [], fallback onRetry s)
  else match children with
  | inr tree => (s, [], tree)
  | inl e => (getDerivedStateFromError e, componentDidCatch e, fallback onRetry (getDerivedStateFromError e))
  end.

(** A sequence of commits: the last state, what was logged, and what was shown. *)
Fixpoint commits {A} (onRetry : A) (s : State) (l : list (jserr + node A)) : State * list external * list (node A) :=
  match l with
  | [] => (s, [], [])
  | c :: r =>
      let '(s1, e1, t) := commit onRetry s c in
      let '(s2, e2, ts) := commits onRetry s1 r in (s2, e1 ++ e2, t :: ts)
  end.

Lemma commits_good {A} (onRetry : A) s ts :
  hasError s = false -> commits onRetry s (inr <$> ts) = (s, [], ts).
Proof.
  intros Hs. induction ts as [|t r IH]; [done|]. rewrite fmap_cons. cbn [commits]. unfold commit at 1. by rewrite Hs, IH.
Qed.

Lemma commits_failed {A} (onRetry : A) s l :
  hasError s = true -> commits onRetry s l = (s, [], replicate (length l) (fallback onRetry s)).
Proof. intros Hs. induction l as [|t r IH]; [done|]. simpl. unfold commit at 1. by rewrite Hs, IH. Qed.

(** The boundary is transparent until a rendering throws; from then on it
    shows the fallback with that error's message, whatever its children become
    (navigating to another view included), logs the error once, and shows the
    children again only after a retry. *)
Theorem boundary_life {A} (onRetry : A) before e after again :
  commits onRetry initial ((inr <$> before) ++ inl e :: after)
  = (getDerivedStateFromError e, componentDidCatch e,
     before ++ replicate (S (length after)) (fallback onRetry (getDerivedStateFromError e)))
  /\ texts (fallback onRetry (getDerivedStateFromError e)) !! 1%nat
     = Some (str_or (message e) (js "An unexpected error occurred while rendering."))
  /\ commits onRetry retry (inr <$> again) = (retry, [], again).
Proof.
  split_and!; [|done|by apply commits_good].
  induction before as [|t r IH].
  - simpl. by rewrite commits_failed.
  - rewrite fmap_cons. cbn [app commits]. unfold commit at 1. simpl hasError. cbv iota. by rewrite IH.
Qed.

End ErrorBoundary.
