(* ===== verification/DashboardView.v ===== *)
(** [studio/frontend/src/views/DashboardView.tsx]: the overview of the studio:
    derived metrics, the Prometheus drawer and the navigation cards. *)

From S2P Require Import Prelude JsString JsNumber Json Api Types React ViewCommon Components Quiescence.

Open Scope N_scope.

Section View.
Context `{Locale} (origin : jstr).

Record ViewProps := { stats : option DBStats; catalog : option CatalogData }.

Record Cells := { showPrometheus : bool; copied : bool }.

Inductive Act := TogglePrometheus | CopyMetrics | Navigate (view : jstr).

Inductive Susp := CopyTimeout.

Definition init (_ : ViewProps) : Cells := {| showPrometheus := false; copied := false |}.

(** ** Derived metrics *)

(** [stats?.f || 0] and [stats?.f ?? 0] *)
Definition stat_or0 (f : DBStats -> num) (p : ViewProps) : num :=
  num_or (default (num_of_Z 0) (f <$> stats p)) (num_of_Z 0).
Definition stat_nullish (f : DBStats -> option num) (p : ViewProps) : num :=
  default (num_of_Z 0) (stats p ≫= f).

Definition pageCount : ViewProps -> num := stat_or0 page_count.
Definition sizeMB (p : ViewProps) : jstr := toFixed (ndiv (nmul (pageCount p) (num_of_Z 16)) (num_of_Z 1024)) 2.
Definition hitRate (p : ViewProps) : jstr :=
  match stats p with
  | Some st => if truthy_num (cache_hit_rate st) then toFixed (nmul (cache_hit_rate st) (num_of_Z 100)) 1 else js "100.0"
  | None => js "100.0"
  end.
Definition hits : ViewProps -> num := stat_or0 cache_hits.
Definition misses : ViewProps -> num := stat_or0 cache_misses.
Definition lastLSN : ViewProps -> num := stat_or0 last_lsn.
Definition lastTxnID : ViewProps -> num := stat_or0 last_txn_id.
Definition readyTasks : ViewProps -> num := stat_nullish queue_ready_tasks.
Definition inFlightTasks : ViewProps -> num := stat_nullish queue_inflight_tasks.
Definition dlqTasks : ViewProps -> num := stat_nullish queue_dlq_tasks.
Definition pubsubEvents : ViewProps -> num := stat_nullish pubsub_events_count.

(** ** Handlers *)

(** The clipboard is available: the studio is served from localhost or https. *)
Definition handleCopyMetrics : prog Cells Susp :=
  emit (Ext (WriteClipboard (origin ++ js "/api/metrics"))) ;;; copied <-- true ;;; emit (Timer 2000 CopyTimeout).

Definition on (env : Cells) (a : Act) : prog Cells Susp :=
  match a with
  | TogglePrometheus => showPrometheus <-- negb (showPrometheus env)
  | CopyMetrics => handleCopyMetrics
  | Navigate v => emit (Ext (OnNavigate v))
  end.

Definition resumed (_ : Susp) (_ : outcome) : prog Cells Susp := copied <-- false.

(** ** Rendering *)

Definition nav (view : string) (kids : list (node Act)) : node Act :=
  button false (OnClick (Navigate (js view))) kids.

Definition banner : node Act :=
  el "div" [
    el "div" [
      el "h1" [el "span" [txt "Database Metrics & Overview"]; el "span" [txt "Production Kernel"]];
      el "p" [txt "Real-time telemetry, cache analytics, task queue leases, and Prometheus metric exporters"]];
    el "div" [
      button false (OnClick TogglePrometheus) [el "span" [txt "Prometheus Exporter"]];
      nav "query" [el "span" [txt "Open Query Console"]]]].

Definition prometheus_drawer (s : Cells) : list (node Act) :=
  when (showPrometheus s) [
    el "div" [
      el "div" [
        el "div" [el "span" [txt "Prometheus Metrics Exporter Active"]; el "span" [txt "text/plain 0.0.4"]];
        el "div" [
          button false (OnClick CopyMetrics) [el "span" [if copied s then txt "Copied URL" else txt "Copy Scrape URL"]];
          El (js "a") [(js "href", js "/api/metrics"); (js "target", js "_blank"); (js "rel", js "noreferrer")] false []
            [el "span" [txt "View Raw /metrics"]]]];
      el "div" [
        el "p" [txt "# Scrape Target URL for Prometheus / Grafana Agent / OpenTelemetry:"];
        el "p" [Txt origin; txt "/api/metrics"]]]].

Definition badges : node Act :=
  el "div" (el "span" [txt "Enabled Subsystems:"]
    :: map (fun t => el "span" [txt t])
         ["B+Tree KV Engine"; "Document Engine (Binary Slotted)"; "HNSW Vector Search"; "BM25 Full-Text Index";
          "Transactional Task Queues (DLQ + Dedup)"; "Real-Time Pub/Sub"; "AES-256-GCM & CRC32C"]%string).

Definition kpi (title : string) (main sub : list (node Act)) : node Act :=
  el "div" [el "div" [el "span" [txt title]]; el "div" main; el "div" sub].

Definition kpis (p : ViewProps) : node Act :=
  let colls := collections_of (catalog p) in
  let bucks := buckets_of (catalog p) in
  let qs := queues_of (catalog p) in
  el "div" [
    kpi "Allocated Storage" [el "span" [Txt (sizeMB p)]; el "span" [txt "MB"]]
      [Txt (localeNumber (pageCount p)); txt " pages × 16 KiB"];
    kpi "16-Partition LRU Cache" [el "span" [Txt (hitRate p); txt "%"]]
      [Txt (localeNumber (hits p)); txt " hits / "; Txt (localeNumber (misses p)); txt " misses"];
    kpi "WAL Log Sequence (LSN)" [el "span" [txt "#"; Txt (num_str (lastLSN p))]]
      [txt "Txn ID #"; Txt (num_str (lastTxnID p)); txt " | SyncNormal"];
    kpi "Schema Objects"
      [el "span" [Txt (digits (N.of_nat (length colls + length bucks + length qs)))]; el "span" [txt "total"]]
      [count_txt colls; txt " Colls, "; count_txt bucks; txt " Buckets, "; count_txt qs; txt " Queues"]].

Definition gauge (title : string) (v : node Act) : node Act := el "div" [el "div" [txt title]; el "div" [v]].

Definition telemetry (p : ViewProps) : node Act :=
  el "div" [
    el "div" [
      el "div" [el "div" [el "h3" [txt "Task Queue Telemetry"]]; nav "queues" [el "span" [txt "Manage Queues"]]];
      el "div" [
        gauge "Ready Tasks" (Txt (num_str (readyTasks p)));
        gauge "In-Flight (Leased)" (Txt (num_str (inFlightTasks p)));
        gauge "Dead-Letter (DLQ)" (Txt (num_str (dlqTasks p)))]];
    el "div" [
      el "div" [el "div" [el "h3" [txt "Real-Time Pub/Sub Broker"]]; nav "pubsub" [el "span" [txt "View Stream"]]];
      el "div" [
        gauge "Live Session Events" (Txt (num_str (pubsubEvents p)));
        gauge "Throughput Speed" (txt "~1.95M/s")]]].

Definition opt_num (n : option num) : list (node Act) := match n with Some n => [Txt (num_str n)] | None => [] end.

(** A card of the catalog: its header button and each of its rows navigate. *)
Definition object_card (title empty kind target : string) (objs : list CatalogObject) : node Act :=
  el "div" [
    el "div" [el "div" [el "h2" [txt title]]; nav target [el "span" [txt "Explore"]]];
    el "div" match objs with
    | [] => [el "div" [txt empty]]
    | _ => map (fun o =>
        El (js "div") [] false [OnClick (Navigate (js target))] [
          el "div" [
            el "div" [Txt (co_name o)];
            el "div" (txt "ObjectID: " :: opt_num (co_id o) ++ txt " · Root: Page #" :: opt_num (co_root o))];
          el "span" [txt kind]]) objs
    end].

Definition catalog_cards (p : ViewProps) : node Act :=
  el "div" [
    object_card "Document Collections" "No document collections found in database." "Binary / Slotted" "collections"
      (collections_of (catalog p));
    object_card "Key/Value Buckets" "No Key/Value buckets found in database." "B+Tree Ordered" "buckets"
      (buckets_of (catalog p))].

Definition diagnostics : node Act :=
  el "div" [
    el "div" [el "div" [el "span" [txt "Storage Kernel Health & Diagnostics"]];
              nav "maintenance" [el "span" [txt "Run Integrity Check"]]];
    el "div" [
      el "div" [el "span" [txt "Dual Meta Pages"]; el "p" [txt "Page 0 (Meta A) & Page 1 (Meta B) alternating crash-safe commits."]];
      el "div" [el "span" [txt "CRC32C Checksums"]; el "p" [txt "Castagnoli 32-bit hardware checksum verified on every page load."]];
      el "div" [el "span" [txt "Snapshot Isolation MVCC"]; el "p" [txt "Non-blocking concurrent readers with single-writer coordinator."]]]].

Definition view (p : ViewProps) (s : Cells) : option (node Act) :=
  Some (el "div" ([banner] ++ prometheus_drawer s
    ++ [badges; kpis p; telemetry p; catalog_cards p; diagnostics])).

Definition DashboardView : component := {|
  Props := ViewProps; State := Cells; Action := Act; Kont := Susp;
  initial := init; handle := fun _ => on; resume := resumed; accepts := fun _ _ => true;
  effects := []; render := view; callbacks := [] |}.

End View.

Section Theory.
Context `{Locale} (origin : jstr).

(** Every navigation the overview offers leads to a view the studio has,
    whatever the statistics and the catalog. *)
Theorem dashboard_navigates p s tree h pl v :
  view origin p s = Some tree -> h ∈ handlers tree -> fire h pl = Some (Navigate v) -> v ∈ Sidebar.view_types.
Proof.
  intros [= <-] Hin Hf.
  unfold banner, prometheus_drawer, badges, kpis, kpi, telemetry, gauge, catalog_cards, object_card, diagnostics, nav in Hin.
  handler_cases Hin; try (repeat case_match; by handler_cases Hin); try (fired Hf; by apply (bool_decide_unpack _)).
  all: repeat case_match; handler_cases Hin; try (fired Hf; by apply (bool_decide_unpack _)).
  all: unfold opt_num in Hin; repeat case_match; by handler_cases Hin.
Qed.

(** A cache that has never been hit is shown by the overview as one that
    always is: with a hit rate of zero the card reads 100.0, while the header,
    for the same statistics, reads 0.0. *)
Theorem zero_hit_rate_shown p st :
  stats p = Some st -> cache_hit_rate st = num_of_Z 0 ->
  hitRate p = js "100.0" /\ js "0.0" ∈ texts (Header.stats_line (A := Act) st).
Proof.
  intros Hs Hr. unfold hitRate. rewrite Hs, Hr. split; [done|]. unfold Header.stats_line. rewrite Hr.
  change (toFixed (nmul (num_of_Z 0) (num_of_Z 100)) 1) with (js "0.0").
  simpl. do 5 apply list_elem_of_further. apply list_elem_of_here.
Qed.

Lemma dashboard_settles old p s : settles (DashboardView origin) commit_fuel old p s = true.
Proof. revert old p s. by apply (settles_by (DashboardView origin) (fun _ => tt)). Qed.

(** ** Progress *)

#[export] Instance dashboard_api : Emitting (DashboardView origin) calm.
Proof.
  split.
  - intros p s []; simpl; unfold handleCopyMetrics; auto with emits.
  - intros [] o. simpl. unfold resumed. auto with emits.
  - by intros e p s ?%not_elem_of_nil.
Qed.

#[export] Instance dashboard_drains : Drains (DashboardView origin) (fun _ => 1%nat).
Proof.
  split; [intros _; lia| |done]. intros p s [] f _. apply drains_idle with (n := 0%nat); [done| |lia].
  simpl. unfold resumed. auto with costs.
Qed.

End Theory.

(** ** The theorems on a concrete overview *)

Module Examples.

#[local] Existing Instance plain_locale.

Definition cold : DBStats := {|
  page_count := num_of_Z 4; last_txn_id := num_of_Z 0; last_lsn := num_of_Z 0;
  cache_hits := num_of_Z 0; cache_misses := num_of_Z 3; cache_hit_rate := num_of_Z 0;
  read_only := false; uptime_seconds := None; queue_count := None; queue_ready_tasks := None; queue_inflight_tasks := None; queue_dlq_tasks := None;
  pubsub_events_count := None |}.

Definition cold_props : ViewProps := {| stats := Some cold; catalog := None |}.

Lemma zero_hit_rate_shown_witness :
  hitRate cold_props = js "100.0" /\ js "0.0" ∈ texts (Header.stats_line (A := Act) cold).
Proof. apply (zero_hit_rate_shown cold_props cold); reflexivity. Defined.

(** The second button of the banner opens the query console. *)
Lemma dashboard_navigates_witness : js "query" ∈ Sidebar.view_types.
Proof.
  apply (dashboard_navigates [] cold_props (init cold_props)
    (default (txt "") (view [] cold_props (init cold_props))) (OnClick (Navigate (js "query"))) PClick);
    [reflexivity| |reflexivity].
  unfold view, default, from_option, id. rewrite handlers_el. simpl app. rewrite handlers_of_cons. apply elem_of_app. left.
  unfold banner. rewrite !handlers_el, !handlers_of_cons, !handlers_el. apply elem_of_app. right. apply elem_of_app. left.
  unfold nav. rewrite handlers_of_cons, handlers_of_cons, !handlers_button. right. by left.
Defined.

End Examples.
