(* ===== verification/App.v ===== *)
(** [studio/frontend/src/App.tsx]: the shell of the studio: navigation, theme,
    and the polled statistics and catalog handed to the views. *)

From S2P Require Import Prelude JsString JsNumber Json Api Types React ViewCommon Components Quiescence.
Import Sidebar Header.

Open Scope N_scope.

(** The three answers one [fetchData] waits for, each with its [catch] applied. *)
Record Batch := {
  b_stats : option (option DBStats);
  b_catalog : option CatalogData;
  b_series : option (list jstr);
}.

Definition empty_batch : Batch := {| b_stats := None; b_catalog := None; b_series := None |}.

Section App.
Context `{Engine}.

(** The cells, and the running [Promise.all] calls by number. *)
Record Cells := {
  currentView : jstr;
  stats : option DBStats; catalog : option CatalogData; timeSeriesCount : N; loading : bool;
  theme : theme;
  batches : gmap N Batch; nextBatch : N;
}.

Inductive Act := SelectView (view : jstr) | ToggleTheme | Refresh.

Inductive Part := PStats | PCatalog | PSeries.

Inductive Susp := PartDone (batch : N) (part : Part) | Tick.

(** ** Theme *)

Definition theme_name (t : Header.theme) : jstr := match t with Light => js "light" | Dark => js "dark" end.

(** The theme kept in [localStorage], dark by default. *)
Definition saved_theme (saved : option jstr) : Header.theme :=
  match saved with
  | Some s => if str_eq s (js "light") then Light else if str_eq s (js "dark") then Dark else Dark
  | None => Dark
  end.

Definition init (saved : option jstr) : Cells := {|
  currentView := js "dashboard"; stats := None; catalog := None; timeSeriesCount := 0; loading := false;
  theme := saved_theme saved; batches := ∅; nextBatch := 0 |}.

Definition is_dark (t : Header.theme) : bool := match t with Dark => true | Light => false end.

Definition theme_effect : effect (option jstr) Cells Susp := mk_effect
  (fun old new => match old with None => true | Some (_, s0) => negb (bool_decide (theme s0 = theme new.2)) end)
  (fun _ s => emit (Ext (SetDarkClass (is_dark (theme s)))) ;;;
              emit (Ext (SetStorage (js "coco_theme") (theme_name (theme s))))).

Definition toggleTheme : prog Cells Susp :=
  modify (fun s => s <| theme := match theme s with Dark => Light | Light => Dark end |>).

(** ** Polling *)

Definition series_of (v : val) : option (list jstr) := o ← as_obj v; as_arr as_str (fld o "series").

Definition no_objects : CatalogData :=
  {| cat_buckets := Some []; cat_collections := Some []; cat_queues := Some [] |}.

(** [Promise.all] sends the three requests at once. *)
Definition fetchData : prog Cells Susp :=
  loading <-- true ;;;
  with_state (fun s =>
    let b := nextBatch s in
    nextBatch <-- b + 1 ;;;
    modify (fun s => s <| batches := <[b := empty_batch]> (batches s) |>) ;;;
    await_call getStats (PartDone b PStats) (fun _ => pskip) ;;;
    await_call getCatalog (PartDone b PCatalog) (fun _ => pskip) ;;;
    await_call listTimeSeries (PartDone b PSeries) (fun _ => pskip)).

(** An answer with its own [catch]: a failed statistics call gives [null], a
    failed catalog call an empty catalog, a failed series call no series. *)
Definition answer {A} (dec : val -> option A) (failed : A) (o : outcome) : A :=
  match o with
  | Settled f => match settle f with inl _ => failed | inr v => default failed (dec v) end
  | Fired => failed
  end.

Definition record_part (part : Part) (o : outcome) (b : Batch) : Batch :=
  match part with
  | PStats => {| b_stats := Some (answer (fun v => Some <$> DBStats_of v) None o); b_catalog := b_catalog b; b_series := b_series b |}
  | PCatalog => {| b_stats := b_stats b; b_catalog := Some (answer CatalogData_of no_objects o); b_series := b_series b |}
  | PSeries => {| b_stats := b_stats b; b_catalog := b_catalog b; b_series := Some (answer series_of [] o) |}
  end.

(** What runs once the three answers are there. *)
Definition batch_done (b : Batch) : option (prog Cells Susp) :=
  st ← b_stats b; c ← b_catalog b; sr ← b_series b;
  Some (match st with Some x => stats <-- Some x | None => pskip end ;;;
        catalog <-- Some c ;;;
        timeSeriesCount <-- N.of_nat (length sr) ;;;
        loading <-- false).

Definition part_done (n : N) (part : Part) (o : outcome) : prog Cells Susp :=
  with_state (fun s =>
    match batches s !! n with
    | None => pskip
    | Some b =>
        let b' := record_part part o b in
        match batch_done b' with
        | None => modify (fun s => s <| batches := <[n := b']> (batches s) |>)
        | Some m => modify (fun s => s <| batches := delete n (batches s) |>) ;;; m
        end
    end).

Definition poll_effect : effect (option jstr) Cells Susp := mk_effect
  (fun old _ => match old with None => true | Some _ => false end)
  (fun _ _ => fetchData ;;; emit (Interval 5000 Tick)).

Definition on (a : Act) : prog Cells Susp :=
  match a with
  | SelectView v => currentView <-- v
  | ToggleTheme => toggleTheme
  | Refresh => fetchData
  end.

Definition resumed (q : Susp) (o : outcome) : prog Cells Susp :=
  match q with PartDone n part => part_done n part o | Tick => fetchData end.

Definition accepted (q : Susp) (o : outcome) : bool :=
  match q with
  | PartDone _ PStats => conforms DBStats_of o
  | PartDone _ PCatalog => conforms CatalogData_of o
  | PartDone _ PSeries => conforms series_of o
  | Tick => true
  end.

(** ** Rendering *)

(** The slot of a view: what it renders is the view's own component. *)
Definition slot (name : string) : node Act := el name [].

(** The callbacks handed to the views. *)
Definition navigate : handler Act := OnSelect view_types SelectView.
Definition refresh_catalog : handler Act := OnClick Refresh.

Definition view_slots (s : Cells) : list (node Act) :=
  let shown (id name : string) := when (str_eq (currentView s) (js id)) [slot name] in
  shown "dashboard" "DashboardView" ++ shown "collections" "CollectionsView"
  ++ shown "timeseries" "TimeSeriesView" ++ shown "buckets" "BucketsView"
  ++ shown "queues" "QueueView" ++ shown "pubsub" "PubSubView"
  ++ shown "query" "QueryConsoleView" ++ shown "vector" "VectorPlaygroundView"
  ++ shown "search" "SearchPlaygroundView" ++ shown "maintenance" "MaintenanceView".

Definition view (s : Cells) : option (node Act) :=
  Some (el "div" [
    Sidebar SelectView (N.of_nat (length (buckets_of (catalog s)))) (N.of_nat (length (collections_of (catalog s))))
      (timeSeriesCount s) (N.of_nat (length (queues_of (catalog s))));
    el "div" [
      Header (stats s) (loading s) (theme s) ToggleTheme Refresh;
      el "main" (view_slots s)]]).

Definition App : component := {|
  Props := option jstr; State := Cells; Action := Act; Kont := Susp;
  initial := init; handle := fun _ _ => on; resume := resumed; accepts := accepted;
  effects := [theme_effect; poll_effect]; render := fun _ => view; callbacks := [navigate; refresh_catalog] |}.

End App.

Section Theory.
Context `{Engine}.

(** ** One poll: the three answers in any order *)

(** The answers of one [Promise.all], in the order they arrive. *)
Definition deliver (n : N) (answers : list (Part * outcome)) : prog Cells Susp :=
  foldr (fun a m => part_done n a.1 a.2 ;;; m) pskip answers.

(** What a finished poll leaves. *)
Definition polled (n : N) (st : option DBStats) (c : CatalogData) (series : list jstr) (s : Cells) : Cells :=
  s <| batches := delete n (batches s) |>
    <| stats := match st with Some x => Some x | None => stats s end |>
    <| catalog := Some c |> <| timeSeriesCount := N.of_nat (length series) |> <| loading := false |>.

Lemma part_first n part o b (s : Cells) : batches s !! n = Some b -> batch_done (record_part part o b) = None ->
  part_done n part o s = (s <| batches := <[n := record_part part o b]> (batches s) |>, []).
Proof. intros Hb Hd. unfold part_done, with_state. by rewrite Hb, Hd. Qed.

Lemma part_last n part o b m (s : Cells) : batches s !! n = Some b -> batch_done (record_part part o b) = Some m ->
  part_done n part o s = (modify (fun s => s <| batches := delete n (batches s) |>) ;;; m) s.
Proof. intros Hb Hd. unfold part_done, with_state. by rewrite Hb, Hd. Qed.

Lemma poll_order n s os oc osr answers :
  batches s !! n = Some empty_batch ->
  answers ≡ₚ [(PStats, os); (PCatalog, oc); (PSeries, osr)] ->
  (deliver n answers s).1 =
  polled n (answer (fun v => Some <$> DBStats_of v) None os) (answer CatalogData_of no_objects oc)
    (answer series_of [] osr) s.
Proof.
  intros Hb Hp. symmetry in Hp. apply permutations_Permutation in Hp. destruct s as [cv st ca tc lo th ba nb].
  simpl in Hb. cbn in Hp. rewrite !elem_of_cons, elem_of_nil in Hp.
  destruct Hp as [-> |[-> |[-> |[-> |[-> |[-> |[]]]]]]]; cbn [deliver foldr fst snd]; unfold pseq;
    rewrite (part_first n _ _ empty_batch) by done; cbn [batches];
    (erewrite (part_first n) by (apply lookup_insert_eq || reflexivity)); cbn [batches];
    (erewrite (part_last n) by (apply lookup_insert_eq || reflexivity)); unfold pseq, modify, pskip; cbn;
    rewrite insert_insert_eq, delete_insert_eq; by destruct (answer _ _ os).
Qed.

(** A poll finishes with the same result whatever the order in which its
    three answers arrive: statistics are kept when theirs failed, the catalog and
    the number of series are replaced, and the loading flag comes down. *)
Theorem poll_any_order n s os oc osr answers :
  batches s !! n = Some empty_batch ->
  answers ≡ₚ [(PStats, os); (PCatalog, oc); (PSeries, osr)] ->
  (deliver n answers s).1 =
  polled n (answer (fun v => Some <$> DBStats_of v) None os) (answer CatalogData_of no_objects oc)
    (answer series_of [] osr) s.
Proof. apply poll_order. Qed.

(** When the catalog request of a poll fails, the poll replaces the catalog
    known so far by an empty one, so every bucket, collection and queue
    disappears from the views until a later poll succeeds. *)
Theorem failed_poll_empties_catalog n s os e f osr answers :
  batches s !! n = Some empty_batch -> settle f = inl e ->
  answers ≡ₚ [(PStats, os); (PCatalog, Settled f); (PSeries, osr)] ->
  let s' := (deliver n answers s).1 in
  buckets_of (catalog s') = [] /\ collections_of (catalog s') = [] /\ queues_of (catalog s') = [].
Proof.
  intros Hb Hf Hp s'. subst s'. rewrite (poll_order n s os (Settled f) osr answers Hb Hp). destruct s. simpl.
  by rewrite Hf.
Qed.

(** ** The loading flag *)

Definition recorded (part : Part) (b : Batch) : bool :=
  match part with
  | PStats => bool_decide (is_Some (b_stats b))
  | PCatalog => bool_decide (is_Some (b_catalog b))
  | PSeries => bool_decide (is_Some (b_series b))
  end.

#[local] Instance Part_eq_dec : EqDecision Part.
Proof. solve_decision. Defined.

Lemma recorded_record part part' o b :
  recorded part' (record_part part o b) = bool_decide (part' = part) || recorded part' b.
Proof. by destruct part, part'. Qed.

Lemma batch_done_recorded b : batch_done b = None <-> exists part, recorded part b = false.
Proof.
  unfold batch_done. destruct b as [[?|] [?|] [?|]]; simpl; split; try done;
    first [intros [[] ?]; done | intros _; first [by exists PStats | by exists PCatalog | by exists PSeries]].
Qed.

(** Every running poll waits for an answer it has not got, each such answer is
    pending, and the flag is up only while a poll runs. *)
Record poll_inv (s : Cells) (pend : list (pending Susp)) : Prop := {
  pi_open n b : batches s !! n = Some b -> exists part, recorded part b = false;
  pi_pending n b part : batches s !! n = Some b -> recorded part b = false -> exists r, PFetch r (PartDone n part) ∈ pend;
  pi_loading : loading s = true -> exists n b, batches s !! n = Some b;
}.

Lemma poll_inv_frames (m : prog Cells Susp) s pend pend' :
  frames (fun s => (batches s, loading s)) m -> pend ⊆ pend' -> poll_inv s pend -> poll_inv (m s).1 pend'.
Proof.
  intros Hf Hp [H1 H2 H3]. pose proof (Hf s) as Hs. injection Hs as Hb Hl. split; rewrite ?Hb, ?Hl; [done| |done].
  intros n b part Hn Hr. destruct (H2 n b part Hn Hr) as [r Hin]. eauto.
Qed.

Lemma sub_app {A} (l1 l2 : list A) : l1 ⊆ l1 ++ l2.
Proof. intros x Hx. apply elem_of_app. by left. Qed.

Lemma poll_inv_mono s pend pend' : pend ⊆ pend' -> poll_inv s pend -> poll_inv s pend'.
Proof. apply (poll_inv_frames pskip). done. Qed.

Lemma fetchData_inv s pend pend' : pend ⊆ pend' -> poll_inv s pend -> poll_inv (fetchData s).1 (pend' ++ pends (fetchData s).2).
Proof.
  intros Hp [H1 H2 H3]. destruct s as [cv st ca tc lo th ba nb]. split; simpl in *.
  - intros n b [[<- <-]|[_ Hn]]%lookup_insert_Some; [by exists PStats|by eapply H1].
  - intros n b part [[<- <-]|[_ Hn]]%lookup_insert_Some Hr.
    + destruct part; eexists; apply elem_of_app; right; repeat first [by apply list_elem_of_here | apply list_elem_of_further].
    + destruct (H2 n b part Hn Hr) as [r Hin]. exists r. apply elem_of_app. left. by apply Hp.
  - intros _. exists nb, empty_batch. apply lookup_insert_eq.
Qed.

Lemma part_done_silent n part o s : (part_done n part o s).2 = [].
Proof.
  unfold part_done, with_state. destruct (batches s !! n) as [b|]; [|done].
  destruct (batch_done _) as [m|] eqn:E; [|done]. unfold batch_done in E.
  destruct (b_stats _) as [st|], (b_catalog _), (b_series _); simplify_eq/=. by destruct st.
Qed.

Lemma part_done_inv n part o s q l1 l2 :
  kont_of q = PartDone n part -> poll_inv s (l1 ++ q :: l2) -> poll_inv (part_done n part o s).1 (l1 ++ l2).
Proof.
  intros Hq [H1 H2 H3].
  assert (forall n' b part', (n', part') <> (n, part) -> batches s !! n' = Some b -> recorded part' b = false ->
    exists r, PFetch r (PartDone n' part') ∈ l1 ++ l2) as H2'.
  { intros n' b part' Hne Hn Hr. destruct (H2 n' b part' Hn Hr) as [r' Hin]. exists r'.
    rewrite elem_of_app, elem_of_cons in Hin. rewrite elem_of_app. destruct Hin as [|[<-|]]; [by left| |by right].
    simpl in Hq. naive_solver. }
  unfold part_done, with_state. destruct (batches s !! n) as [b|] eqn:Eb.
  2: { split; [done| |done]. intros n' b' part' Hn Hr. eapply H2'; [|done|done]. naive_solver. }
  destruct (batch_done (record_part part o b)) as [m|] eqn:Ed.
  - (* the last answer *)
    assert (exists s', (modify (fun s => s <| batches := delete n (batches s) |>) ;;; m) s = (s', [])
      /\ batches s' = delete n (batches s) /\ loading s' = false) as (s' & -> & Hb & Hl).
    { unfold batch_done in Ed. destruct (b_stats _) as [st|], (b_catalog _), (b_series _); simplify_eq/=.
      destruct s, st; by eexists. }
    split; simpl; rewrite ?Hb, ?Hl; [| |done].
    + intros n' b' [_ Hn]%lookup_delete_Some. by eapply H1.
    + intros n' b' part' [Hne Hn]%lookup_delete_Some. apply H2'; [naive_solver|done].
  - apply batch_done_recorded in Ed. destruct s as [cv st ca tc lo th ba nb]. split; simpl in *.
    + intros n' b' [[<- <-]|[_ Hn]]%lookup_insert_Some; [done|by eapply H1].
    + intros n' b' part' [[<- <-]|[Hne Hn]]%lookup_insert_Some Hr.
      * rewrite recorded_record in Hr. to_prop. eapply H2'; [|done|done]. naive_solver.
      * eapply H2'; [|done|done]. naive_solver.
    + intros Hl. exists n. eexists. apply lookup_insert_eq.
Qed.

Lemma theme_effect_frames p s0 : frames (fun s => (batches s, loading s)) (eff_body theme_effect p s0).
Proof. simpl. auto with frame. Qed.

Lemma poll_effect_inv p s0 s pend : poll_inv s pend ->
  poll_inv (eff_body poll_effect p s0 s).1 (pend ++ pends (eff_body poll_effect p s0 s).2).
Proof.
  intros Hs. pose proof (fetchData_inv s pend pend (fun _ Hx => Hx) Hs) as Hf.
  unfold poll_effect, eff_body, pseq.
  destruct (fetchData s) as [s1 c1]. cbn [fst snd] in *. eapply poll_inv_mono; [|exact Hf].
  unfold emit. cbn [snd]. rewrite pends_app. intros x. rewrite !elem_of_app. tauto.
Qed.

Lemma on_inv a s pend : poll_inv s pend -> poll_inv (on a s).1 (pend ++ pends (on a s).2).
Proof.
  intros Hs. destruct a; cbn [on]; [| |by apply (fetchData_inv s pend)].
  all: apply (poll_inv_frames _ s pend); [unfold toggleTheme; auto with frame|apply sub_app|exact Hs].
Qed.

#[export] Instance polling : Invariant App (fun _ s pend => poll_inv s pend).
Proof.
  split.
  - intros p m. assert (poll_inv (init p) []) as H0 by by split.
    pose proof (poll_effect_inv p (init p) (init p) [] H0) as H1. exact H1.
  - intros p s pend tree h pl a Hs _ _ _. by apply (on_inv a s pend).
  - intros p s pend h pl a Hs _ _. by apply (on_inv a s pend).
  - intros p s l1 q l2 o keep Hs Hk _.
    change (poll_inv (resumed (kont_of q) o s).1 ((l1 ++ keep ++ l2) ++ pends (resumed (kont_of q) o s).2)).
    destruct (kont_of q) as [n part|] eqn:Eq; cbn [resumed].
    + rewrite part_done_silent, app_nil_r. eapply poll_inv_mono; [|by eapply part_done_inv].
      intros x. rewrite !elem_of_app. tauto.
    + eapply (fetchData_inv s (l1 ++ l2)); [intros x; rewrite !elem_of_app; tauto|]. destruct Hs as [H1 H2 H3].
      split; [done| |done]. intros n b part Hn Hr. destruct (H2 n b part Hn Hr) as [r Hin]. exists r.
      rewrite elem_of_app, elem_of_cons in Hin. rewrite elem_of_app. destruct Hin as [|[<-|]]; [by left|done|by right].
  - intros e p s0 s pend [-> | ->%list_elem_of_singleton]%elem_of_cons Hs; [|by apply poll_effect_inv].
    apply (poll_inv_frames _ s pend); [apply theme_effect_frames|apply sub_app|exact Hs].
  - intros p p' s pend Hs. unfold run_effects. simpl. rewrite bool_decide_eq_true_2 by done. simpl. by rewrite app_nil_r.
Qed.

Lemma polling_awaits s pend : poll_inv s pend -> loading s = true -> exists r n part, PFetch r (PartDone n part) ∈ pend.
Proof.
  intros [H1 H2 H3] Hl. destruct (H3 Hl) as (n & b & Hb). destruct (H1 n b Hb) as [part Hp].
  destruct (H2 n b part Hb Hp) as [r Hin]. eauto.
Qed.

(** C19: the studio never waits for nothing: in every configuration it reaches,
    whatever polls overlap, the loading flag (which disables the refresh button)
    is up only while an answer of a running poll is pending. *)
Theorem app_loading_awaits p0 c :
  reachable App p0 c -> loading (cstate c) = true -> exists r n part, PFetch r (PartDone n part) ∈ cpend c.
Proof. intros Hr. apply polling_awaits, (invariant_reachable App (fun _ s pend => poll_inv s pend) p0 c Hr). Qed.

Lemma fetchData_quiet : quiet fetchData.
Proof. unfold fetchData. auto 12 with emits. Qed.

Hint Resolve fetchData_quiet : emits.

#[export] Instance app_polls : Polls App 1.
Proof.
  split.
  - done.
  - intros p s []; simpl; unfold toggleTheme; auto with emits.
  - intros [n part|] o; simpl; [|auto with emits]. intros s. rewrite part_done_silent. constructor.
  - intros e old new [-> | ->%list_elem_of_singleton]%elem_of_cons; [|done]. simpl. auto with emits.
Qed.

(** ** Navigation *)

Lemma shell_actions s tree h pl v :
  view s = Some tree -> h ∈ handlers tree -> fire h pl = Some (SelectView v) -> v ∈ view_types.
Proof.
  intros [= <-] Hin Hf. autorewrite with handlers in Hin. destruct Hin as [Hin|Hin].
  - apply sidebar_handlers in Hin as (w & Hw & ->). by fired Hf.
  - unfold Header.Header, view_slots, slot in Hin. handler_cases Hin; try by fired Hf.
    all: try (destruct (stats s); by handler_cases Hin).
Qed.

Lemma callback_actions h pl v :
  h ∈ callbacks App -> fire h pl = Some (SelectView v) -> v ∈ view_types.
Proof.
  intros [-> |[-> |[]%not_elem_of_nil]%elem_of_cons]%elem_of_cons Hf; unfold navigate, refresh_catalog in Hf; fired Hf.
  by to_prop.
Qed.

Lemma on_navigates a s : currentView s ∈ view_types -> (forall v, a = SelectView v -> v ∈ view_types) ->
  currentView (on a s).1 ∈ view_types.
Proof. intros Hs Ha. destruct a; cbn [on]; [destruct s; by apply Ha|by destruct s|by destruct s]. Qed.

Lemma view_frames_fetch : frames currentView fetchData.
Proof. unfold fetchData. auto 12 with frame. Qed.

Lemma view_frames_part n part o : frames currentView (part_done n part o).
Proof.
  unfold part_done. apply frames_with. intros s. destruct (batches s !! n) as [b|]; [|apply frames_skip].
  destruct (batch_done _) as [m|] eqn:E; [|auto with frame]. apply frames_seq; [auto with frame|].
  unfold batch_done in E. destruct (b_stats _) as [st|], (b_catalog _), (b_series _); simplify_eq/=.
  destruct st; auto 9 with frame.
Qed.

#[export] Instance navigation : Invariant App (fun _ s _ => currentView s ∈ view_types).
Proof.
  split.
  - intros p. by apply (bool_decide_unpack _).
  - intros p s pend tree h pl a Hs Hren Hin Hf. apply (on_navigates a s Hs). intros v ->. by eapply shell_actions.
  - intros p s pend h pl a Hs Hin Hf. apply (on_navigates a s Hs). intros v ->. by eapply callback_actions.
  - intros p s l1 q l2 o keep Hs _ _. change (currentView (resumed (kont_of q) o s).1 ∈ view_types).
    destruct (kont_of q); cbn [resumed]; [by rewrite view_frames_part|by rewrite view_frames_fetch].
  - intros e p s0 s pend [-> | ->%list_elem_of_singleton]%elem_of_cons Hs; [done|].
    change (currentView (eff_body poll_effect p s0 s).1 ∈ view_types).
    assert (frames currentView (eff_body poll_effect p s0)) as ->; [|done].
    simpl. apply frames_seq; [apply view_frames_fetch|apply frames_emit].
  - intros p p' s pend Hs. unfold run_effects. simpl. by rewrite bool_decide_eq_true_2 by done.
Qed.

(** The studio always shows exactly one view: whatever is clicked in the
    sidebar or in a view's cards, the current view is one of the known ones and
    exactly one slot is rendered. *)
Theorem app_one_view p0 c :
  reachable App p0 c -> currentView (cstate c) ∈ view_types /\ length (view_slots (cstate c)) = 1%nat.
Proof.
  intros Hr. pose proof (invariant_reachable App (fun _ s _ => currentView s ∈ view_types) p0 c Hr) as Hv.
  split; [exact Hv|]. simpl in Hv. unfold view_slots. unfold view_types in Hv.
  repeat (apply elem_of_cons in Hv as [-> |Hv]; [reflexivity|]). by apply not_elem_of_nil in Hv.
Qed.

(** ** The theme *)

(** What [localStorage] holds under [coco_theme] after some commands. *)
Definition stored (saved : option jstr) (cs : list (cmd Susp)) : option jstr :=
  foldl (fun v c => match c with Ext (SetStorage k x) => if str_eq k (js "coco_theme") then Some x else v | _ => v end) saved cs.

Lemma stored_app v c1 c2 : stored v (c1 ++ c2) = stored (stored v c1) c2.
Proof. apply foldl_app. Qed.

Definition theme_commands (s : Cells) : list (cmd Susp) :=
  [Ext (SetDarkClass (is_dark (theme s))); Ext (SetStorage (js "coco_theme") (theme_name (theme s)))].

Lemma stored_theme v s : saved_theme (stored v (theme_commands s)) = theme s.
Proof. simpl. by destruct (theme s). Qed.

(** The commits of the shell: the theme's effect when the theme changed. *)
Lemma flush_shell p p' s s1 :
  flush App commit_fuel (Some (p, s)) p' s1 = (s1, if bool_decide (theme s = theme s1) then [] else theme_commands s1).
Proof.
  rewrite commit_fuel_3. cbn [flush]. unfold any_changed. simpl. case_bool_decide as E; simpl; [done|].
  unfold run_effects. simpl. rewrite bool_decide_eq_false_2 by done. simpl. by rewrite bool_decide_eq_true_2.
Qed.

Lemma task_theme p s pend m v :
  stored v (m s).2 = v -> saved_theme v = theme s ->
  saved_theme (stored v (task App p s pend m).2) = theme (cstate (task App p s pend m).1).
Proof.
  intros Hm Hv. unfold task. destruct (m s) as [s1 c1]. simpl in Hm. rewrite flush_shell. cbn [fst snd cstate].
  rewrite stored_app, Hm. case_bool_decide as E; [by rewrite <- E|apply stored_theme].
Qed.

Lemma exec_theme c i c' o v :
  exec App c i = Some (c', o) -> saved_theme v = theme (cstate c) -> saved_theme (stored v o) = theme (cstate c').
Proof.
  intros E Hv. destruct i as [n pl|n pl|n out|p].
  - apply exec_event in E as (tree & h & a & _ & _ & _ & E).
    rewrite (f_equal fst E : c' = _), (f_equal snd E : o = _). apply task_theme; [|done]. by destruct a.
  - apply exec_call in E as (h & a & _ & _ & E).
    rewrite (f_equal fst E : c' = _), (f_equal snd E : o = _). apply task_theme; [|done]. by destruct a.
  - apply exec_resume in E as (q & keep & _ & _ & _ & E).
    rewrite (f_equal fst E : c' = _), (f_equal snd E : o = _). apply task_theme; [|done].
    change (resume App (kont_of q) out (cstate c)) with (resumed (kont_of q) out (cstate c)).
    destruct (kont_of q) as [k part|]; [|done]. simpl. by rewrite part_done_silent.
  - unfold exec in E. rewrite flush_shell, bool_decide_eq_true_2 in E by done. by injection E as <- <-.
Qed.

Lemma run_theme ins c c' o v :
  run App c ins = Some (c', o) -> saved_theme v = theme (cstate c) -> saved_theme (stored v o) = theme (cstate c').
Proof.
  revert c o v. induction ins as [|i r IH]; intros c o v; simpl; [by intros [= <- <-]|].
  destruct (exec App c i) as [[c1 o1]|] eqn:E; [|done]. simpl.
  destruct (run App c1 r) as [[c2 o2]|] eqn:E2; [|done]. simpl. intros [= <- <-] Hv.
  rewrite stored_app. eapply IH; [exact E2|]. by eapply exec_theme.
Qed.

Lemma mount_theme p0 : saved_theme (stored p0 (mount App p0).2) = theme (cstate (mount App p0).1).
Proof.
  unfold mount. rewrite commit_fuel_3. cbn [flush]. unfold any_changed. simpl. unfold run_effects. simpl.
  rewrite bool_decide_eq_true_2 by done. simpl. by destruct (saved_theme p0).
Qed.

(** C30: whatever happened since the page was opened, opening it again with what
    [localStorage] then holds starts with the theme that was last shown. *)
Theorem theme_survives_reload p0 ins c o :
  run App (mount App p0).1 ins = Some (c, o) ->
  theme (init (stored p0 ((mount App p0).2 ++ o))) = theme (cstate c).
Proof. intros E. rewrite stored_app. apply (run_theme ins _ c o _ E), mount_theme. Qed.

Lemma app_settles old p s : settles App commit_fuel old p s = true.
Proof.
  revert old p s. apply (settles_by App theme).
  - intros p s s' Hs. unfold any_changed. simpl. by rewrite Hs, bool_decide_eq_true_2.
  - intros old p s _ s1. clearbody s1. unfold run_effects. simpl. by destruct (negb _).
Qed.

(** ** Progress *)

#[export] Instance app_api : Emitting App sends_api.
Proof.
  assert (emits sends_api fetchData) as Hf by (unfold fetchData; auto 15 with emits).
  split.
  - intros p s []; simpl; unfold toggleTheme; auto with emits.
  - intros [n part|] o; simpl; [|done]. intros s. rewrite part_done_silent. constructor.
  - intros e p s [-> | ->%list_elem_of_singleton]%elem_of_cons; simpl; auto with emits.
Qed.

Definition app_weight (q : Susp) : nat := match q with PartDone _ _ => 1 | Tick => 4 end.

Lemma theme_frames_part n part o : frames theme (part_done n part o).
Proof.
  unfold part_done. apply frames_with. intros s. destruct (batches s !! n) as [b|]; [|apply frames_skip].
  destruct (batch_done _) as [m|] eqn:E; [|auto with frame]. apply frames_seq; [auto with frame|].
  unfold batch_done in E. destruct (b_stats _) as [st|], (b_catalog _), (b_series _); simplify_eq/=.
  destruct st; auto 9 with frame.
Qed.

#[export] Instance app_drains : Drains App app_weight.
Proof.
  split; [intros []; simpl; lia| |by intros [? []|]]. intros p s [n part|] f _.
  - apply drains_idle with (n := 0%nat); [| |simpl; lia].
    + unfold any_changed. cbn [existsb effects App eff_changed theme_effect poll_effect snd].
      change (resume App (PartDone n part) (Settled f)) with (part_done n part (Settled f)).
      by rewrite theme_frames_part, bool_decide_eq_true_2.
    + intros s'. change (resume App (PartDone n part) (Settled f)) with (part_done n part (Settled f)).
      by rewrite part_done_silent.
  - apply drains_idle with (n := 3%nat); [|intros s'; unfold weigh; simpl; lia|simpl; lia].
    unfold any_changed. simpl. by rewrite bool_decide_eq_true_2.
Qed.

#[export] Instance app_waits : Waits App loading.
Proof.
  split. intros p0 c Hr Hl. pose proof (invariant_reachable App (fun _ s pend => poll_inv s pend) p0 c Hr) as Hi.
  destruct (polling_awaits _ _ Hi Hl) as (r & n & part & Hin). eauto.
Qed.

End Theory.

(** ** The theorems on a concrete studio *)

Module Examples.

#[local] Existing Instance plain_engine.

Definition opened : config App := (mount App (Some (js "light"))).1.

Definition failure : outcome := Settled (NetworkError (mk_err (js "Failed to fetch"))).

(** The first poll is running, its catalog request fails. *)
Lemma poll_any_order_witness :
  (deliver 0 [(PSeries, failure); (PStats, failure); (PCatalog, failure)] (cstate opened)).1
  = polled 0 None no_objects [] (cstate opened).
Proof.
  apply (poll_any_order 0 (cstate opened) failure failure failure); [vm_compute; reflexivity|].
  etransitivity; [apply perm_swap|apply perm_skip, perm_swap].
Defined.

Lemma failed_poll_empties_catalog_witness :
  let s' := (deliver 0 [(PStats, failure); (PCatalog, failure); (PSeries, failure)] (cstate opened)).1 in
  buckets_of (catalog s') = [] /\ collections_of (catalog s') = [] /\ queues_of (catalog s') = [].
Proof.
  apply (failed_poll_empties_catalog 0 (cstate opened) failure (mk_err (js "Failed to fetch"))
    (NetworkError (mk_err (js "Failed to fetch"))) failure); [vm_compute; reflexivity|reflexivity|reflexivity].
Defined.

Lemma app_loading_awaits_witness : exists r n part, PFetch r (PartDone n part) ∈ cpend opened.
Proof. apply (app_loading_awaits (Some (js "light")) opened); [constructor|vm_compute; reflexivity]. Defined.

Lemma app_one_view_witness : currentView (cstate opened) ∈ view_types /\ length (view_slots (cstate opened)) = 1%nat.
Proof. apply (app_one_view (Some (js "light")) opened). constructor. Defined.

(** Handler 10, after the ten of the sidebar, toggles the theme. *)
Definition toggled : list (React.input App) := [IEvent 10 PClick].

Definition light_cells : Cells := init (Some (js "light")).

Lemma theme_survives_reload_witness :
  exists c o, run App opened toggled = Some (c, o) /\ theme (cstate c) = Header.Dark
    /\ theme (init (stored (Some (js "light")) ((mount App (Some (js "light"))).2 ++ o))) = theme (cstate c).
Proof.
  destruct (after_run App opened toggled (default light_cells (after App opened toggled))) as (c & o & E & Hs);
    [vm_compute; reflexivity|].
  exists c, o. split; [exact E|]. split; [rewrite Hs; vm_compute; reflexivity|].
  exact (theme_survives_reload (Some (js "light")) toggled c o E).
Defined.

End Examples.
