(* ===== verification/Sparkline.v ===== *)
(** [dashboard/frontend/src/components/Sparkline.tsx]: the path drawn for a
    history of samples. *)

From S2P Require Import Prelude JsString JsNumber Json Api React ViewCommon.

Open Scope N_scope.

(** The optional properties, with the defaults of the component. *)
Record SparklineProps := {
  data : list num; color : jstr; fillColor : jstr; height : num; width : num;
  customMin : option num; customMax : option num;
}.

Definition sparkline_props (d : list num) (c f : string) (mn mx : option num) : SparklineProps := {|
  data := d; color := js c; fillColor := js f; height := num_of_Z 50; width := num_of_Z 240;
  customMin := mn; customMax := mx |}.

(** [Math.min(...xs)] and [Math.max(...xs)] *)
Definition min_all (xs : list num) : num := foldl nmin (Infinity false) xs.
Definition max_all (xs : list num) : num := foldl nmax (Infinity true) xs.

Definition min_of (p : SparklineProps) : num := default (min_all (data p)) (customMin p).
Definition max_of (p : SparklineProps) : num :=
  default (max_all (data p ++ [nadd (min_of p) (num_of_Z 1)])) (customMax p).
Definition range_of (p : SparklineProps) : num := num_or (nsub (max_of p) (min_of p)) (num_of_Z 1).

Definition point_x (p : SparklineProps) (i : nat) : num :=
  nmul (ndiv (num_of_Z (Z.of_nat i)) (num_of_Z (Z.of_nat (length (data p)) - 1))) (width p).

Definition point_y (p : SparklineProps) (v : num) : num :=
  nsub (nsub (height p) (nmul (ndiv (nsub v (min_of p)) (range_of p)) (nsub (height p) (num_of_Z 8)))) (num_of_Z 4).

Definition points (p : SparklineProps) : list jstr :=
  imap (fun i v => toFixed (point_x p i) 1 ++ js "," ++ toFixed (point_y p v) 1) (data p).

Definition pathD (p : SparklineProps) : jstr := js "M " ++ join (js " L ") (points p).

Definition fillD (p : SparklineProps) : jstr :=
  js "M 0," ++ num_str (height p) ++ js " L " ++ join (js " L ") (points p)
  ++ js " L " ++ num_str (width p) ++ js "," ++ num_str (height p) ++ js " Z".

Definition Sparkline {A} (p : SparklineProps) : node A :=
  if bool_decide (length (data p) < 2)%nat
  then El (js "div") [(js "height", num_str (height p))] false [] [txt "Collecting samples..."]
  else
    El (js "svg") [(js "viewBox", js "0 0 " ++ num_str (width p) ++ js " " ++ num_str (height p))] false []
      (when (truthy_str (fillColor p)) [El (js "path") [(js "d", fillD p); (js "fill", fillColor p)] false [] []]
       ++ [El (js "path") [(js "d", pathD p); (js "fill", js "none"); (js "stroke", color p)] false [] []]).

Lemma sparkline_inert {A} p : handlers (A := A) (Sparkline p) = [].
Proof. unfold Sparkline. case_bool_decide; [done|]. by destruct (truthy_str (fillColor p)). Qed.

#[export] Hint Rewrite @sparkline_inert : handlers.

(** ** The curve spans the chart *)

(** The abscissa of sample [i] of [n], on the default width. *)
Definition chart_x (n i : nat) : num :=
  nmul (ndiv (num_of_Z (Z.of_nat i)) (num_of_Z (Z.of_nat n - 1))) (num_of_Z 240).

Definition spans (n : nat) : bool :=
  str_eq (toFixed (chart_x n 0) 1) (js "0.0") && str_eq (toFixed (chart_x n (n - 1)) 1) (js "240.0")
  && forallb (fun i => num_lt (chart_x n i) (chart_x n (S i))) (seq 0 (n - 1)).

Lemma spans_windows : forallb spans (seq 2 29) = true.
Proof. vm_compute. reflexivity. Qed.

(** For every history the dashboard keeps (two to thirty samples) the curve
    has one point per sample, starts at the left edge, ends at the right edge,
    and moves strictly to the right from each sample to the next. *)
Theorem sparkline_spans d c f mn mx :
  (2 <= length d <= 30)%nat ->
  let p := sparkline_props d c f mn mx in
  length (points p) = length d
  /\ toFixed (point_x p 0) 1 = js "0.0" /\ toFixed (point_x p (length d - 1)) 1 = js "240.0"
  /\ (forall i, (S i < length d)%nat -> num_lt (point_x p i) (point_x p (S i)) = true).
Proof.
  intros Hn p. split; [apply length_imap|].
  pose proof (proj1 (forallb_forall _ _) spans_windows (length d)) as Hs.
  unfold spans in Hs. rewrite in_seq in Hs. specialize (Hs ltac:(lia)).
  apply andb_true_iff in Hs as [Hs Hm]. apply andb_true_iff in Hs as [H0 H1]. unfold str_eq in *. to_prop.
  split; [exact H0|]. split; [exact H1|]. intros i Hi.
  apply (proj1 (forallb_forall _ _) Hm i). apply in_seq. lia.
Qed.

Module Examples.

Lemma sparkline_spans_witness :
  let p := sparkline_props [num_of_Z 3; num_of_Z 5; num_of_Z 4] "#10b981" "none" None None in
  length (points p) = 3%nat
  /\ toFixed (point_x p 0) 1 = js "0.0" /\ toFixed (point_x p 2) 1 = js "240.0"
  /\ (forall i, (S i < 3)%nat -> num_lt (point_x p i) (point_x p (S i)) = true).
Proof. apply (sparkline_spans [num_of_Z 3; num_of_Z 5; num_of_Z 4]). simpl. lia. Defined.

End Examples.
