(* ===== verification/DashboardApp.v ===== *)
(** [dashboard/frontend/src/App.tsx]: the observability dashboard: the stream of
    telemetry with its histories, the benchmark probe, and the panels. The user
    interface is a component; the event stream, whose life cycle outlives a
    task, is a state machine around it ([step] below). *)

From S2P Require Import Prelude JsString JsNumber Json Api Types React ViewCommon Components Sparkline Quiescence.
Import Header.

Open Scope N_scope.

(** The result of a probe. *)
Record ProbeResult := { p50 : num; p99 : num; ops : num }.

Definition ProbeResult_of (v : val) : option ProbeResult :=
  o ← as_obj v; a ← as_num (fld o "p50"); b ← as_num (fld o "p99"); c ← as_num (fld o "ops");
  Some (Build_ProbeResult a b c).

Section App.
Context `{Engine} `{Locale} (origin host : jstr).

Record Cells := {
  theme : Header.theme; activeTab : jstr;
  telemetry : option RealtimeTelemetry; connected : bool; copied : bool;
  benchmarking : bool; benchmarkResult : option ProbeResult;
  qpsHistory : list num; cacheHitHistory : list num; allocatedMbHistory : list num;
  queueReadyHistory : list num; pubsubHistory : list num;
}.

Inductive Act := SelectTab (tab : jstr) | ToggleTheme | RunProbe | DismissProbe | CopyMetrics.

Inductive Susp := Probed | CopyTimeout.

Definition init : Cells := {|
  theme := Dark; activeTab := js "overview"; telemetry := None; connected := false; copied := false;
  benchmarking := false; benchmarkResult := None;
  qpsHistory := []; cacheHitHistory := []; allocatedMbHistory := []; queueReadyHistory := []; pubsubHistory := [] |}.

Definition theme_effect : effect unit Cells Susp := mk_effect
  (fun old new => match old with None => true | Some (_, s0) => negb (bool_decide (theme s0 = theme new.2)) end)
  (fun _ s => emit (Ext (SetDarkClass (bool_decide (theme s = Dark)))) ;;;
              emit (Ext (SetLightClass (bool_decide (theme s = Light))))).

(** ** Handlers of the stream *)

Definition on_open : prog Cells Susp := connected <-- true.

(** The sample each history takes from a message. *)
Definition allocated_mb (d : RealtimeTelemetry) : num := ndiv (nmul (rt_page_count d) (num_of_Z 16)) (num_of_Z 1024).
Definition hit_percent (d : RealtimeTelemetry) : num := nmul (rt_cache_hit_rate d) (num_of_Z 100).
Definition or0 (x : num) : num := num_or x (num_of_Z 0).

Definition push_sample (d : RealtimeTelemetry) (s : Cells) : Cells :=
  s <| telemetry := Some d |>
    <| qpsHistory := push_window 29 (qpsHistory s) (or0 (qps d)) |>
    <| cacheHitHistory := push_window 29 (cacheHitHistory s) (hit_percent d) |>
    <| allocatedMbHistory := push_window 29 (allocatedMbHistory s) (allocated_mb d) |>
    <| queueReadyHistory := push_window 29 (queueReadyHistory s) (or0 (rt_queue_ready_tasks d)) |>
    <| pubsubHistory := push_window 29 (pubsubHistory s) (or0 (rt_pubsub_events_count d)) |>.

Definition on_message (text : jstr) : prog Cells Susp :=
  match parse text with
  | None => emit (Ext (ConsoleError (js "Failed to parse SSE telemetry:")))
  | Some v => match RealtimeTelemetry_of v with Some d => modify (push_sample d) | None => pskip end
  end.

Definition on_error : prog Cells Susp := connected <-- false.

(** ** Probe and clipboard *)

Definition probe_request : http_request := mk_request (js "/api/benchmark/probe") (js "POST") [] None.

Definition runBenchmarkProbe : prog Cells Susp := benchmarking <-- true ;;; emit (Fetch probe_request Probed).

(** [await res.json()], whatever the status. *)
Definition body_json (f : fetch_result) : option val :=
  match f with NetworkError _ => None | Responded r => parse (res_text r) end.

Definition probed (o : outcome) : prog Cells Susp :=
  match o with
  | Settled f =>
      match body_json f with
      | None => emit (Ext (ConsoleError []))
      | Some v => match ProbeResult_of v with Some r => benchmarkResult <-- Some r | None => pskip end
      end
  | Fired => pskip
  end ;;;
  benchmarking <-- false.

Definition handleCopyMetrics : prog Cells Susp :=
  emit (Ext (WriteClipboard (origin ++ js "/metrics"))) ;;; copied <-- true ;;; emit (Timer 2000 CopyTimeout).

Definition on (env : Cells) (a : Act) : prog Cells Susp :=
  match a with
  | SelectTab t => activeTab <-- t
  | ToggleTheme => theme <-- (match theme env with Dark => Light | Light => Dark end)
  | RunProbe => runBenchmarkProbe
  | DismissProbe => benchmarkResult <-- None
  | CopyMetrics => handleCopyMetrics
  end.

Definition resumed (q : Susp) (o : outcome) : prog Cells Susp :=
  match q with Probed => probed o | CopyTimeout => copied <-- false end.

Definition accepted (q : Susp) (o : outcome) : bool :=
  match q, o with
  | Probed, Settled f => match body_json f with Some v => bool_decide (is_Some (ProbeResult_of v)) | None => true end
  | _, _ => true
  end.

(** ** Derived values *)

(** [telemetry?.f || 0] *)
Definition metric (f : RealtimeTelemetry -> num) (s : Cells) : num := or0 (default (num_of_Z 0) (f <$> telemetry s)).
Definition metric_opt (f : RealtimeTelemetry -> option num) (s : Cells) : num := or0 (default (num_of_Z 0) (telemetry s ≫= f)).

Definition sizeMB (s : Cells) : jstr := toFixed (ndiv (nmul (metric rt_page_count s) (num_of_Z 16)) (num_of_Z 1024)) 2.

Definition hitRate (s : Cells) : jstr :=
  match telemetry s with Some t => toFixed (nmul (rt_cache_hit_rate t) (num_of_Z 100)) 1 | None => js "100.0" end.

Definition cluster_of (s : Cells) : option ClusterStatus := telemetry s ≫= cluster.
Definition clusterPeers (s : Cells) : list PeerStatus := default [] (cluster_of s ≫= peers).
Definition online (p : PeerStatus) : bool := includes (js "online") (peer_status p).
Definition onlinePeers (s : Cells) : nat := length (filter (fun p => online p = true) (clusterPeers s)).
Definition unreachablePeers (s : Cells) : nat := (length (clusterPeers s) - onlinePeers s)%nat.

Definition cluster_enabled (s : Cells) : bool := default false (enabled <$> cluster_of s).

Definition clusterHealth (s : Cells) : jstr :=
  if negb (cluster_enabled s) then js "Standalone"
  else if bool_decide (0 < unreachablePeers s)%nat then js "Degraded" else js "Healthy".

(** ** Rendering *)

Definition spark (d : list num) (c f : string) (mn mx : option num) : node Act := Sparkline (sparkline_props d c f mn mx).

Definition num_txt (n : num) : node Act := Txt (num_str n).
Definition nat_txt (n : nat) : node Act := Txt (digits (N.of_nat n)).

Definition top_bar (s : Cells) : node Act :=
  el "header" [
    el "div" [el "div" [
      el "div" [
        el "span" [txt "CoCoDB Observability"]; el "span" [txt "Live Telemetry"];
        match cluster_of s with
        | Some c => if enabled c then el "span" [txt "Cluster Active ("; num_txt (total_nodes c); txt " Nodes)"]
                    else el "span" [txt "Standalone Node"]
        | None => el "span" [txt "Standalone Node"]
        end];
      el "p" [txt "Real-time kernel analytics, cluster mesh health, and Prometheus telemetry"]]];
    el "div" [
      el "div" [el "span" []; el "span" [if connected s then txt "SSE 500ms Live" else txt "Reconnecting..."]];
      button (benchmarking s) (OnClick RunProbe) [el "span" [if benchmarking s then txt "Probing..." else txt "Synthetic Probe"]];
      button false (OnClick ToggleTheme) []]].

(** The tabs, with their labels. *)
Definition tabs : list (jstr * jstr) :=
  [(js "overview", js "Metrics Overview"); (js "cluster", js "Cluster Topology & Health");
   (js "engine", js "Storage & 16-Partition Cache"); (js "queues", js "Task Queues & Pub/Sub");
   (js "prometheus", js "Prometheus Exporter (/metrics)")].

Definition tab_bar : node Act :=
  el "div" (map (fun t => button false (OnClick (SelectTab t.1)) [Txt t.2]) tabs).

Definition probe_banner (s : Cells) : list (node Act) :=
  match benchmarkResult s with
  | None => []
  | Some r => [el "div" [
      el "div" [el "div" [
        el "span" [txt "Synthetic Benchmark Probe Result: "];
        el "span" [Txt (localeNumber (ops r)); txt " ops in 1 sec · P50 Latency: "; num_txt (p50 r);
                   txt " µs · P99 Latency: "; num_txt (p99 r); txt " µs"]]];
      button false (OnClick DismissProbe) [txt "Dismiss"]]]
  end.

Definition primary_cards (s : Cells) : node Act :=
  el "div" [
    el "div" [
      el "div" [el "span" [txt "Operations Throughput"]];
      el "div" [el "span" [Txt (localeNumber (metric qps s))]; el "span" [txt "ops/sec"]];
      el "div" [spark (qpsHistory s) "#10b981" "rgba(16, 185, 129, 0.15)" None None];
      el "div" [txt "Live rate calculated over 500ms delta"]];
    el "div" [
      el "div" [el "span" [txt "16-Partition LRU Hit Rate"]];
      el "div" [el "span" [Txt (hitRate s); txt "%"]; el "span" [txt "ratio"]];
      el "div" [spark (cacheHitHistory s) "#14b8a6" "rgba(20, 184, 166, 0.15)" (Some (num_of_Z 0)) (Some (num_of_Z 100))];
      el "div" [Txt (localeNumber (metric rt_cache_hits s)); txt " hits / "; Txt (localeNumber (metric rt_cache_misses s)); txt " misses"]];
    el "div" [
      el "div" [el "span" [txt "Allocated Storage"]];
      el "div" [el "span" [Txt (sizeMB s)]; el "span" [txt "MB"]];
      el "div" [spark (allocatedMbHistory s) "#0ea5e9" "rgba(14, 165, 233, 0.15)" None None];
      el "div" [Txt (localeNumber (metric rt_page_count s)); txt " pages × 16 KiB Slotted"]];
    el "div" [
      el "div" [el "span" [txt "WAL Commit Sequence"]];
      el "div" [el "span" [txt "#"; num_txt (metric rt_last_lsn s)]; el "span" [txt "LSN"]];
      el "div" [el "span" [txt "Crash-Safe:"]; el "span" [txt "Dual Meta A/B"]];
      el "div" [txt "Txn ID #"; num_txt (metric rt_last_txn_id s)]]].

Definition gauge (title : string) (v : node Act) : node Act := el "div" [el "div" [txt title]; el "div" [v]].

Definition overview_queues (s : Cells) : node Act :=
  el "div" [
    el "div" [el "div" [el "h2" [txt "Transactional Task Queues"]];
              el "span" [num_txt (metric rt_queue_count s); txt " Queues Active"]];
    el "div" [
      gauge "Ready Tasks" (num_txt (metric rt_queue_ready_tasks s));
      gauge "In-Flight Leased" (num_txt (metric rt_queue_inflight_tasks s));
      gauge "Dead-Letter DLQ" (num_txt (metric rt_queue_dlq_tasks s))];
    el "div" [spark (queueReadyHistory s) "#10b981" "rgba(16, 185, 129, 0.1)" None None]].

Definition overview_pubsub (s : Cells) : node Act :=
  el "div" [
    el "div" [el "div" [el "h2" [txt "Pub/Sub Event Broker Telemetry"]];
              el "span" [num_txt (metric_opt pubsub_active_topics s); txt " Topics Active"]];
    el "div" [
      gauge "Published Events" (num_txt (metric rt_pubsub_events_count s));
      gauge "Delivered to Subs" (num_txt (metric_opt pubsub_delivered_count s))];
    el "div" [spark (pubsubHistory s) "#38bdf8" "rgba(56, 189, 248, 0.1)" None None]].

(** The cluster, when it is enabled. *)
Definition active_cluster (s : Cells) : option ClusterStatus :=
  match cluster_of s with Some c => if enabled c then Some c else None | None => None end.

Definition overview_cluster (s : Cells) : node Act :=
  button false (OnClick (SelectTab (js "cluster"))) (
    el "div" [el "div" [el "h2" [txt "Live Cluster Status"]]; el "span" [Txt (clusterHealth s)]]
    :: match active_cluster s with
       | Some c => [
           el "div" [
             gauge "Nodes" (num_txt (total_nodes c)); gauge "Online" (nat_txt (onlinePeers s));
             gauge "Unavailable" (nat_txt (unreachablePeers s))];
           el "div" [el "span" [Txt (node_id c); txt " · "; Txt (cl_addr c)]; el "span" [txt "View topology →"]]]
       | None => [
           el "div" [el "div" [
             el "div" [txt "Embedded standalone node"];
             el "div" [txt "Start a cluster node to monitor peer health here."]]]]
       end).

Definition cluster_cards (c : ClusterStatus) : node Act :=
  el "div" [
    el "div" [el "div" [el "span" [txt "Local Node Identity"]]; el "div" [Txt (node_id c)]; el "div" [Txt (cl_addr c)]];
    el "div" [
      el "div" [el "span" [txt "Wire Security"]];
      el "div" [if default false (mtls_enforced c) then txt "mTLS 1.3 Active" else if tls_enabled c then txt "TLS 1.3" else txt "Plain TCP"];
      el "div" [if auth_enforced c then txt "Token Auth Enforced" else txt "No Auth"]];
    el "div" [
      el "div" [el "span" [txt "Consistent Hash Ring"]];
      el "div" [num_txt (total_nodes c); txt " Physical Nodes"];
      el "div" [num_txt (virtual_nodes c); txt " Virtual Tokens / Node"]];
    el "div" [
      el "div" [el "span" [txt "RPC Socket Connections"]];
      el "div" [num_txt (active_conns c); txt " Active Sockets"];
      el "div" [txt "Zero-copy binary frame multiplexing"]]].

Definition peer_row (idx : nat) (p : PeerStatus) : node Act :=
  el "div" [
    el "div" [el "div" []; el "div" [
      el "div" (el "span" [Txt (peer_addr p)] :: when (is_local p) [el "span" [txt "SELF"]]);
      el "div" [txt "Shard Partition Token Range: Virtual Slots "; nat_txt (idx * 256); txt " - "; nat_txt ((idx + 1) * 256 - 1)]]];
    el "div" (el "div" [el "div" [txt "Status"]; el "div" [Txt (peer_status p)]]
      :: when (negb (is_local p)) [
        el "div" [el "div" [txt "Ping RTT"];
                  el "div" [Txt (if num_le (num_of_Z 0) (latency_us p) then num_str (latency_us p) ++ js " µs" else js "timeout")]]])].

Definition peer_table (c : ClusterStatus) : node Act :=
  el "div" [
    el "div" [el "div" [el "h2" [txt "Cluster Peer Node Mesh"]]; el "span" [txt "Auto-Forwarding Deduplication Enabled"]];
    el "div" match default [] (peers c) with
    | [] => [el "div" [txt "No cluster peers configured."]]
    | ps => mapi peer_row ps
    end].

Definition standalone_help : node Act :=
  el "div" [
    el "h3" [txt "Standalone Node Mode"];
    el "p" [txt "This database instance is currently running in embedded standalone mode. To enable multi-node clustering with mTLS 1.3 and cross-node deduplication:"];
    el "pre" [
      Txt (jq "node, err := cluster.StartNode(db, '127.0.0.1:9001',"); el "br" [];
      Txt (jq "  cluster.WithSecret('my_token'),"); el "br" [];
      Txt (jq "  cluster.WithPeers('127.0.0.1:9002', '127.0.0.1:9003'),"); el "br" [];
      txt ")"]].

Definition cluster_panel (s : Cells) : node Act :=
  el "div" match active_cluster s with
  | Some c => [cluster_cards c; peer_table c]
  | None => [standalone_help]
  end.

Definition engine_panel (s : Cells) : node Act :=
  el "div" [
    el "div" [
      el "div" [el "span" [txt "Dual Meta Pages Crash-Safety"]];
      el "p" [txt "Alternating Meta Page 0 and Meta Page 1 ensure complete atomic commits. Even on sudden power loss, the database rolls back to the last valid meta snapshot with zero corruption."];
      el "div" [txt "Status: Verified Healthy"]];
    el "div" [
      el "div" [el "span" [txt "Hardware CRC32C Checksums"]];
      el "p" [txt "Every single 16 KiB slotted page header contains a Castagnoli CRC32C checksum validated using CPU SSE4.2 instructions on read."];
      el "div" [txt "Integrity: 100% Page Match"]];
    el "div" [
      el "div" [el "span" [txt "16-Partition Stripped LRU"]];
      el "p" [txt "Sharded into 16 independent mutex stripes to eliminate CPU cache lock contention under multi-threaded parallel reader workloads."];
      el "div" [txt "Hit Rate: "; Txt (hitRate s); txt "%"]]].

Definition prometheus_panel (s : Cells) : node Act :=
  el "div" [
    el "div" [
      el "div" [el "h2" [txt "Prometheus & OpenTelemetry Scrape Target"];
                el "p" [txt "Compatible with Prometheus, Grafana Agent, and Datadog scrape jobs"]];
      el "div" [
        button false (OnClick CopyMetrics) [el "span" [if copied s then txt "Copied URL" else txt "Copy /metrics URL"]];
        El (js "a") [(js "href", js "/metrics"); (js "target", js "_blank"); (js "rel", js "noreferrer")] false []
          [el "span" [txt "Open Raw /metrics"]]]];
    el "div" [
      el "div" [txt "# prometheus.yml scrape config example:"];
      el "div" [txt "scrape_configs:"; el "br" []; txt "  - job_name: 'cocodb'"; el "br" [];
                txt "    static_configs:"; el "br" []; txt "      - targets: ['"; Txt host; txt "']"]]].

(** The panel under the tabs. *)
Definition panels (s : Cells) : list (node Act) :=
  when (str_eq (activeTab s) (js "overview")) [el "div" [overview_queues s; overview_pubsub s; overview_cluster s]]
  ++ when (str_eq (activeTab s) (js "cluster")) [cluster_panel s]
  ++ when (str_eq (activeTab s) (js "engine")) [engine_panel s]
  ++ when (str_eq (activeTab s) (js "prometheus")) [prometheus_panel s].

Definition view (s : Cells) : option (node Act) :=
  Some (el "div" [top_bar s; el "main" ([tab_bar] ++ probe_banner s ++ [primary_cards s] ++ panels s)]).

Definition App : component := {|
  Props := unit; State := Cells; Action := Act; Kont := Susp;
  initial := fun _ => init; handle := fun _ => on; resume := resumed; accepts := accepted;
  effects := [theme_effect]; render := fun _ => view; callbacks := [] |}.

(** ** The event stream

    [connectSSE] makes a source and stores it in a variable of the effect; an
    error closes the stored source and schedules another connection; leaving
    the page closes the stored source. A closed source delivers nothing. *)

Record stream := mk_stream {
  opened : gset N;        (** sources that are not closed *)
  current : option N;     (** the variable [eventSource] *)
  next_id : N;
  reconnects : nat;       (** pending [setTimeout(connectSSE, 2000)] *)
  mounted : bool;
}.

Definition connectSSE (st : stream) : stream :=
  mk_stream ({[next_id st]} ∪ opened st) (Some (next_id st)) (next_id st + 1) (reconnects st) (mounted st).

(** [eventSource?.close()] *)
Definition close_current (st : stream) : stream :=
  mk_stream (match current st with Some i => opened st ∖ {[i]} | None => opened st end)
    (current st) (next_id st) (reconnects st) (mounted st).

Definition schedule (st : stream) : stream :=
  mk_stream (opened st) (current st) (next_id st) (S (reconnects st)) (mounted st).

(** The whole dashboard: the interface and its stream. *)
Record world := mk_world { ui : config App; sse : stream }.

(** A task of the interface; after the page is left its cells no longer change. *)
Definition ui_task (w : world) (m : prog Cells Susp) : config App :=
  if mounted (sse w) then (task App (cprops (ui w)) (cstate (ui w)) (cpend (ui w)) m).1 else ui w.

(** A message that fits the interface, or is not JSON. *)
Definition telemetry_text (text : jstr) : Prop :=
  forall v, parse text = Some v -> is_Some (RealtimeTelemetry_of v).

Definition start : world :=
  mk_world (mount App ()).1 (connectSSE (mk_stream ∅ None 0 0 true)).

(** The sample the interface takes from a message. *)
Definition received (w : world) (text : jstr) : list RealtimeTelemetry :=
  if mounted (sse w) then match parse text ≫= RealtimeTelemetry_of with Some d => [d] | None => [] end else [].

(** The steps of the dashboard, labelled by the samples it takes. *)
Inductive step : world -> list RealtimeTelemetry -> world -> Prop :=
| step_ui w i c o : mounted (sse w) = true -> exec App (ui w) i = Some (c, o) -> step w [] (mk_world c (sse w))
| step_open w i : i ∈ opened (sse w) -> step w [] (mk_world (ui_task w on_open) (sse w))
| step_message w i text : i ∈ opened (sse w) -> telemetry_text text ->
    step w (received w text) (mk_world (ui_task w (on_message text)) (sse w))
| step_error w i : i ∈ opened (sse w) ->
    step w [] (mk_world (ui_task w on_error) (schedule (close_current (sse w))))
| step_reconnect w n : reconnects (sse w) = S n ->
    step w [] (mk_world (ui w) (connectSSE (mk_stream (opened (sse w)) (current (sse w)) (next_id (sse w)) n (mounted (sse w)))))
| step_unmount w : mounted (sse w) = true ->
    step w [] (mk_world (ui w)
      (let st := close_current (sse w) in mk_stream (opened st) (current st) (next_id st) (reconnects st) false)).

(** The dashboard after some steps, with the samples it took. *)
Inductive trace : list RealtimeTelemetry -> world -> Prop :=
| trace_start : trace [] start
| trace_step ds w l w' : trace ds w -> step w l w' -> trace (ds ++ l) w'.

End App.

Arguments ui {_ _ _} _.
Arguments sse {_ _ _} _.

Section Theory.
Context `{Engine} `{Locale} (origin host : jstr).

Abbreviation App := (App origin host).

(** ** What the commits leave alone *)

Lemma theme_effect_skips p s0 s : (eff_body theme_effect p s0 s).1 = s.
Proof. done. Qed.

Lemma effects_frames {A} (f : Cells -> A) e p s0 : e ∈ effects App -> frames f (eff_body e p s0).
Proof. intros ->%list_elem_of_singleton s. by rewrite theme_effect_skips. Qed.

Lemma ui_task_frames {A} (f : Cells -> A) w m :
  f (cstate (ui_task origin host w m)) = if mounted (sse w) then f (m (cstate (ui w))).1 else f (cstate (ui w)).
Proof.
  unfold ui_task. destruct (mounted (sse w)); [|done]. apply (task_frames App f), effects_frames.
Qed.

(** A part of the cells that the interface itself never writes. *)
Lemma ui_frames {A} (f : Cells -> A) c i c' o :
  (forall env a, frames f (on origin env a)) -> (forall q out, frames f (resumed q out)) ->
  exec App c i = Some (c', o) -> f (cstate c') = f (cstate c).
Proof.
  intros Hon Hres E. apply (exec_frames App f (effects_frames f)) in E as [E|[[a E]|(n & q & out & _ & _ & _ & _ & E)]];
    [done|rewrite E; apply Hon|rewrite E; apply Hres].
Qed.

(** ** The histories *)

Definition histories (s : Cells) : list (list num) :=
  [qpsHistory s; cacheHitHistory s; allocatedMbHistory s; queueReadyHistory s; pubsubHistory s].

(** The measurements the charts show, in the same order. *)
Definition measures : list (RealtimeTelemetry -> num) :=
  [or0 ∘ qps; hit_percent; allocated_mb; or0 ∘ rt_queue_ready_tasks; or0 ∘ rt_pubsub_events_count].

(** The last thirty samples of each. *)
Definition windows (ds : list RealtimeTelemetry) : list (list num) := (fun f => slice_last 30 (f <$> ds)) <$> measures.

Definition samples (s : Cells) : list (list num) * option RealtimeTelemetry := (histories s, telemetry s).

Lemma samples_frames_on env a : frames samples (on origin env a).
Proof. destruct a; simpl; unfold runBenchmarkProbe, handleCopyMetrics; auto with frame. Qed.

Lemma samples_frames_resumed q o : frames samples (resumed q o).
Proof.
  destruct q; simpl; [|auto with frame]. unfold probed. apply frames_seq; [|auto with frame].
  destruct o as [f|]; [|auto with frame]. destruct (body_json f) as [v|]; [|auto with frame].
  destruct (ProbeResult_of v); auto with frame.
Qed.

Lemma push_windows d ds s :
  histories s = windows ds -> histories (push_sample d s) = windows (ds ++ [d]).
Proof.
  unfold windows, measures, histories. destruct s. simpl. intros [= -> -> -> -> ->].
  by rewrite !fmap_app, !push_window_slice.
Qed.

(** C18: after any interleaving of messages, connection losses, reconnections and
    user events, each of the five charts shows the last thirty samples of its
    measurement, in the order they arrived, and the figures shown are those of
    the last sample. *)
Theorem charts_show_last_thirty ds w :
  trace origin host ds w -> histories (cstate (ui w)) = windows ds /\ telemetry (cstate (ui w)) = last ds.
Proof.
  enough (trace origin host ds w -> samples (cstate (ui w)) = (windows ds, last ds)) as Hs
    by (intros Ht; exact (conj (f_equal fst (Hs Ht)) (f_equal snd (Hs Ht)))).
  induction 1 as [|ds w l w' _ IH Hstep].
  { unfold start, mount. cbn [ui]. pose proof (flush_frames App samples (effects_frames samples) commit_fuel None () init) as H1.
    change (initial App ()) with init. destruct (flush App commit_fuel None () init). exact H1. }
  destruct Hstep as [w i c o Hm E|w i Hi|w i text Hi Ht|w i Hi|w n Hn|w Hm]; simpl ui; rewrite ?app_nil_r; try done.
  - rewrite <- IH. eapply ui_frames; [apply samples_frames_on|apply samples_frames_resumed|exact E].
  - rewrite ui_task_frames. destruct (mounted (sse w)); [|done]. by destruct (cstate (ui w)).
  - rewrite ui_task_frames. unfold received. destruct (mounted (sse w)); [|by rewrite app_nil_r].
    unfold on_message. destruct (parse text) as [v|]; cbn [mbind option_bind]; [|by rewrite app_nil_r].
    destruct (RealtimeTelemetry_of v) as [d|]; [|by rewrite app_nil_r].
    pose proof (f_equal fst IH : histories _ = windows ds) as Hh. unfold samples. cbn [modify fst]. rewrite (push_windows d ds) by done.
    rewrite last_snoc. by destruct (cstate (ui w)).
  - rewrite ui_task_frames. destruct (mounted (sse w)); [|done]. by destruct (cstate (ui w)).
Qed.

(** ** The stream *)

(** A stream with its source open, waiting to reconnect, or given up. *)
Inductive stream_ok (st : stream) : Prop :=
| so_open i : opened st = {[i]} -> current st = Some i -> reconnects st = O -> stream_ok st
| so_waiting : opened st = ∅ -> reconnects st = 1%nat -> stream_ok st
| so_closed : opened st = ∅ -> reconnects st = O -> mounted st = false -> stream_ok st.

Lemma stream_ok_start : stream_ok (sse (start origin host)).
Proof. eapply so_open; simpl; [by rewrite union_empty_r_L|done|done]. Qed.

Lemma close_empties st i : opened st = {[i]} -> current st = Some i -> opened (close_current st) = ∅.
Proof. intros Ho Hc. simpl. rewrite Ho, Hc. set_solver. Qed.

Lemma step_stream w l w' : step origin host w l w' -> stream_ok (sse w) -> stream_ok (sse w').
Proof.
  intros Hstep Hok. destruct Hstep as [w i c o Hm E|w i Hi|w i text Hi Ht|w i Hi|w n Hn|w Hm]; try done; simpl.
  - destruct Hok as [j Ho Hc Hr|Ho|Ho]; [|exfalso; rewrite Ho in Hi; set_solver..].
    apply so_waiting; [by apply (close_empties (sse w) j)|simpl; by rewrite Hr].
  - destruct Hok as [j Ho Hc Hr|Ho Hr|Ho Hr Hm]; [congruence| |congruence].
    eapply so_open; simpl; [by rewrite Ho, union_empty_r_L|done|]. congruence.
  - destruct Hok as [j Ho Hc Hr|Ho Hr|Ho Hr Hu]; [|apply so_waiting|congruence].
    + apply so_closed; [by apply (close_empties (sse w) j)|done|done].
    + simpl. rewrite Ho. destruct (current (sse w)); set_solver.
    + done.
Qed.

Lemma trace_stream ds w : trace origin host ds w -> stream_ok (sse w).
Proof. induction 1; [apply stream_ok_start|by eapply step_stream]. Qed.

(** C20: the dashboard never holds two connections: the open sources and the
    pending reconnections are one together for as long as the page is shown, and
    never more than one. *)
Theorem stream_single ds w :
  trace origin host ds w ->
  (base.size (opened (sse w)) + reconnects (sse w) <= 1)%nat
  /\ (mounted (sse w) = true -> (base.size (opened (sse w)) + reconnects (sse w) = 1)%nat).
Proof.
  intros [i Ho Hc Hr|Ho Hr|Ho Hr Hm]%trace_stream; rewrite Ho, Hr, ?size_singleton, ?size_empty; split; try lia; congruence.
Qed.

Lemma connected_frames_on env a : frames connected (on origin env a).
Proof. destruct a; simpl; unfold runBenchmarkProbe, handleCopyMetrics; auto with frame. Qed.

Lemma connected_frames_resumed q o : frames connected (resumed q o).
Proof.
  destruct q; simpl; [|auto with frame]. unfold probed. apply frames_seq; [|auto with frame].
  destruct o as [f|]; [|auto with frame]. destruct (body_json f) as [v|]; [|auto with frame].
  destruct (ProbeResult_of v); auto with frame.
Qed.

(** While the page is shown, the live indicator is on only when a source is
    open and no reconnection is being waited for. *)
Theorem live_means_connected ds w :
  trace origin host ds w -> mounted (sse w) = true -> connected (cstate (ui w)) = true ->
  exists i, opened (sse w) = {[i]} /\ current (sse w) = Some i /\ reconnects (sse w) = O.
Proof.
  intros Ht Hm Hc. enough (reconnects (sse w) = O) as Hr.
  { destruct (trace_stream ds w Ht) as [i Ho Hcur _|_ Hr'|_ _ Hu]; [by exists i|congruence|congruence]. }
  revert Hm Hc. induction Ht as [|ds w l w' Ht IH Hstep]; [done|].
  destruct Hstep as [w i c o Hmt E|w i Hi|w i text Hi Htx|w i Hi|w n Hn|w Hmt]; simpl.
  - intros _ Hc. apply IH; [done|]. rewrite <- Hc. symmetry.
    eapply ui_frames; [apply connected_frames_on|apply connected_frames_resumed|exact E].
  - intros _ _. destruct (trace_stream ds w Ht) as [j Ho Hcur Hr|Ho|Ho]; [done|rewrite Ho in Hi; set_solver..].
  - intros _ _. destruct (trace_stream ds w Ht) as [j Ho Hcur Hr|Ho|Ho]; [done|rewrite Ho in Hi; set_solver..].
  - rewrite (ui_task_frames connected). intros ->. by destruct (cstate (ui w)).
  - intros Hm Hc. specialize (IH Hm Hc). congruence.
  - done.
Qed.

(** ** The probe *)

Definition is_probe (q : Susp) : bool := match q with Probed => true | _ => false end.

Lemma cluster_panel_inert s h : h ∈ handlers (cluster_panel s) -> False.
Proof.
  unfold cluster_panel, standalone_help, cluster_cards, peer_table, num_txt. intros Hin.
  destruct (active_cluster s) as [c|]; handler_cases Hin.
  all: try (repeat case_match; by handler_cases Hin).
  destruct (default [] (peers c)) as [|p ps]; [by handler_cases Hin|]. unfold peer_row, nat_txt in Hin.
  handler_cases Hin; repeat case_match; by handler_cases Hin.
Qed.

(** Only the probe's button runs it, and it is disabled while it runs. *)
Lemma probe_enabled s tree h pl :
  view host s = Some tree -> h ∈ handlers tree -> fire h pl = Some RunProbe -> benchmarking s = false.
Proof.
  intros [= <-] Hin Hf. autorewrite with handlers in Hin. destruct Hin as [Hin|[Hin|[Hin|[Hin|Hin]]]].
  - unfold top_bar in Hin. handler_cases Hin; try (repeat case_match; by handler_cases Hin); by fired Hf.
  - unfold tab_bar in Hin. handler_cases Hin. by fired Hf.
  - unfold probe_banner in Hin. destruct (benchmarkResult s); [|by handler_cases Hin]. unfold num_txt in Hin.
    handler_cases Hin; by fired Hf.
  - unfold primary_cards, spark, num_txt in Hin. by handler_cases Hin.
  - unfold panels in Hin. handler_cases Hin.
    + unfold overview_queues, gauge, spark, num_txt in Hin. by handler_cases Hin.
    + unfold overview_pubsub, gauge, spark, num_txt in Hin. by handler_cases Hin.
    + unfold overview_cluster, gauge, num_txt, nat_txt in Hin. handler_cases Hin; try by fired Hf.
      destruct (active_cluster s); by handler_cases Hin.
    + by apply cluster_panel_inert in Hin.
    + unfold prometheus_panel in Hin. handler_cases Hin; try (repeat case_match; by handler_cases Hin); by fired Hf.
Qed.

#[export] Instance probe_single : SingleFlight App benchmarking is_probe.
Proof.
  split.
  - done.
  - intros p s tree h pl a Hren Hin Hf. destruct a; try (left; flight; fail).
    assert (benchmarking s = false) as Eb by by eapply probe_enabled. right; flight.
  - no_calls.
  - intros [] o s Ht; try done. simpl. unfold probed, pseq. destruct o as [f|]; [|flight].
    destruct (body_json f) as [v|]; [|flight]. destruct (ProbeResult_of v); flight.
  - intros [] o s Ht; try done. simpl. flight.
  - intros e p s0 s ->%list_elem_of_singleton. flight.
Qed.

(** One probe at a time: the benchmarking flag is up exactly while one probe
    request is pending. *)
Theorem probe_single_flight p0 c :
  reachable App p0 c -> count_pend is_probe (cpend c) = (if benchmarking (cstate c) then 1%nat else 0%nat).
Proof. intros Hr. apply (flight_reachable App benchmarking is_probe p0 c Hr). Qed.

(** ** Panels *)

(** Of the five tabs, one has nothing behind it: selecting the queues tab
    shows no panel, and every other tab shows one. *)
Theorem queues_tab_empty s tab :
  tab ∈ tabs.*1 -> activeTab s = tab -> (panels host s = [] <-> tab = js "queues").
Proof.
  intros Hin Ha. unfold panels. rewrite Ha. clear Ha.
  generalize (el "div" [overview_queues s; overview_pubsub s; overview_cluster s]) (cluster_panel s) (engine_panel s)
    (prometheus_panel host s). intros p1 p2 p3 p4. change (tabs.*1) with [js "overview"; js "cluster"; js "engine"; js "queues"; js "prometheus"] in Hin.
  repeat (apply elem_of_cons in Hin as [-> |Hin]; [vm_compute; split; done|]). by apply not_elem_of_nil in Hin.
Qed.

(** ** Cluster health *)

Lemma filter_all {A} (P : A -> Prop) `{forall x, Decision (P x)} l :
  (length l - length (filter P l) = 0)%nat <-> Forall P l.
Proof.
  induction l as [|x r IH]; [by split|]. rewrite filter_cons, Forall_cons, <- IH.
  pose proof (length_filter P r). destruct (decide (P x)); simpl; split; intros; try lia; naive_solver lia.
Qed.

(** The health badge is right: standalone without a cluster, degraded exactly
    when some peer of an enabled cluster is not online, healthy exactly when all
    of them are; and online and unavailable peers add up to all peers. *)
Theorem cluster_health s :
  (clusterHealth s = js "Standalone" <-> cluster_enabled s = false)
  /\ (clusterHealth s = js "Degraded" <-> cluster_enabled s = true /\ exists p, p ∈ clusterPeers s /\ online p = false)
  /\ (clusterHealth s = js "Healthy" <-> cluster_enabled s = true /\ forall p, p ∈ clusterPeers s -> online p = true)
  /\ (onlinePeers s + unreachablePeers s = length (clusterPeers s))%nat.
Proof.
  assert (unreachablePeers s = 0%nat <-> Forall (fun p => online p = true) (clusterPeers s)) as Hu by apply filter_all.
  rewrite Forall_forall in Hu.
  assert ((exists p, p ∈ clusterPeers s /\ online p = false) <-> (0 < unreachablePeers s)%nat) as He.
  { split.
    - intros (p & Hp & Ho). destruct (unreachablePeers s); [|lia]. by rewrite (proj1 Hu eq_refl p Hp) in Ho.
    - intros Hl. destruct (decide (Exists (fun p => online p = false) (clusterPeers s))) as [Hx|Hx].
      + by apply Exists_exists in Hx.
      + exfalso. enough (unreachablePeers s = 0%nat) by lia. apply Hu. intros p Hp.
        destruct (online p) eqn:Eo; [done|]. destruct Hx. apply Exists_exists. eauto. }
  pose proof (length_filter (fun p => online p = true) (clusterPeers s)) as Hle. fold (onlinePeers s) in Hle.
  rewrite He, <- Hu. unfold clusterHealth. destruct (cluster_enabled s); simpl.
  - case_bool_decide; split_and!; try (split; [done|naive_solver lia]); try (split; [intros|]; naive_solver lia);
      unfold unreachablePeers in *; lia.
  - split_and!; try (split; [done|naive_solver]); try done. unfold unreachablePeers in *; lia.
Qed.

Lemma dashboard_app_settles old p s : settles App commit_fuel old p s = true.
Proof.
  revert old p s. apply (settles_by App theme).
  - intros p s s' Hs. unfold any_changed. simpl. by rewrite Hs, bool_decide_eq_true_2.
  - intros old p s _ s1. clearbody s1. unfold run_effects. simpl. by destruct (negb _).
Qed.

(** ** Progress *)

Lemma theme_frames_resumed q o : frames theme (resumed q o).
Proof.
  destruct q; simpl; [|auto with frame]. unfold probed. apply frames_seq; [|auto with frame].
  destruct o as [f|]; [|auto with frame]. destruct (body_json f) as [v|]; [|auto with frame].
  destruct (ProbeResult_of v); auto with frame.
Qed.

#[export] Instance probe_drains : Drains App (fun _ => 1%nat).
Proof.
  split; [intros _; lia| |by intros []]. intros p s q f _. apply drains_idle with (n := 0%nat); [| |lia].
  - unfold any_changed. simpl. by rewrite theme_frames_resumed, bool_decide_eq_true_2.
  - destruct q; simpl; [|auto with costs]. unfold probed. destruct (body_json f) as [v|]; [|auto with costs].
    destruct (ProbeResult_of v); auto with costs.
Qed.

#[export] Instance probe_waits : Waits App benchmarking.
Proof. eapply flight_waits, probe_single. Qed.

(** ** Leaving the page *)

(** Leaving the page does not stop the stream when a reconnection is due: the
    timer is not cancelled. From every state of the dashboard that waits to
    reconnect, leaving the page leads to a state with a source open, and from
    there every step keeps that source open or, when it fails, schedules the
    next one. *)
Theorem stream_leak w :
  mounted (sse w) = true -> opened (sse w) = ∅ -> reconnects (sse w) = 1%nat ->
  exists w1 w2, step origin host w [] w1 /\ step origin host w1 [] w2
    /\ mounted (sse w2) = false /\ opened (sse w2) = {[next_id (sse w)]}
    /\ (forall l w3, step origin host w2 l w3 -> mounted (sse w3) = false
          /\ (opened (sse w3) = {[next_id (sse w)]} \/ reconnects (sse w3) = 1%nat)).
Proof.
  intros Hm Ho Hn. eexists _, _. split; [by apply step_unmount|]. split; [apply (step_reconnect _ _ _ 0); exact Hn|].
  assert (forall o, match o with Some i => opened (sse w) ∖ {[i]} | None => opened (sse w) end = ∅) as Hd
    by (intros []; set_solver).
  split; [done|]. split; [simpl; rewrite Hd; set_solver|].
  intros l w3 Hs. inversion Hs; subst; simpl in *; rewrite ?Hd in *; try done; split; auto; left; set_solver.
Qed.

End Theory.

(** ** The theorems on a concrete dashboard *)

Module Examples.

#[local] Existing Instance plain_engine.
#[local] Existing Instance plain_locale.

Definition begin : world [] [] := start [] [].

(** The connection is lost once. *)
Lemma lost : exists w, trace [] [] [] w /\ mounted (sse w) = true /\ opened (sse w) = ∅ /\ reconnects (sse w) = 1%nat.
Proof.
  eexists. split.
  - apply (trace_step _ _ [] begin []); [apply trace_start|]. apply (step_error _ _ begin 0). simpl. set_solver.
  - split; [done|]. split; [|done]. simpl. set_solver.
Qed.

(** A message with twelve operations per second. *)
Definition sample_text : jstr :=
  stringify (VObj (map (fun k => (js k, VNum (num_of_Z 12)))
      ["timestamp"; "page_count"; "allocated_bytes"; "cache_hits"; "cache_misses"; "cache_hit_rate"; "last_lsn";
       "last_txn_id"; "qps"; "queue_count"; "queue_ready_tasks"; "queue_inflight_tasks"; "queue_dlq_tasks";
       "pubsub_events_count"]%string
    ++ [(js "read_only", VBool false); (js "cluster", VNull)])).

Lemma sample_fits : telemetry_text sample_text.
Proof.
  assert (match parse sample_text with Some v => bool_decide (is_Some (RealtimeTelemetry_of v)) | None => true end = true)
    as Hv by (vm_compute; reflexivity).
  intros v E. rewrite E in Hv. by to_prop.
Qed.

Definition sampled : world [] [] := mk_world [] [] (ui_task [] [] begin (on_message sample_text)) (sse begin).

Lemma sampled_trace : trace [] [] ([] ++ received [] [] begin sample_text) sampled.
Proof. eapply trace_step; [apply trace_start|]. apply (step_message _ _ begin 0); [simpl; set_solver|apply sample_fits]. Qed.

Lemma charts_show_last_thirty_witness :
  qpsHistory (cstate (ui sampled)) = [num_of_Z 12]
  /\ histories (cstate (ui sampled)) = windows (received [] [] begin sample_text)
  /\ telemetry (cstate (ui sampled)) = last (received [] [] begin sample_text).
Proof.
  split; [vm_compute; reflexivity|]. exact (charts_show_last_thirty [] [] _ sampled sampled_trace).
Defined.

Lemma stream_single_witness :
  (base.size (opened (sse begin)) + reconnects (sse begin) <= 1)%nat
  /\ (mounted (sse begin) = true -> (base.size (opened (sse begin)) + reconnects (sse begin) = 1)%nat).
Proof. apply (stream_single [] [] [] begin). apply trace_start. Defined.

(** The first source reports that it is open. *)
Lemma live_means_connected_witness :
  exists w : world [] [], connected (cstate (ui w)) = true
    /\ exists i, opened (sse w) = {[i]} /\ current (sse w) = Some i /\ reconnects (sse w) = O.
Proof.
  exists (mk_world [] [] (ui_task [] [] begin on_open) (sse begin)). split; [vm_compute; reflexivity|].
  apply (live_means_connected [] [] [] (mk_world [] [] (ui_task [] [] begin on_open) (sse begin)));
    [|reflexivity|vm_compute; reflexivity].
  apply (trace_step _ _ [] begin []); [apply trace_start|]. apply (step_open _ _ begin 0). simpl. set_solver.
Defined.

Lemma queues_tab_empty_witness : panels [] (init <| activeTab := js "queues" |>) = [].
Proof.
  apply (queues_tab_empty [] (init <| activeTab := js "queues" |>) (js "queues"));
    [by apply (bool_decide_unpack _)|reflexivity|reflexivity].
Defined.

Lemma stream_leak_witness :
  exists w w1 w2 : world [] [], trace [] [] [] w /\ step [] [] w [] w1 /\ step [] [] w1 [] w2
    /\ mounted (sse w2) = false /\ opened (sse w2) = {[next_id (sse w)]}.
Proof.
  destruct lost as (w & Ht & Hm & Ho & Hn). destruct (stream_leak [] [] w Hm Ho Hn) as (w1 & w2 & H1 & H2 & H3 & H4 & _).
  exists w, w1, w2. repeat (split; [assumption|]). assumption.
Defined.

End Examples.
