(* ===== verification/Studio.v ===== *)
(** The views of the studio as one family: the component each [ViewType] of
    [Sidebar.tsx] names, and what holds of all of them. *)

From S2P Require Import QueryConsoleView VectorPlaygroundView SearchPlaygroundView MaintenanceView CollectionsView.
From S2P Require Import BucketsView QueueView PubSubView TimeSeriesView DashboardView App DashboardApp.
From S2P Require Import Prelude JsString JsNumber JsDate Json Api Types React LatestWins Quiescence ViewCommon Components.

Open Scope nat_scope.

(** [ViewType] *)
Inductive ViewType :=
| Dashboard | Collections | TimeSeries | Buckets | Queues | PubSub | Query | Vector | Search | Maintenance.

#[export] Instance ViewType_eq_dec : EqDecision ViewType.
Proof. solve_decision. Defined.

Definition all_views : list ViewType :=
  [Dashboard; Collections; TimeSeries; Buckets; Queues; PubSub; Query; Vector; Search; Maintenance].

Definition view_name (v : ViewType) : jstr :=
  match v with
  | Dashboard => js "dashboard" | Collections => js "collections" | TimeSeries => js "timeseries"
  | Buckets => js "buckets" | Queues => js "queues" | PubSub => js "pubsub" | Query => js "query"
  | Vector => js "vector" | Search => js "search" | Maintenance => js "maintenance"
  end.

Definition view_of (name : jstr) : option ViewType := List.find (fun v => str_eq name (view_name v)) all_views.

Lemma view_names : view_name <$> all_views = Sidebar.view_types.
Proof. reflexivity. Qed.

Lemma view_of_name v : view_of (view_name v) = Some v.
Proof. by destruct v. Qed.

Lemma view_of_type name : name ∈ Sidebar.view_types -> exists v, view_of name = Some v /\ name = view_name v.
Proof.
  rewrite <- view_names. intros (v & -> & _)%list_elem_of_fmap. exists v. by rewrite view_of_name.
Qed.

Section Studio.
Context `{Engine} `{Locale} `{Zone} (origin : jstr).

(** The component [App] shows for a view. *)
Definition comp (v : ViewType) : component :=
  match v with
  | Dashboard => DashboardView.DashboardView origin
  | Collections => CollectionsView.CollectionsView
  | TimeSeries => TimeSeriesView.TimeSeriesView
  | Buckets => BucketsView.BucketsView
  | Queues => QueueView.QueueView
  | PubSub => PubSubView.PubSubView
  | Query => QueryConsoleView.QueryConsoleView
  | Vector => VectorPlaygroundView.VectorPlaygroundView
  | Search => SearchPlaygroundView.SearchPlaygroundView
  | Maintenance => MaintenanceView.MaintenanceView
  end.

(** Whether a view shows that it is waiting. *)
Definition busy (v : ViewType) : State (comp v) -> bool :=
  match v with
  | Dashboard => fun _ => false
  | Collections => CollectionsView.loading
  | TimeSeries => TimeSeriesView.loading
  | Buckets => BucketsView.loading
  | Queues => QueueView.loading
  | PubSub => PubSubView.loading
  | Query => QueryConsoleView.loading
  | Vector => VectorPlaygroundView.loading
  | Search => SearchPlaygroundView.loading
  | Maintenance => fun s =>
      MaintenanceView.loadingCheck s || MaintenanceView.loadingCheckpoint s || MaintenanceView.loadingBackup s
  end.

(** How many answers a suspended part can lead to. *)
Definition weight (v : ViewType) : Kont (comp v) -> nat :=
  match v with
  | Collections => CollectionsView.collections_weight
  | TimeSeries => TimeSeriesView.timeseries_weight
  | Buckets => BucketsView.buckets_weight
  | Queues => QueueView.queue_weight
  | PubSub => PubSubView.pubsub_weight
  | Dashboard | Query | Vector | Search | Maintenance => fun _ => 1
  end.

(** The intervals a view runs. *)
Definition view_polls (v : ViewType) : nat := match v with Queues | PubSub => 1 | _ => 0 end.

Lemma comp_calm v : view_polls v = 0 -> Emitting (comp v) calm.
Proof. destruct v; try done; intros _; simpl; exact _. Qed.

#[export] Instance comp_api v : Emitting (comp v) sends_api.
Proof.
  destruct (decide (view_polls v = 0)) as [Hv|Hv]; [eapply emitting_mono; [|by apply comp_calm]; by intros c []|].
  destruct v; try done; simpl; exact _.
Qed.

#[export] Instance comp_polls v : Polls (comp v) (view_polls v).
Proof.
  destruct (decide (view_polls v = 0)) as [Hv|Hv]; [rewrite Hv; by apply calm_polls, comp_calm|].
  destruct v; try done; simpl; exact _.
Qed.

#[export] Instance comp_drains v : Drains (comp v) (weight v).
Proof. destruct v; simpl; exact _. Qed.

#[export] Instance comp_waits v : Waits (comp v) (busy v).
Proof. destruct v; simpl; try exact _. by split. Qed.

(** A component whose commits end: after every task, and at the first commit,
    no effect is left whose dependencies changed. *)
Definition settling (C : component) : Prop := forall old p s, settles C commit_fuel old p s = true.

Lemma comp_settles v : settling (comp v).
Proof.
  intros old p s. destruct v.
  - apply DashboardView.dashboard_settles.
  - apply CollectionsView.collections_settles.
  - apply TimeSeriesView.timeseries_settles.
  - apply BucketsView.buckets_settles.
  - apply QueueView.queue_settles.
  - apply PubSubView.pubsub_settles.
  - revert old p s. by apply (settles_by QueryConsoleView.QueryConsoleView (fun _ => tt)).
  - revert old p s. by apply (settles_by VectorPlaygroundView.VectorPlaygroundView (fun _ => tt)).
  - apply SearchPlaygroundView.search_settles.
  - apply MaintenanceView.maintenance_settles.
Qed.

(** The commits the model makes after a task end within its bound, from every
    state: no dependency of an effect is left changed. Dependencies are compared by
    value here; that an array or an object is a new one is not seen. *)
Lemma commits_end host :
  (forall v, settling (comp v)) /\ settling App.App /\ settling (DashboardApp.App origin host).
Proof.
  split_and!; [exact comp_settles|intros old p s; apply App.app_settles|intros old p s; apply DashboardApp.dashboard_app_settles].
Qed.

(** A component whose waiting ends. *)
Definition ends_waiting (C : component) (w : Kont C -> nat) (flag : State C -> bool) : Prop :=
  forall p0 c ins c' o,
  reachable C p0 c -> run C c ins = Some (c', o) -> Forall is_answer ins ->
  length ins <= weigh w (cpend c)
  /\ (flag (cstate c') = true ->
      forall e, exists n c'' o', exec C c' (IResume n (Settled (NetworkError e))) = Some (c'', o')).

(** C21: waiting ends: from every configuration a view, the shell or the dashboard
    reaches, a run of answers alone is never longer than the weight of what is
    pending, and while a waiting notice is still shown another answer can come. So
    once every request has been answered, no notice is left. *)
Theorem answers_end_waiting host :
  (forall v, ends_waiting (comp v) (weight v) (busy v))
  /\ ends_waiting App.App App.app_weight App.loading
  /\ ends_waiting (DashboardApp.App origin host) (fun _ => 1) DashboardApp.benchmarking.
Proof. split_and!; [intros v|..]; intros p0 c ins c' o; apply quiesces; exact _. Qed.

(** C36: one request at a time: in every configuration the query console, the two
    search playgrounds, the maintenance tools, the publish form and the probe of
    the dashboard reach, the flag that disables their button is up exactly while
    one request of that button is pending. *)
Theorem buttons_single_flight host :
  (forall p0 c, reachable QueryConsoleView.QueryConsoleView p0 c ->
     length (cpend c) = if QueryConsoleView.loading (cstate c) then 1 else 0)
  /\ (forall p0 c, reachable VectorPlaygroundView.VectorPlaygroundView p0 c ->
     length (cpend c) = if VectorPlaygroundView.loading (cstate c) then 1 else 0)
  /\ (forall p0 c, reachable SearchPlaygroundView.SearchPlaygroundView p0 c ->
     length (cpend c) = if SearchPlaygroundView.loading (cstate c) then 1 else 0)
  /\ (forall tool p0 c, reachable MaintenanceView.MaintenanceView p0 c ->
     count_pend (MaintenanceView.own_request tool) (cpend c) = if MaintenanceView.busy tool (cstate c) then 1 else 0)
  /\ (forall p0 c, reachable PubSubView.PubSubView p0 c ->
     count_pend PubSubView.is_publish (cpend c) = if PubSubView.loading (cstate c) then 1 else 0)
  /\ (forall p0 c, reachable (DashboardApp.App origin host) p0 c ->
     count_pend DashboardApp.is_probe (cpend c) = if DashboardApp.benchmarking (cstate c) then 1 else 0).
Proof.
  split_and!.
  - exact QueryConsoleView.query_single_flight.
  - exact VectorPlaygroundView.vector_single_flight.
  - exact SearchPlaygroundView.text_single_flight.
  - exact MaintenanceView.tools_single_flight.
  - exact PubSubView.publish_single_flight.
  - exact (DashboardApp.probe_single_flight origin host).
Qed.

(** Running an effect once more, in any configuration the component reaches with
    such props, is the same as not running it. *)
Definition rerun_idle (C : component) (ok : Props C -> Prop) (e : effect (Props C) (State C) (Kont C)) : Prop :=
  forall p0 c, reachable C p0 c -> ok (cprops c) -> eff_body e (cprops c) (cstate c) (cstate c) = pskip (cstate c).

(** The effects that depend on the catalog may run again at any time: in every
    configuration the collection browser, the bucket browser and the full-text
    playground reach, running such an effect once more on the same catalog is the
    same as not running it. The catalog is a new object after every poll, so this
    is what makes running the effect for each new object, as the source does, and
    only when the names in it changed, as the model does, agree. A collection or a
    bucket with an empty name is left aside. *)
Theorem catalog_effects_idle :
  rerun_idle CollectionsView.CollectionsView (fun p => [] ∉ CollectionsView.names p) CollectionsView.catalog_effect
  /\ rerun_idle BucketsView.BucketsView (fun p => [] ∉ BucketsView.names p) BucketsView.first_bucket_effect
  /\ rerun_idle SearchPlaygroundView.SearchPlaygroundView (fun _ => True) SearchPlaygroundView.sync_effect.
Proof.
  split_and!.
  - intros p0 c Hr Hn. apply CollectionsView.sync_selection_idle; [|done].
    exact (invariant_reachable CollectionsView.CollectionsView (fun c s _ => CollectionsView.selection_valid c s) p0 c Hr).
  - intros p0 c Hr Hn. apply BucketsView.first_bucket_idle; [|done].
    exact (invariant_reachable BucketsView.BucketsView (fun c s _ => BucketsView.chosen c s) p0 c Hr).
  - intros p0 c Hr _. apply SearchPlaygroundView.sync_idle.
    exact (invariant_reachable SearchPlaygroundView.SearchPlaygroundView (fun c s _ => SearchPlaygroundView.collection_valid c s) p0 c Hr).
Qed.

End Studio.

(** ** The theorems on concrete views *)

Module Examples.

#[local] Existing Instance plain_engine.
#[local] Existing Instance plain_locale.
#[local] Existing Instance TimeSeriesView.Examples.bangkok.

Definition origin : jstr := js "http://localhost:8080".

(** A bucket browser just opened, whose scan then fails. *)
Definition buckets : option CatalogData := Some (catalog_with ["sessions"; "users"]%string ["users"]%string).

Definition browsing : config (comp origin Buckets) := (mount (comp origin Buckets) buckets).1.

Definition failure (C : component) : React.input C := IResume 0 (Settled (NetworkError (mk_err (js "Failed to fetch")))).

Lemma answers_end_waiting_witness :
  exists c' o, run (comp origin Buckets) browsing [failure (comp origin Buckets)] = Some (c', o)
    /\ 1 <= weigh (weight origin Buckets) (cpend browsing)
    /\ busy origin Buckets (cstate browsing) = true /\ busy origin Buckets (cstate c') = false.
Proof.
  destruct (can_exec (comp origin Buckets) browsing (failure (comp origin Buckets))) as (c' & o & E); [vm_compute; reflexivity|].
  assert (run (comp origin Buckets) browsing [failure (comp origin Buckets)] = Some (c', o ++ [])) as Er
    by (cbn [run]; rewrite E; reflexivity).
  exists c', (o ++ []). split; [exact Er|].
  destruct (proj1 (answers_end_waiting origin (js "localhost")) Buckets buckets browsing [failure _] c' (o ++ [])) as [Hl _];
    [apply reach_mount|exact Er|repeat constructor|]. split; [exact Hl|]. split; [vm_compute; reflexivity|].
  assert (busy origin Buckets <$> after (comp origin Buckets) browsing [failure _] = Some false) as Ha by (vm_compute; reflexivity).
  unfold after in Ha. rewrite Er in Ha. injection Ha as Ha. exact Ha.
Defined.

(** After a click on the first maintenance tool. *)
Definition checking : list (React.input MaintenanceView.MaintenanceView) := [IEvent 0 PClick].

Lemma buttons_single_flight_witness :
  exists c o, run MaintenanceView.MaintenanceView (mount MaintenanceView.MaintenanceView tt).1 checking = Some (c, o)
    /\ MaintenanceView.busy MaintenanceView.RunCheck (cstate c) = true
    /\ count_pend (MaintenanceView.own_request MaintenanceView.RunCheck) (cpend c)
       = (if MaintenanceView.busy MaintenanceView.RunCheck (cstate c) then 1 else 0).
Proof.
  destruct (after_run MaintenanceView.MaintenanceView (mount MaintenanceView.MaintenanceView tt).1 checking
    (default MaintenanceView.init (after MaintenanceView.MaintenanceView (mount MaintenanceView.MaintenanceView tt).1 checking)))
    as (c & o & E & Hs); [vm_compute; reflexivity|].
  exists c, o. split; [exact E|]. split; [rewrite Hs; vm_compute; reflexivity|].
  destruct (buttons_single_flight origin (js "localhost")) as (_ & _ & _ & Ht & _).
  apply (Ht MaintenanceView.RunCheck tt c). eapply reachable_run; [apply reach_mount|exact E].
Defined.

Lemma catalog_effects_idle_witness :
  eff_body BucketsView.first_bucket_effect (cprops browsing) (cstate browsing) (cstate browsing) = pskip (cstate browsing)
  /\ eff_body CollectionsView.catalog_effect buckets (cstate (mount CollectionsView.CollectionsView buckets).1)
       (cstate (mount CollectionsView.CollectionsView buckets).1)
     = pskip (cstate (mount CollectionsView.CollectionsView buckets).1).
Proof.
  destruct catalog_effects_idle as (Hc & Hb & _). split.
  - apply (Hb buckets); [apply reach_mount|]. apply (bool_decide_unpack _). vm_compute. reflexivity.
  - apply (Hc buckets (mount CollectionsView.CollectionsView buckets).1); [apply reach_mount|].
    apply (bool_decide_unpack _). vm_compute. reflexivity.
Defined.

End Examples.
