(* ===== verification/Page.v ===== *)
(** The studio's page: the shell of [App.tsx], the one view it shows inside the
    error boundary, and the views left behind whose requests are still to be
    answered. [main.tsx] renders it.

    The shell and the views are the components of their own files; this file
    adds what they do to each other: the shell passes its statistics and catalog
    down, mounts and unmounts the view the navigation names, a view calls the
    shell back, and a rendering that throws unmounts the view and raises the
    boundary. A view that was unmounted has no timers of its effects any more
    (their clean-ups stop them), renders nothing and runs no effect, but the
    code after its [await]s still runs. *)

From S2P Require Import QueryConsoleView VectorPlaygroundView SearchPlaygroundView MaintenanceView CollectionsView.
From S2P Require Import BucketsView QueueView PubSubView TimeSeriesView DashboardView App Studio.
From S2P Require Import Prelude JsString JsNumber JsDate Json Api Types React LatestWins Quiescence ViewCommon Components.

Open Scope nat_scope.

(** ** Commits that may throw *)

Section Painting.
Context (C : component).

(** The commits of [flush], each rendering before its effects run. They stop
    when a rendering throws; the flag says whether none did. *)
Fixpoint paint (fuel : nat) (old : option (Props C * State C)) (p : Props C) (s : State C)
  : bool * (State C * list (cmd (Kont C))) :=
  match render C p s, fuel with
  | None, _ => (false, (s, []))
  | Some _, O => (true, (s, []))
  | Some _, S f =>
      if any_changed C old (p, s) then
        let '(s1, c1) := run_effects C old (p, s) s in
        let '(ok, (s2, c2)) := paint f (Some (p, s)) p s1 in (ok, (s2, c1 ++ c2))
      else (true, (s, []))
  end.

Lemma paint_flush fuel old p s r : paint fuel old p s = (true, r) -> flush C fuel old p s = r /\ is_Some (render C p r.1).
Proof.
  revert old s r. induction fuel as [|f IH]; intros old s r; simpl; destruct (render C p s) as [t|] eqn:Et; try done.
  - intros [= <-]. by split; [|simpl; rewrite Et].
  - destruct (any_changed C old (p, s)); [|intros [= <-]; by split; [|simpl; rewrite Et]].
    destruct (run_effects C old (p, s) s) as [s1 c1]. destruct (paint f (Some (p, s)) p s1) as [ok [s2 c2]] eqn:Ep.
    intros [= -> <-]. destruct (IH _ _ _ Ep) as [-> Hr]. done.
Qed.

(** What was emitted before a rendering threw was emitted by some of the effects. *)
Lemma paint_emits Q fuel old p s :
  (forall e p s, e ∈ effects C -> emits Q (eff_body e p s)) -> Forall Q (paint fuel old p s).2.2.
Proof.
  intros HQ. revert old s. induction fuel as [|f IH]; intros old s; simpl; destruct (render C p s); try constructor.
  destruct (any_changed C old (p, s)); [|constructor].
  pose proof (run_list_emits C Q (effects C) old (p, s) HQ s) as Hl. fold (run_effects C old (p, s)) in Hl.
  destruct (run_effects C old (p, s) s) as [s1 c1]. specialize (IH (Some (p, s)) s1).
  destruct (paint f (Some (p, s)) p s1) as [ok [s2 c2]]. by apply Forall_app.
Qed.

(** A component on the page: whether it still renders, its configuration, and
    what it emitted. *)
Definition painted : Type := bool * (config C * list (cmd (Kont C))).

Definition finish (p : Props C) (pend : list (pending (Kont C))) (c1 : list (cmd (Kont C)))
  (r : bool * (State C * list (cmd (Kont C)))) : painted :=
  let '(ok, (s, c2)) := r in (ok, (mk_config C p s (pend ++ pends (c1 ++ c2)), c1 ++ c2)).

(** Mounting, new props, and a task. *)
Definition paint_mount (p : Props C) : painted := finish p [] [] (paint commit_fuel None p (initial C p)).

Definition paint_props (c : config C) (p : Props C) : painted :=
  finish p (cpend c) [] (paint commit_fuel (Some (cprops c, cstate c)) p (cstate c)).

Definition paint_task (p : Props C) (s : State C) (pend : list (pending (Kont C))) (m : prog (State C) (Kont C)) : painted :=
  let '(s1, c1) := m s in finish p pend c1 (paint commit_fuel (Some (p, s)) p s1).

(** What an event or an answer runs, and what stays pending meanwhile. *)
Definition begins (c : config C) (i : React.input C) : option (list (pending (Kont C)) * prog (State C) (Kont C)) :=
  match i with
  | IEvent n pl =>
      tree ← render C (cprops c) (cstate c);
      h ← handlers tree !! n;
      a ← fire h pl;
      Some (cpend c, handle C (cprops c) (cstate c) a)
  | IResume n o =>
      q ← cpend c !! n;
      keep ← after_resume C q o;
      _ ← (if accepts C (kont_of q) o then Some () else None);
      Some (take n (cpend c) ++ keep ++ drop (S n) (cpend c), resume C (kont_of q) o)
  | ICall _ _ | IProps _ => None
  end.

Lemma begins_exec c i pend m :
  begins c i = Some (pend, m) -> exec C c i = Some (task C (cprops c) (cstate c) pend m).
Proof.
  destruct i as [n pl|n pl|n o|p]; try done; simpl.
  - destruct (render C _ _) as [t|]; [|done]. simpl. destruct (handlers t !! n) as [h|]; [|done]. simpl.
    destruct (fire h pl) as [a|]; [|done]. by intros [= <- <-].
  - destruct (cpend c !! n) as [q|]; [|done]. simpl. destruct (after_resume C q o) as [keep|]; [|done]. simpl.
    destruct (accepts C (kont_of q) o); [|done]. by intros [= <- <-].
Qed.

Lemma begins_prog c i pend m : begins c i = Some (pend, m) ->
  (pend = cpend c /\ exists a, m = handle C (cprops c) (cstate c) a)
  \/ exists n q o keep, i = IResume n o /\ cpend c !! n = Some q /\ after_resume C q o = Some keep
     /\ accepts C (kont_of q) o = true
     /\ pend = take n (cpend c) ++ keep ++ drop (S n) (cpend c) /\ m = resume C (kont_of q) o.
Proof.
  destruct i as [n pl|n pl|n o|p]; try done; simpl.
  - destruct (render C _ _) as [t|]; [|done]. simpl. destruct (handlers t !! n) as [h|]; [|done]. simpl.
    destruct (fire h pl) as [a|]; [|done]. intros [= <- <-]. eauto.
  - destruct (cpend c !! n) as [q|] eqn:Eq; [|done]. simpl. destruct (after_resume C q o) as [keep|] eqn:Ek; [|done]. simpl.
    destruct (accepts C (kont_of q) o) eqn:Ea; [|done]. intros [= <- <-]. right. by exists n, q, o, keep.
Qed.

(** What such a task runs, and emits, the component emits. *)
Lemma begins_emits Q `{!Emitting C Q} c i pend m : begins c i = Some (pend, m) -> emits Q m.
Proof. intros [(_ & a & ->)|(n & q & o & keep & _ & _ & _ & _ & _ & ->)]%begins_prog; [apply em_handle|apply em_resume]. Qed.

Lemma finish_emits Q p pend c1 r : Forall Q c1 -> Forall Q r.2.2 -> Forall Q (finish p pend c1 r).2.2.
Proof. intros H1 H2. destruct r as [ok [s c2]]. by apply Forall_app. Qed.

Lemma paint_task_emits Q `{!Emitting C Q} p s pend m : emits Q m -> Forall Q (paint_task p s pend m).2.2.
Proof.
  intros Hm. unfold paint_task. specialize (Hm s). destruct (m s) as [s1 c1]. apply finish_emits; [done|].
  apply paint_emits, em_effect.
Qed.

Lemma begins_intervals c i pend m : begins c i = Some (pend, m) -> intervals pend = intervals (cpend c).
Proof.
  intros [[-> _]|(n & q & o & keep & _ & Eq & Ek & _ & -> & _)]%begins_prog; [done|].
  rewrite <- (take_drop_middle _ _ _ Eq) at 3. change (q :: drop (S n) (cpend c)) with ([q] ++ drop (S n) (cpend c)).
  by rewrite !intervals_app, (resume_intervals C q o keep Ek).
Qed.

(** A task that still renders is a step of the component's own event loop, and
    so are mounting and new props. *)
Lemma task_painted p s pend m r : paint_task p s pend m = (true, r) -> task C p s pend m = r /\ is_Some (render C p (cstate r.1)).
Proof.
  unfold paint_task, task, finish. destruct (m s) as [s1 c1].
  destruct (paint commit_fuel (Some (p, s)) p s1) as [ok [s2 c2]] eqn:Ep. intros [= -> <-].
  destruct (paint_flush _ _ _ _ _ Ep) as [-> Hr]. done.
Qed.

Lemma mount_painted p r : paint_mount p = (true, r) -> mount C p = r /\ is_Some (render C p (cstate r.1)).
Proof.
  unfold paint_mount, mount, finish. destruct (paint commit_fuel None p (initial C p)) as [ok [s2 c2]] eqn:Ep.
  intros [= -> <-]. destruct (paint_flush _ _ _ _ _ Ep) as [-> Hr]. done.
Qed.

Lemma props_painted c p r :
  paint_props c p = (true, r) -> exec C c (IProps p) = Some r /\ is_Some (render C p (cstate r.1)).
Proof.
  unfold paint_props, exec, finish. destruct (paint commit_fuel (Some (cprops c, cstate c)) p (cstate c)) as [ok [s2 c2]] eqn:Ep.
  intros [= -> <-]. destruct (paint_flush _ _ _ _ _ Ep) as [-> Hr]. done.
Qed.

End Painting.

#[global] Arguments begins : simpl never.

(** A request answered with success, with a value its decoder takes. *)
Definition answered `{Engine} {A} (dec : val -> option A) (o : outcome) : bool :=
  match o with
  | Settled f => match settle f with inr v => bool_decide (is_Some (dec v)) | inl _ => false end
  | Fired => false
  end.

(** ** The page *)

Section Page.
Context `{Engine} `{Locale} `{Zone} (origin : jstr).

Abbreviation comp := (Studio.comp origin).

(** What React reports when a view's rendering throws. *)
Context (thrown : forall v, Props (comp v) -> State (comp v) -> jserr).

(** A view with its cells. *)
Definition hosted : Type := {v : ViewType & config (comp v)}.

Record page := mk_page {
  shell : config App.App;
  now : Z;                            (* the clock the time-series view reads *)
  boundary : ErrorBoundary.State;
  shown : option hosted;
  behind : list hosted;
}.

(** What the page does that is seen outside: requests and calls of the browser. *)
Inductive output := Sent (r : http_request) | Did (e : external).

Definition output_of {K} (c : cmd K) : list output :=
  match c with
  | Fetch r _ => [Sent r]
  | Ext OnRefreshCatalog | Ext (OnNavigate _) | Timer _ _ | Interval _ _ => []
  | Ext e => [Did e]
  end.

Definition outputs {K} (cs : list (cmd K)) : list output := mjoin (output_of <$> cs).

(** The props the shell gives each view. *)
Definition props (v : ViewType) (t : Z) (s : App.Cells) : Props (comp v) :=
  match v with
  | Dashboard => {| DashboardView.stats := App.stats s; DashboardView.catalog := App.catalog s |}
  | Collections | Buckets | Query | Vector | Search => App.catalog s
  | TimeSeries => t
  | Queues => None
  | PubSub | Maintenance => tt
  end.

(** *** Calls from a view to the shell *)

Definition call_shell (n : nat) (pl : payload) (sh : config App.App) : config App.App * list output :=
  match exec App.App sh (ICall n pl) with Some (sh', cs) => (sh', outputs cs) | None => (sh, []) end.

(** [onNavigate] is [setCurrentView], [onRefreshCatalog] is [fetchData]. *)
Definition call_of {K} (c : cmd K) (sh : config App.App) : config App.App * list output :=
  match c with
  | Ext (OnNavigate v) => call_shell 0 (PText v) sh
  | Ext OnRefreshCatalog => call_shell 1 PClick sh
  | _ => (sh, [])
  end.

Fixpoint calls {K} (cs : list (cmd K)) (sh : config App.App) : config App.App * list output :=
  match cs with
  | [] => (sh, [])
  | c :: r => let '(sh1, o1) := call_of c sh in let '(sh2, o2) := calls r sh1 in (sh2, o1 ++ o2)
  end.

(** *** Mounting and unmounting *)

(** The clean-ups of a view's effects. *)
Definition cleanup {K} (v : ViewType) (pend : list (pending K)) : list (pending K) :=
  match v with Queues => QueueView.poll_cleanup pend | PubSub => PubSubView.poll_cleanup pend | _ => pend end.

(** Unmounting runs them. *)
Definition leave (h : hosted) : hosted :=
  let 'existT v c := h in existT v (mk_config (comp v) (cprops c) (cstate c) (cleanup v (cpend c))).

(** The view as it was painted, or the fallback of the boundary. *)
Definition place (pg : page) (v : ViewType) (r : painted (comp v)) : page * list output :=
  let '(ok, (c, cs)) := r in
  if ok then (mk_page (shell pg) (now pg) (boundary pg) (Some (existT v c)) (behind pg), outputs cs)
  else
    let e := thrown v (cprops c) (cstate c) in
    (mk_page (shell pg) (now pg) (ErrorBoundary.getDerivedStateFromError e) None (leave (existT v c) :: behind pg),
     outputs cs ++ (Did <$> ErrorBoundary.componentDidCatch e)).

(** The children of the boundary after the shell rendered: the view the
    navigation names, with the shell's current data. *)
Definition reconcile (pg : page) : page * list output :=
  if ErrorBoundary.hasError (boundary pg) then (pg, [])
  else match view_of (App.currentView (cstate (shell pg))) with
  | None => (pg, [])
  | Some v =>
      let mounted pg := place pg v (paint_mount (comp v) (props v (now pg) (cstate (shell pg)))) in
      match shown pg with
      | None => mounted pg
      | Some (existT v' c) =>
          if bool_decide (v' = v) then place pg v' (paint_props (comp v') c (props v' (now pg) (cstate (shell pg))))
          else mounted (mk_page (shell pg) (now pg) (boundary pg) None (leave (existT v' c) :: behind pg))
      end
  end.

(** *** Steps *)

Inductive page_input :=
| ShellEvent (n : nat) (pl : payload)
| ShellAnswer (n : nat) (o : outcome)
| ViewEvent (n : nat) (pl : payload)
| ViewAnswer (n : nat) (o : outcome)
| LeftAnswer (m n : nat) (o : outcome)
| Retry
| Clock (t : Z).

Definition with_shell (pg : page) (sh : config App.App) : page :=
  mk_page sh (now pg) (boundary pg) (shown pg) (behind pg).

Definition shell_task (pg : page) (i : React.input App.App) : option (page * list output) :=
  '(sh, cs) ← exec App.App (shell pg) i;
  Some (with_shell pg sh, outputs cs).

(** A task of the view on the page: its commits, and the calls to the shell it made. *)
Definition view_task (pg : page) (i : forall C, React.input C) : option (page * list output) :=
  '(existT v c) ← shown pg;
  '(pend, m) ← begins (comp v) c (i (comp v));
  let r := paint_task (comp v) (cprops c) (cstate c) pend m in
  let placed := place pg v r in
  let called := calls r.2.2 (shell pg) in
  Some (with_shell placed.1 called.1, placed.2 ++ called.2).

(** The code after an [await] of a view that is not on the page any more. *)
Definition detached {v} (c : config (comp v)) (pend : list (pending (Kont (comp v))))
  (r : State (comp v) * list (cmd (Kont (comp v)))) : hosted :=
  existT v (mk_config (comp v) (cprops c) r.1 (pend ++ pends r.2)).

Definition left_task (pg : page) (m n : nat) (o : outcome) : option (page * list output) :=
  '(existT v c) ← behind pg !! m;
  '(pend, p) ← begins (comp v) c (IResume n o);
  let r := p (cstate c) in
  let called := calls r.2 (shell pg) in
  Some (mk_page called.1 (now pg) (boundary pg) (shown pg) (<[m := detached c pend r]> (behind pg)), outputs r.2 ++ called.2).

Definition page_task (pg : page) (i : page_input) : option (page * list output) :=
  match i with
  | ShellEvent n pl => shell_task pg (IEvent n pl)
  | ShellAnswer n o => shell_task pg (IResume n o)
  | ViewEvent n pl => view_task pg (fun _ => IEvent n pl)
  | ViewAnswer n o => view_task pg (fun _ => IResume n o)
  | LeftAnswer m n o => left_task pg m n o
  | Retry =>
      if ErrorBoundary.hasError (boundary pg)
      then Some (mk_page (shell pg) (now pg) ErrorBoundary.retry (shown pg) (behind pg), [])
      else None
  | Clock t => Some (mk_page (shell pg) t (boundary pg) (shown pg) (behind pg), [])
  end.

(** What a task did, then what the shell's rendering does. *)
Definition rendering (r : page * list output) : page * list output :=
  let '(pg, o1) := r in let '(pg', o2) := reconcile pg in (pg', o1 ++ o2).

#[global] Arguments rendering : simpl never.

Definition page_exec (pg : page) (i : page_input) : option (page * list output) :=
  r ← page_task pg i; Some (rendering r).

(** [main.tsx]: the first rendering, with what [localStorage] holds. *)
Definition opened (saved : option jstr) (t : Z) : page * list output :=
  let '(sh, cs) := mount App.App saved in
  rendering (mk_page sh t ErrorBoundary.initial None [], outputs cs).

Inductive page_reachable (saved : option jstr) (t : Z) : page -> Prop :=
| page_opened : page_reachable saved t (opened saved t).1
| page_step pg i pg' o : page_reachable saved t pg -> page_exec pg i = Some (pg', o) -> page_reachable saved t pg'.

Fixpoint page_run (pg : page) (ins : list page_input) : option (page * list output) :=
  match ins with
  | [] => Some (pg, [])
  | i :: r => '(pg1, o1) ← page_exec pg i; '(pg2, o2) ← page_run pg1 r; Some (pg2, o1 ++ o2)
  end.

(** ** Case analysis on a task *)

Inductive tasked (pg : page) : page_input -> page -> list output -> Prop :=
| by_shell i j sh cs : exec App.App (shell pg) j = Some (sh, cs) -> tasked pg i (with_shell pg sh) (outputs cs)
| by_view i v (c : config (comp v)) j pend m :
    shown pg = Some (existT v c) -> begins (comp v) c j = Some (pend, m) ->
    let r := paint_task (comp v) (cprops c) (cstate c) pend m in
    tasked pg i (with_shell (place pg v r).1 (calls r.2.2 (shell pg)).1) ((place pg v r).2 ++ (calls r.2.2 (shell pg)).2)
| by_left i (m : nat) v (c : config (comp v)) j pend p :
    behind pg !! m = Some (existT v c : hosted) -> begins (comp v) c j = Some (pend, p) ->
    let r := p (cstate c) in
    tasked pg i (mk_page (calls r.2 (shell pg)).1 (now pg) (boundary pg) (shown pg) (<[m := detached c pend r]> (behind pg)))
      (outputs r.2 ++ (calls r.2 (shell pg)).2)
| by_retry : ErrorBoundary.hasError (boundary pg) = true ->
    tasked pg Retry (mk_page (shell pg) (now pg) ErrorBoundary.retry (shown pg) (behind pg)) []
| by_clock i t : tasked pg i (mk_page (shell pg) t (boundary pg) (shown pg) (behind pg)) [].

Lemma page_task_cases pg i pg' o : page_task pg i = Some (pg', o) -> tasked pg i pg' o.
Proof.
  assert (forall i j, shell_task pg j = Some (pg', o) -> tasked pg i pg' o) as Hs.
  { intros i0 j. unfold shell_task. destruct (exec App.App (shell pg) j) as [[sh cs]|] eqn:E; [|done].
    intros [= <- <-]. by eapply by_shell. }
  assert (forall i j, view_task pg j = Some (pg', o) -> tasked pg i pg' o) as Hv.
  { intros i0 j. unfold view_task. destruct (shown pg) as [[v c]|] eqn:E; [|done]. cbn [mbind option_bind].
    destruct (begins (comp v) c (j (comp v))) as [[pend m]|] eqn:Eb; [|done]. intros [= <- <-]. by eapply by_view. }
  destruct i as [n pl|n out|n pl|n out|m n out| |t]; cbn [page_task]; [apply Hs|apply Hs|apply Hv|apply Hv|..].
  - unfold left_task. destruct (behind pg !! m) as [[v c]|] eqn:E; [|done]. cbn [mbind option_bind].
    destruct (begins (comp v) c (IResume n out)) as [[pend p]|] eqn:Eb; [|done]. intros [= <- <-]. by eapply by_left.
  - destruct (ErrorBoundary.hasError (boundary pg)) eqn:E; [|done]. intros [= <- <-]. by apply by_retry.
  - intros [= <- <-]. apply by_clock.
Qed.

(** A step is a task, then the shell's rendering. *)
Lemma page_exec_cases pg i pg' o : page_exec pg i = Some (pg', o) ->
  exists pg0 o0, tasked pg i pg0 o0 /\ pg' = (reconcile pg0).1 /\ o = o0 ++ (reconcile pg0).2.
Proof.
  unfold page_exec. destruct (page_task pg i) as [[pg0 o0]|] eqn:E; [|done]. cbn [mbind option_bind]. unfold rendering.
  destruct (reconcile pg0) as [pg1 o1] eqn:Er. intros [= <- <-]. exists pg0, o0. rewrite Er.
  split; [by apply page_task_cases|done].
Qed.

(** ** The page refines its parts *)

Lemma call_reachable saved n pl sh : reachable App.App saved sh -> reachable App.App saved (call_shell n pl sh).1.
Proof.
  intros Hs. unfold call_shell. destruct (exec App.App sh (ICall n pl)) as [[sh' cs]|] eqn:E; [|done].
  by eapply reach_step.
Qed.

Lemma calls_reachable {K} saved (cs : list (cmd K)) sh :
  reachable App.App saved sh -> reachable App.App saved (calls cs sh).1.
Proof.
  revert sh. induction cs as [|c r IH]; intros sh Hs; [done|]. simpl.
  assert (reachable App.App saved (call_of c sh).1) as Hc1.
  { destruct c as [| | |[]]; try done; by apply call_reachable. }
  destruct (call_of c sh) as [sh1 o1]. specialize (IH sh1 Hc1). by destruct (calls r sh1).
Qed.

(** What holds of the view on the page. *)
Definition on_shown (pg : page) (P : forall v, config (comp v) -> Prop) : Prop :=
  match shown pg with Some (existT v c) => P v c | None => True end.

(** Before the shell's rendering: a view is there only when the boundary is down. *)
Definition unpainted (saved : option jstr) (pg : page) : Prop :=
  reachable App.App saved (shell pg)
  /\ on_shown pg (fun v c => ErrorBoundary.hasError (boundary pg) = false /\ exists p0, reachable (comp v) p0 c).

(** After it: the view the navigation names, with the shell's data. *)
Definition consistent (saved : option jstr) (pg : page) : Prop :=
  reachable App.App saved (shell pg)
  /\ match shown pg with
     | Some (existT v c) =>
         ErrorBoundary.hasError (boundary pg) = false
         /\ App.currentView (cstate (shell pg)) = view_name v
         /\ cprops c = props v (now pg) (cstate (shell pg))
         /\ (exists p0, reachable (comp v) p0 c)
         /\ is_Some (render (comp v) (cprops c) (cstate c))
     | None => ErrorBoundary.hasError (boundary pg) = true
     end.

Lemma place_consistent saved pg v (r : painted (comp v)) :
  reachable App.App saved (shell pg) -> ErrorBoundary.hasError (boundary pg) = false ->
  App.currentView (cstate (shell pg)) = view_name v ->
  (r.1 = true -> cprops r.2.1 = props v (now pg) (cstate (shell pg)) /\ (exists p0, reachable (comp v) p0 r.2.1)
     /\ is_Some (render (comp v) (cprops r.2.1) (cstate r.2.1))) ->
  consistent saved (place pg v r).1.
Proof.
  intros Hs Hb Hv Hr. destruct r as [[] [c cs]]; [|done]. destruct (Hr eq_refl) as (Hp & Hc & Ht). by split.
Qed.

Lemma mounted_consistent saved pg v :
  reachable App.App saved (shell pg) -> ErrorBoundary.hasError (boundary pg) = false ->
  App.currentView (cstate (shell pg)) = view_name v ->
  consistent saved (place pg v (paint_mount (comp v) (props v (now pg) (cstate (shell pg))))).1.
Proof.
  intros Hs Hb Hv. apply place_consistent; [done..|]. intros Hok. set (p := props v (now pg) (cstate (shell pg))) in *.
  destruct (paint_mount (comp v) p) as [ok r] eqn:E. simpl in Hok. subst ok. apply mount_painted in E as [<- Hr].
  assert (cprops (mount (comp v) p).1 = p) as Hp by (unfold mount; by destruct (flush _ _ _ _ _)).
  simpl. rewrite Hp. split_and!; [done|exists p; constructor|done].
Qed.

Lemma updated_consistent saved pg v (c : config (comp v)) p0 :
  reachable App.App saved (shell pg) -> ErrorBoundary.hasError (boundary pg) = false ->
  App.currentView (cstate (shell pg)) = view_name v -> reachable (comp v) p0 c ->
  consistent saved (place pg v (paint_props (comp v) c (props v (now pg) (cstate (shell pg))))).1.
Proof.
  intros Hs Hb Hv Hc. apply place_consistent; [done..|]. intros Hok. set (p := props v (now pg) (cstate (shell pg))) in *.
  destruct (paint_props (comp v) c p) as [ok [c' cs]] eqn:E. simpl in Hok. subst ok. apply props_painted in E as [E Hr].
  assert (cprops c' = p) as Hp.
  { unfold exec in E. destruct (flush _ _ _ _ _) as [s1 c1]. cbv beta iota in E. by injection E as <- _. }
  cbn [fst snd] in *. rewrite Hp. split_and!; [done|exists p0; by eapply reach_step|done].
Qed.

Lemma current_view saved sh : reachable App.App saved sh ->
  exists v, view_of (App.currentView (cstate sh)) = Some v /\ App.currentView (cstate sh) = view_name v.
Proof.
  intros Hr. apply view_of_type.
  exact (invariant_reachable App.App (fun _ s _ => App.currentView s ∈ Sidebar.view_types) saved sh Hr).
Qed.

Lemma reconcile_consistent saved pg : unpainted saved pg -> consistent saved (reconcile pg).1.
Proof.
  intros [Hs Hc]. unfold reconcile. destruct (ErrorBoundary.hasError (boundary pg)) eqn:Eb.
  - split; [done|]. unfold on_shown in Hc. simpl. destruct (shown pg) as [[v c]|]; [|done]. destruct Hc. congruence.
  - destruct (current_view saved (shell pg) Hs) as (v & -> & Hv). unfold on_shown in Hc.
    destruct (shown pg) as [[v' c]|]; [|by apply mounted_consistent]. case_bool_decide as Ev.
    + destruct Hc as [_ [p0 Hc]]. subst v'. by eapply updated_consistent.
    + by apply (mounted_consistent saved (mk_page _ _ _ _ _)).
Qed.

(** The view after one of its tasks. *)
Lemma view_unpainted saved pg v (c : config (comp v)) p0 i pend m :
  reachable App.App saved (shell pg) -> ErrorBoundary.hasError (boundary pg) = false -> reachable (comp v) p0 c ->
  begins (comp v) c i = Some (pend, m) ->
  unpainted saved (place pg v (paint_task (comp v) (cprops c) (cstate c) pend m)).1.
Proof.
  intros Hs Hb Hc E. apply begins_exec in E.
  destruct (paint_task (comp v) (cprops c) (cstate c) pend m) as [[] r] eqn:Ep; [|by destruct r].
  apply task_painted in Ep as [Ep _]. rewrite Ep in E. destruct r as [c' cs]. split; [done|].
  split; [done|]. exists p0. by eapply reach_step.
Qed.

Lemma tasked_unpainted saved pg i pg' o : consistent saved pg -> tasked pg i pg' o -> unpainted saved pg'.
Proof.
  intros [Hs Hc].
  assert (forall sh t l, reachable App.App saved sh -> unpainted saved (mk_page sh t (boundary pg) (shown pg) l)) as Hsh.
  { intros sh t l Hsh. split; [done|]. unfold on_shown. simpl. destruct (shown pg) as [[v c]|]; [|done].
    by destruct Hc as (? & _ & _ & ? & _). }
  destruct 1 as [i j sh cs E|i v c j pend m Es Eb r|i m v c j pend p Em Eb r|Eb|i t].
  - apply Hsh. by eapply reach_step.
  - rewrite Es in Hc. destruct Hc as (Hb & _ & _ & [p0 Hr] & _).
    destruct (view_unpainted saved pg v c p0 j pend m Hs Hb Hr Eb) as [_ Hu]. split; [by apply calls_reachable|exact Hu].
  - apply Hsh. by apply calls_reachable.
  - split; [done|]. unfold on_shown. simpl. destruct (shown pg) as [[v c]|]; [destruct Hc; congruence|done].
  - by apply Hsh.
Qed.

Lemma opened_reconciled saved t :
  (opened saved t).1 = (reconcile (mk_page (mount App.App saved).1 t ErrorBoundary.initial None [])).1.
Proof. unfold opened. destruct (mount App.App saved) as [sh cs]. unfold rendering. simpl. by destruct (reconcile _). Qed.

Lemma page_consistent saved t pg : page_reachable saved t pg -> consistent saved pg.
Proof.
  induction 1 as [|pg i pg' o _ IH E].
  - rewrite opened_reconciled. apply reconcile_consistent. split; [apply reach_mount|done].
  - apply page_exec_cases in E as (pg0 & o0 & Ht & -> & _). by eapply reconcile_consistent, tasked_unpainted.
Qed.

(** C2: the page refines its parts: in every state it reaches, whatever the user
    and the network did, the shell is in a configuration it reaches on its own;
    the view on the page is the one the navigation names, with the shell's
    current data, in a configuration that view reaches on its own and renders;
    and no view is there exactly when the error boundary is up. *)
Theorem page_refines saved t pg : page_reachable saved t pg -> consistent saved pg.
Proof. apply page_consistent. Qed.

(** ** Polling across the page *)

(** No interval is left behind; a view whose effects have no clean-up has none. *)
Definition tame (h : hosted) : Prop := view_polls (projT1 h) = 0 -> intervals (cpend (projT2 h)) = 0.

Definition silent (pg : page) : Prop :=
  Forall (fun h : hosted => intervals (cpend (projT2 h)) = 0) (behind pg) /\ on_shown pg (fun v c => tame (existT v c)).

Lemma clearInterval_none {K} (l : list (pending K)) : intervals (clearInterval l) = 0.
Proof.
  unfold intervals, clearInterval. rewrite list_filter_filter. induction l as [|q l IH]; [done|]. rewrite filter_cons_False; [done|]. by intros [-> ?].
Qed.

Lemma leave_silent (h : hosted) : tame h -> intervals (cpend (projT2 (leave h))) = 0.
Proof. destruct h as [v c]. intros Ht. destruct v; try (by apply Ht); apply clearInterval_none. Qed.

(** What a view without polls emits starts no interval. *)
Lemma finish_tame v p pend c1 fuel old s :
  (view_polls v = 0 -> intervals pend = 0 /\ Forall calm c1) -> tame (existT v (finish (comp v) p pend c1 (paint (comp v) fuel old p s)).2.1).
Proof.
  intros Hp Hv. destruct (Hp Hv) as [Hpend Hc1]. pose proof (comp_calm origin v Hv) as Hcalm.
  pose proof (paint_emits (comp v) calm fuel old p s em_effect) as H2. destruct (paint _ _ _ _ _) as [ok [s2 c2]]. cbn [snd] in H2.
  transitivity (intervals pend + intervals (pends (c1 ++ c2))); [apply intervals_app|]. rewrite Hpend. apply no_intervals, Forall_app. split; eapply Forall_impl; [exact Hc1|by intros c []|exact H2|by intros c []].
Qed.

Lemma paint_task_tame v p s pend m : (view_polls v = 0 -> intervals pend = 0) -> (forall Q, Emitting (comp v) Q -> emits Q m) ->
  tame (existT v (paint_task (comp v) p s pend m).2.1).
Proof.
  intros Hp Hm. unfold paint_task. destruct (m s) as [s1 c1] eqn:E. apply finish_tame. intros Hv. split; [by apply Hp|].
  specialize (Hm calm (comp_calm origin v Hv) s). by rewrite E in Hm.
Qed.

Lemma place_silent pg v (r : painted (comp v)) :
  Forall (fun h : hosted => intervals (cpend (projT2 h)) = 0) (behind pg) -> tame (existT v r.2.1) -> silent (place pg v r).1.
Proof.
  intros Hp Ht. destruct r as [[] [c cs]]; [by split|]. split; [|done]. apply Forall_cons. split; [|done].
  by apply (leave_silent (existT v c)).
Qed.

Lemma reconcile_silent pg : silent pg -> silent (reconcile pg).1.
Proof.
  intros [Hp Hs]. unfold reconcile. destruct (ErrorBoundary.hasError (boundary pg)); [done|].
  assert (forall v p, tame (existT v (paint_mount (comp v) p).2.1)) as Hm by (intros v p; by apply finish_tame).
  destruct (view_of _) as [v|]; [|done]. unfold on_shown in Hs. destruct (shown pg) as [[v' c]|] eqn:Es; [|by apply place_silent].
  case_bool_decide; [apply place_silent; [done|]; apply finish_tame; intros Hv; by split; [apply Hs|]|].
  apply place_silent; [|apply Hm]. apply Forall_cons. split; [|done]. by apply (leave_silent (existT v' c)).
Qed.

Lemma tasked_silent pg i pg' o : silent pg -> tasked pg i pg' o -> silent pg'.
Proof.
  intros [Hp Hs]. destruct 1 as [i j sh cs E|i v c j pend m Es Eb r|i m v c j pend p Em Eb r|Eb|i t]; try (by split).
  - unfold on_shown in Hs. rewrite Es in Hs. apply (place_silent pg v r Hp). apply paint_task_tame.
    + intros Hv. rewrite (begins_intervals _ _ _ _ _ Eb). by apply Hs.
    + intros Q HQ. by eapply begins_emits.
  - split; [|exact Hs]. apply Forall_insert; [done|]. simpl. rewrite intervals_app, (begins_intervals _ _ _ _ _ Eb).
    rewrite Forall_lookup in Hp. specialize (Hp m _ Em). simpl in Hp. rewrite Hp. apply no_intervals.
    subst r. by apply begins_prog in Eb as [(_ & a & ->)|(n & q & o & keep & _ & _ & _ & _ & _ & ->)];
      [apply (polls_handle (C := comp v))|apply (polls_resume (C := comp v))].
Qed.

(** C29: polling follows the navigation: in every state the page reaches, the shell
    runs one interval, the view on the page those it polls with (one for the
    queues and for pub/sub, none for the others), and a view that was left none. *)
Theorem page_polls saved t pg :
  page_reachable saved t pg ->
  intervals (cpend (shell pg)) = 1
  /\ on_shown pg (fun v c => intervals (cpend c) = view_polls v)
  /\ Forall (fun h : hosted => intervals (cpend (projT2 h)) = 0) (behind pg).
Proof.
  intros Hr. assert (silent pg) as Hs.
  { induction Hr as [|pg i pg' o _ IH E].
    - rewrite opened_reconciled. apply reconcile_silent. by split.
    - apply page_exec_cases in E as (pg0 & o0 & Ht & -> & _). by eapply reconcile_silent, tasked_silent. }
  destruct (page_consistent saved t pg Hr) as [Hsh Hc].
  split_and!; [exact (polls_reachable App.App 1 saved _ Hsh)| |apply Hs].
  unfold on_shown. destruct (shown pg) as [[v c]|]; [|done]. destruct Hc as (_ & _ & _ & [p0 Hp0] & _).
  exact (polls_reachable (comp v) (view_polls v) p0 c Hp0).
Qed.

(** ** What the page sends *)

Definition api_output (o : output) : Prop := match o with Sent r => api_request r | Did _ => True end.

Lemma outputs_api {K} (cs : list (cmd K)) : Forall sends_api cs -> Forall api_output (outputs cs).
Proof.
  induction 1 as [|c l Hc _ IH]; [constructor|]. change (Forall api_output (output_of c ++ outputs l)).
  apply Forall_app. split; [|done]. by destruct c as [| | |[]]; simpl; rewrite ?Forall_singleton, ?Forall_nil.
Qed.

Lemma call_api n pl sh : Forall api_output (call_shell n pl sh).2.
Proof.
  unfold call_shell. destruct (exec App.App sh (ICall n pl)) as [[sh' cs]|] eqn:E; [|constructor].
  apply outputs_api. exact (exec_emits App.App sends_api sh _ sh' cs E).
Qed.

Lemma calls_api {K} (cs : list (cmd K)) sh : Forall api_output (calls cs sh).2.
Proof.
  revert sh. induction cs as [|c r IH]; intros sh; [constructor|]. simpl.
  assert (Forall api_output (call_of c sh).2) as Hc1 by (destruct c as [| | |[]]; try constructor; apply call_api).
  destruct (call_of c sh) as [sh1 o1]. specialize (IH sh1). destruct (calls r sh1). by apply Forall_app.
Qed.

Lemma place_api pg v (r : painted (comp v)) : Forall sends_api r.2.2 -> Forall api_output (place pg v r).2.
Proof.
  destruct r as [[] [c cs]]; intros Hr; simpl; [by apply outputs_api|].
  apply Forall_app. split; [by apply outputs_api|by repeat constructor].
Qed.

Lemma reconcile_api pg : Forall api_output (reconcile pg).2.
Proof.
  assert (forall pg v p, Forall api_output (place pg v (paint_mount (comp v) p)).2) as Hm.
  { intros pg' v p. apply place_api, finish_emits; [constructor|]. apply paint_emits, em_effect. }
  unfold reconcile. destruct (ErrorBoundary.hasError (boundary pg)); [constructor|].
  destruct (view_of _) as [v|]; [|constructor]. destruct (shown pg) as [[v' c]|]; [|apply Hm].
  case_bool_decide; [|apply Hm]. apply place_api, finish_emits; [constructor|]. apply paint_emits, em_effect.
Qed.

Lemma tasked_api pg i pg' o : tasked pg i pg' o -> Forall api_output o.
Proof.
  destruct 1 as [i j sh cs E|i v c j pend m Es Eb r|i m v c j pend p Em Eb r|Eb|i t]; [| | |constructor|constructor].
  - apply outputs_api. exact (exec_emits App.App sends_api _ j sh cs E).
  - apply Forall_app. split; [|apply calls_api]. apply place_api, paint_task_emits; [exact _|].
    exact (begins_emits _ sends_api c j pend m Eb).
  - apply Forall_app. split; [|apply calls_api]. apply outputs_api. exact (begins_emits _ sends_api c j pend p Eb (cstate c)).
Qed.

Lemma page_exec_api pg i pg' o : page_exec pg i = Some (pg', o) -> Forall api_output o.
Proof.
  intros (pg0 & o0 & Ht & _ & ->)%page_exec_cases. apply Forall_app. split; [by eapply tasked_api|apply reconcile_api].
Qed.

(** Every request is one of the client's: whatever the page goes through, from
    the first rendering on and including the views that were left or that
    crashed, each request it sends goes under the API's base address, is declared
    as JSON, and has a body only when it is a POST, written by [JSON.stringify]. *)
Theorem page_requests saved t :
  Forall api_output (opened saved t).2
  /\ forall pg ins pg' o, page_run pg ins = Some (pg', o) -> Forall api_output o.
Proof.
  split.
  - unfold opened. pose proof (flush_emits App.App sends_api commit_fuel None saved (initial App.App saved)) as Hm.
    unfold mount. destruct (flush App.App _ _ _ _) as [s cs]. unfold rendering.
    match goal with |- context [reconcile ?pg] => pose proof (reconcile_api pg) as Hr; destruct (reconcile pg) end.
    apply Forall_app. split; [by apply outputs_api|exact Hr].
  - intros pg ins. revert pg. induction ins as [|i r IH]; intros pg pg' o; simpl; [intros [= _ <-]; constructor|].
    destruct (page_exec pg i) as [[pg1 o1]|] eqn:E; [|done]. simpl.
    destruct (page_run pg1 r) as [[pg2 o2]|] eqn:E2; [|done]. simpl. intros [= _ <-].
    apply Forall_app. split; [by eapply page_exec_api|by eapply IH].
Qed.

(** ** Writes refresh the catalog *)

(** The call to the shell a command makes. *)
Definition calls_shell {K} (c : cmd K) : bool :=
  match c with Ext OnRefreshCatalog | Ext (OnNavigate _) => true | _ => false end.

(** Effects make none, so a rendering has none to deliver. *)
Lemma effects_call_nothing v e p s :
  e ∈ effects (comp v) -> emits (fun c => calls_shell c = false) (eff_body e p s).
Proof.
  destruct v; intros He; cbn in He; rewrite ?elem_of_cons, ?elem_of_nil in He; destruct_or? He; try done; subst e; cbn -[pseq].
  all: unfold sync_selection, CollectionsView.loadDocuments, CollectionsView.load_failed, load_finally,
    CollectionsView.if_latest, loadEntries, scan_failed, TimeSeriesView.loadPoints, points_failed, points_finally,
    TimeSeriesView.if_latest, loadSeries, loadQueues, QueueView.failed, sync_collection.
  all: repeat case_match; auto 15 with emits.
Qed.

(** The answers after which a view asks for a new catalog. *)
Definition finishes_write (v : ViewType) : Kont (comp v) -> outcome -> bool :=
  match v with
  | Collections => fun k o => match k with CollectionsView.Saved _ => answered Some o | _ => false end
  | Buckets => fun k o => match k with BucketsView.Stored _ => answered Some o | _ => false end
  | TimeSeries => fun k o =>
      match k with TimeSeriesView.SeriesLoaded (TimeSeriesView.AfterWrite _) => answered TimeSeriesView.series_of o | _ => false end
  | _ => fun _ _ => false
  end.

Lemma finishes_accepts v k o : finishes_write v k o = true -> accepts (comp v) k o = true.
Proof.
  destruct v; try done; [by destruct k| |by destruct k]. destruct k as [[]| | |]; try done. simpl. unfold answered, conforms, Types.success.
  destruct o as [f|]; [|done]. destruct (settle f) as [|x]; [done|]. by destruct (TimeSeriesView.series_of x).
Qed.

(** A program that emits a command whatever the cells. *)
Definition always {St K} (c : cmd K) (m : prog St K) : Prop := forall s, c ∈ (m s).2.

Lemma always_emit {St K} (c : cmd K) : always (St := St) c (emit c).
Proof. intros s. by apply list_elem_of_singleton. Qed.

Lemma always_seq {St K} (c : cmd K) (m1 m2 : prog St K) : always c m1 \/ always c m2 -> always c (m1 ;;; m2).
Proof.
  intros Hc s. unfold pseq. assert (c ∈ (m1 s).2 \/ c ∈ (m2 (m1 s).1).2) as He by (destruct Hc; auto).
  destruct (m1 s) as [s1 c1]. simpl in He. destruct (m2 s1) as [s2 c2]. by apply elem_of_app.
Qed.

Lemma always_awaited {St K A} (c : cmd K) (dec : val -> option A) o (ok : A -> prog St K) bad :
  answered dec o = true -> (forall a, always c (ok a)) -> always c (awaited dec o ok bad).
Proof.
  unfold answered, awaited. intros Ha Hok. destruct o as [f|]; [|done]. destruct (settle f) as [e|x]; [done|].
  case_bool_decide as Hd; [|done]. destruct (dec x); [apply Hok|by destruct Hd].
Qed.

Lemma write_calls v k o : finishes_write v k o = true -> always (Ext OnRefreshCatalog) (resume (comp v) k o).
Proof.
  destruct v; try done; intros Hf.
  - destruct k as [| |env|]; try done. apply always_awaited; [done|]. intros _. do 2 (apply always_seq; right). apply always_emit.
  - destruct k as [[| |env]| | |]; try done. apply always_awaited; [done|]. intros names.
    do 2 (apply always_seq; right). apply always_seq. left. apply always_emit.
  - destruct k as [|env| |]; try done. apply always_awaited; [done|]. intros _. do 5 (apply always_seq; right). apply always_emit.
Qed.

(** The request the shell sends for the catalog. *)
Definition asks_catalog (out : list output) : Prop := exists r, getCatalog = inr r /\ Sent r ∈ out.

Lemma refresh_fetches sh : asks_catalog (call_shell 1 PClick sh).2 /\ App.loading (cstate (call_shell 1 PClick sh).1) = true.
Proof.
  unfold call_shell, exec. cbn [callbacks App.App lookup list_lookup App.refresh_catalog fire mbind option_bind].
  unfold task. destruct sh as [p s pend]. destruct s. cbn [cprops cstate cpend handle App.App App.on].
  unfold App.fetchData. cbn. rewrite App.flush_shell. cbn. split; [|done]. eexists. split; [reflexivity|].
  apply elem_of_cons. right. apply elem_of_cons. by left.
Qed.

Lemma call_keeps_loading n pl (sh : config App.App) : App.loading (cstate sh) = true -> App.loading (cstate (call_shell n pl sh).1) = true.
Proof.
  intros Hl. unfold call_shell. destruct (exec App.App sh (ICall n pl)) as [[sh' cs]|] eqn:E; [|done].
  apply exec_call in E as (h & a & _ & _ & E). rewrite (f_equal fst E : sh' = _). unfold task. cbn [handle App.App].
  assert (App.loading (App.on a (cstate sh)).1 = true) as Ha by (destruct (cstate sh); by destruct a).
  destruct (App.on a (cstate sh)) as [s1 c1]. by rewrite App.flush_shell.
Qed.

Lemma calls_loading {K} (cs : list (cmd K)) (sh : config App.App) : App.loading (cstate sh) = true -> App.loading (cstate (calls cs sh).1) = true.
Proof.
  revert sh. induction cs as [|c r IH]; intros sh Hl; [done|]. simpl.
  assert (App.loading (cstate (call_of c sh).1) = true) as Hc by (destruct c as [| | |[]]; try done; by apply call_keeps_loading).
  destruct (call_of c sh) as [sh1 o1]. specialize (IH sh1 Hc). by destruct (calls r sh1).
Qed.

Lemma calls_refresh {K} (cs : list (cmd K)) sh :
  Ext OnRefreshCatalog ∈ cs -> asks_catalog (calls cs sh).2 /\ App.loading (cstate (calls cs sh).1) = true.
Proof.
  revert sh. induction cs as [|c r IH]; intros sh; [by intros ?%not_elem_of_nil|].
  intros [<- |Hc]%elem_of_cons; cbn [calls].
  - cbn [call_of]. destruct (refresh_fetches sh) as [(q & Hq & Hin) Hl].
    destruct (call_shell 1 PClick sh) as [sh1 o1]. pose proof (calls_loading r sh1 Hl) as Hl2.
    destruct (calls r sh1) as [sh2 o2]. split; [|done]. exists q. split; [done|]. apply elem_of_app. by left.
  - destruct (call_of c sh) as [sh1 o1]. destruct (IH sh1 Hc) as [(q & Hq & Hin) Hl]. destruct (calls r sh1) as [sh2 o2].
    split; [|done]. exists q. split; [done|]. apply elem_of_app. by right.
Qed.

(** The shell's rendering does not touch the shell. *)
Lemma reconcile_shell pg : shell (reconcile pg).1 = shell pg.
Proof.
  assert (forall pg v (r : painted (comp v)), shell (place pg v r).1 = shell pg) as Hp by by intros ? ? [[] [? ?]].
  unfold reconcile. destruct (ErrorBoundary.hasError (boundary pg)); [done|]. destruct (view_of _) as [v|]; [|done].
  destruct (shown pg) as [[v' c]|]; [|apply Hp]. case_bool_decide; [apply Hp|by rewrite Hp].
Qed.

Lemma task_asks pg i pg0 o :
  page_task pg i = Some (pg0, o) -> asks_catalog o -> App.loading (cstate (shell pg0)) = true ->
  exists pg' out, page_exec pg i = Some (pg', out) /\ asks_catalog out /\ App.loading (cstate (shell pg')) = true.
Proof.
  intros Ht (q & Hq & Hin) Hl. unfold page_exec. rewrite Ht. cbn [mbind option_bind]. unfold rendering.
  pose proof (reconcile_shell pg0) as Hs. destruct (reconcile pg0) as [pg' o2]. exists pg', (o ++ o2). split; [done|].
  simpl in Hs. rewrite Hs. split; [|done]. exists q. split; [done|]. apply elem_of_app. by left.
Qed.

Lemma asks_app o1 o2 : asks_catalog o2 -> asks_catalog (o1 ++ o2).
Proof. intros (q & Hq & Hin). exists q. split; [done|]. apply elem_of_app. by right. Qed.

(** Where a suspended part waits: in the view on the page, or in one left behind. *)
Definition waits_at (pg : page) (i : page_input) (v : ViewType) (c : config (comp v)) (n : nat) (o : outcome) : Prop :=
  (i = ViewAnswer n o /\ shown pg = Some (existT v c))
  \/ exists m, i = LeftAnswer m n o /\ behind pg !! m = Some (existT v c).

Lemma resumes v (c : config (comp v)) n r k o :
  cpend c !! n = Some (PFetch r k) -> finishes_write v k o = true ->
  exists pend, begins (comp v) c (IResume n o) = Some (pend, resume (comp v) k o).
Proof.
  intros Hn Hf. unfold begins. rewrite Hn. assert (is_Some (after_resume (comp v) (PFetch r k) o)) as [keep Hk].
  { destruct o; [by eexists|]. by destruct v; simpl in Hf; try done; repeat case_match. }
  cbn [mbind option_bind]. rewrite Hk. cbn [mbind option_bind kont_of]. rewrite (finishes_accepts v k o Hf). by eexists.
Qed.

(** C23: a write is followed by a new catalog: when the answer to a saved document
    or a stored key arrives with success, or, for a written point, the answer with
    the list of series that the view asks for once the write has succeeded, the
    page asks for the catalog again and shows that it is loading, whether the view
    is still there, was left in the meantime or has crashed. (When that list
    fails, nothing follows the written point.) *)
Theorem writes_refresh pg i v c n r k o :
  waits_at pg i v c n o -> cpend c !! n = Some (PFetch r k) -> finishes_write v k o = true ->
  exists pg' out, page_exec pg i = Some (pg', out) /\ asks_catalog out /\ App.loading (cstate (shell pg')) = true.
Proof.
  intros Hw Hn Hf. destruct (resumes v c n r k o Hn Hf) as [pend Hb]. pose proof (write_calls v k o Hf (cstate c)) as Hc.
  destruct Hw as [[-> Hs]|(m & -> & Hm)].
  - assert (Ext OnRefreshCatalog ∈ (paint_task (comp v) (cprops c) (cstate c) pend (resume (comp v) k o)).2.2) as Hin.
    { unfold paint_task. destruct (resume (comp v) k o (cstate c)) as [s1 c1]. unfold finish.
      destruct (paint _ _ _ _ _) as [ok [s2 c2]]. apply elem_of_app. by left. }
    apply (calls_refresh _ (shell pg)) in Hin as [Ha Hl].
    eapply task_asks; [unfold page_task, view_task; rewrite Hs; cbn [mbind option_bind]; by rewrite Hb|by apply asks_app|exact Hl].
  - apply (calls_refresh _ (shell pg)) in Hc as [Ha Hl].
    eapply task_asks; [unfold page_task, left_task; rewrite Hm; cbn [mbind option_bind]; by rewrite Hb|by apply asks_app|exact Hl].
Qed.

(** ** Crashes *)

Lemma raised_step pg i pg' o :
  ErrorBoundary.hasError (boundary pg) = true -> shown pg = None -> i <> Retry -> page_exec pg i = Some (pg', o) ->
  boundary pg' = boundary pg /\ shown pg' = None.
Proof.
  intros Hb Hs Hi (pg0 & o0 & Ht & -> & _)%page_exec_cases.
  assert (boundary pg0 = boundary pg /\ shown pg0 = None) as [Hb0 Hs0].
  { by destruct Ht as [i j sh cs E|i v c j pend m Es Eb r|i m v c j pend p Em Eb r|Eb|i t]; [|congruence|..]. }
  unfold reconcile. by rewrite Hb0, Hb.
Qed.

(** C22: a crash is contained, and only a retry ends it: while the boundary is up,
    nothing the user does in the shell (navigating included), no answer and no
    poll brings a view back or changes the message, and the shell goes on polling.
    The retry button mounts the view the navigation then names, from scratch, with
    the shell's current data; when all renderings of that mount succeed, the view
    is on the page and the boundary is down, and only when one of them throws
    again is the boundary up again, with the new error. *)
Theorem crash_contained saved t pg :
  page_reachable saved t pg -> ErrorBoundary.hasError (boundary pg) = true ->
  shown pg = None
  /\ intervals (cpend (shell pg)) = 1
  /\ (forall i pg' o, i <> Retry -> page_exec pg i = Some (pg', o) -> boundary pg' = boundary pg /\ shown pg' = None)
  /\ (exists pg' o v, page_exec pg Retry = Some (pg', o) /\ App.currentView (cstate (shell pg)) = view_name v
      /\ let r := paint_mount (comp v) (props v (now pg) (cstate (shell pg))) in
         if r.1 then boundary pg' = ErrorBoundary.initial /\ shown pg' = Some (existT v (mount (comp v) (props v (now pg) (cstate (shell pg)))).1)
         else boundary pg' = ErrorBoundary.getDerivedStateFromError (thrown v (cprops r.2.1) (cstate r.2.1)) /\ shown pg' = None).
Proof.
  intros Hr Hb. destruct (page_consistent saved t pg Hr) as [Hsh Hc].
  assert (shown pg = None) as Hs.
  { destruct (shown pg) as [[v c]|]; [|done]. destruct Hc. congruence. }
  split_and!; [done|exact (polls_reachable App.App 1 saved _ Hsh)| |].
  - intros i pg' o Hi. by apply raised_step.
  - destruct (current_view saved (shell pg) Hsh) as (v & Hv & Hn). unfold page_exec, page_task. rewrite Hb.
    cbn [mbind option_bind]. unfold rendering, reconcile. simpl. rewrite Hv, Hs. simpl.
    destruct (paint_mount (comp v) _) as [ok r] eqn:Ep. destruct (place _ v (ok, r)) as [pg' o] eqn:Epl.
    exists pg', o, v. rewrite Ep. split; [done|]. split; [done|]. unfold place in Epl. destruct ok, r as [c cs]; injection Epl as <- _; [|done].
    split; [done|]. apply mount_painted in Ep as [-> _]. done.
Qed.

End Page.

(** ** The theorems on a concrete page *)

Module Examples.

#[local] Existing Instance plain_engine.
#[local] Existing Instance plain_locale.
#[local] Existing Instance TimeSeriesView.Examples.bangkok.

Definition origin : jstr := js "http://localhost:8080".

Definition crash (v : ViewType) (_ : Props (comp origin v)) (_ : State (comp origin v)) : jserr :=
  mk_err (js "Cannot read properties of null").

Definition start : page origin := (opened origin crash None 0).1.

Definition failure : outcome := Settled (NetworkError (mk_err (js "Failed to fetch"))).

Definition names_answer : outcome :=
  ok_response (VObj [(js "buckets", VArr []); (js "queues", VArr []);
                     (js "collections", VArr [VObj [(js "type", VStr (js "collection")); (js "name", VStr (js "users"))]])]).

(** The first poll brings a catalog with one collection, the user opens the query
    console and runs a query, and the server answers without a document list. *)
Definition story : list page_input := [
  ShellAnswer 0 failure; ShellAnswer 0 names_answer; ShellAnswer 0 failure;
  ShellEvent 6 PClick; ViewEvent 7 PClick; ViewAnswer 0 QueryConsoleView.Examples.null_answer].

Definition told (ins : list page_input) : page origin := default start (fst <$> page_run origin crash start ins).

Lemma told_reachable ins : page_reachable origin crash None 0 (told ins).
Proof.
  assert (forall ins pg pg' o, page_reachable origin crash None 0 pg -> page_run origin crash pg ins = Some (pg', o) ->
    page_reachable origin crash None 0 pg') as Hr.
  { clear ins. induction ins as [|i r IH]; intros pg pg' o Hp; cbn [page_run]; [by intros [= <- _]|].
    destruct (page_exec origin crash pg i) as [[pg1 o1]|] eqn:E; [|done]. cbn [mbind option_bind].
    destruct (page_run origin crash pg1 r) as [[pg2 o2]|] eqn:E2; [|done]. intros [= <- _].
    eapply IH; [|exact E2]. by eapply page_step. }
  unfold told. destruct (page_run origin crash start ins) as [[pg o]|] eqn:E; [|apply page_opened].
  by apply (Hr ins start pg o); [apply page_opened|].
Qed.

(** Before the answer the console is on the page; after it the fallback is. *)
Lemma page_refines_witness :
  consistent origin None (told (take 5 story)) /\ consistent origin None (told story)
  /\ ErrorBoundary.hasError (boundary origin (told (take 5 story))) = false
  /\ ErrorBoundary.hasError (boundary origin (told story)) = true.
Proof.
  split; [exact (page_refines origin crash None 0 _ (told_reachable _))|].
  split; [exact (page_refines origin crash None 0 _ (told_reachable _))|]. split; vm_compute; reflexivity.
Defined.

Lemma page_polls_witness :
  intervals (cpend (shell origin (told story))) = 1
  /\ on_shown origin (told story) (fun v c => intervals (cpend c) = view_polls v)
  /\ Forall (fun h : hosted origin => intervals (cpend (projT2 h)) = 0) (behind origin (told story)).
Proof. exact (page_polls origin crash None 0 _ (told_reachable story)). Defined.

Lemma page_requests_witness :
  exists pg o, page_run origin crash start story = Some (pg, o) /\ Forall api_output o.
Proof.
  destruct (page_run origin crash start story) as [[pg o]|] eqn:E.
  - exists pg, o. split; [reflexivity|]. exact (proj2 (page_requests origin crash None 0) start story pg o E).
  - apply (f_equal (fun r => match r with Some _ => true | None => false end)) in E. vm_compute in E. discriminate E.
Defined.

Lemma crash_contained_witness :
  shown origin (told story) = None
  /\ (forall i pg' o, i <> Retry -> page_exec origin crash (told story) i = Some (pg', o) ->
      boundary origin pg' = boundary origin (told story) /\ shown origin pg' = None).
Proof.
  destruct (crash_contained origin crash None 0 (told story) (told_reachable story)) as (H1 & _ & H2 & _);
    [vm_compute; reflexivity|]. split; [exact H1|exact H2].
Defined.

(** A document is being saved in a browser the user has left. *)
Definition save_env : CollectionsView.Cells := cstate CollectionsView.Examples.opened.

Definition saving : config CollectionsView.CollectionsView :=
  mk_config CollectionsView.CollectionsView CollectionsView.Examples.users_catalog save_env
    [PFetch (mk_request (js "/api/doc/users/insert") (js "POST") [] None) (CollectionsView.Saved save_env)].

Definition left_page : page origin :=
  mk_page origin (shell origin start) 0 ErrorBoundary.initial None [existT Collections saving].

Lemma writes_refresh_witness :
  exists pg' out, page_exec origin crash left_page (LeftAnswer 0 0 (ok_response (VObj []))) = Some (pg', out)
    /\ asks_catalog out /\ App.loading (cstate (shell origin pg')) = true.
Proof.
  eapply (writes_refresh origin crash left_page (LeftAnswer 0 0 (ok_response (VObj []))) Collections saving 0).
  - right. exists 0. split; reflexivity.
  - reflexivity.
  - vm_compute. reflexivity.
Defined.

End Examples.
