(* ===== verification/Conformance.v ===== *)
(** The interfaces of the wire: every value the server sends in answer to a
    call has the form the client declares for it ([types.ts]). Each handler is
    proved against the decoder of its caller, then each call against its
    handler. *)

From S2P Require Import QueryConsoleView VectorPlaygroundView SearchPlaygroundView MaintenanceView CollectionsView.
From S2P Require Import BucketsView QueueView PubSubView TimeSeriesView DashboardView App.
From S2P Require Import Prelude JsString JsNumber JsDate Json Api Types Routes React ViewCommon Go Server ServerSafety Wire.

Open Scope nat_scope.

(** ** Decoders, step by step *)

Lemma bind_is_Some {A B} (m : option A) (f : A -> option B) :
  is_Some m -> (forall x, m = Some x -> is_Some (f x)) -> is_Some (m ≫= f).
Proof. intros [x ->] Hf. simpl. auto. Qed.

Lemma obj_is_Some {B} (f : jsobj -> option B) ps :
  is_Some (f ((fun p => (js p.1, p.2)) <$> ps)) -> is_Some (as_obj (obj ps) ≫= f).
Proof. done. Qed.

Lemma mapM_is_Some {A B} (f : A -> option B) l : Forall (fun x => is_Some (f x)) l -> is_Some (mapM f l).
Proof. induction 1 as [|x l [y Hy] _ [ys Hys]]; [by eexists|]. simpl. rewrite Hy. simpl. rewrite Hys. by eexists. Qed.

Lemma arr_is_Some {A B} (f : val -> option B) (g : A -> val) l :
  Forall (fun x => is_Some (f (g x))) l -> is_Some (as_arr f (VArr (g <$> l))).
Proof. intros Hl. apply mapM_is_Some. by apply Forall_fmap. Qed.

Lemma nullable_is_Some {A} (f : val -> option A) v : is_Some (f v) -> is_Some (nullable f v).
Proof. intros [x Hx]. destruct v; simpl in *; rewrite ?Hx; by eexists. Qed.

Lemma slice_is_Some {A B} (f : val -> option B) (g : A -> val) l :
  (forall x, is_Some (f (g x))) -> is_Some (nullable (as_arr f) (vslice g l)).
Proof. intros Hl. destruct l as [l|]; [|by eexists]. by apply nullable_is_Some, arr_is_Some, Forall_forall. Qed.

(** Decode a value member by member: the plain members are there. *)
Ltac members :=
  apply obj_is_Some; repeat match goal with |- is_Some (mbind _ _) => apply bind_is_Some; [|intros ? _] end; try by eexists.

(** ** Replies that have an interface *)

Section Conforming.
Context `{Engine}.

(** However it is received, the reply is an error or a value of the interface. *)
Definition conforming {A} (dec : val -> option A) (rep : reply) : Prop :=
  forall res, received rep res -> conforms dec (Settled (Responded res)) = true.

Lemma conforming_value {A} (dec : val -> option A) v :
  (encodable v = true -> is_Some (dec v)) -> conforming dec (writeJSON 200 v).
Proof.
  intros Hd res Hres. unfold conforms, Types.success. destruct (settle (Responded res)) as [e|x] eqn:E; [done|].
  destruct (settle_value v res x Hres E) as [-> He]. by destruct (Hd He) as [a ->].
Qed.

Lemma conforming_error {A} (dec : val -> option A) st msg :
  res_ok (mk_response st [] []) = false -> conforming dec (writeError st msg).
Proof.
  intros Hbad res Hres. unfold conforms, Types.success. destruct (settle (Responded res)) as [e|x] eqn:E; [done|].
  by destruct (settle_error st msg res x Hbad Hres).
Qed.

Hint Extern 1 (conforming _ (writeError _ _)) => by apply conforming_error : ends.
Hint Extern 1 (conforming _ _) => progress unfold not_allowed, read_only_error, studio_read_only : ends.

(** ** The handlers *)

Ltac value := apply conforming_value; intros Henc; try (eexists; reflexivity).

Lemma stats_conform : ends (conforming DBStats_of) Server.handleStats.
Proof using Type. unfold Server.handleStats. walk; value. Qed.

Lemma catalog_conform : ends (conforming CatalogData_of) handleCatalog.
Proof using Type.
  unfold handleCatalog. walk. value. unfold CatalogData_of.
  members; apply nullable_is_Some, arr_is_Some, Forall_forall; intros; by eexists.
Qed.

(** The entries of a catalog reply lack members that [types.ts] requires: only the
    reply of an empty database satisfies the declared interface. *)
Theorem catalog_undeclared : ends (fun rep => exists b c q, rep = writeJSON 200 (obj [("buckets", VArr b); ("collections", VArr c); ("queues", VArr q)])
  /\ (CatalogData_declared (obj [("buckets", VArr b); ("collections", VArr c); ("queues", VArr q)]) = true <-> b = [] /\ c = [] /\ q = [])) handleCatalog.
Proof.
  assert (forall type l, array_of CatalogObject_declared (VArr (item_json type <$> l)) = true <-> item_json type <$> l = []) as Hl.
  { intros type [|n l]; [done|]. split; [|done]. rewrite fmap_cons. cbn [array_of forallb]. by rewrite andb_true_iff; intros [? _]. }
  unfold handleCatalog. intros b c q. do 3 eexists. split; [reflexivity|].
  match goal with |- CatalogData_declared (obj [(_, VArr ?x); (_, VArr ?y); (_, VArr ?z)]) = true <-> _ =>
    change (array_of CatalogObject_declared (VArr x) && array_of CatalogObject_declared (VArr y) && array_of CatalogObject_declared (VArr z) = true <-> x = [] /\ y = [] /\ z = []) end.
  rewrite !andb_true_iff, !Hl. tauto.
Qed.

Lemma queue_items_conform names : ends (Forall (fun v => is_Some (QueueItem_of v))) (queue_items names).
Proof using Type.
  induction names as [|n r IH]; [by constructor|]. simpl. intros _ s has. destruct has; cbn [ends]; intros;
    (eapply ends_bind; [exact IH|]; intros rest Hrest; constructor; [by eexists|done]).
Qed.

Lemma queues_conform : ends (conforming queues_of_response) handleQueueList.
Proof using Type.
  unfold handleQueueList. intros names. eapply ends_bind; [apply queue_items_conform|]. intros items Hitems.
  value. apply nullable_is_Some, mapM_is_Some. done.
Qed.

Lemma integrity_conform : ends (conforming IntegrityReport_of) handleIntegrityCheck.
Proof using Type.
  unfold handleIntegrityCheck. walk; [auto with ends|]. value. unfold IntegrityReport_of.
  members; apply nullable_is_Some, arr_is_Some, Forall_forall; intros; by eexists.
Qed.

Lemma checkpoint_conform : ends (conforming last_lsn_of) Server.handleCheckpoint.
Proof using Type. unfold Server.handleCheckpoint. walk; first [value; fail | auto with ends]. Qed.

Lemma backup_conform b : ends (conforming backup_path_of) (Server.handleBackup b).
Proof using Type. unfold Server.handleBackup, backup_to. walk; first [value; fail | auto with ends]. Qed.

Lemma publish_conform ro b : ends (conforming PublishResult_of) (handlePubSubPublish ro b).
Proof using Type. unfold handlePubSubPublish, decoding, publish. walk; first [value; fail | auto with ends]. Qed.

Lemma enqueue_conform ro b : ends (conforming message_id_of) (handleQueueEnqueue ro b).
Proof using Type. unfold handleQueueEnqueue, decoding, enqueue. walk; first [value; fail | auto with ends]. Qed.

Lemma dequeue_conform b : ends (conforming DequeuedTask_of) (handleQueueDequeue b).
Proof using Type. unfold handleQueueDequeue, decoding, dequeue. walk; first [value; fail | auto with ends]. Qed.

Lemma series_conform r : ends (conforming TimeSeriesView.series_of) (handleTimeSeriesList r).
Proof using Type.
  unfold handleTimeSeriesList. walk; [|auto with ends]. value. apply arr_is_Some, Forall_forall. intros. by eexists.
Qed.

Lemma prune_conform ro r : ends (conforming removed_of) (handleTimeSeriesPrune ro r).
Proof using Type. unfold handleTimeSeriesPrune, guarded, decoding, ts_prune. walk; first [value; fail | auto with ends]. Qed.

Lemma scan_conform bucket prefix : ends (conforming entries_of) (handleKVScan bucket prefix).
Proof using Type.
  unfold handleKVScan. walk. value. apply (slice_is_Some KVEntry_of entry_json). intros. by eexists.
Qed.

Lemma query_conform coll b : ends (conforming QueryResult_of) (handleDocQuery coll b).
Proof using Type.
  unfold handleDocQuery, doc_query. walk; try (auto with ends; fail); value. unfold QueryResult_of. members.
  apply (slice_is_Some as_obj VObj). intros. by eexists.
Qed.

Lemma history_conform : ends (conforming events_of) handlePubSubHistory.
Proof using Type.
  intros h. value. apply nullable_is_Some, arr_is_Some. apply andb_true_iff in Henc as [Henc _]. simpl in Henc.
  apply forallb_Forall, Forall_fmap in Henc. eapply Forall_impl; [exact Henc|]. intros e He. simpl in He.
  unfold event_json, vtime in *. destruct (rfc3339_nano (e_CreatedAt e)), (bool_decide (e_DedupID e = [])); try done; by eexists.
Qed.

Lemma points_conform r : ends (conforming points_of) (handleTimeSeriesQuery r).
Proof using Type.
  unfold handleTimeSeriesQuery, decoding, ts_query. walk; try (auto with ends; fail). value.
  apply arr_is_Some. apply andb_true_iff in Henc as [_ Henc]. rewrite andb_true_r in Henc. simpl in Henc.
  apply forallb_Forall, Forall_fmap in Henc. eapply Forall_impl; [exact Henc|]. intros p Hp. simpl in Hp.
  unfold point_json, vtime in *. destruct (rfc3339_nano (pt_Timestamp p)); [by eexists|done].
Qed.

Lemma vector_matches_conform f q m i docs :
  ends (Forall (fun v => is_Some (VectorSearchResult_of v))) (vector_matches f q m i docs).
Proof using Type.
  revert i. induction docs as [|d r IH]; intros i; [by constructor|]. simpl. destruct (obj_get _ d); [|apply IH].
  case_bool_decide; [|apply IH]. intros dist. eapply ends_bind; [apply IH|]. intros rest Hrest. constructor; [by eexists|done].
Qed.

Lemma grown_is_Some {B} (f : val -> option B) l :
  Forall (fun v => is_Some (f v)) l -> is_Some (nullable (as_arr f) (vslice id (grown l))).
Proof using Type. intros Hl. destruct l; [by eexists|]. by apply nullable_is_Some, arr_is_Some. Qed.

Lemma vector_conform b : ends (conforming matches_of) (handleVectorSearch b).
Proof using Type.
  unfold handleVectorSearch, decoding, vector_search. destruct (Decode _ b) as [req []]; [|simpl; auto with ends].
  intros _ [e|docs]; [simpl; auto with ends|]. eapply ends_bind; [apply vector_matches_conform|]. intros ms Hms. value.
  by apply grown_is_Some.
Qed.

Lemma text_conform b : ends (conforming results_of) (handleTextSearch b).
Proof using Type.
  unfold handleTextSearch, decoding, text_search. walk; try (auto with ends; fail); value;
    (apply (slice_is_Some TextSearchResult_of); intros [i sc]; unfold text_json; simpl; destruct (doc_at _ i); by eexists).
Qed.

(** ** The calls *)

(** A call all of whose replies have an interface, when its path is served as
    it is written. *)
Definition answers {A} (c : call) (dec : val -> option A) : Prop :=
  forall r, c = inr r -> plain_path (req_url r) = true -> forall ro, ends (conforming dec) (serve ro r).

(** The calls with a fixed path. *)
Ltac fixed lem :=
  intros r [= <-] _ ro; erewrite serve_exact; [|reflexivity|done|reflexivity|reflexivity]; apply lem.

Lemma getStats_answers : answers getStats DBStats_of.
Proof using Type. fixed stats_conform. Qed.

Lemma getCatalog_answers : answers getCatalog CatalogData_of.
Proof using Type. fixed catalog_conform. Qed.

Lemma listTimeSeries_answers : answers listTimeSeries TimeSeriesView.series_of.
Proof using Type. fixed series_conform. Qed.

Lemma queryTimeSeries_answers q : answers (queryTimeSeries q) points_of.
Proof using Type. fixed points_conform. Qed.

Lemma pruneTimeSeries_answers s b : answers (pruneTimeSeries s b) removed_of.
Proof using Type. fixed prune_conform. Qed.

Lemma searchVectors_answers c f v k m : answers (searchVectors c f v k m) matches_of.
Proof using Type. fixed vector_conform. Qed.

Lemma searchFullText_answers c f q k : answers (searchFullText c f q k) results_of.
Proof using Type. fixed text_conform. Qed.

Lemma checkIntegrity_answers : answers checkIntegrity IntegrityReport_of.
Proof using Type. fixed integrity_conform. Qed.

Lemma checkpointWAL_answers : answers checkpointWAL last_lsn_of.
Proof using Type. fixed checkpoint_conform. Qed.

Lemma triggerBackup_answers f : answers (triggerBackup f) backup_path_of.
Proof using Type. fixed backup_conform. Qed.

Lemma listQueues_answers : answers listQueues queues_of_response.
Proof using Type. fixed queues_conform. Qed.

Lemma enqueueTask_answers q p d n m : answers (enqueueTask q p d n m) message_id_of.
Proof using Type. fixed enqueue_conform. Qed.

Lemma dequeueTask_answers q a : answers (dequeueTask q a) DequeuedTask_of.
Proof using Type. fixed dequeue_conform. Qed.

Lemma publishPubSub_answers t p d : answers (publishPubSub t p d) PublishResult_of.
Proof using Type. fixed publish_conform. Qed.

Lemma getPubSubHistory_answers : answers getPubSubHistory events_of.
Proof using Type. fixed history_conform. Qed.

(** A name in a plain path is one segment. *)
Lemma plain_name prefix segs name `{!Prefix prefix segs} e action query :
  segs = [js "api"; name] -> Forall unseparated e -> Forall literal action -> query = [] \/ head query = Some 63%N ->
  plain_path ((prefix ++ e ++ 47%N :: action) ++ query) = true ->
  exists b, unescape false e = Some b /\ (47%N ∉ b) /\ clean_segment e = true.
Proof using Type.
  intros Hsegs He Ha Hq. unfold plain_path. rewrite (addressed_cut prefix segs) by done. cbn [fst].
  unfold segments, mux_clean. rewrite (path_segments prefix segs) by done. subst segs.
  cbn [app mapM]. destruct (unescape false (js "api")) as [x1|]; [|done]. destruct (unescape false name) as [x2|]; [|done].
  destruct (unescape false e) as [b|]; [|done]. destruct (unescape false action) as [x3|]; [|done].
  cbn -[clean_segment]. intros Hp. exists b. to_prop. by repeat match goal with H : _ && _ = true |- _ => apply andb_true_iff in H as [? ?] end; to_prop.
Qed.

Lemma scanBucket_answers bucket prefix limit : answers (scanBucket bucket prefix limit) entries_of.
Proof using Type.
  intros r. unfold scanBucket, with_component. destruct (encodeURIComponent bucket) as [e|] eqn:He; [|done].
  destruct (encodeURIComponent prefix) as [p|]; [|done]. intros Hr Hpath ro.
  apply (inj inr) in Hr. subst r. apply encode_unseparated in He.
  set (q := 63%N :: js "prefix=" ++ p ++ js "&limit=" ++ num_str limit).
  assert (BASE_URL ++ js "/kv/" ++ e ++ js "/scan?prefix=" ++ p ++ js "&limit=" ++ num_str limit
    = (js "/api/kv/" ++ e ++ 47%N :: js "scan") ++ q) as Hurl by (unfold q; rewrite <- !app_assoc; reflexivity).
  cbn [req_url request] in Hpath. rewrite Hurl in Hpath.
  destruct (plain_name (js "/api/kv/") _ (js "kv") e (js "scan") q eq_refl) as (b & Hb & H47 & Hc);
    [done|by repeat constructor|by right|done|].
  rewrite (serve_kv e b (js "scan") q) by (done || by repeat constructor || (by right)). unfold handleKVRoute.
  cbn [req_url request]. rewrite Hurl, (addressed_parts (js "/api/kv/") [js "api"; js "kv"] e b (js "scan") q)
    by (done || by repeat constructor || (by right)). apply scan_conform.
Qed.

Lemma queryDocuments_answers coll q : answers (queryDocuments coll q) QueryResult_of.
Proof using Type.
  intros r. unfold queryDocuments, with_component. destruct (encodeURIComponent coll) as [e|] eqn:He; [|done].
  intros Hr Hpath ro. apply (inj inr) in Hr. subst r. apply encode_unseparated in He.
  assert (BASE_URL ++ js "/doc/" ++ e ++ js "/query" = (js "/api/doc/" ++ e ++ 47%N :: js "query") ++ []) as Hurl
    by (rewrite app_nil_r; reflexivity).
  cbn [req_url request] in Hpath. rewrite Hurl in Hpath.
  destruct (plain_name (js "/api/doc/") _ (js "doc") e (js "query") [] eq_refl) as (b & Hb & H47 & Hc);
    [done|by repeat constructor|by left|done|].
  rewrite (serve_doc e b (js "query") []) by (done || by repeat constructor || (by left)). unfold handleDocRoute.
  cbn [req_url request]. rewrite Hurl, (addressed_parts (js "/api/doc/") [js "api"; js "doc"] e b (js "query") [])
    by (done || by repeat constructor || (by left)). apply query_conform.
Qed.
End Conforming.
