(* ===== verification/Closed.v ===== *)
(** The page and the server as one system. The page's theorems suppose that the
    answers to its requests have the interfaces the client declares; here the
    studio server is shown to give no other answer, for every request any view
    sends. *)

From S2P Require Import QueryConsoleView VectorPlaygroundView SearchPlaygroundView MaintenanceView CollectionsView.
From S2P Require Import BucketsView QueueView PubSubView TimeSeriesView DashboardView App Studio.
From S2P Require Import Prelude JsString JsNumber JsDate Json Api Types Routes React ViewCommon Components.
From S2P Require Import Go Server ServerSafety Wire Conformance Page.

Open Scope nat_scope.

(** ** Requests whose answers are accepted *)

Section Answerable.
Context `{Engine}.

Lemma ends_all {R} (Q : R -> Prop) (m : io R) : (forall r, Q r) -> ends Q m.
Proof. intros HQ. induction m; simpl; auto. Qed.

Lemma ends_mono {R} (Q Q' : R -> Prop) (m : io R) : (forall r, Q r -> Q' r) -> ends Q m -> ends Q' m.
Proof. intros HQ. induction m; simpl; auto. Qed.

(** Whatever the server replies to the request, the part that waits for it
    takes the response. *)
Definition answerable (C : component) (c : cmd (Kont C)) : Prop :=
  match c with
  | Fetch r k => plain_path (req_url r) = true -> forall ro,
      ends (fun rep => forall res, received rep res -> accepts C k (Settled (Responded res)) = true) (serve ro r)
  | _ => True
  end.

Lemma answerable_call (C : component) {A} (dec : val -> option A) c k :
  answers c dec -> (forall o, accepts C k o = conforms dec o) -> forall r, c = inr r -> answerable C (Fetch r k).
Proof.
  intros Hc Hk r Hr Hp ro. eapply ends_mono; [|exact (Hc r Hr Hp ro)]. intros rep Hrep res Hres. rewrite Hk. by apply Hrep.
Qed.

Lemma answerable_any (C : component) (c : call) k :
  (forall o, accepts C k o = true) -> forall r, c = inr r -> answerable C (Fetch r k).
Proof. intros Hk r _ _ ro. by apply ends_all. Qed.

Lemma answers_bind {A B} (m : jserr + A) (f : A -> call) (dec : val -> option B) :
  (forall x, answers (f x) dec) -> answers (throw_bind m f) dec.
Proof. intros Hf. destruct m as [e|x]; [by intros r [=]|apply Hf]. Qed.

Lemma answers_if {B} (b : bool) c1 c2 (dec : val -> option B) : answers c1 dec -> answers c2 dec -> answers (if b then c1 else c2) dec.
Proof. by destruct b. Qed.

Lemma answers_thrown {B} e (dec : val -> option B) : answers (inl e) dec.
Proof. by intros r [=]. Qed.
End Answerable.

Create HintDb answers discriminated.
#[export] Hint Constants Opaque : answers.
#[export] Hint Resolve getStats_answers getCatalog_answers listTimeSeries_answers queryTimeSeries_answers pruneTimeSeries_answers
  searchVectors_answers searchFullText_answers checkIntegrity_answers checkpointWAL_answers triggerBackup_answers
  listQueues_answers enqueueTask_answers dequeueTask_answers publishPubSub_answers getPubSubHistory_answers
  scanBucket_answers queryDocuments_answers answers_bind answers_if answers_thrown : answers.

(** A request whose call the server answers in its interface, or whose waiting
    part takes anything. *)
Ltac asked :=
  first [refine (answerable_any _ _ _ _); reflexivity
        |eapply answerable_call; [solve [eauto with answers]|reflexivity]].

(** What a program emits, piece by piece. *)
Ltac emitting :=
  intros;
  repeat first
    [exact I | simple apply emits_skip | simple apply emits_modify | assumption | match goal with Hl : _ |- _ => apply Hl end
    |simple apply emits_call; [asked|intros] | simple apply emits_seq | simple apply emits_if | simple apply emits_when
    |simple apply emits_with; intros | simple apply emits_emit].

#[local] Arguments await_call : simpl never.

Section Views.
Context `{Engine} `{Locale} `{Zone}.

#[export] Instance maintenance_answerable : Emitting MaintenanceView (answerable MaintenanceView).
Proof.
  split.
  - intros p s []; simpl; unfold handleRunCheck, check_failed, MaintenanceView.handleCheckpoint, checkpoint_failed,
      MaintenanceView.handleBackup, backup_failed; emitting.
  - intros [] o; simpl; unfold checked, check_failed, checkpointed, checkpoint_failed, backed_up, backup_failed;
      awaited_cases; emitting.
  - by intros e p s ?%not_elem_of_nil.
Qed.

#[export] Instance dashboard_answerable origin : Emitting (DashboardView.DashboardView origin) (answerable (DashboardView.DashboardView origin)).
Proof.
  split.
  - intros p s []; simpl; unfold handleCopyMetrics; emitting.
  - intros [] o. simpl. unfold DashboardView.resumed. emitting.
  - by intros e p s ?%not_elem_of_nil.
Qed.

#[export] Instance query_answerable : Emitting QueryConsoleView (answerable QueryConsoleView).
Proof.
  split.
  - intros p s []; simpl; unfold handleExecute, execute_failed; emitting.
  - intros [] o. simpl. unfold executed, execute_failed. awaited_cases; emitting.
  - by intros e p s ?%not_elem_of_nil.
Qed.

#[export] Instance vector_answerable : Emitting VectorPlaygroundView (answerable VectorPlaygroundView).
Proof.
  split.
  - intros p s []; simpl; unfold VectorPlaygroundView.handleSearch, VectorPlaygroundView.search_failed; emitting.
    destruct (query_vector _); emitting.
  - intros [] o. simpl. unfold VectorPlaygroundView.searched, VectorPlaygroundView.search_failed. awaited_cases; emitting.
  - by intros e p s ?%not_elem_of_nil.
Qed.

#[export] Instance search_answerable : Emitting SearchPlaygroundView (answerable SearchPlaygroundView).
Proof.
  split.
  - intros p s []; simpl; unfold SearchPlaygroundView.handleSearch, SearchPlaygroundView.search_failed; emitting.
  - intros [] o. simpl. unfold SearchPlaygroundView.searched, SearchPlaygroundView.search_failed. awaited_cases; emitting.
  - intros e p s ->%list_elem_of_singleton. simpl. unfold sync_collection. emitting.
Qed.

#[export] Instance pubsub_answerable : Emitting PubSubView (answerable PubSubView).
Proof.
  assert (emits (answerable PubSubView) loadHistory) as Hl by (unfold loadHistory; emitting).
  split.
  - intros p s []; simpl; unfold handlePublish, publish_failed; emitting.
  - intros [] o; simpl; unfold history_loaded, published, publish_failed; awaited_cases; emitting.
  - intros e p s ->%list_elem_of_singleton. simpl. emitting.
Qed.

#[export] Instance buckets_answerable : Emitting BucketsView (answerable BucketsView).
Proof.
  assert (forall env, emits (answerable BucketsView) (loadEntries env)) as Hl by (intros; unfold loadEntries, scan_failed; emitting).
  split.
  - intros p s []; simpl; unfold open_put, handlePut, put_failed, BucketsView.handleDelete, BucketsView.delete_failed, handleIncrement, increment_failed;
      emitting.
  - intros [] o; simpl; unfold scanned, scan_failed, BucketsView.stored, put_failed, BucketsView.deleted, BucketsView.delete_failed, incremented, increment_failed;
      awaited_cases; emitting.
  - intros e p s [-> | ->%list_elem_of_singleton]%elem_of_cons; simpl; [case_match|]; emitting.
Qed.

#[export] Instance collections_answerable : Emitting CollectionsView (answerable CollectionsView).
Proof.
  assert (forall env c, emits (answerable CollectionsView) (loadDocuments env c)) as Hl.
  { intros. unfold loadDocuments, load_call, CollectionsView.load_failed, load_finally, CollectionsView.if_latest. emitting. }
  split.
  - intros p s []; simpl; unfold clear_filter, handleOpenCreate, handleOpenEdit, handleSaveDocument, save_failed,
      CollectionsView.handleDelete, CollectionsView.delete_failed; emitting.
  - intros [] o; simpl; unfold loaded, CollectionsView.load_failed, load_finally, CollectionsView.if_latest, saved, save_failed,
      CollectionsView.deleted, CollectionsView.delete_failed; try awaited_cases; emitting.
  - intros e p s [-> | ->%list_elem_of_singleton]%elem_of_cons; simpl; [unfold sync_selection|]; emitting.
Qed.

#[export] Instance queue_answerable : Emitting QueueView (answerable QueueView).
Proof.
  assert (forall env, emits (answerable QueueView) (loadQueues env)) as Hl by (intros; unfold loadQueues, failed; emitting).
  split.
  - intros p s []; simpl; unfold handleEnqueue, handleDequeue, failed; emitting.
  - intros [] o; simpl; unfold listed, enqueued, dequeued, failed; awaited_cases; emitting.
    repeat apply emits_seq; emitting. case_match; [case_match|]; emitting.
  - intros e p s ->%list_elem_of_singleton. simpl. emitting.
Qed.

#[export] Instance timeseries_answerable : Emitting TimeSeriesView (answerable TimeSeriesView).
Proof.
  assert (forall env, emits (answerable TimeSeriesView) (loadPoints env)) as Hp.
  { intros. unfold loadPoints, points_call, points_failed, points_finally, TimeSeriesView.if_latest. emitting. }
  assert (forall who, emits (answerable TimeSeriesView) (loadSeries who)) as Hs.
  { intros []; unfold loadSeries, series_failed; emitting. }
  split.
  - intros p s []; simpl; unfold handleWrite, write_failed, handlePrune, prune_call, prune_failed; emitting.
  - intros [who|i|env|env] o; simpl; unfold series_loaded, series_failed, points_loaded, points_failed, points_finally,
      TimeSeriesView.if_latest, written, write_failed, pruned, prune_failed; awaited_cases; try destruct who; emitting.
  - intros e p s [-> | ->%list_elem_of_singleton]%elem_of_cons; simpl; emitting.
Qed.

#[export] Instance app_answerable : Emitting App.App (answerable App.App).
Proof.
  assert (emits (answerable App.App) fetchData) as Hf by (unfold fetchData; emitting).
  split.
  - intros p s []; simpl; unfold toggleTheme; emitting.
  - intros [n part|] o; simpl; [|done]. intros s. rewrite part_done_silent. constructor.
  - intros e p s [-> | ->%list_elem_of_singleton]%elem_of_cons; simpl; emitting.
Qed.
End Views.

(** ** Pending requests *)

Section Pending.
Context (C : component) (Q : cmd (Kont C) -> Prop).

(** What a component emitted is what it waits for. *)
Definition asked_for (q : pending (Kont C)) : Prop := match q with PFetch r k => Q (Fetch r k) | _ => True end.

Lemma pends_asked cs : Forall Q cs -> Forall asked_for (pends cs).
Proof. induction 1 as [|c l Hc _ IH]; [constructor|]. simpl. apply Forall_app. split; [|done]. by destruct c; repeat constructor. Qed.

Lemma resumed_asked l1 q l2 o keep :
  Forall asked_for (l1 ++ q :: l2) -> after_resume C q o = Some keep -> Forall asked_for (l1 ++ keep ++ l2).
Proof.
  intros [H1 [Hq H2]%Forall_cons]%Forall_app Hk. apply Forall_app. split; [done|]. apply Forall_app. split; [|done].
  destruct q, o; try done; injection Hk as <-; by repeat constructor.
Qed.


Context `{E : !Emitting C Q}.



#[export] Instance asked_invariant : Invariant C (fun _ _ pend => Forall asked_for pend).
Proof using E.
  split.
  - intros p m. apply pends_asked, run_effects_emits, E.
  - intros p s pend tree h pl a Hp _ _ _. apply Forall_app. split; [done|]. apply pends_asked, em_handle.
  - intros p s pend h pl a Hp _ _. apply Forall_app. split; [done|]. apply pends_asked, em_handle.
  - intros p s l1 q l2 o keep Hp Hk _. apply Forall_app. split; [|apply pends_asked, em_resume].
    by eapply resumed_asked.
  - intros e p s0 s pend He Hp. apply Forall_app. split; [done|]. by apply pends_asked, em_effect.
  - intros p p' s pend Hp m. apply Forall_app. split; [done|]. apply pends_asked, run_effects_emits, E.
Qed.

End Pending.

(** ** The page before the server *)

Section Page.
Context `{Engine} `{Locale} `{Zone} (origin : jstr).

Abbreviation comp := (Studio.comp origin).
Context (thrown : forall v, Props (comp v) -> State (comp v) -> jserr).

#[export] Instance comp_answerable v : Emitting (comp v) (answerable (comp v)).
Proof. destruct v; exact _. Qed.












End Page.

Module Examples.

#[local] Existing Instance plain_engine.
#[local] Existing Instance plain_locale.
#[local] Existing Instance TimeSeriesView.Examples.bangkok.
#[local] Existing Instance Shelf.shelf_database.



End Examples.
