(* ===== verification/EndToEnd.v ===== *)
(** From the form to the database: for each form that stores or queries, the
    action of the user, the request it sends and the operation the server then
    asks of the database, as one statement. *)

From S2P Require Import QueryConsoleView CollectionsView BucketsView QueueView TimeSeriesView.
From S2P Require Import Prelude JsString JsNumber JsDate Json Api Types Routes React ViewCommon Go Server ServerSafety Wire.

Open Scope nat_scope.

Section Forms.
Context `{Engine} `{Zone}.

(** A program that sends one request, which the server serves with [m]. *)
Definition sends_served {St K} (p : prog St K) (s : St) (k : K) (m : bool -> io reply) : Prop :=
  exists r, (p s).2 = [Fetch r k] /\ forall ro, serve ro r = m ro.

Lemma awaits_served {St K} (c : call) m (k : K) (bad : jserr -> prog St K) s :
  served c m -> sends_served (await_call c k bad) s k m.
Proof. intros (r & -> & Hr). by exists r. Qed.

Lemma after_modify {St K} (f : St -> St) (p : prog St K) s k m :
  sends_served p (f s) k m -> sends_served (modify f ;;; p) s k m.
Proof. intros (r & Hr & Hm). exists r. split; [|done]. unfold pseq, modify. by destruct (p (f s)). Qed.

(** ** Keys *)

(** C4: what the user saves in the bucket browser is in the store, under these
    conditions: the name of the selected bucket is one clean segment of a path
    (not empty, no slash, not [.] or [..]), the key and the value are well-formed
    texts, the key is not blank, and the time to live is empty or reads as a
    64-bit integer. Then saving sends one request, for which a server that can be
    written asks the database to put that key with that value and time to live
    into that bucket, and a read-only one refuses; and when the reply says
    success, the store holds the value at the key, byte for byte. *)
Theorem saved_key_stored {D} `{KeyValueStore D} env ub uk uv z :
  segment_name (selectedBucket env) ub -> param_text (keyInput env) uk -> param_text (valInput env) uv ->
  ttl_text (ttlSec env) z -> trim (keyInput env) <> [] ->
  exists r, (BucketsView.on env PutKey env).2 = [Fetch r (Stored env)]
    /\ (forall ro, serve ro r = guarded ro (put ub (Build_put_req uk uv z)))
    /\ forall ro (w : world D), (Server.exec w (serve ro r)).2 = committed None ->
         kv_lookup (w_db (Server.exec w (serve ro r)).1) ub uk = Some uv.
Proof.
  intros Hb Hk Hv Ht Hne.
  assert (sends_served (BucketsView.on env PutKey) env (Stored env) (fun ro => guarded ro (put ub (Build_put_req uk uv z))))
    as (r & Hr & Hs).
  { simpl. unfold handlePut. destruct (trim (keyInput env)) eqn:E; [done|]. cbn [truthy_str negb].
    by apply after_modify, awaits_served, putKV_served. }
  exists r. split; [done|]. split; [done|]. intros ro w. rewrite Hs. destruct ro; [done|]. unfold guarded, put.
  cbn [Server.exec exec_op put_Key put_Value put_TTL].
  match goal with |- context [perform _ _ (Put _ _ _ ?t)] => pose proof (kv_put (w_db w) ub uk uv t) as Hlaw; revert Hlaw;
    destruct (perform _ (w_db w) (Put ub uk uv t)) as [db err] end.
  cbn [Server.exec fst snd w_db]. by destruct err; auto.
Qed.

(** ** Documents *)

(** C6: a document opened in the editor and saved unchanged replaces itself, when
    its values print without loss and its texts are well-formed, its [_id] is
    truthy and a text or a number, and the name of the selected collection is one
    clean segment of a path (no slash): one request is sent, for which a server
    that can be written asks the database to replace, in that collection and under
    the document's own identifier, the document by an equal one (printing, parsing,
    sending and decoding lose nothing), and a read-only one refuses. *)
Theorem edited_document_replaced env doc id uc ui :
  json_ok (VObj doc) = true -> texts_ok (VObj doc) = true ->
  truthy (get doc (js "_id")) = true -> to_string (get doc (js "_id")) = Some id ->
  segment_name (selectedCollection env) uc -> param_text id ui ->
  let env1 := (CollectionsView.on env (OpenEdit doc) env).1 in
  sends_served (CollectionsView.on env1 SaveDocument) env1 (Saved env1) (fun ro => guarded ro (replace_doc uc ui (Some doc))).
Proof.
  intros Hok Htext Ht Hs Hc Hi. cbv zeta. apply after_modify, awaits_served. destruct env. simpl in Hc |- *.
  unfold save_call. simpl. rewrite parse_stringify2 by done. simpl. rewrite Ht. simpl. rewrite Hs. by apply updateDocument_served.
Qed.

(** A document typed into the editor is inserted as it reads. *)
Theorem typed_document_inserted env doc uc :
  modalMode env = Create -> parse (jsonInput env) = Some (VObj doc) ->
  json_ok (VObj doc) = true -> texts_ok (VObj doc) = true -> segment_name (selectedCollection env) uc ->
  sends_served (CollectionsView.on env SaveDocument) env (Saved env) (fun ro => guarded ro (insert_doc uc (Some doc))).
Proof.
  intros Hm Hp Hok Htext Hc. apply after_modify, awaits_served. unfold save_call. rewrite Hp, Hm. by apply insertDocument_served.
Qed.

(** ** Tasks *)

(** A task of the form is enqueued with what was typed. *)
Theorem submitted_task_enqueued env uq up ud p m :
  param_text (selectedQueue env) uq -> param_text (QueueView.payload env) up -> opt_text (or_undefined (dedupId env)) ud ->
  int_text (priority env) p -> int_text (delayMs env) m ->
  sends_served (QueueView.on env QueueView.Enqueue) env (Enqueued env)
    (fun ro => if ro then Done studio_read_only else enqueue (Build_enqueue_req uq up ud p m)).
Proof. intros Hq Hp Hd Hr Hm. do 2 apply after_modify. by apply awaits_served, enqueueTask_served. Qed.

(** ** Points *)

(** A point of the form is written as typed: for a named series, a time that
    reads as an instant (or none, for the current one) and tags and fields that
    read as JSON objects, one request is sent, for which the server asks the
    database to write exactly these tags and fields at that instant, to the
    nanosecond. *)
Theorem typed_point_written now env us t tags fs :
  param_text (trim (selected env)) us -> trim (selected env) <> [] -> stamp now env = Some t -> dated t ->
  parse (writeTags env) = Some (VObj (tag_members tags)) -> parse (fields env) = Some (VObj fs) ->
  json_ok (VObj (tag_members tags)) = true -> texts_ok (VObj (tag_members tags)) = true ->
  json_ok (VObj fs) = true -> texts_ok (VObj fs) = true ->
  sends_served (TimeSeriesView.on now env WritePoint) env (Written env)
    (fun ro => guarded ro (ts_write (Build_ts_write_req us (Build_ts_point (t * 10 ^ 6) tags fs)))).
Proof.
  intros Hs Hne Hstamp Hd Htg Hfs Hj1 Hx1 Hj2 Hx2. do 2 apply after_modify. apply awaits_served.
  destruct (writeTimeSeries_served (trim (selected env)) us t Hs Hd tags Hj1 Hx1 fs Hj2 Hx2) as (text & Ht & Hserved).
  enough (write_call now env = writeTimeSeries (trim (selected env))
    [(js "Timestamp", VStr text); (js "Tags", VObj (tag_members tags)); (js "Fields", VObj fs)]) as -> by done.
  unfold write_call, parseJSONMap. rewrite Htg, Hfs. destruct (trim (selected env)); [done|]. cbn [truthy_str negb].
  unfold stamp in Hstamp. unfold iso. destruct (truthy_str (timestamp env)); rewrite ?Hstamp.
  - by rewrite Ht.
  - injection Hstamp as ->. by rewrite Ht.
Qed.

(** ** Queries *)

(** The query of the console, as the server reads it. *)
Definition typed_query (env : QueryConsoleView.Cells) (explainOnly : bool) (uf uop uo : bytes) (z : Z) : query_req := {|
  qr_Filters := if_text (whereField env) [Build_filter_req uf uop (filter_value (whereVal env))] [];
  qr_OrderBy := if_text (orderField env) (Build_order_req uo (orderDesc env)) (Build_order_req [] false);
  qr_Limit := z; qr_Offset := 0; qr_Explain := explainOnly |}.

(** The members of a query body, one by one. *)
Lemma payload_decoded fl ol n z b :
  forallb json_ok fl = true -> match ol with Some l => json_ok (VObj l) = true | None => True end -> int_text n z ->
  (Decode (go_struct query_req_of) (Some (stringify (VObj
    [(js "filters", VArr fl); (js "order_by", match ol with Some l => VObj l | None => VUndef end);
     (js "limit", VNum n); (js "explain", VBool b)])))).1
  = Build_query_req (go_slice (go_struct filter_req_of) (VArr fl)).1
      (go_struct order_req_of (match ol with Some l => VObj l | None => VUndef end)).1 z 0 b.
Proof.
  intros Hf Ho Hn. pose proof (proj1 Hn) as Hp. destruct ol as [l|]; rewrite Decode_post; try (apply body_ok; [reflexivity|]).
  - change (go_struct query_req_of (VObj (defined ?ps))) with (query_req_of ps). unfold query_req_of, fld.
    member "filters" (VArr fl). member "order_by" (VObj l). member "limit" (VNum n). member "offset" VUndef. member "explain" (VBool b).
    by rewrite (go_int_text n z).
  - change (units_ok (js "filters") && forallb json_ok fl && (units_ok (js "order_by") && json_ok (VObj l)
      && (units_ok (js "limit") && printable n && true)) = true). by rewrite Hf, Ho, Hp.
  - change (go_struct query_req_of (VObj (defined ?ps)))
      with (query_req_of [(js "filters", VArr fl); (js "limit", VNum n); (js "explain", VBool b)]). unfold query_req_of, fld.
    member "filters" (VArr fl). member "order_by" VUndef. member "limit" (VNum n). member "offset" VUndef. member "explain" (VBool b).
    by rewrite (go_int_text n z).
  - change (units_ok (js "filters") && forallb json_ok fl && (units_ok (js "limit") && printable n && true) = true).
    by rewrite Hf, Hp.
Qed.

Lemma query_decoded env explainOnly uf uop uo z :
  param_text (trim (whereField env)) uf -> param_text (whereOp env) uop -> param_text (trim (orderField env)) uo ->
  json_ok (filter_value (whereVal env)) = true -> texts_ok (filter_value (whereVal env)) = true ->
  int_text (QueryConsoleView.limit env) z ->
  (Decode (go_struct query_req_of) (Some (stringify (VObj (query_payload env explainOnly))))).1
  = typed_query env explainOnly uf uop uo z.
Proof.
  intros [Hwf Huf] [Hwo Huo] [Hwd Hud] Hj Ht Hz.
  set (fe := filter_entry (trim (whereField env)) (whereOp env) (filter_value (whereVal env))).
  set (order := [(js "field", VStr (trim (orderField env))); (js "desc", VBool (orderDesc env))]).
  assert (json_ok fe = true) as Hfe.
  { apply body_ok; [reflexivity|]. cbn [forallb fst snd]. rewrite Hj. cbn [json_ok]. by rewrite (wf_units _ Hwf), (wf_units _ Hwo). }
  assert (json_ok (VObj order) = true) as Hoe.
  { apply body_ok; [reflexivity|]. unfold order. cbn [forallb fst snd json_ok]. by rewrite (wf_units _ Hwd). }
  assert (go_struct filter_req_of fe = (Build_filter_req uf uop (filter_value (whereVal env)), true)) as Hgf.
  { unfold fe, go_struct, filter_entry, filter_req_of, fld. member "field" (VStr (trim (whereField env))).
    member "op" (VStr (whereOp env)). member "value" (filter_value (whereVal env)).
    by rewrite (go_str_text _ uf), (go_str_text _ uop), go_any_ok. }
  assert (go_struct order_req_of (VObj order) = (Build_order_req uo (orderDesc env), true)) as Hgo.
  { unfold order, go_struct, order_req_of, fld. member "field" (VStr (trim (orderField env))).
    member "desc" (VBool (orderDesc env)). by rewrite (go_str_text _ uo). }
  transitivity (Build_query_req (go_slice (go_struct filter_req_of) (VArr (if_text (whereField env) [fe] []))).1
    (go_struct order_req_of (match if_text (orderField env) (Some order) None with Some l => VObj l | None => VUndef end)).1 z 0 explainOnly).
  - rewrite <- (payload_decoded _ _ (QueryConsoleView.limit env) z); [| | |done].
    + unfold query_payload, if_text. by destruct (truthy_str (trim (whereField env))), (truthy_str (trim (orderField env))).
    + unfold if_text. destruct (truthy_str (trim (whereField env))); [|done]. cbn [forallb]. by rewrite Hfe.
    + unfold if_text. by destruct (truthy_str (trim (orderField env))).
  - unfold typed_query, if_text. f_equal.
    + destruct (truthy_str (trim (whereField env))); [|done]. cbn [go_slice fmap list_fmap]. by rewrite Hgf.
    + destruct (truthy_str (trim (orderField env))); [by rewrite Hgo|done].
Qed.

(** The operator is always one of the menu. *)
Lemma offered_operator catalog s tree h pl op :
  QueryConsoleView.view catalog s = Some tree -> h ∈ handlers tree -> fire h pl = Some (SetWhereOp op) -> op ∈ where_ops.*1.
Proof.
  unfold QueryConsoleView.view. destruct (QueryConsoleView.results_body s) as [body|] eqn:Eb; [|done]. cbn [mbind option_bind]. intros [= <-] Hin Hf.
  unfold QueryConsoleView.header_block, QueryConsoleView.params_panel, QueryConsoleView.snippet_box, QueryConsoleView.results_header in Hin.
  autorewrite with handlers in Hin. rewrite QueryConsoleView.plan_banner_inert, (QueryConsoleView.results_body_inert _ _ Eb) in Hin.
  handler_cases Hin; fired Hf; to_prop; auto.
  all: by destruct (result s); autorewrite with handlers in Hin.
Qed.

#[export] Instance operator_invariant : Invariant QueryConsoleView (fun _ s _ => whereOp s ∈ where_ops.*1).
Proof.
  split.
  - intros p. by left.
  - intros p s pend tree h pl a Hs Hren Hin Hf. destruct a as [v|v|v|v|v|v|v|b]; try (by destruct s).
    + destruct s. by eapply offered_operator.
    + simpl. unfold handleExecute. case_match; [done|]. unfold pseq, modify, await_call. destruct s.
      by destruct (queryDocuments _ _).
  - intros p s pend h pl a Hs Hin. by apply not_elem_of_nil in Hin.
  - intros p s l1 q l2 o keep Hs _ _. simpl. unfold QueryConsoleView.executed, QueryConsoleView.execute_failed. destruct s. by awaited_cases.
  - intros e p s0 s pend He. by apply not_elem_of_nil in He.
  - done.
Qed.

(** The comparison a menu entry names. *)
Definition operator (op : jstr) : comparison_op :=
  if str_eq op (js "gt") then OpGt else if str_eq op (js "gte") then OpGte
  else if str_eq op (js "lt") then OpLt else if str_eq op (js "lte") then OpLte else OpEq.

Lemma menu_operator op : op ∈ where_ops.*1 ->
  param_text op op /\ forall f v, predicate_of (Build_filter_req f op v) = Some (Compare f (operator op) v).
Proof.
  intros Hop. repeat (apply elem_of_cons in Hop as [-> |Hop]); [..|by apply not_elem_of_nil in Hop];
    (split; [split; [by repeat constructor|reflexivity]|done]).
Qed.

Lemma segment_nonempty name b : segment_name name b -> truthy_str name = true.
Proof. intros (_ & Hb & Hc & _). destruct name; [|done]. by injection Hb as <-. Qed.

(** C5: the query of the console is the query that is run, in every state the
    console reaches in which the name of the selected collection is one clean
    segment of a path (no slash), the field, the order and the value typed are
    well-formed texts, the value prints without loss, and the limit is a whole
    number of 64 bits: executing sends one request, for which the server runs on
    that collection exactly the query typed: one comparison with the operator of
    the menu and the value as it reads, when a field is named; the order, when one
    is named; the limit; and the explain flag. *)
Theorem console_query_run p0 c explainOnly uc uf uo z :
  reachable QueryConsoleView p0 c ->
  let env := cstate c in
  segment_name (QueryConsoleView.selectedCollection env) uc ->
  param_text (trim (whereField env)) uf -> param_text (trim (orderField env)) uo ->
  json_ok (filter_value (whereVal env)) = true -> texts_ok (filter_value (whereVal env)) = true ->
  int_text (QueryConsoleView.limit env) z ->
  let req := typed_query env explainOnly uf (whereOp env) uo z in
  sends_served (QueryConsoleView.on env (Execute explainOnly)) env Executed (fun _ => doc_query uc req)
  /\ query_of req = {|
       q_predicates := if_text (whereField env) [Compare uf (operator (whereOp env)) (filter_value (whereVal env))] [];
       q_sort := if_text (orderField env) (Some (uo, orderDesc env)) None;
       q_limit := Z.max 0 z; q_offset := 0 |}.
Proof.
  intros Hr env Hc Hf Ho Hj Ht Hz req.
  destruct (menu_operator _ (invariant_reachable QueryConsoleView _ p0 c Hr)) as [Hop Hpred]. fold env in Hop, Hpred. split.
  - simpl. unfold handleExecute. rewrite (segment_nonempty _ _ Hc). cbn [negb]. do 2 apply after_modify. apply awaits_served.
    destruct (queryDocuments_served (QueryConsoleView.selectedCollection env) uc Hc (query_payload env explainOnly)) as (r & Hr' & Hs).
    exists r. split; [done|]. intros ro. rewrite Hs. unfold handleDocQuery. f_equal. by apply query_decoded.
  - unfold query_of, req, typed_query, if_text. cbn [qr_Filters qr_OrderBy qr_Limit qr_Offset]. f_equal.
    + destruct (truthy_str (trim (whereField env))); [|done]. cbn [omap list_omap]. by rewrite Hpred.
    + destruct (truthy_str (trim (orderField env))) eqn:E; [|done]. cbn [or_Field or_Desc]. rewrite bool_decide_false; [done|].
      intros ->. destruct Ho as [Hwo Huo]. apply text_utf8 in Huo; [|done]. by rewrite <- Huo in E.
    + destruct (Z.ltb_spec 0 z); lia.
Qed.
End Forms.

(** ** The theorems on concrete forms *)

Module Examples.

#[local] Existing Instance plain_engine.
#[local] Existing Instance TimeSeriesView.Examples.bangkok.
#[local] Existing Instance Shelf.shelf_database.
#[local] Existing Instance Wire.Examples.shelf_store.

Ltac text := split; [apply (bool_decide_unpack _); by vm_compute | by vm_compute].

Ltac segment := split_and!; [apply (bool_decide_unpack _); by vm_compute | by vm_compute | by vm_compute | by apply (bool_decide_unpack _)].

Definition greeting : BucketsView.Cells :=
  (BucketsView.init None) <| selectedBucket := js "user profiles" |> <| keyInput := js "a/é" |> <| valInput := js "x=1" |>.

Lemma saved_key_stored_witness :
  exists r, (BucketsView.on greeting PutKey greeting).2 = [Fetch r (Stored greeting)]
    /\ kv_lookup (w_db (Server.exec Shelf.empty (serve false r)).1) (gs "user profiles") [97; 47; 0xC3; 0xA9]%N = Some (gs "x=1").
Proof.
  destruct (saved_key_stored greeting (gs "user profiles") [97; 47; 0xC3; 0xA9]%N (gs "x=1") 0) as (r & Hr & Hs & Hk);
    [segment|text|text|reflexivity|by vm_compute|].
  exists r. split; [exact Hr|]. apply Hk. rewrite Hs. vm_compute. reflexivity.
Defined.

Lemma edited_document_replaced_witness :
  let env := cstate CollectionsView.Examples.opened in
  let env1 := (CollectionsView.on env (OpenEdit CollectionsView.Examples.user) env).1 in
  sends_served (CollectionsView.on env1 SaveDocument) env1 (Saved env1)
    (fun ro => guarded ro (replace_doc (gs "users") (gs "u1") (Some CollectionsView.Examples.user))).
Proof.
  apply (edited_document_replaced (cstate CollectionsView.Examples.opened) CollectionsView.Examples.user (js "u1") (gs "users") (gs "u1"));
    [by vm_compute|by vm_compute|by vm_compute|by vm_compute|segment|text].
Defined.

Definition sensor : TimeSeriesView.Cells :=
  (TimeSeriesView.init 0) <| selected := js " cpu " |> <| timestamp := js "2024-03-01T08:30" |>
    <| writeTags := jq "{'host': 'a'}" |> <| fields := jq "{'load': 5}" |>.

Lemma typed_point_written_witness :
  sends_served (TimeSeriesView.on 0 sensor WritePoint) sensor (Written sensor)
    (fun ro => guarded ro (ts_write (Build_ts_write_req (gs "cpu")
      (Build_ts_point (1709256600000 * 10 ^ 6) [(js "host", js "a")] [(js "load", VNum (num_of_Z 5))])))).
Proof.
  apply (typed_point_written 0 sensor (gs "cpu") 1709256600000 [(js "host", js "a")] [(js "load", VNum (num_of_Z 5))]);
    [text|by vm_compute|by vm_compute|split; [by vm_compute|split; by vm_compute]|by vm_compute..].
Defined.

(** The user fills in the form of the console. *)
Definition adults : list (React.input QueryConsoleView) :=
  [IEvent 1 (PText (js " age ")); IEvent 2 (PText (js "gte")); IEvent 3 (PText (js "18")); IEvent 4 (PText (js "name"))].

Definition filled : config QueryConsoleView :=
  default QueryConsoleView.Examples.opened (fst <$> run QueryConsoleView QueryConsoleView.Examples.opened adults).

Lemma filled_reachable : reachable QueryConsoleView QueryConsoleView.Examples.users_catalog filled.
Proof.
  unfold filled. destruct (run QueryConsoleView QueryConsoleView.Examples.opened adults) as [[c o]|] eqn:E; [|apply reach_mount].
  exact (reachable_run QueryConsoleView _ _ adults c o (reach_mount _ _) E).
Qed.

Lemma console_query_run_witness :
  exists req, sends_served (QueryConsoleView.on (cstate filled) (Execute false)) (cstate filled) Executed (fun _ => doc_query (gs "users") req)
    /\ query_of req = Build_query [Compare (gs "age") OpGte (VNum (num_of_Z 18))] (Some (gs "name", false)) 20 0.
Proof.
  eexists. destruct (console_query_run QueryConsoleView.Examples.users_catalog filled false (gs "users") (gs "age") (gs "name") 20 filled_reachable)
    as [Hs Hq]; [segment|text|text|by vm_compute|by vm_compute|split_and!; [by vm_compute|by vm_compute|lia|lia]|].
  split; [exact Hs|]. refine (eq_trans Hq _). vm_compute. reflexivity.
Defined.

End Examples.
