(* ===== verification/DashboardServer.v ===== *)
(** [dashboard/handlers.go]: the observability server, whose stream and probe
    the dashboard of [DashboardApp] shows. Its handlers are programs over the
    same database operations as the studio's; the last sample of the throughput
    is kept under a lock, so collecting telemetry is a program before it, the
    locked section, and a program after it. *)

From stdpp Require Import sorting.
From S2P Require Import React ViewCommon Sparkline DashboardApp.
From S2P Require Import Prelude JsString JsNumber JsDate Json Api Types Routes Go Server ServerSafety Conformance.
From Stdlib Require Import SpecFloat.

Open Scope Z_scope.

(** ** Throughput *)

Record throughput := { lastHits : Z; lastMisses : Z; lastTime : Z }.

Definition uint64 (z : Z) : Z := z mod 2 ^ 64.

(** [Duration.Seconds()] *)
Definition seconds (d : Z) : num :=
  nadd (num_of_Z (Z.quot d second)) (ndiv (num_of_Z (Z.rem d second)) (num_of_Z second)).

(** [int64(f)]: towards zero; out of range it is what an x86-64 gives. *)
Definition truncated (m : positive) (e : Z) : Z := if 0 <=? e then Zpos m * 2 ^ e else Zpos m / 2 ^ (- e).

Definition to_int64 (x : num) : Z :=
  match x with
  | S754_zero _ => 0
  | S754_finite s m e =>
      let z := cond_Zopp s (truncated m e) in if (- 2 ^ 63 <=? z) && (z <? 2 ^ 63) then z else - 2 ^ 63
  | _ => - 2 ^ 63
  end.

(** The locked section of [collectTelemetry]. *)
Definition measure (last : throughput) (hits misses now : Z) : throughput * Z :=
  let elapsed := seconds (now - lastTime last) in
  let deltaSec := if num_le elapsed (num_of_Z 0) then Number (js "0.5") else elapsed in
  let currentOps := uint64 (hits + misses) in
  let lastOps := uint64 (lastHits last + lastMisses last) in
  (Build_throughput hits misses now,
   if (lastOps <=? currentOps) && num_lt (num_of_Z 0) deltaSec
   then to_int64 (ndiv (num_of_Z (currentOps - lastOps)) deltaSec) else 0).

(** ** Telemetry *)

(** What is read before the lock is taken. *)
Record gathered := { g_stats : db_stats; g_queues : Z; g_ready : Z; g_inflight : Z; g_dlq : Z }.

Definition gather : io gathered :=
  let? stats := Stats in
  let? queueNames := ListQueues in
  let* t := queue_totals queueNames 0 0 0 in
  Done (Build_gathered stats (Z.of_nat (length queueNames)) t.1.1 t.1.2 t.2).

Definition telemetry_json (g : gathered) (now qps : Z) (ps : pubsub_stats) (cluster : option cluster_status) : val :=
  obj [("allocated_bytes", vint (int64 (st_PageCount (g_stats g) * 16384)));
       ("cache_hit_rate", VNum (st_CacheHitRate (g_stats g))); ("cache_hits", vint (st_CacheHits (g_stats g)));
       ("cache_misses", vint (st_CacheMisses (g_stats g)));
       ("cluster", match cluster with Some c => cluster_json c | None => VNull end);
       ("last_lsn", vint (st_LastLSN (g_stats g))); ("last_txn_id", vint (st_LastTxnID (g_stats g)));
       ("page_count", vint (st_PageCount (g_stats g))); ("pubsub_active_subs", vint (ps_ActiveSubs ps));
       ("pubsub_active_topics", vint (ps_ActiveTopics ps)); ("pubsub_delivered_count", vint (ps_TotalDelivered ps));
       ("pubsub_events_count", vint (ps_TotalPublished ps)); ("qps", vint qps); ("queue_count", vint (g_queues g));
       ("queue_dlq_tasks", vint (g_dlq g)); ("queue_inflight_tasks", vint (g_inflight g));
       ("queue_ready_tasks", vint (g_ready g)); ("read_only", VBool (st_ReadOnly (g_stats g)));
       ("timestamp", vint (now / 10 ^ 6))].

(** What is read after it was released. *)
Definition summarize (g : gathered) (now qps : Z) : io val :=
  let? ps := PubSubStats in
  let? cluster := ClusterStatus in
  Done (telemetry_json g now qps ps cluster).

Section Collecting.
Context {D : Type} `{Database D}.

Record dashboard := mk_dashboard { da_world : world D; da_last : throughput }.

(** The locked section: the time and the throughput. *)
Definition locked (s : dashboard) (g : gathered) : dashboard * (Z * Z) :=
  let '(db, now) := perform _ (w_db (da_world s)) Now in
  let '(last, qps) := measure (da_last s) (st_CacheHits (g_stats g)) (st_CacheMisses (g_stats g)) now in
  (mk_dashboard (mk_world db (w_history (da_world s))) last, (now, qps)).

(** [collectTelemetry] on its own. *)
Definition collectTelemetry (s : dashboard) : dashboard * val :=
  let '(w1, g) := exec (da_world s) gather in
  let '(s2, (now, qps)) := locked (mk_dashboard w1 (da_last s)) g in
  let '(w3, v) := exec (da_world s2) (summarize g now qps) in
  (mk_dashboard w3 (da_last s2), v).

(** [handleMetricsRealtime] *)
Definition handleMetricsRealtime (s : dashboard) : dashboard * reply :=
  let '(s', data) := collectTelemetry s in (s', writeJSON 200 data).

(** Clients collect at once: a collector gathers, takes the lock, summarizes.
    The steps are labelled with the telemetry that is complete. *)
Inductive collector := Gathering (m : io gathered) | Summarizing (m : io val).

Inductive collects : dashboard * list collector -> list val -> dashboard * list collector -> Prop :=
| collect_arrive s cs : collects (s, cs) [] (s, cs ++ [Gathering gather])
| collect_gather w last cs i A (o : op A) k : cs !! i = Some (Gathering (Ask o k)) ->
    collects (mk_dashboard w last, cs) []
      (mk_dashboard (exec_op w o).1 last, <[i := Gathering (k (exec_op w o).2)]> cs)
| collect_lock s cs i g : cs !! i = Some (Gathering (Done g)) ->
    let r := locked s g in collects (s, cs) [] (r.1, <[i := Summarizing (summarize g r.2.1 r.2.2)]> cs)
| collect_summarize w last cs i A (o : op A) k : cs !! i = Some (Summarizing (Ask o k)) ->
    collects (mk_dashboard w last, cs) []
      (mk_dashboard (exec_op w o).1 last, <[i := Summarizing (k (exec_op w o).2)]> cs)
| collect_done s cs i v : cs !! i = Some (Summarizing (Done v)) -> collects (s, cs) [v] (s, delete i cs).

Inductive collections (s0 : dashboard) : list val -> dashboard * list collector -> Prop :=
| collections_start : collections s0 [] (s0, [])
| collections_step vs s l s' : collections s0 vs s -> collects s l s' -> collections s0 (vs ++ l) s'.
End Collecting.

Arguments dashboard : clear implicits.

(** ** The event stream *)

(** The bytes a telemetry is sent as: compact JSON without line breaks; when
    the encoder fails only the first message is sent, without text. *)
Definition marshaled (v : val) (text : jstr) : Prop :=
  if encodable v then parse text = Some v /\ (10%N ∉ text) /\ (13%N ∉ text) else text = [].

(** [handleStream]: of the telemetry a client collects, what is sent: the first
    in any case, the others until the encoder fails. *)
Fixpoint ticks (vs : list val) : list val :=
  match vs with [] => [] | v :: r => if encodable v then v :: ticks r else [] end.

Definition handleStream (vs : list val) : list val := match vs with [] => [] | v :: r => v :: ticks r end.

(** [fmt.Fprintf(w, "data: %s\n\n", ...)] *)
Definition frame (text : jstr) : jstr := js "data: " ++ text ++ [10%N; 10%N].

(** What [EventSource] makes of the lines of a stream: the data of each event,
    given at the blank line that ends it. The state is the data so far. *)
Definition event_line (st : list jstr * option jstr) (line : jstr) : list jstr * option jstr :=
  let '(events, data) := st in
  if bool_decide (line = []) then (match data with Some d => events ++ [d] | None => events end, None)
  else if starts_with (js "data:") line then
    let value := match drop 5 line with 32%N :: v => v | v => v end in
    (events, Some (match data with Some d => d ++ [10%N] ++ value | None => value end))
  else (events, data).

Definition events (stream : jstr) : list jstr :=
  (foldl event_line ([], None) (split_on (N.eqb 10) stream)).1.

(** ** Prometheus *)

Definition handlePrometheus : io reply :=
  let? stats := Stats in
  let? queueNames := ListQueues in
  let* t := queue_totals queueNames 0 0 0 in
  let? ps := PubSubStats in
  Done (Reply 200 (Plain (join [10%N] [
    metric_lines "cocodb_storage_allocated_bytes" "Total allocated storage in bytes" "gauge"
      (Z_str (int64 (st_PageCount stats * 16384)));
    metric_lines "cocodb_page_count" "Total 16KiB pages allocated" "gauge" (Z_str (st_PageCount stats));
    metric_lines "cocodb_cache_hits_total" "Total page cache hits" "counter" (Z_str (st_CacheHits stats));
    metric_lines "cocodb_cache_misses_total" "Total page cache misses" "counter" (Z_str (st_CacheMisses stats));
    metric_lines "cocodb_cache_hit_rate_ratio" "Cache hit rate ratio (0.0 to 1.0)" "gauge" (fixed4 (st_CacheHitRate stats));
    metric_lines "cocodb_wal_last_lsn" "Current WAL Log Sequence Number" "counter" (Z_str (st_LastLSN stats));
    metric_lines "cocodb_last_txn_id" "Current transaction ID" "counter" (Z_str (st_LastTxnID stats));
    metric_lines "cocodb_queues_total" "Total registered queues" "gauge" (Z_str (Z.of_nat (length queueNames)));
    metric_lines "cocodb_queue_ready_tasks" "Total tasks ready for workers" "gauge" (Z_str t.1.1);
    metric_lines "cocodb_queue_dlq_tasks" "Total tasks in Dead-Letter Queue" "gauge" (Z_str t.2);
    metric_lines "cocodb_pubsub_events_total" "Total published events in session" "counter" (Z_str (ps_TotalPublished ps));
    metric_lines "cocodb_pubsub_delivered_total" "Total delivered subscriber events" "counter" (Z_str (ps_TotalDelivered ps))]))).

(** ** The probe *)

Definition probe_key (i : Z) : bytes := gs "probe_key_" ++ Z_str (i mod 50).

(** The loop: [n] rounds from the [i]-th on, and what they took in microseconds. *)
Fixpoint probe_rounds (n : nat) (i : Z) : io (list Z) :=
  match n with
  | O => Done []
  | S n =>
      let? t0 := Now in
      let? _ := Put (gs "metrics_probe") (probe_key i) (gs "sample_payload_probe_data") None in
      let? _ := Get (gs "metrics_probe") (probe_key i) in
      let? t1 := Now in
      let* rest := probe_rounds n (i + 1) in
      Done (Z.quot (t1 - t0) 1000 :: rest)
  end.

Definition probe_json (p50 p99 : Z) : val := obj [("ops", vint 2000); ("p50", vint p50); ("p99", vint p99)].

(** An index out of range panics: [None]. *)
Definition percentiles (samples : list Z) : option (Z * Z) :=
  let sorted := merge_sort Z.le samples in
  let len := Z.of_nat (length samples) in
  p50 ← sorted !! Z.to_nat (len * 50 / 100);
  p99 ← sorted !! Z.to_nat (len * 99 / 100);
  Some (p50, p99).

Definition handleBenchmarkProbe : io (option reply) :=
  let? _ := OpenBucket (gs "metrics_probe") in
  let? startTotal := Now in
  let* samples := probe_rounds 1000 0 in
  let? _ := Now in
  Done ((fun p => writeJSON 200 (probe_json p.1 p.2)) <$> percentiles samples).

(** ** Routing *)

(** What a request is answered by: a handler, or a reply of the middleware or
    the multiplexer. *)
Inductive endpoint := Realtime | Streaming | Exposition | Probing | Membership | Answered (r : reply).

(** [registerRoutes] *)
Definition dashboard_routes : list (list string * endpoint) := [
  (["api"; "metrics"; "realtime"], Realtime);
  (["api"; "stream"], Streaming);
  (["api"; "prometheus"], Exposition);
  (["api"; "benchmark"; "probe"], Probing);
  (["api"; "cluster"; "status"], Membership);
  (["metrics"], Exposition)
]%string.

(** The static files: no path that starts with [/api]. *)
Definition static_files (segs : list bytes) : endpoint :=
  Answered (match segs with
            | a :: _ => if starts_with (gs "api") a then Reply 404 (Plain (js "404 page not found" ++ [10%N])) else Asset
            | [] => Asset
            end).

(** [Server.ServeHTTP]: the CORS middleware, then the multiplexer. *)
Definition dashboard_serve (r : http_request) : endpoint :=
  let raw := (cut 63 (req_url r)).1 in
  match segments raw with
  | None => Answered (Reply 400 (Plain (js "400 Bad Request")))
  | Some segs =>
      if bool_decide (req_method r = js "OPTIONS") then Answered (Reply 200 NoBody)
      else if negb (mux_clean raw) then Answered Redirect
      else match List.find (fun p => bool_decide (gs <$> p.1 = segs)) dashboard_routes with
           | Some (_, e) => e
           | None => static_files segs
           end
  end.

(** [Start] and [Stop]: whether the server runs, and whether one was made. *)
Record lifecycle := { sv_running : bool; sv_httpSrv : bool }.

Definition Start (s : lifecycle) : lifecycle := if sv_running s then s else Build_lifecycle true true.

(** The server is shut down when it answers [true]. *)
Definition Stop (s : lifecycle) : lifecycle * bool :=
  if negb (sv_running s) || negb (sv_httpSrv s) then (s, false) else (Build_lifecycle false (sv_httpSrv s), true).

(** ** Theorems *)

(** The requests of the dashboard reach their handlers. *)
Example client_routed :
  dashboard_serve probe_request = Probing /\ dashboard_serve (mk_request (js "/api/stream") (js "GET") [] None) = Streaming.
Proof. by vm_compute. Qed.

(** *** Percentiles *)

Lemma sorted_samples samples :
  StronglySorted Z.le (merge_sort Z.le samples) /\ merge_sort Z.le samples ≡ₚ samples.
Proof. split; [apply (StronglySorted_merge_sort _)|apply merge_sort_Permutation]. Qed.

Lemma sorted_lookup (l : list Z) i j x y :
  StronglySorted Z.le l -> (i <= j)%nat -> l !! i = Some x -> l !! j = Some y -> x <= y.
Proof.
  intros Hs. revert i j. induction Hs as [|a l Hs IH Ha]; intros [|i] [|j] Hij Hi Hj; try done; try lia; simpl in *.
  - by simplify_eq.
  - injection Hi as <-. rewrite Forall_forall in Ha. apply Ha. by eapply list_elem_of_lookup_2.
  - eapply IH; [|done|done]. lia.
Qed.

(** The element at a position of a sorted list: as many are at most it as the
    position says, and the rest are at least it. *)
Lemma sorted_rank (l : list Z) i x : StronglySorted Z.le l -> l !! i = Some x ->
  Forall (fun y => y <= x) (take i l) /\ Forall (fun y => x <= y) (drop i l).
Proof.
  intros Hs Hi. split; apply Forall_lookup; intros j y Hj.
  - apply lookup_take_Some in Hj as [Hj Hij]. eapply (sorted_lookup l j i); [done|lia|done|done].
  - rewrite lookup_drop in Hj. eapply (sorted_lookup l i (i + j)%nat); [done|lia|done|done].
Qed.

(** A rank: [n] of the values are at most [x], the others at least. *)
Definition ranked (values : list Z) (n : nat) (x : Z) : Prop :=
  exists low high, values ≡ₚ low ++ high /\ length low = n /\ Forall (fun y => y <= x) low /\ Forall (fun y => x <= y) high
    /\ x ∈ high.

Lemma ranked_lookup samples i x : merge_sort Z.le samples !! i = Some x -> ranked samples i x.
Proof.
  intros Hi. destruct (sorted_samples samples) as [Hs Hp]. destruct (sorted_rank _ i x Hs Hi) as [Hlow Hhigh].
  exists (take i (merge_sort Z.le samples)), (drop i (merge_sort Z.le samples)).
  rewrite take_drop. split; [done|]. rewrite length_take_le by (apply lookup_lt_Some in Hi; lia).
  split_and!; [done|done|done|]. apply (list_elem_of_lookup_2 _ 0). by rewrite lookup_drop, Nat.add_0_r.
Qed.

Lemma percentiles_ranked samples : length samples = 1000%nat ->
  exists p50 p99, percentiles samples = Some (p50, p99) /\ p50 <= p99
    /\ ranked samples 500 p50 /\ ranked samples 990 p99.
Proof.
  intros Hlen. unfold percentiles. rewrite Hlen. 
  change (Z.to_nat (Z.of_nat 1000 * 50 / 100)) with 500%nat. change (Z.to_nat (Z.of_nat 1000 * 99 / 100)) with 990%nat.
  destruct (sorted_samples samples) as [Hs Hp].
  assert (length (merge_sort Z.le samples) = 1000%nat) as Hlen' by (by rewrite Hp).
  destruct (lookup_lt_is_Some_2 (merge_sort Z.le samples) 500) as [p50 H50]; [lia|].
  destruct (lookup_lt_is_Some_2 (merge_sort Z.le samples) 990) as [p99 H99]; [lia|].
  rewrite H50. cbn [mbind option_bind]. rewrite H99. exists p50, p99. split; [done|].
  split; [by eapply (sorted_lookup _ 500 990); [|lia|..]|]. split; by apply ranked_lookup.
Qed.

Lemma probe_rounds_length n i : ends (fun l => length l = n) (probe_rounds n i).
Proof.
  revert i. induction n as [|n IH]; intros i; [done|]. intros t0 _ _ t1. eapply ends_bind; [apply IH|].
  intros rest Hrest. simpl. by rewrite Hrest.
Qed.

Lemma exec_bind {D} `{Database D} {R S} (w : world D) (m : io R) (f : R -> io S) :
  exec w (io_bind m f) = exec (exec w m).1 (f (exec w m).2).
Proof. revert w. induction m as [r|A o k IH]; intros w; [done|]. cbn [io_bind exec]. destruct (exec_op w o). apply IH. Qed.

(** What precedes the rounds. *)
Definition probe_opens : io unit := let? _ := OpenBucket (gs "metrics_probe") in let? _ := Now in Done tt.

(** The probe reports order statistics: whatever the database and the
    clock, its thousand rounds give a thousand samples, no index is out of range,
    the median shown is the 501st smallest sample and the 99th percentile the
    991st, the first at most the second, and the dashboard reads both and the two
    thousand operations. *)
Theorem probe_percentiles {D} `{Database D} (w : world D) :
  let samples := (exec (exec w probe_opens).1 (probe_rounds 1000 0)).2 in
  length samples = 1000%nat /\
  exists p50 p99, (exec w handleBenchmarkProbe).2 = Some (writeJSON 200 (probe_json p50 p99))
    /\ p50 <= p99 /\ ranked samples 500 p50 /\ ranked samples 990 p99
    /\ DashboardApp.ProbeResult_of (probe_json p50 p99)
       = Some (DashboardApp.Build_ProbeResult (num_of_Z p50) (num_of_Z p99) (num_of_Z 2000)).
Proof.
  intros samples. assert (length samples = 1000%nat) as Hlen by apply (ends_exec _ _ _ (probe_rounds_length 1000 0)).
  split; [done|]. destruct (percentiles_ranked samples Hlen) as (p50 & p99 & Hp & Hle & H50 & H99).
  exists p50, p99. split; [|by split_and!]. rewrite (eq_refl : handleBenchmarkProbe = io_bind probe_opens (fun _ =>
    let* samples := probe_rounds 1000 0 in
    let? _ := Now in Done ((fun p => writeJSON 200 (probe_json p.1 p.2)) <$> percentiles samples))).
  rewrite !exec_bind. fold samples. cbn [exec exec_op]. destruct (perform _ _ Now) as [db t]. cbn [exec snd]. by rewrite Hp.
Qed.

(** *** Telemetry *)

Lemma cluster_fits c : is_Some (ClusterStatus_of (cluster_json c)).
Proof.
  unfold ClusterStatus_of, cluster_json. members. destruct (cs_Peers c) as [peers|]; [|by eexists].
  apply nullable_is_Some, arr_is_Some, Forall_forall. intros. by eexists.
Qed.

(** The sample the dashboard reads. *)
Definition sample_of (g : gathered) (now q : Z) (ps : pubsub_stats) (c : option Types.ClusterStatus) : RealtimeTelemetry := {|
  rt_timestamp := num_of_Z (now / 10 ^ 6); rt_page_count := num_of_Z (st_PageCount (g_stats g));
  allocated_bytes := num_of_Z (int64 (st_PageCount (g_stats g) * 16384));
  rt_cache_hits := num_of_Z (st_CacheHits (g_stats g)); rt_cache_misses := num_of_Z (st_CacheMisses (g_stats g));
  rt_cache_hit_rate := st_CacheHitRate (g_stats g); rt_last_lsn := num_of_Z (st_LastLSN (g_stats g));
  rt_last_txn_id := num_of_Z (st_LastTxnID (g_stats g)); rt_read_only := st_ReadOnly (g_stats g); rt_uptime_seconds := None;
  qps := num_of_Z q; read_iops := None; write_iops := None;
  rt_queue_count := num_of_Z (g_queues g); rt_queue_ready_tasks := num_of_Z (g_ready g);
  rt_queue_inflight_tasks := num_of_Z (g_inflight g); rt_queue_dlq_tasks := num_of_Z (g_dlq g);
  rt_pubsub_events_count := num_of_Z (ps_TotalPublished ps); pubsub_delivered_count := Some (num_of_Z (ps_TotalDelivered ps));
  pubsub_active_topics := Some (num_of_Z (ps_ActiveTopics ps)); pubsub_active_subs := Some (num_of_Z (ps_ActiveSubs ps));
  latency_p50_us := None; latency_p99_us := None; cluster := c |}.

Lemma telemetry_fits g now q ps cl :
  exists c, RealtimeTelemetry_of (telemetry_json g now q ps cl) = Some (sample_of g now q ps c)
    /\ (is_Some c <-> is_Some cl).
Proof.
  destruct cl as [c|]; [|exists None; by split].
  destruct (cluster_fits c) as [x Hx]. exists (Some x). split; [|by split; intros _; eexists].
  change (RealtimeTelemetry_of _) with
    (p ← nullable ClusterStatus_of (cluster_json c); Some (sample_of g now q ps p)).
  change (nullable ClusterStatus_of (cluster_json c)) with (Some <$> ClusterStatus_of (cluster_json c)). by rewrite Hx.
Qed.

(** Signs are kept by rounding. *)
Definition nonneg (x : num) : Prop := match x with S754_zero _ | S754_nan => True | S754_infinity s | S754_finite s _ _ => s = false end.

Lemma round_nonneg m e l : nonneg (binary_round_aux prec emax false m e l).
Proof.
  unfold binary_round_aux. destruct (shr_fexp _ _ _ _ _) as [mrs e']. destruct (shr_fexp _ _ _ _ _) as [mrs'' e''].
  destruct (shr_m mrs'') as [|p|p]; [done| |done]. by destruct (e'' <=? emax - prec).
Qed.

Lemma num_nonneg z : 0 <= z -> nonneg (num_of_Z z).
Proof.
  intros Hz. unfold num_of_Z, binary_normalize. destruct z as [|p|p]; [done| |lia]. unfold binary_round.
  destruct (shl_align _ _ _) as [mz ez]. apply round_nonneg.
Qed.

Lemma div_nonneg x y : nonneg x -> nonneg y -> (forall s, y <> S754_zero s) -> nonneg (ndiv x y).
Proof.
  intros Hx Hy Hz. destruct x as [sx|sx| |sx mx ex], y as [sy|sy| |sy my ey]; simpl in Hx, Hy; subst; try done;
    try (by destruct (Hz sy)). unfold ndiv, SFdiv. destruct (SFdiv_core_binary _ _ _ _ _ _) as [[mz ez] lz]. apply round_nonneg.
Qed.

Lemma to_int64_nonneg x : nonneg x -> 0 <= to_int64 x < 2 ^ 63 \/ to_int64 x = - 2 ^ 63.
Proof.
  destruct x as [s|s| |s m e]; simpl; intros Hx; [by left|by right|by right|]. subst s. cbn [cond_Zopp].
  assert (0 <= truncated m e).
  { unfold truncated. destruct (0 <=? e) eqn:He; [|apply Z.div_pos; [done|]; apply Z.pow_pos_nonneg; lia].
    apply Z.mul_nonneg_nonneg; [done|]. apply Z.pow_nonneg. lia. }
  destruct (_ && _) eqn:E; [|by right]. left. apply andb_true_iff in E as [_ ?%Z.ltb_lt]. lia.
Qed.

Lemma positive_divisor x : num_lt (num_of_Z 0) x = true -> nonneg x /\ forall s, x <> S754_zero s.
Proof. destruct x as [s|[]| |[] m e]; try done; by intros _. Qed.

(** The throughput is never negative, unless it leaves the range of the type. *)
Lemma measure_range last hits misses now :
  let q := (measure last hits misses now).2 in 0 <= q < 2 ^ 63 \/ q = - 2 ^ 63.
Proof.
  unfold measure. cbn [snd]. destruct (_ && _) eqn:E; [|by left]. apply andb_true_iff in E as [Hle%Z.leb_le [Hd Hz]%positive_divisor].
  apply to_int64_nonneg, div_nonneg; [|done|done]. apply num_nonneg. lia.
Qed.

(** A telemetry value, with a throughput in range. *)
Definition telemetry_value (v : val) : Prop :=
  exists g now q ps cl, v = telemetry_json g now q ps cl /\ (0 <= q < 2 ^ 63 \/ q = - 2 ^ 63).

Lemma telemetry_collected {D} `{Database D} (s0 : dashboard D) vs s : collections s0 vs s -> Forall telemetry_value vs.
Proof.
  intros Hc. enough (Forall telemetry_value vs /\ Forall (fun c => match c with Summarizing m => ends telemetry_value m | _ => True end) s.2)
    by tauto.
  induction Hc as [|vs s l s' _ [Hvs Hcs] Hstep]; [by split|].
  destruct Hstep as [s cs|w last cs i A o k Hi|s cs i g Hi r|w last cs i A o k Hi|s cs i v Hi]; simpl in Hcs |- *; rewrite ?app_nil_r.
  - split; [done|]. by apply Forall_app; repeat constructor.
  - split; [done|]. by apply Forall_insert.
  - split; [done|]. apply Forall_insert; [done|]. intros ps cl. exists g, r.2.1, r.2.2, ps, cl. split; [done|].
    subst r. unfold locked. destruct (perform _ _ Now) as [db now].
    pose proof (measure_range (da_last s) (st_CacheHits (g_stats g)) (st_CacheMisses (g_stats g)) now) as Hq.
    by destruct (measure _ _ _ now).
  - rewrite Forall_lookup in Hcs. pose proof (Hcs i _ Hi) as Hm. split; [done|]. rewrite <- Forall_lookup in Hcs.
    apply Forall_insert; [done|]. apply Hm.
  - rewrite Forall_lookup in Hcs. pose proof (Hcs i _ Hi) as Hm. rewrite <- Forall_lookup in Hcs.
    split; [by apply Forall_app; repeat constructor|]. by apply Forall_delete.
Qed.

(** *** The stream *)

Lemma frames_read acc ts : Forall (fun t => 10%N ∉ t) ts ->
  (foldl event_line (acc, None) (split_on (N.eqb 10) (mjoin (frame <$> ts)))).1 = acc ++ ts.
Proof.
  intros Hts. revert acc. induction Hts as [|t ts Ht _ IH]; intros acc; [by rewrite app_nil_r|].
  rewrite fmap_cons. change (mjoin (?x :: ?l)) with (x ++ mjoin l). unfold frame.
  rewrite <- !app_assoc. change ([10%N; 10%N] ++ ?r) with (10%N :: 10%N :: r). rewrite app_assoc, split_on_app; [| |done].
  - change (split_on (N.eqb 10) (10%N :: ?r)) with ([] :: split_on (N.eqb 10) r). cbn [foldl].
    change (event_line (acc, None) (js "data: " ++ t)) with (acc, Some t).
    change (event_line (acc, Some t) []) with (acc ++ [t], @None jstr). rewrite IH. by rewrite <- app_assoc.
  - apply Forall_app. split; [by repeat constructor|]. apply Forall_forall. intros c Hc. apply N.eqb_neq. congruence.
Qed.

Lemma marshaled_lines v t : marshaled v t -> 10%N ∉ t.
Proof. unfold marshaled. destruct (encodable v); [by intros (_ & ? & _)|intros ->; apply not_elem_of_nil]. Qed.

Lemma marshaled_fits v t : telemetry_value v -> marshaled v t -> DashboardApp.telemetry_text t.
Proof.
  intros (g & now & q & ps & cl & -> & _) Hm x Hx. unfold marshaled in Hm. destruct (encodable _); [|by subst t].
  destruct Hm as [Ht _]. rewrite Ht in Hx. injection Hx as <-. destruct (telemetry_fits g now q ps cl) as (c & -> & _). by eexists.
Qed.

(** The sample a message carries: the figures that were collected. *)
Definition sampled (v : val) (t : jstr) : Prop :=
  encodable v = true ->
  exists g now q ps cl c, v = telemetry_json g now q ps cl /\ (0 <= q < 2 ^ 63 \/ q = - 2 ^ 63)
    /\ parse t ≫= RealtimeTelemetry_of = Some (sample_of g now q ps c) /\ (is_Some c <-> is_Some cl).

Lemma marshaled_sample v t : telemetry_value v -> marshaled v t -> sampled v t.
Proof.
  intros (g & now & q & ps & cl & -> & Hq) Hm He. unfold marshaled in Hm. rewrite He in Hm. destruct Hm as [-> _].
  destruct (telemetry_fits g now q ps cl) as (c & Hc & Hcl). exists g, now, q, ps, cl, c. by split_and!.
Qed.

Lemma streamed_collected (P : val -> Prop) mine : Forall P mine -> Forall P (handleStream mine).
Proof.
  assert (forall vs, Forall P vs -> Forall P (ticks vs)) as Ht.
  { induction 1 as [|v vs Hv _ IH]; simpl; [constructor|]. destruct (encodable v); by constructor. }
  destruct 1; constructor; auto.
Qed.

Section Stream.
Context `{Engine} `{Locale} (origin host : jstr) {D : Type} `{Database D}.

(** C34: the stream of the server is one the dashboard can read: however many
    clients collect telemetry at once and however the database answers, the
    browser takes from the frames sent to a client exactly the texts that were
    written for the telemetry it collected, and each is a step of the dashboard,
    which takes as its sample the telemetry that was collected. Its throughput is
    not negative, with one exception: a rate outside the range of 64 bits is the
    least integer, as the conversion of [measure] gives on x86-64. *)
Theorem stream_fits (s0 : dashboard D) vs s mine ts :
  collections s0 vs s -> Forall (fun v => v ∈ vs) mine -> Forall2 marshaled (handleStream mine) ts ->
  events (mjoin (frame <$> ts)) = ts
  /\ Forall (fun t => forall (u : DashboardApp.world origin host) i, i ∈ DashboardApp.opened (sse u) ->
       exists u', DashboardApp.step origin host u (DashboardApp.received origin host u t) u') ts
  /\ Forall2 sampled (handleStream mine) ts.
Proof.
  intros Hc Hin%streamed_collected. revert Hin. generalize (handleStream mine) as sent. intros sent Hin Hm. pose proof (telemetry_collected s0 vs s Hc) as Hvs. rewrite Forall_forall in Hvs.
  assert (Forall telemetry_value sent) as Hsent by (eapply Forall_impl; [exact Hin|exact Hvs]).
  split; [|split].
  - apply frames_read. eapply Forall2_Forall_r; [exact Hm|]. apply Forall_true. intros v t. apply marshaled_lines.
  - eapply Forall2_Forall_r; [exact Hm|]. eapply Forall_impl; [exact Hsent|]. intros v Hv t Ht u i Hi. eexists.
    eapply DashboardApp.step_message; [exact Hi|]. by eapply marshaled_fits.
  - clear Hin. induction Hm as [|v t sent ts Hv _ IH]; [constructor|]. apply Forall_cons in Hsent as [Ht Hsent].
    constructor; [by apply marshaled_sample|by apply IH].
Qed.
End Stream.

(** [collectTelemetry] on its own is one of the interleavings. *)
Section Alone.
Context {D : Type} `{Database D}.

Lemma runs_alone (s0 : dashboard D) {R} (c : io R -> collector) vs w last m :
  (forall w last A (o : op A) k,
    collects (mk_dashboard w last, [c (Ask o k)]) [] (mk_dashboard (exec_op w o).1 last, [c (k (exec_op w o).2)])) ->
  collections s0 vs (mk_dashboard w last, [c m]) ->
  collections s0 vs (mk_dashboard (exec w m).1 last, [c (Done (exec w m).2)]).
Proof.
  intros Hc. revert w. induction m as [r|A o k IH]; intros w Hm; [done|]. cbn [exec].
  pose proof (collections_step _ _ _ _ _ Hm (Hc w last A o k)) as Hs. rewrite app_nil_r in Hs.
  destruct (exec_op w o) as [w' a]. by apply IH.
Qed.

Lemma collects_alone (s0 : dashboard D) : collections s0 [(collectTelemetry s0).2] ((collectTelemetry s0).1, []).
Proof.
  destruct s0 as [w0 last0] eqn:E0. rewrite <- E0.
  assert (collections s0 [] (mk_dashboard w0 last0, [Gathering gather])) as H0.
  { rewrite <- E0. exact (collections_step s0 [] _ [] _ (collections_start s0) (collect_arrive s0 [])). }
  apply (runs_alone _ Gathering) in H0; [|intros w last A o k; exact (collect_gather w last [Gathering (Ask o k)] 0 A o k eq_refl)].
  subst s0. unfold collectTelemetry. cbn [da_world da_last]. destruct (exec w0 gather) as [w1 g]. cbn [fst snd] in H0.
  pose proof (collections_step _ _ _ _ _ H0 (collect_lock _ [Gathering (Done g)] 0 g eq_refl)) as H1. cbv zeta in H1.
  destruct (locked (mk_dashboard w1 last0) g) as [[w2 last2] [now q]]. cbn [fst snd app] in H1.
  apply (runs_alone _ Summarizing) in H1; [|intros w last A o k; exact (collect_summarize w last [Summarizing (Ask o k)] 0 A o k eq_refl)].
  cbn [da_world da_last]. destruct (exec w2 (summarize g now q)) as [w3 v]. cbn [fst snd] in H1.
  exact (collections_step _ _ _ _ _ H1 (collect_done _ [Summarizing (Done v)] 0 v eq_refl)).
Qed.
End Alone.

Module Examples.

#[local] Existing Instance plain_engine.
#[local] Existing Instance plain_locale.
#[local] Existing Instance Shelf.shelf_database.

Definition fresh : dashboard Shelf.shelf := mk_dashboard Shelf.empty (Build_throughput 0 0 1699999999000000000).

Definition message : val := (collectTelemetry fresh).2.

(** One message of a fresh server. *)
Lemma stream_fits_witness :
  events (frame (stringify message)) = [stringify message] /\ sampled message (stringify message)
  /\ qps <$> (parse (stringify message) ≫= RealtimeTelemetry_of) = Some (num_of_Z 4).
Proof.
  destruct (stream_fits [] [] fresh [message] _ [message] [stringify message] (collects_alone fresh)) as (He & _ & Hs).
  - constructor; [by left|constructor].
  - constructor; [|constructor]. assert (encodable message = true) as Henc by (vm_compute; reflexivity).
    unfold marshaled. rewrite Henc. split_and!; [vm_compute; reflexivity|..]; apply (bool_decide_unpack _); vm_compute; exact I.
  - split; [exact He|]. split; [by apply Forall2_cons in Hs as [Hs _]|vm_compute; reflexivity].
Defined.

End Examples.
